(* ===== verification/_CoqProject ===== *)
-Q . S2P
Prelude.v
JsCore.v
JsString.v
Dom.v
Multimaps.v
Observers.v
Tokens.v
ValueList.v
ValueStack.v
Scopes.v
Names.v
Router.v
Lifecycle.v
App.v
Targets.v
EventLoop.v
Json.v
JsonText.v
Numbers.v
StringMap.v
Values.v
Inherit.v
Blessings.v
Regex.v
Actions.v
Dispatcher.v
Events.v
Bindings.v
Contexts.v
Failures.v
Wiring.v
Page.v
Base.v
Forms.v
Tables.v
Submit.v
Sessions.v
NodePage.v
Classes.v
Boot.v
Rendering.v
Renderer.v
Async.v
Document.v
Site.v
Client.v
