(* ===== verification/Prelude.v ===== *)
(** Verification of the browser client of Peerster.

* What is verified

The client is a page, [src/gui/web/node.html], with three programs under
[src/gui/web/assets/scripts/]: the framework [stimulus.js], which binds
controllers to the elements of the page; the page's controllers, [main.js],
which talk to a node over HTTP; and [viz.js], the front end of the graph
renderer.  The page declares in its attributes which controllers
([data-controller]), targets ([data-…-target]) and actions ([data-action]) it
has.  The framework observes the document with [MutationObserver]s, keeps one
context per element and controller, finds the targets, and dispatches events to
the methods of the controllers; the controllers validate forms, send requests
and show the answers.

* The files, and the code they model

The language and the browser:
- [Prelude], [JsCore], [JsString]: lemmas and tactics; [Map], [Set], arrays and
  the methods of strings.
- [Dom]: the document, as the class [Dom] with the laws [DomLaws], and the
  concrete documents [PageDom].
- [Json], [JsonText], [Numbers]: the values, [JSON.stringify] and a reader of
  its texts; numbers and their texts.
- [Regex]: regular expressions, matched by backtracking.
- [EventLoop]: handlers with exceptions, [await] and shared state, as a monad
  over the commands of an event loop, and a logic of what holds between turns.

The framework, [stimulus.js], bottom up:
- [Multimaps]: [Multimap], [IndexedMultimap].
- [Observers]: [ElementObserver], [AttributeObserver]; [Tokens]:
  [TokenListObserver]; [ValueList]: [ValueListObserver]; [ValueStack]: the four
  as one stack, in step with the document.
- [Scopes]: [ScopeObserver]; [Router]: [Module] and [Router]; [Lifecycle]: what
  contexts are told; [App]: [Application] and its observers.
- [Names], [Targets]: names of attributes, [DataMap], [ClassMap], [TargetSet],
  [Guide], the queries of [Scope].
- [Actions], [Dispatcher], [Bindings]: action descriptors and [Action];
  [Binding], [EventListener], [Dispatcher]; [BindingObserver].
- [Events]: an event on its way through the registered listeners.
- [StringMap], [Values]: [StringMapObserver]; value properties and
  [ValueObserver].
- [Contexts]: [Context], over its two observers, with exceptions, and a record of
  what a controller is told and the application is reported; [Failures]: the
  router over contexts that throw.
- [Wiring]: the application, the dispatcher and the observers of all contexts,
  composed.
- [Inherit]: the generated helpers for inheritance and for spreading arrays, what
  [extend] makes in each browser and how its instances are constructed, on a heap
  of objects; the class helpers of [viz.js].
- [Blessings]: blessed classes on a heap of classes.
- [Async]: [__generator], [__awaiter], promises, [domReady], [Application.start].

The page, [main.js] and [node.html]:
- [Page], [Base], [Forms], [Tables]: the state that the controllers share and
  their handlers, one definition per method.
- [Submit]: what each form does; [Sessions]: what holds throughout a session;
  [NodePage]: the page's own elements, to evaluate the theorems.
- [Classes], [Boot]: the controller classes, blessed; [main] and the panels.

The client as a whole:
- [Document]: [node.html] as the browser builds it.
- [Site]: the framework of [Wiring], started by [main] on that document, whose
  controllers are instances of the classes of [Classes]; what their methods do
  is a parameter ([Runtime]).
- [Client]: that parameter is the handlers of [Base], [Forms] and [Tables], run
  by the loop of [EventLoop]; the runs of the client, and its targets.

The renderer's front end, [viz.js]: [Rendering] (the requests, the worker's
promises, images) and [Renderer] (the entry points over a worker, and images that
load later or never).

* How the state corresponds

Objects that the program shares are identified as it identifies them: elements,
scopes, tokens, bindings, contexts and modules by identity (a number), classes
and modules in heaps, the caller's arrays in a store.  An observer threads the
state of its delegate; a delegate is a record of the operations that the
observer calls, and a class or record of laws states what it promises ([TokenLaws], [ValueLaws],
[ScopeLaws], [BindingLaws], [Router.Stable]), so that each layer is proved
against the interface of the one above.  The browser's lists (registered
listeners, pending records, timers, promises and jobs) are part of the state.
A handler's run is a sequence of turns; a session is an inductive relation whose
steps are what the page's user, the node, the browser and the document do, in
any order.

* What the theorems show

- The page is wired as its document says: [page_wired] is the specification of
  the whole framework, over [connected_contexts], [context_bindings],
  [context_in_step], [dispatcher_serves], [lifecycle_protocol].
- The client works: [site_session] refines every run of the page to a session of
  the framework and one of the handlers, so that the theorems on both hold of
  it; [page_events] says which handler an event runs and [page_targets_found]
  which elements the handlers find.
- Starting: [application_starts], [generator_runs_parts], [main_connects],
  [extended_alike], [bless_lookup], [ancestors_terminate].
- Events and targets: [event_delivery], [actions_in_order],
  [descriptor_roundtrip], [action_complete], [targets_membership],
  [warnings_once].
- Values: [value_typed], [value_roundtrip], [values_told]; exceptions:
  [context_errors], [failures_contained].
- The controllers: [send_submits], [forms_submit], [readers_submit],
  [resolve_sends_invalid], [percent_bounds], [panels_toggle], and over sessions
  [tables_atomic], [rejections_handled], [flashes_expire], [requests_to_node].
- Rendering: [entry_points_settled], [rendering_requests], [data_url_roundtrip].
- Containers: [multimap_refines_pairs].

Each theorem with hypotheses is applied to a concrete page or input in the lemma
named after it with [_witness].

* Fuel and bounds

[Generator.loop] has a unit of fuel per round; three suffice for a step of a
function without [try] ([step_plain]), and one job for the start of the
application.  [ancestors_loop] has a unit per class; the number of the class
plus one suffices, since prototypes are older ([ancestors_terminate]).
[JsonText.value] and [Numbers.strip] have a unit per character or digit.  All
other recursion is structural.  The counters of identities are unbounded, as
objects are.

* Not modelled

- The node ([src/peer], [src/transport], [src/registry], [src/storage],
  [src/types], [src/gui], [src/internal]), which is another program, in Go; the
  client only sees its responses, which the theorems leave arbitrary.
- [viz.lite.render.js], a compiled, minified program, and how the browser and
  Fabric draw images: their answers and reports are steps of [Renderer].
- Output to the console, and the accessors that only pass a part of the
  application on, which are fields or parameters here.
- Code units of strings from 256, the rounding of decimals of more than fifteen
  digits, and the rounding errors of the upload's percentage.
- In [App] and [Wiring] the document does not change while a batch of records is
  processed and the controllers do not throw out of their contexts; [Contexts]
  has both for one context, and [Failures] has the exceptions up to the router.
  What an exception cuts off in the observers above the router is not modelled.
- In [Site] and [Client] the attributes of the framework do not change while the
  page is used: what the handlers add to the page has none, unless the node
  sends markup with such attributes.  The dispatch of an event is the browser's,
  and is modelled for methods that change no listener.

* What could follow

The exceptions of contexts in the observers above the router; a document that the
controllers change while the router connects them. *)

From stdpp Require Export base tactics decidable list list_numbers numbers option strings gmap.

Declare Scope js_scope.
Delimit Scope js_scope with js.

Create HintDb js discriminated.
Create Rewrite HintDb js.

(** [case_bool] splits on every boolean or decidable test of the goal and
    closes what the new equations contradict. *)
Ltac case_tests :=
  repeat (case_decide || case_match); simplify_eq/=; try done.

(** [no_elem H] closes a goal whose hypothesis [H] is a membership in [[]] or
    in a singleton that it cannot be. *)
Ltac no_elem H :=
  first [ by apply not_elem_of_nil in H
        | apply list_elem_of_singleton in H; subst; done
        | apply list_elem_of_singleton in H; discriminate H ].

(** ** Lists *)

Section lists.
Context {A : Type} `{EqDecision A}.
Implicit Types (l k : list A) (x y : A).

Lemma filter_ne_notin x l : x ∉ l → filter (λ y, y ≠ x) l = l.
Proof.
  induction l as [|y l IH]; intros Hx; [done|].
  rewrite not_elem_of_cons in Hx; destruct Hx as [Hy Hx].
  rewrite filter_cons_True by congruence. by rewrite IH.
Qed.

Lemma NoDup_filter_ne x l : NoDup l → NoDup (filter (λ y, y ≠ x) l).
Proof. apply NoDup_filter. Qed.

Lemma elem_of_filter_ne x y l : y ∈ filter (λ z, z ≠ x) l ↔ y ≠ x ∧ y ∈ l.
Proof. by rewrite list_elem_of_filter. Qed.

Lemma remove_dups_in x l : x ∈ l → remove_dups (x :: l) = remove_dups l.
Proof. intros Hx. simpl. by destruct (decide_rel _ x l). Qed.

Lemma remove_dups_notin x l : x ∉ l → remove_dups (x :: l) = x :: remove_dups l.
Proof. intros Hx. simpl. by destruct (decide_rel _ x l). Qed.
End lists.

(** Lists that a function makes equal, or does not repeat. *)
Lemma fmap_eq_at {A B} (f g : A → B) (l : list A) x : f <$> l = g <$> l → x ∈ l → f x = g x.
Proof.
  intros Heq [i Hi]%list_elem_of_lookup. apply (f_equal (.!! i)) in Heq.
  rewrite !list_lookup_fmap, Hi in Heq. by injection Heq.
Qed.

Lemma fmap_inj_at {A B} (f : A → B) (l : list A) x y :
  NoDup (f <$> l) → x ∈ l → y ∈ l → f x = f y → x = y.
Proof.
  intros Hn [i Hi]%list_elem_of_lookup [j Hj]%list_elem_of_lookup Heq.
  assert (i = j) as ->; [|congruence].
  apply (NoDup_lookup _ i j (f x) Hn); rewrite list_lookup_fmap; [by rewrite Hi|by rewrite Hj, Heq].
Qed.
