(* ===== verification/JsCore.v ===== *)
(** The parts of the JavaScript language that the program uses: the
    insertion-ordered [Map] and [Set], and the string methods. *)

From S2P Require Import Prelude.

(** ** [Set]: elements in insertion order, each at most once *)

Module JSet.
Section jset.
Context {A : Type} `{EqDecision A}.
Implicit Types (s : list A) (x y : A).

Definition has (x : A) (s : list A) : bool := bool_decide (x ∈ s).
Definition add (x : A) (s : list A) : list A :=
  if has x s then s else s ++ [x].
Definition delete (x : A) (s : list A) : list A := filter (λ y, y ≠ x) s.

(** [new Set(array)] *)
Definition of_list (l : list A) : list A := foldl (λ s x, add x s) [] l.

Lemma has_true x s : has x s = true ↔ x ∈ s.
Proof. apply bool_decide_eq_true. Qed.

Lemma has_false x s : has x s = false ↔ x ∉ s.
Proof. apply bool_decide_eq_false. Qed.

Lemma elem_of_add x y s : y ∈ add x s ↔ y = x ∨ y ∈ s.
Proof.
  unfold add, has. case_bool_decide.
  { split; [tauto|]. by intros [->|]. }
  rewrite elem_of_app, list_elem_of_singleton. tauto.
Qed.

Lemma elem_of_delete x y s : y ∈ delete x s ↔ y ≠ x ∧ y ∈ s.
Proof. unfold delete. by rewrite list_elem_of_filter. Qed.

Lemma NoDup_add x s : NoDup s → NoDup (add x s).
Proof.
  intros Hs. unfold add, has. case_bool_decide; [done|].
  apply NoDup_app; split_and!; [done| |apply NoDup_singleton].
  intros y Hy ->%list_elem_of_singleton. done.
Qed.

Lemma NoDup_delete x s : NoDup s → NoDup (delete x s).
Proof. apply NoDup_filter. Qed.

Lemma add_nonempty x s : add x s ≠ [].
Proof. unfold add, has. case_bool_decide; destruct s; set_solver. Qed.

Lemma add_absent x s : x ∉ s → add x s = s ++ [x].
Proof. intros Hx. unfold add. by rewrite (proj2 (has_false x s) Hx). Qed.

Lemma add_present x s : x ∈ s → add x s = s.
Proof. intros Hx. unfold add. by rewrite (proj2 (has_true x s) Hx). Qed.

Lemma delete_absent x s : x ∉ s → delete x s = s.
Proof. apply filter_ne_notin. Qed.

Lemma elem_of_of_list x (l : list A) : x ∈ of_list l ↔ x ∈ l.
Proof.
  unfold of_list. assert (∀ s, x ∈ foldl (λ s x, add x s) s l ↔ x ∈ s ∨ x ∈ l) as ->; [|set_solver].
  induction l as [|y l IH]; intros s; simpl; [set_solver|].
  rewrite IH, elem_of_add. set_solver.
Qed.

Lemma of_list_snoc (l : list A) y : of_list (l ++ [y]) = add y (of_list l).
Proof. unfold of_list. by rewrite foldl_app. Qed.

Lemma foldl_add s (l : list A) :
  foldl (λ s x, add x s) s l = s ++ filter (λ x, x ∉ s) (of_list l).
Proof.
  induction l as [|y l IH] using rev_ind; [by rewrite app_nil_r|].
  rewrite foldl_app, of_list_snoc. simpl. rewrite IH.
  destruct (decide (y ∈ of_list l)) as [Hy|Hy].
  - rewrite (add_present y (of_list l)) by done. apply add_present. rewrite elem_of_app, list_elem_of_filter.
    destruct (decide (y ∈ s)); auto.
  - rewrite (add_absent y (of_list l)), filter_app, filter_cons by done. destruct (decide (y ∉ s)) as [Hs|Hs].
    + rewrite add_absent by (rewrite elem_of_app, list_elem_of_filter; tauto). by rewrite <-app_assoc.
    + rewrite add_present by (rewrite elem_of_app; left; by apply dec_stable). by rewrite app_nil_r.
Qed.

Lemma of_list_cons x (l : list A) : of_list (x :: l) = x :: delete x (of_list l).
Proof.
  unfold of_list at 1. simpl. rewrite foldl_add. unfold add, has. rewrite bool_decide_eq_false_2 by apply not_elem_of_nil.
  simpl. f_equal. unfold delete. apply list_filter_iff. intros y. by rewrite list_elem_of_singleton.
Qed.

Lemma NoDup_of_list (l : list A) : NoDup (of_list l).
Proof.
  unfold of_list. generalize (NoDup_nil_2 (A:=A)). generalize (@nil A).
  induction l as [|y l IH]; intros s Hs; simpl; [done|]. by apply IH, NoDup_add.
Qed.
End jset.
End JSet.

(** ** [Map]: key/value pairs in the order of first insertion

[set] on a present key keeps the key's position; [set] on an absent key
and [delete] followed by [set] put it at the end. *)

Module JMap.
Section jmap.
Context {K V : Type} `{EqDecision K}.
Implicit Types (m : list (K * V)) (k : K) (v : V).

Fixpoint get (k : K) (m : list (K * V)) : option V :=
  match m with
  | [] => None
  | (k', v) :: m => if decide (k = k') then Some v else get k m
  end.

Definition has (k : K) (m : list (K * V)) : bool := bool_decide (is_Some (get k m)).

Fixpoint set (k : K) (v : V) (m : list (K * V)) : list (K * V) :=
  match m with
  | [] => [(k, v)]
  | (k', v') :: m => if decide (k = k') then (k', v) :: m else (k', v') :: set k v m
  end.

Definition delete (k : K) (m : list (K * V)) : list (K * V) :=
  filter (λ kv, kv.1 ≠ k) m.

Definition keys (m : list (K * V)) : list K := m.*1.
Definition values (m : list (K * V)) : list V := m.*2.

(** A [Map] never holds a key twice. *)
Definition wf (m : list (K * V)) : Prop := NoDup (keys m).

Lemma get_set_eq k v m : get k (set k v m) = Some v.
Proof.
  induction m as [|[k' v'] m IH]; simpl; [by rewrite decide_True|].
  case_decide; subst; simpl; [by rewrite decide_True|]. by rewrite decide_False.
Qed.

Lemma get_set_ne k k' v m : k ≠ k' → get k' (set k v m) = get k' m.
Proof.
  intros Hk. induction m as [|[k0 v0] m IH]; simpl; [by case_decide|].
  case_decide; subst; simpl; [by case_decide|]. by rewrite IH.
Qed.

Lemma get_set k k' v m : get k' (set k v m) = if decide (k = k') then Some v else get k' m.
Proof. case_decide; subst; [apply get_set_eq|by apply get_set_ne]. Qed.

Lemma get_delete_eq k m : get k (delete k m) = None.
Proof.
  induction m as [|[k0 v0] m IH]; [done|]. unfold delete in *. rewrite filter_cons.
  case_decide; simpl in *; [|done]. by rewrite decide_False.
Qed.

Lemma get_delete_ne k k' m : k ≠ k' → get k' (delete k m) = get k' m.
Proof.
  intros Hk. induction m as [|[k0 v0] m IH]; [done|]. unfold delete in *. rewrite filter_cons.
  simpl. case_decide as H0; simpl in *; [by rewrite IH|].
  destruct (decide (k0 = k)); [subst|done]. by rewrite decide_False.
Qed.

Lemma get_delete k k' m :
  get k' (delete k m) = if decide (k = k') then None else get k' m.
Proof. case_decide; subst; [apply get_delete_eq|by apply get_delete_ne]. Qed.

Lemma get_None k m : get k m = None ↔ k ∉ keys m.
Proof.
  induction m as [|[k0 v0] m IH]; simpl; [set_solver|].
  rewrite not_elem_of_cons. case_decide; subst; [|tauto].
  split; [done|]. by intros [].
Qed.

Lemma get_is_Some k m : is_Some (get k m) ↔ k ∈ keys m.
Proof.
  rewrite <-not_eq_None_Some, get_None.
  split; [apply dec_stable|]; tauto.
Qed.

Lemma map_has_true k m : has k m = true ↔ k ∈ keys m.
Proof. unfold has. by rewrite bool_decide_eq_true, get_is_Some. Qed.

Lemma get_Some_elem k v m : get k m = Some v → (k, v) ∈ m.
Proof.
  induction m as [|[k0 v0] m IH]; simpl; [done|].
  case_decide; intros; simplify_eq; set_solver.
Qed.

Lemma elem_get_Some k v m : wf m → (k, v) ∈ m → get k m = Some v.
Proof.
  unfold wf, keys. induction m as [|[k0 v0] m IH]; simpl; [set_solver|].
  rewrite NoDup_cons, elem_of_cons. intros [Hk0 Hm] [?|Hin]; simplify_eq.
  - by rewrite decide_True.
  - rewrite decide_False; [by apply IH|]. intros ->.
    apply Hk0. apply list_elem_of_fmap. by exists (k0, v).
Qed.

Lemma keys_set k v m : keys (set k v m) = JSet.add k (keys m).
Proof.
  induction m as [|[k0 v0] m IH]; simpl; [done|].
  destruct (decide (k = k0)) as [->|Hk]; simpl.
  - by rewrite JSet.add_present by (by left).
  - rewrite IH. unfold JSet.add, JSet.has.
    rewrite (bool_decide_ext (k ∈ k0 :: keys m) (k ∈ keys m)) by set_solver.
    by case_bool_decide.
Qed.

Lemma keys_delete k m : keys (delete k m) = JSet.delete k (keys m).
Proof.
  unfold delete, JSet.delete, keys. induction m as [|[k0 v0] m IH]; simpl; [done|].
  rewrite !filter_cons; simpl. destruct (decide (k0 = k)) as [->|Hk0].
  - by rewrite !decide_False by auto.
  - rewrite !decide_True by done. simpl. f_equal. exact IH.
Qed.

Lemma map_wf_nil : wf [].
Proof. constructor. Qed.

Lemma wf_set k v m : wf m → wf (set k v m).
Proof. unfold wf. rewrite keys_set. apply JSet.NoDup_add. Qed.

Lemma wf_delete k m : wf m → wf (delete k m).
Proof. unfold wf. rewrite keys_delete. apply JSet.NoDup_delete. Qed.

Lemma set_get k v m : get k m = Some v → set k v m = m.
Proof.
  induction m as [|[k0 v0] m IH]; simpl; [done|].
  case_decide; intros; simplify_eq; [done|]. by rewrite IH.
Qed.

Lemma set_set k v w m : set k v (set k w m) = set k v m.
Proof.
  induction m as [|[k0 v0] m IH]; simpl; case_decide; simplify_eq/=; try done.
  - by rewrite decide_True.
  - rewrite decide_False by done. by rewrite IH.
Qed.

Lemma delete_set_absent k v m : get k m = None → delete k (set k v m) = m.
Proof.
  intros Hk. unfold delete. induction m as [|[k0 v0] m IH]; simpl in *.
  - rewrite filter_cons; simpl. by rewrite decide_False by naive_solver.
  - case_decide; [done|]. rewrite filter_cons; simpl.
    rewrite decide_True by done. by rewrite IH.
Qed.

Lemma map_delete_absent k m : get k m = None → delete k m = m.
Proof.
  intros Hk. unfold delete. induction m as [|[k0 v0] m IH]; simpl in *; [done|].
  case_decide; [done|]. rewrite filter_cons; simpl.
  rewrite decide_True by done. by rewrite IH.
Qed.

Lemma set_absent k v m : get k m = None → set k v m = m ++ [(k, v)].
Proof.
  induction m as [|[k0 v0] m IH]; simpl; [done|]. case_decide; [done|]. intros ?. by rewrite IH.
Qed.

Lemma delete_perm k v m : wf m → get k m = Some v → m ≡ₚ (k, v) :: delete k m.
Proof.
  unfold wf, keys. induction m as [|[k0 v0] m IH]; simpl; [done|]. intros [Hk0 Hn]%NoDup_cons Hg.
  unfold delete. rewrite filter_cons. simpl. case_decide as Hk.
  - subst k0. injection Hg as ->. rewrite decide_False by tauto. fold (delete k m). rewrite map_delete_absent; [done|].
    by apply get_None.
  - rewrite decide_True by congruence. fold (delete k m). rewrite (IH Hn Hg) at 1. constructor.
Qed.
End jmap.
End JMap.

#[export] Hint Rewrite @JMap.get_set_eq @JMap.get_delete_eq : js.
#[export] Hint Resolve JMap.map_wf_nil JMap.wf_set JMap.wf_delete JSet.NoDup_add JSet.NoDup_delete : js.

(** ** [Array.prototype.sort]

    The sort is stable; [before x y] says that the comparison puts [x]
    strictly before [y]. *)
Module JArray.
Section sort.
Context {A : Type} (before : A → A → bool).

Fixpoint insert (x : A) (l : list A) : list A :=
  match l with
  | [] => [x]
  | y :: l' => if before x y then x :: l else y :: insert x l'
  end.

Definition sort (l : list A) : list A := foldl (λ s x, insert x s) [] l.

Lemma insert_perm x l : insert x l ≡ₚ x :: l.
Proof.
  induction l as [|y l IH]; simpl; [done|]. destruct (before x y); [done|]. rewrite IH. by constructor.
Qed.

Lemma sort_perm l : sort l ≡ₚ l.
Proof.
  unfold sort. assert (∀ s, foldl (λ s x, insert x s) s l ≡ₚ s ++ l) as Hall; [|apply Hall].
  induction l as [|x l IH]; intros s; simpl; [by rewrite app_nil_r|].
  rewrite IH, insert_perm. simpl. by rewrite Permutation_middle.
Qed.

Lemma elem_of_sort x l : x ∈ sort l ↔ x ∈ l.
Proof. by rewrite sort_perm. Qed.

(** In ascending order: nothing comes strictly before what precedes it. *)
Definition ascending (l : list A) : Prop := ∀ i j x y, i < j → l !! i = Some x → l !! j = Some y → before y x = false.

Lemma ascending_cons x l : ascending (x :: l) ↔ (∀ y, y ∈ l → before y x = false) ∧ ascending l.
Proof.
  unfold ascending. split.
  - intros Ha. split.
    + intros y [j Hj]%list_elem_of_lookup. apply (Ha 0 (S j)); [lia|done..].
    + intros i j x' y Hij Hi Hj. apply (Ha (S i) (S j)); [lia|done..].
  - intros [Hx Ha] [|i] [|j] x' y Hij Hi Hj; simplify_eq/=; try lia.
    + eapply Hx, list_elem_of_lookup_2. done.
    + apply (Ha i j); [lia|done..].
Qed.

End sort.

(** Sorting by a number keeps the order of the elements with the same one. *)
Section by_number.
Context {A : Type} (f : A → nat).

Definition below (x y : A) : bool := bool_decide (f x < f y).

Lemma insert_by_ascending x l : ascending below l → ascending below (insert below x l).
Proof.
  induction l as [|y l IH]; simpl; intros Ha.
  { apply ascending_cons. split; [by intros y ?%not_elem_of_nil|done]. }
  pose proof Ha as [Hy Hl]%ascending_cons. destruct (below x y) eqn:Hxy; apply ascending_cons.
  - split; [|done]. apply bool_decide_eq_true in Hxy. intros z Hz. apply bool_decide_eq_false.
    apply elem_of_cons in Hz as [->|Hz]; [lia|]. apply Hy, bool_decide_eq_false in Hz. lia.
  - split; [|auto]. intros z. rewrite insert_perm, elem_of_cons. intros [->|?]; auto.
Qed.

Lemma insert_stable n x l :
  ascending below l →
  filter (λ y, f y = n) (insert below x l) = filter (λ y, f y = n) l ++ filter (λ y, f y = n) [x].
Proof.
  induction l as [|y l IH]; simpl; intros Ha; [done|].
  pose proof Ha as [Hy Hl]%ascending_cons. destruct (below x y) eqn:Hxy.
  - apply bool_decide_eq_true in Hxy. rewrite (filter_cons _ x []), (filter_cons _ x (y :: l)).
    case_decide as Hx; [|by rewrite app_nil_r].
    assert (filter (λ y, f y = n) (y :: l) = []) as ->; [|done].
    destruct (filter _ (y :: l)) as [|z l'] eqn:Hf; [done|]. exfalso.
    assert (z ∈ filter (λ y, f y = n) (y :: l)) as [Hn Hz]%list_elem_of_filter by (rewrite Hf; by left).
    apply elem_of_cons in Hz as [->|Hz]; [lia|]. apply Hy, bool_decide_eq_false in Hz. lia.
  - rewrite !(filter_cons _ y). case_decide; [|by apply IH]. rewrite IH by done. done.
Qed.

Lemma sort_by_spec l :
  ascending below (sort below l) ∧
  ∀ n, filter (λ y, f y = n) (sort below l) = filter (λ y, f y = n) l.
Proof.
  unfold sort. assert (∀ s, ascending below s →
    let s' := foldl (λ s x, insert below x s) s l in
    ascending below s' ∧ ∀ n, filter (λ y, f y = n) s' = filter (λ y, f y = n) s ++ filter (λ y, f y = n) l) as Hall.
  { induction l as [|x l IH]; intros s Hs; simpl.
    - split; [done|]. intros n. by rewrite app_nil_r.
    - destruct (IH (insert below x s)) as [Ha Hf]; [by apply insert_by_ascending|]. split; [done|].
      intros n. rewrite Hf, insert_stable by done. rewrite <-app_assoc.
      by rewrite <-(filter_app _ [x] l). }
  destruct (Hall []) as [Ha Hf]; [|by split]. intros i j x y _ ?. done.
Qed.
End by_number.
End JArray.
