(* ===== verification/JsString.v ===== *)
(** The string methods of JavaScript that the program uses.

A JavaScript string is modelled by [string], a sequence of code units
below 256; [\s] and the methods [trim], [split] and [replace] are those of
the language on that range. *)

From S2P Require Import Prelude.
From Stdlib Require Import Ascii.

#[local] Open Scope string_scope.

Module Str.

(** ** Characters *)

(** [\s]: the tab, line-feed, vertical-tab, form-feed, carriage-return, space
    and no-break-space code units. *)
Definition is_ws (c : ascii) : bool :=
  let n := N_of_ascii c in
  bool_decide (9 ≤ n ≤ 13)%N || bool_decide (n = 32)%N || bool_decide (n = 160)%N.

Definition in_range (lo hi : ascii) (c : ascii) : bool :=
  (N_of_ascii lo <=? N_of_ascii c)%N && (N_of_ascii c <=? N_of_ascii hi)%N.
Definition is_upper : ascii → bool := in_range "A" "Z".
Definition is_lower : ascii → bool := in_range "a" "z".
Definition is_digit : ascii → bool := in_range "0" "9".

(** [toLowerCase] and [toUpperCase] on the basic Latin letters; every other
    code unit is left alone. *)
Definition lower (c : ascii) : ascii :=
  if is_upper c then ascii_of_N (N_of_ascii c + 32) else c.
Definition upper (c : ascii) : ascii :=
  if is_lower c then ascii_of_N (N_of_ascii c - 32) else c.

(** ** Predicates and generic functions *)

Fixpoint all (p : ascii → bool) (s : string) : bool :=
  match s with
  | "" => true
  | String c s => p c && all p s
  end.

(** The characters of a string that satisfy [p]. *)
Fixpoint keep (p : ascii → bool) (s : string) : string :=
  match s with
  | "" => ""
  | String c s => if p c then String c (keep p s) else keep p s
  end.

Fixpoint join (sep : string) (l : list string) : string :=
  match l with
  | [] => ""
  | [s] => s
  | s :: l => s +:+ sep +:+ join sep l
  end.

Definition non_empty (s : string) : bool := match s with "" => false | _ => true end.

(** ** [trim] *)

Fixpoint trimStart (s : string) : string :=
  match s with
  | "" => ""
  | String c s' => if is_ws c then trimStart s' else s
  end.

Fixpoint trimEnd (s : string) : string :=
  match s with
  | "" => ""
  | String c s =>
    match trimEnd s with
    | "" => if is_ws c then "" else String c ""
    | t => String c t
    end
  end.

Definition trim (s : string) : string := trimEnd (trimStart s).

(** ** [split] *)

Definition cons_head (c : ascii) (l : list string) : list string :=
  match l with
  | [] => [String c ""]
  | h :: l => String c h :: l
  end.

(** [s.split(/\s+/)]; [in_run] says that the previous character belongs to
    the separator being skipped. *)
Fixpoint split_ws_go (in_run : bool) (s : string) : list string :=
  match s with
  | "" => [""]
  | String c s =>
    if is_ws c
    then if in_run then split_ws_go true s else "" :: split_ws_go true s
    else cons_head c (split_ws_go false s)
  end.
Definition split_ws (s : string) : list string := split_ws_go false s.

(** [s.split(c)] for a one-character separator. *)
Fixpoint split_on (sep : ascii) (s : string) : list string :=
  match s with
  | "" => [""]
  | String c s => if decide (c = sep) then "" :: split_on sep s else cons_head c (split_on sep s)
  end.

(** ** [replace(/\s+/g, ' ')] *)

Fixpoint collapse_go (in_run : bool) (s : string) : string :=
  match s with
  | "" => ""
  | String c s =>
    if is_ws c
    then if in_run then collapse_go true s else String " " (collapse_go true s)
    else String c (collapse_go false s)
  end.
Definition collapse_ws (s : string) : string := collapse_go false s.

(** ** Words: the maximal runs of non-white-space characters *)

Definition words (s : string) : list string := filter (λ w, non_empty w) (split_ws s).

Definition word (w : string) : Prop := w ≠ "" ∧ all (λ c, negb (is_ws c)) w = true.

(** A text between double quotes. *)
Definition dquote : string := String (ascii_of_N 34) "".
Definition quoted (s : string) : string := dquote +:+ s +:+ dquote.

(** ** Lemmas *)

Lemma app_cons c s t : String c s +:+ t = String c (s +:+ t).
Proof. done. Qed.

Lemma app_nil_l s : "" +:+ s = s.
Proof. done. Qed.

Lemma app_nil_r s : s +:+ "" = s.
Proof. induction s as [|c s IH]; [done|]. by rewrite app_cons, IH. Qed.

Lemma app_assoc s t u : (s +:+ t) +:+ u = s +:+ (t +:+ u).
Proof. induction s as [|c s IH]; [done|]. by rewrite !app_cons, IH. Qed.

Lemma app_eq_nil s t : s +:+ t = "" → s = "" ∧ t = "".
Proof. destruct s; [done|]. by rewrite app_cons. Qed.

Lemma all_app p s t : all p (s +:+ t) = all p s && all p t.
Proof. induction s as [|c s IH]; [done|]. rewrite app_cons. simpl. by rewrite IH, andb_assoc. Qed.

Lemma all_impl (p q : ascii → bool) s :
  (∀ c, p c = true → q c = true) → all p s = true → all q s = true.
Proof.
  intros Hpq. induction s as [|c s IH]; simpl; [done|].
  rewrite !andb_true_iff. intros [??]; auto.
Qed.

Lemma keep_app p s t : keep p (s +:+ t) = keep p s +:+ keep p t.
Proof.
  induction s as [|c s IH]; [done|]. rewrite app_cons. simpl. rewrite IH. by destruct (p c).
Qed.

Lemma is_ws_space : is_ws " " = true.
Proof. done. Qed.

#[local] Abbreviation nonempties := (filter (λ w, non_empty w)).

Lemma words_eq s : words s = nonempties (split_ws s).
Proof. done. Qed.

Lemma nonempties_cons_head c l :
  nonempties (cons_head c l) =
    match l with [] => [String c ""] | h :: l => String c h :: nonempties l end.
Proof. destruct l as [|h l]; simpl; [done|]. by rewrite filter_cons_True. Qed.

Lemma split_ws_go_cons b s : ∃ h l, split_ws_go b s = h :: l.
Proof.
  revert b. induction s as [|c s IH]; intros b; simpl; [eauto|].
  destruct (is_ws c); [destruct b; eauto|]. destruct (IH false) as (h & l & ->). simpl. eauto.
Qed.

(** Words of a string, by cases on its first character. *)
Fixpoint head_word (s : string) : string * list string :=
  match s with
  | "" => ("", [])
  | String c s =>
    let '(w, ws) := head_word s in
    if is_ws c then ("", if non_empty w then w :: ws else ws) else (String c w, ws)
  end.

Definition words_of_head (h : string * list string) : list string :=
  if non_empty h.1 then h.1 :: h.2 else h.2.

Lemma split_head s :
  (∃ l, split_ws_go false s = (head_word s).1 :: l ∧ nonempties l = (head_word s).2) ∧
  nonempties (split_ws_go true s) = words_of_head (head_word s).
Proof.
  induction s as [|c s ((l & Hs & Hl) & Ht)]; simpl; [split; [by exists []|done]|].
  destruct (head_word s) as [w ws]. simpl in *. destruct (is_ws c); simpl.
  - rewrite Ht. split; [|done]. eexists. split; [done|]. done.
  - rewrite Hs. simpl. split; [by eauto|]. by rewrite filter_cons_True, Hl by done.
Qed.

Lemma words_head s : words s = words_of_head (head_word s).
Proof.
  destruct (split_head s) as [(l & Hs & Hl) _]. unfold words, split_ws, words_of_head.
  rewrite Hs, filter_cons. destruct (head_word s) as [w ws]; simpl in *. rewrite Hl.
  by destruct w.
Qed.

Lemma words_nil : words "" = [].
Proof. done. Qed.

Lemma words_ws c s : is_ws c = true → words (String c s) = words s.
Proof.
  intros Hc. rewrite !words_head. simpl. destruct (head_word s) as [w ws]. by rewrite Hc.
Qed.

Lemma head_word_app_ws w c s :
  all (λ c, negb (is_ws c)) w = true → is_ws c = true →
  head_word (w +:+ String c s) = (w, words s).
Proof.
  intros Hw Hc. induction w as [|d w IH].
  - rewrite app_nil_l. simpl. rewrite words_head. destruct (head_word s). by rewrite Hc.
  - rewrite app_cons. simpl in *. apply andb_true_iff in Hw as [Hd Hw].
    rewrite IH by done. by destruct (is_ws d).
Qed.

Lemma words_word w : word w → words w = [w].
Proof.
  intros [Hn Hw]. assert (head_word w = (w, [])) as Hh.
  { clear Hn. induction w as [|c w IH]; simpl in *; [done|].
    apply andb_true_iff in Hw as [Hc Hw]. rewrite IH by done. by destruct (is_ws c). }
  rewrite words_head, Hh. by destruct w.
Qed.

Lemma words_app_ws w c s :
  word w → is_ws c = true → words (w +:+ String c s) = w :: words s.
Proof.
  intros [Hn Hw] Hc. rewrite words_head, head_word_app_ws by done. by destruct w.
Qed.

Lemma words_join ws : Forall word ws → words (join " " ws) = ws.
Proof.
  induction 1 as [|w ws Hw Hws IH]; [done|]. destruct ws as [|w' ws].
  - by apply words_word.
  - change (join " " (w :: w' :: ws)) with (w +:+ String " " (join " " (w' :: ws))).
    by rewrite words_app_ws, IH.
Qed.

Lemma words_all s : Forall word (words s).
Proof.
  rewrite words_head. unfold words_of_head.
  assert (all (λ c, negb (is_ws c)) (head_word s).1 = true ∧ Forall word (head_word s).2) as [Hw Hws].
  { induction s as [|c s [IHw IHs]]; simpl; [done|].
    destruct (head_word s) as [w ws]; simpl in *. destruct (is_ws c) eqn:Hc; simpl.
    - split; [done|]. destruct w; simpl in *; [done|]. by constructor.
    - by rewrite Hc. }
  destruct (head_word s) as [w ws]; simpl in *. destruct w; simpl in *; [done|]. by constructor.
Qed.

Lemma words_keep s : join "" (words s) = keep (λ c, negb (is_ws c)) s.
Proof.
  assert (∀ w ws, join "" (words_of_head (w, ws)) = w +:+ join "" ws) as Hj.
  { intros w ws. unfold words_of_head. destruct w as [|c w]; simpl; [done|].
    destruct ws; simpl; [by rewrite app_nil_r|done]. }
  rewrite words_head. rewrite (surjective_pairing (head_word s)), Hj.
  induction s as [|c s IH]; simpl; [done|]. destruct (head_word s) as [w ws]; simpl in *.
  destruct (is_ws c); simpl; [|by rewrite app_cons, IH].
  rewrite app_nil_l, <-IH. apply Hj.
Qed.

Lemma words_trimStart s : words (trimStart s) = words s.
Proof.
  induction s as [|c s IH]; simpl; [done|].
  destruct (is_ws c) eqn:Hc; [|done]. by rewrite IH, words_ws.
Qed.

Lemma head_word_trimEnd s : head_word (trimEnd s) = head_word s.
Proof.
  induction s as [|c s IH]; simpl; [done|]. rewrite <-IH.
  destruct (trimEnd s) as [|d t]; simpl.
  { destruct (is_ws c) eqn:Hc; simpl; by rewrite ?Hc. }
  by destruct (head_word t), (is_ws d).
Qed.

Lemma words_trim s : words (trim s) = words s.
Proof. unfold trim. by rewrite words_head, head_word_trimEnd, <-words_head, words_trimStart. Qed.

(** *** [split] and [join] *)

Definition free (sep : ascii) (s : string) : Prop := all (λ c, negb (bool_decide (c = sep))) s = true.

Lemma free_cons sep c s : free sep (String c s) ↔ c ≠ sep ∧ free sep s.
Proof. unfold free. simpl. rewrite andb_true_iff, negb_true_iff, bool_decide_eq_false. done. Qed.

Lemma free_app sep s t : free sep (s +:+ t) ↔ free sep s ∧ free sep t.
Proof. unfold free. rewrite all_app. by rewrite andb_true_iff. Qed.

Lemma split_on_app sep p s :
  free sep p → split_on sep (p +:+ String sep s) = p :: split_on sep s.
Proof.
  induction p as [|c p IH].
  - intros _. rewrite app_nil_l. simpl. by rewrite decide_True.
  - intros [Hc Hp]%free_cons. rewrite app_cons. simpl. rewrite decide_False by done. by rewrite IH.
Qed.

Lemma split_on_free sep p : free sep p → split_on sep p = [p].
Proof.
  induction p as [|c p IH]; [done|]. intros [Hc Hp]%free_cons. simpl.
  rewrite decide_False by done. by rewrite IH.
Qed.

Lemma split_on_join sep l :
  l ≠ [] → Forall (free sep) l → split_on sep (join (String sep "") l) = l.
Proof.
  intros Hne Hl. induction Hl as [|p l Hp Hl IH]; [done|]. destruct l as [|p' l].
  - by apply split_on_free.
  - change (join (String sep "") (p :: p' :: l)) with (p +:+ String sep (join (String sep "") (p' :: l))).
    by rewrite split_on_app, IH.
Qed.

(** *** [trim] after [replace(/\s+/g, ' ')] *)

Lemma trimStart_collapse s : trimStart (collapse_go true s) = collapse_go true s.
Proof. induction s as [|c s IH]; simpl; [done|]. destruct (is_ws c) eqn:Hc; [done|]. simpl. by rewrite Hc. Qed.

Lemma trimStart_collapse_ws s : trimStart (collapse_ws s) = collapse_go true s.
Proof.
  unfold collapse_ws. destruct s as [|c s]; simpl; [done|].
  destruct (is_ws c) eqn:Hc; simpl; [apply trimStart_collapse|by rewrite Hc].
Qed.

(** What follows the first word in the normal form. *)
Definition tail_words (ws : list string) : string :=
  match ws with [] => "" | _ => String " " (join " " ws) end.

Lemma join_cons w ws : join " " (w :: ws) = w +:+ tail_words ws.
Proof. destruct ws; simpl; [by rewrite app_nil_r|done]. Qed.

Lemma join_words_nil ws : Forall word ws → join " " ws = "" → ws = [].
Proof.
  destruct 1 as [|w ws [Hw _] _]; [done|]. rewrite join_cons. by intros [? _]%app_eq_nil.
Qed.

Lemma trimEnd_collapse s :
  trimEnd (collapse_go false s) = (head_word s).1 +:+ tail_words (head_word s).2 ∧
  trimEnd (collapse_go true s) = join " " (words s).
Proof.
  induction s as [|c s [IHf IHt]]; [done|]. pose proof (words_all s) as Hall.
  rewrite words_head in *. simpl. destruct (head_word s) as [w ws] eqn:Hh. simpl in *.
  destruct (is_ws c) eqn:Hc; simpl.
  - rewrite IHt. change (if non_empty w then w :: ws else ws) with (words_of_head (w, ws)).
    split; [|done]. rewrite app_nil_l. unfold tail_words. destruct (words_of_head (w, ws)) as [|w' ws'] eqn:Hw.
    + done.
    + destruct (join " " (w' :: ws')) eqn:Hj; [|done]. by apply join_words_nil in Hj.
  - pose proof (join_cons (String c w) ws) as Hj. simpl in Hj.
    rewrite IHf, Hj, !app_cons. destruct (w +:+ tail_words ws); [|done]. by rewrite Hc.
Qed.

Lemma trim_collapse s : trim (collapse_ws s) = join " " (words s).
Proof. unfold trim. rewrite trimStart_collapse_ws. apply trimEnd_collapse. Qed.

End Str.

#[export] Hint Rewrite Str.app_nil_r Str.app_nil_l Str.app_cons Str.app_assoc : js.
