(* ===== verification/Dom.v ===== *)
(** The browser's document, as an interface.

The DOM is not part of the repository: [Dom] lists the operations the
framework calls and [DomLaws] the documented behaviour the proofs use.
Elements are compared by identity and are represented by [nat].  The
operations on attribute names are those of an HTML document, which
lower-cases the name it is given.  [PageDom] at the end is a concrete
document, used to evaluate the theorems on a page. *)

From S2P Require Import Prelude JsCore JsString.

Abbreviation elem := nat.

(** The two shapes of selector that the framework builds: [[a]] and
    [[a~="t"]]. *)
Inductive selector :=
  | HasAttribute (a : string)
  | AttributeContainsToken (a t : string).

Class Dom (doc : Type) := {
  (** The value of an attribute, by its (lower-case) name. *)
  attr : doc → elem → string → option string;
  set_attr : doc → elem → string → option string → doc;
  (** The names of an element's attributes, in document order. *)
  attributes : doc → elem → list string;
  (** The elements below an element, in document order. *)
  descendants : doc → elem → list elem;
  (** The element and the elements above it, nearest first. *)
  ancestors : doc → elem → list elem;
  isConnected : doc → elem → bool;
  (** The tokens of an attribute value, as the selector [~=] reads it. *)
  value_tokens : doc → string → list string;
}.

Definition lower_name (a : string) : string :=
  String.string_of_list_ascii (map Str.lower (String.list_ascii_of_string a)).

Section operations.
Context {doc : Type} `{Dom doc}.
Implicit Types (d : doc) (e : elem) (a : string).

Definition getAttribute d e a : option string := attr d e (lower_name a).
Definition hasAttribute d e a : bool := bool_decide (is_Some (getAttribute d e a)).
Definition setAttribute d e a (v : string) : doc := set_attr d e (lower_name a) (Some v).
Definition removeAttribute d e a : doc := set_attr d e (lower_name a) None.

Definition contains d e e' : bool := bool_decide (e' = e ∨ e' ∈ descendants d e).

Definition matches d e (s : selector) : bool :=
  match s with
  | HasAttribute a => hasAttribute d e a
  | AttributeContainsToken a t =>
    match getAttribute d e a with
    | Some v => bool_decide (t ∈ value_tokens d v)
    | None => false
    end
  end.
Definition querySelectorAll d e (s : selector) : list elem :=
  filter (λ e', matches d e' s) (descendants d e).
Definition closest d e (s : selector) : option elem :=
  head (filter (λ e', matches d e' s) (ancestors d e)).

Lemma contains_true d e e' : contains d e e' = true ↔ e' = e ∨ e' ∈ descendants d e.
Proof. apply bool_decide_eq_true. Qed.

Lemma contains_refl d e : contains d e e = true.
Proof. apply contains_true. by left. Qed.

Lemma elem_of_querySelectorAll d e s e' :
  e' ∈ querySelectorAll d e s ↔ matches d e' s = true ∧ e' ∈ descendants d e.
Proof. unfold querySelectorAll. by rewrite list_elem_of_filter, Is_true_true. Qed.
End operations.

Class DomLaws (doc : Type) `{Dom doc} := {
  attr_set_attr d e a o e' a' :
    attr (set_attr d e a o) e' a' = if decide (e = e' ∧ a = a') then o else attr d e' a';
  elem_of_attributes d e a : a ∈ attributes d e ↔ is_Some (attr d e a);
  NoDup_descendants d e : NoDup (descendants d e);
  not_own_descendant d e : e ∉ descendants d e;
  ancestors_self d e : head (ancestors d e) = Some e;
  elem_of_ancestors d e e' : e' ∈ ancestors d e ↔ contains d e' e = true;
  isConnected_contains d e e' : contains d e e' = true → isConnected d e' = isConnected d e;
}.

#[export] Hint Resolve contains_refl NoDup_descendants : js.

(** ** A concrete document

The elements of the page in document order, each with its depth, then the
elements of a detached tree in the same form. *)

Module PageDom.

Definition row : Type := nat * elem.

Record t := mk {
  page : list row;
  detached : list row;
  attrs : list ((elem * string) * string);
  ids_ok : bool_decide (NoDup (page ++ detached).*2) = true;
}.

Fixpoint below (depth : nat) (l : list row) : list elem :=
  match l with
  | (n, e) :: l => if decide (depth < n) then e :: below depth l else []
  | [] => []
  end.

Fixpoint subtree (e : elem) (l : list row) : list elem :=
  match l with
  | (n, e') :: l => if decide (e = e') then below n l else subtree e l
  | [] => []
  end.

Definition desc (d : t) (e : elem) : list elem :=
  if decide (e ∈ (page d).*2) then subtree e (page d) else subtree e (detached d).

(** The element with those above it, given the rows above the ones that
    follow, nearest first. *)
Fixpoint path (e : elem) (above : list row) (l : list row) : list elem :=
  match l with
  | (n, e') :: l =>
    let above := filter (λ r : row, r.1 < n) above in
    if decide (e = e') then e :: above.*2 else path e ((n, e') :: above) l
  | [] => [e]
  end.

Definition anc (d : t) (e : elem) : list elem :=
  path e [] (if decide (e ∈ (page d).*2) then page d else detached d).

Definition set (d : t) (e : elem) (a : string) (o : option string) : t :=
  mk (page d) (detached d)
     (match o with
      | Some v => JMap.set (e, a) v (attrs d)
      | None => JMap.delete (e, a) (attrs d)
      end) (ids_ok d).

#[global] Instance dom : Dom t := {|
  attr d e a := JMap.get (e, a) (attrs d);
  set_attr := set;
  attributes d e := remove_dups (filter (λ ea : elem * string, ea.1 = e) (JMap.keys (attrs d))).*2;
  descendants := desc;
  ancestors := anc;
  isConnected d e := bool_decide (e ∈ (page d).*2);
  value_tokens _ := Str.words;
|}.

Lemma below_sublist n l : below n l `sublist_of` l.*2.
Proof.
  induction l as [|[m e] l IH]; simpl; [done|]. case_decide; [by constructor|].
  apply sublist_nil_l.
Qed.

Lemma subtree_spec e l : NoDup l.*2 → NoDup (subtree e l) ∧ (e ∉ subtree e l) ∧ subtree e l ⊆ l.*2.
Proof.
  induction l as [|[m e'] l IH]; simpl.
  { intros _. split_and!; [constructor|set_solver..]. }
  rewrite NoDup_cons. intros [He' Hl]. case_decide; subst.
  - pose proof (below_sublist m l) as Hs. split_and!.
    + by eapply sublist_NoDup.
    + intros Hin. by eapply He', elem_of_sublist.
    + intros x Hx. right. by eapply elem_of_sublist.
  - destruct IH as (? & ? & ?); [done|]. split_and!; [done..|set_solver].
Qed.

Lemma subtree_absent e l : e ∉ l.*2 → subtree e l = [].
Proof.
  induction l as [|[m e'] l IH]; simpl; [done|]. rewrite not_elem_of_cons.
  intros [??]. rewrite decide_False by done. auto.
Qed.

Lemma head_path e above l : head (path e above l) = Some e.
Proof. revert above. induction l as [|[n e'] l IH]; intros above; simpl; [done|]. by case_decide; [|apply IH]. Qed.

Lemma elem_of_path e e' above l :
  NoDup l.*2 → e' ∈ path e above l ↔ e' = e ∨ (∃ n, (n, e') ∈ above ∧ e ∈ below n l) ∨ e ∈ subtree e' l.
Proof.
  revert above. induction l as [|[n0 e0] l IH]; intros above; simpl.
  { intros _. rewrite list_elem_of_singleton. set_solver. }
  rewrite NoDup_cons. intros [He0 Hl]. destruct (decide (e = e0)) as [<-|Hne].
  - assert (∀ n, e ∉ below n l) as Hb by (intros n Hin; apply He0; exact (elem_of_sublist _ _ _ Hin (below_sublist n l))).
    assert (e ∉ subtree e' l) as Hs by (intros Hin; apply He0; by apply (subtree_spec e' l Hl)).
    rewrite elem_of_cons, list_elem_of_fmap. split.
    + intros [->|([n e1] & -> & [Hn Hin]%list_elem_of_filter)]; [by left|]. right. left. exists n. simpl in *.
      rewrite decide_True by done. split; [done|left].
    + intros [->|[(n & Hin & He)|Hin]]; [by left| |].
      * case_decide; [|by apply not_elem_of_nil in He]. right. exists (n, e'). by rewrite list_elem_of_filter.
      * case_decide; [by destruct (Hb n0)|done].
  - rewrite (IH _ Hl). split.
    + intros [->|[(n & Hin & He)|Hin]]; [by left| |].
      * apply elem_of_cons in Hin as [[= -> ->]|[Hn Hin]%list_elem_of_filter]; [right; right; by rewrite decide_True|].
        right. left. exists n. rewrite decide_True by done. split; [done|by right].
      * right. right. rewrite decide_False; [done|]. intros ->. by rewrite subtree_absent in Hin; [apply not_elem_of_nil in Hin|].
    + intros [->|[(n & Hin & He)|Hin]]; [by left| |].
      * case_decide; [|by apply not_elem_of_nil in He]. apply elem_of_cons in He as [->|He]; [done|].
        right. left. exists n. rewrite elem_of_cons, list_elem_of_filter. auto.
      * case_decide; subst; [|by auto]. right. left. exists n0. split; [left|done].
Qed.

Lemma desc_spec d e :
  NoDup (desc d e) ∧ (e ∉ desc d e) ∧
  (∀ e', e' ∈ desc d e → (e ∈ (page d).*2 ∧ e' ∈ (page d).*2) ∨
                         (e ∈ (detached d).*2 ∧ (e ∉ (page d).*2) ∧ e' ∈ (detached d).*2)).
Proof.
  pose proof (bool_decide_eq_true_1 _ (ids_ok d)) as Hn. rewrite fmap_app in Hn.
  apply NoDup_app in Hn as (Hp & _ & Hd). unfold desc. case_decide as He.
  - destruct (subtree_spec e _ Hp) as (? & ? & Hs). split_and!; [done..|]. naive_solver.
  - destruct (subtree_spec e _ Hd) as (? & ? & Hs). split_and!; [done..|]. intros e' He'.
    right. destruct (decide (e ∈ (detached d).*2)); [naive_solver|].
    rewrite subtree_absent in He' by done. by apply not_elem_of_nil in He'.
Qed.

#[global] Instance laws : DomLaws t.
Proof.
  split; simpl.
  - intros d e a [v|] e' a'; unfold set; simpl;
      rewrite ?JMap.get_set, ?JMap.get_delete;
      (destruct (decide (e = e' ∧ a = a')) as [[-> ->]|Hn];
       [by rewrite decide_True|rewrite decide_False by naive_solver; done]).
  - intros d e a. rewrite elem_of_remove_dups, list_elem_of_fmap, JMap.get_is_Some. split.
    + intros ([e' a'] & -> & [He Hin]%list_elem_of_filter). by simplify_eq/=.
    + intros Hin. exists (e, a). by rewrite list_elem_of_filter.
  - intros d e. apply (desc_spec d e).
  - intros d e. apply (desc_spec d e).
  - intros d e. apply head_path.
  - intros d e e'. rewrite contains_true. simpl.
    pose proof (bool_decide_eq_true_1 _ (ids_ok d)) as Hn. rewrite fmap_app in Hn.
    apply NoDup_app in Hn as (Hp & Hpd & Hd). destruct (desc_spec d e') as (_ & _ & Hs). unfold anc.
    assert (∀ l, NoDup l.*2 → (e ∈ desc d e' ↔ e ∈ subtree e' l) →
      e' ∈ path e [] l ↔ e = e' ∨ e ∈ desc d e') as Hl.
    { intros l Hl ->. rewrite elem_of_path by done. pose proof (not_elem_of_nil (A := row)). naive_solver. }
    destruct (decide (e ∈ (page d).*2)) as [He|He]; apply Hl; try done; unfold desc.
    + destruct (decide (e' ∈ (page d).*2)) as [He'|He']; [done|]. rewrite (subtree_absent e' (page d)) by done.
      split; [|by intros ?%not_elem_of_nil]. intros Hin. exfalso. apply (Hpd e He), (subtree_spec e' _ Hd), Hin.
    + destruct (decide (e' ∈ (page d).*2)) as [He'|He']; [|done]. rewrite (subtree_absent e' (detached d)).
      * split; [|by intros ?%not_elem_of_nil]. intros Hin. exfalso. apply He, (subtree_spec e' _ Hp), Hin.
      * by apply Hpd.
  - intros d e e' [->|Hin]%contains_true; [done|]. simpl in Hin.
    pose proof (bool_decide_eq_true_1 _ (ids_ok d)) as Hn. rewrite fmap_app in Hn.
    apply NoDup_app in Hn as (_ & Hpd & _). apply bool_decide_ext.
    destruct (desc_spec d e) as (_ & _ & Hd). specialize (Hd _ Hin). naive_solver.
Qed.

End PageDom.
