(* ===== verification/Multimaps.v ===== *)
(** The multimaps of the framework: [Multimap] (a [Map] from keys to [Set]s of
    values) and [IndexedMultimap], which maintains the inverse map as an index.

Models [src/gui/web/assets/scripts/stimulus.js], the functions [add],
[del], [fetch], [prune] and the classes [Multimap] and
[IndexedMultimap].  [Multimap.t] is the field [valuesByKey];
[Indexed.t] adds the field [keysByValue]. *)

From S2P Require Import Prelude JsCore.

(** ** The four functions on a [Map] of [Set]s *)

Section map_of_sets.
Context {K V : Type} `{EqDecision K} `{EqDecision V}.
Implicit Types (m : list (K * list V)) (k : K) (v : V).

(** [fetch] returns the set stored under the key, after storing a fresh one
    when there is none.  The set it returns is the stored object, so a
    mutation of it is written back under the key by the callers. *)
Definition fetch (m : list (K * list V)) (k : K) : list (K * list V) * list V :=
  match JMap.get k m with
  | None => (JMap.set k [] m, [])
  | Some vs => (m, vs)
  end.

Definition add (m : list (K * list V)) (k : K) (v : V) : list (K * list V) :=
  let '(m, vs) := fetch m k in
  JMap.set k (JSet.add v vs) m.

Definition prune (m : list (K * list V)) (k : K) : list (K * list V) :=
  match JMap.get k m with
  | Some vs => if decide (length vs = 0) then JMap.delete k m else m
  | None => m
  end.

Definition del (m : list (K * list V)) (k : K) (v : V) : list (K * list V) :=
  let '(m, vs) := fetch m k in
  prune (JMap.set k (JSet.delete v vs) m) k.

(** The relation that a map of sets stands for. *)
Definition bucket (m : list (K * list V)) (k : K) : list V := default [] (JMap.get k m).
Definition related (m : list (K * list V)) (k : K) (v : V) : Prop := v ∈ bucket m k.

(** Keys are distinct, buckets are sets and no bucket is empty. *)
Record wf (m : list (K * list V)) : Prop := {
  wf_keys : JMap.wf m;
  wf_bucket : ∀ k vs, JMap.get k m = Some vs → NoDup vs;
  wf_pruned : ∀ k vs, JMap.get k m = Some vs → vs ≠ [];
}.

#[global] Instance related_dec m k v : Decision (related m k v).
Proof. unfold related. apply _. Defined.

Lemma fetch_bucket m k : (fetch m k).2 = bucket m k.
Proof. unfold fetch, bucket. by destruct (JMap.get k m). Qed.

Lemma fetch_get_ne m k k' : k ≠ k' → JMap.get k' (fetch m k).1 = JMap.get k' m.
Proof. intros. unfold fetch. destruct (JMap.get k m); [done|]. by apply JMap.get_set_ne. Qed.

Lemma fetch_wf m k : JMap.wf m → JMap.wf (fetch m k).1.
Proof. intros. unfold fetch. destruct (JMap.get k m); simpl; auto with js. Qed.

Lemma add_eq m k v : add m k v = JMap.set k (JSet.add v (bucket m k)) (fetch m k).1.
Proof. rewrite <-fetch_bucket. unfold add. by destruct (fetch m k). Qed.

Lemma del_eq m k v :
  del m k v = prune (JMap.set k (JSet.delete v (bucket m k)) (fetch m k).1) k.
Proof. rewrite <-fetch_bucket. unfold del. by destruct (fetch m k). Qed.

Lemma get_add m k v k' :
  JMap.get k' (add m k v) =
    if decide (k = k') then Some (JSet.add v (bucket m k)) else JMap.get k' m.
Proof. rewrite add_eq, JMap.get_set. case_decide; [done|]. by apply fetch_get_ne. Qed.

Lemma get_prune m k k' :
  JMap.get k' (prune m k) =
    if decide (k = k' ∧ JMap.get k m = Some []) then None else JMap.get k' m.
Proof.
  unfold prune. destruct (JMap.get k m) as [[|v vs]|] eqn:Hk; simpl.
  - rewrite JMap.get_delete. repeat case_decide; naive_solver.
  - rewrite decide_False by naive_solver. done.
  - rewrite decide_False by naive_solver. done.
Qed.

Lemma get_del m k v k' :
  JMap.get k' (del m k v) =
    if decide (k = k')
    then match JSet.delete v (bucket m k) with [] => None | vs => Some vs end
    else JMap.get k' m.
Proof.
  rewrite del_eq, get_prune, JMap.get_set_eq. destruct (decide (k = k')) as [<-|Hk].
  - rewrite JMap.get_set_eq. destruct (JSet.delete v _); [by rewrite decide_True|].
    by rewrite decide_False by naive_solver.
  - rewrite decide_False by naive_solver. rewrite JMap.get_set_ne by done.
    by apply fetch_get_ne.
Qed.

Lemma bucket_add m k v k' :
  bucket (add m k v) k' = if decide (k = k') then JSet.add v (bucket m k) else bucket m k'.
Proof. unfold bucket at 1. rewrite get_add. by case_decide. Qed.

Lemma bucket_del m k v k' :
  bucket (del m k v) k' = if decide (k = k') then JSet.delete v (bucket m k) else bucket m k'.
Proof. unfold bucket at 1. rewrite get_del. case_decide; [|done]. by destruct (JSet.delete v _). Qed.

Lemma related_add m k v k' v' :
  related (add m k v) k' v' ↔ (k' = k ∧ v' = v) ∨ related m k' v'.
Proof.
  unfold related. rewrite bucket_add. case_decide; subst; [|naive_solver].
  rewrite JSet.elem_of_add. naive_solver.
Qed.

Lemma related_del m k v k' v' :
  related (del m k v) k' v' ↔ ¬ (k' = k ∧ v' = v) ∧ related m k' v'.
Proof.
  unfold related. rewrite bucket_del. case_decide; subst; [|naive_solver].
  rewrite JSet.elem_of_delete. naive_solver.
Qed.

Lemma wf_nil : wf [].
Proof. split; [apply JMap.map_wf_nil|done|done]. Qed.

Lemma bucket_NoDup m k : wf m → NoDup (bucket m k).
Proof.
  intros [_ Hb _]. unfold bucket.
  destruct (JMap.get k m) eqn:?; [by eapply Hb|apply NoDup_nil_2].
Qed.

Lemma wf_add m k v : wf m → wf (add m k v).
Proof.
  intros Hm. pose proof (bucket_NoDup m k Hm). destruct Hm as [Hk Hb Hp]. split.
  - rewrite add_eq. by apply JMap.wf_set, fetch_wf.
  - intros k' vs. rewrite get_add. case_decide; [|by apply Hb].
    intros [= <-]. by apply JSet.NoDup_add.
  - intros k' vs. rewrite get_add. case_decide; [|by apply Hp].
    intros [= <-]. apply JSet.add_nonempty.
Qed.

Lemma prune_wf m k : JMap.wf m → JMap.wf (prune m k).
Proof. intros. unfold prune. destruct (JMap.get k m); [case_decide|]; auto with js. Qed.

Lemma wf_del m k v : wf m → wf (del m k v).
Proof.
  intros Hm. pose proof (bucket_NoDup m k Hm). destruct Hm as [Hk Hb Hp]. split.
  - rewrite del_eq. by apply prune_wf, JMap.wf_set, fetch_wf.
  - intros k' vs. rewrite get_del. case_decide; [|by apply Hb].
    intros Hvs. assert (NoDup (JSet.delete v (bucket m k))) as Hn by by apply JSet.NoDup_delete.
    destruct (JSet.delete v _); naive_solver.
  - intros k' vs. rewrite get_del. case_decide; [|by apply Hp].
    destruct (JSet.delete v _); naive_solver.
Qed.

(** *** The pairs of a map of sets *)

Definition pairs (m : list (K * list V)) : list (K * V) :=
  m ≫= λ kvs, (kvs.1,.) <$> kvs.2.

Lemma elem_of_pairs m k v : JMap.wf m → (k, v) ∈ pairs m ↔ related m k v.
Proof.
  intros Hm. unfold pairs, related, bucket. rewrite list_elem_of_bind. split.
  - intros ([k' vs] & (v' & Heq & Hv)%list_elem_of_fmap & Hin); simplify_eq/=.
    by rewrite (JMap.elem_get_Some _ _ _ Hm Hin).
  - destruct (JMap.get k m) as [vs|] eqn:Hk; simpl; [|set_solver].
    intros Hv. exists (k, vs). split; [|by apply JMap.get_Some_elem].
    apply list_elem_of_fmap. by exists v.
Qed.

Lemma NoDup_pairs m : wf m → NoDup (pairs m).
Proof.
  intros [Hk Hb _]. assert (∀ k vs, (k, vs) ∈ m → NoDup vs) as Hnd.
  { intros k vs Hin. by eapply Hb, JMap.elem_get_Some. }
  clear Hb. unfold JMap.wf, JMap.keys in Hk.
  induction m as [|[k vs] m IH]; [constructor|]. rewrite fmap_cons, NoDup_cons in Hk.
  destruct Hk as [Hk Hm]. unfold pairs. rewrite bind_cons. apply NoDup_app. split_and!.
  - apply NoDup_fmap_2; [by intros ?? [=]|]. eapply Hnd. by left.
  - intros [k' v] (v' & Heq & _)%list_elem_of_fmap (kvs & Hin & Hkvs)%list_elem_of_bind.
    simplify_eq/=. apply list_elem_of_fmap in Hin as (? & ? & ?). simplify_eq.
    apply Hk, list_elem_of_fmap. eauto.
  - apply IH; [done|]. intros k' vs' Hin. eapply Hnd. by right.
Qed.

Lemma pairs_add m k v : wf m → ¬ related m k v → pairs (add m k v) ≡ₚ (k, v) :: pairs m.
Proof.
  intros Hm Hn. pose proof (wf_add m k v Hm) as Ha. apply NoDup_Permutation.
  - by apply NoDup_pairs.
  - constructor; [|by apply NoDup_pairs]. by rewrite elem_of_pairs by apply Hm.
  - intros [k' v']. rewrite elem_of_cons, elem_of_pairs, elem_of_pairs, related_add
      by (apply Ha || apply Hm). naive_solver.
Qed.

Lemma pairs_del m k v : wf m → related m k v → pairs m ≡ₚ (k, v) :: pairs (del m k v).
Proof.
  intros Hm Hr. pose proof (wf_del m k v Hm) as Hd. apply NoDup_Permutation.
  - by apply NoDup_pairs.
  - constructor; [|by apply NoDup_pairs].
    rewrite elem_of_pairs, related_del by apply Hd. tauto.
  - intros [k' v']. rewrite elem_of_cons, elem_of_pairs, elem_of_pairs, related_del
      by (apply Hd || apply Hm).
    destruct (decide ((k', v') = (k, v))); naive_solver.
Qed.

Lemma pairs_values m : (pairs m).*2 = foldl (λ vs s, vs ++ s) [] (JMap.values m).
Proof.
  assert (∀ l : list (list V), foldl (λ vs s, vs ++ s) [] l = concat l) as Hc.
  { intros l. rewrite <-(app_nil_l (concat l)). generalize (@nil V).
    induction l as [|s l IH]; intros acc; simpl; [by rewrite app_nil_r|].
    by rewrite IH, (assoc_L (++)). }
  rewrite Hc. unfold JMap.values. induction m as [|[k vs] m IH]; [done|].
  unfold pairs in *. rewrite bind_cons, fmap_app, IH, <-list_fmap_compose.
  simpl. f_equal. apply list_fmap_id.
Qed.

Lemma pairs_size m : length (pairs m) = foldl (λ n s, n + length s) 0 (JMap.values m).
Proof.
  rewrite <-(length_fmap snd), pairs_values.
  assert (∀ (l : list (list V)) vs,
    length (foldl (λ vs s, vs ++ s) vs l) = foldl (λ n s, n + length s) (length vs) l) as Hl.
  { induction l as [|s l IH]; intros vs; simpl; [done|]. by rewrite IH, length_app. }
  by rewrite Hl.
Qed.
End map_of_sets.

#[export] Hint Resolve wf_nil wf_add wf_del : js.

(** ** [Multimap] *)

Module Multimap.
Section multimap.
Context {K V : Type} `{EqDecision K} `{EqDecision V}.

Record t := mk { valuesByKey : list (K * list V) }.

Definition empty : t := mk [].

Definition values (m : t) : list V :=
  foldl (λ vs s, vs ++ s) [] (JMap.values (valuesByKey m)).
Definition size (m : t) : nat :=
  foldl (λ n s, n + length s) 0 (JMap.values (valuesByKey m)).
Definition add (m : t) (k : K) (v : V) : t := mk (add (valuesByKey m) k v).
Definition delete (m : t) (k : K) (v : V) : t := mk (del (valuesByKey m) k v).
Definition has (m : t) (k : K) (v : V) : bool :=
  match JMap.get k (valuesByKey m) with
  | Some vs => JSet.has v vs
  | None => false
  end.
Definition hasKey (m : t) (k : K) : bool := JMap.has k (valuesByKey m).
Definition hasValue (m : t) (v : V) : bool :=
  existsb (JSet.has v) (JMap.values (valuesByKey m)).
Definition getValuesForKey (m : t) (k : K) : list V :=
  match JMap.get k (valuesByKey m) with
  | Some vs => vs
  | None => []
  end.
Definition getKeysForValue (m : t) (v : V) : list K :=
  (filter (λ kvs : K * list V, JSet.has v kvs.2) (valuesByKey m)).*1.
End multimap.
Arguments t : clear implicits.

(** *** Histories of updates and the relation they build *)

Inductive op (K V : Type) := Add (k : K) (v : V) | Delete (k : K) (v : V).
Arguments Add {K V} k v.
Arguments Delete {K V} k v.

Section histories.
Context {K V : Type} `{EqDecision K} `{EqDecision V}.

Definition apply_op (m : t K V) (o : op K V) : t K V :=
  match o with Add k v => add m k v | Delete k v => delete m k v end.
Definition run (os : list (op K V)) : t K V := foldl apply_op empty os.

(** The specification: a set of pairs. *)
Definition spec_op (s : list (K * V)) (o : op K V) : list (K * V) :=
  match o with Add k v => JSet.add (k, v) s | Delete k v => JSet.delete (k, v) s end.
Definition spec (os : list (op K V)) : list (K * V) := foldl spec_op [] os.

(** A multimap implements a set of pairs. *)
Record implements (m : t K V) (s : list (K * V)) : Prop := {
  impl_wf : wf (valuesByKey m);
  impl_nodup : NoDup s;
  impl_related : ∀ k v, related (valuesByKey m) k v ↔ (k, v) ∈ s;
}.

Lemma implements_empty : implements empty [].
Proof. split; [auto with js|constructor|]. intros k v. unfold related. set_solver. Qed.

Lemma implements_op m s o : implements m s → implements (apply_op m o) (spec_op s o).
Proof.
  intros [Hw Hn Hr]. destruct o as [k v|k v]; split; simpl; auto with js; intros k' v'.
  - rewrite related_add, JSet.elem_of_add, Hr. naive_solver.
  - rewrite related_del, JSet.elem_of_delete, Hr. naive_solver.
Qed.

Lemma implements_run os : implements (run os) (spec os).
Proof.
  unfold run, spec.
  assert (∀ m s, implements m s → implements (foldl apply_op m os) (foldl spec_op s os)) as Hgo.
  { induction os as [|o os IH]; intros m s Hms; simpl; [done|]. by apply IH, implements_op. }
  apply Hgo, implements_empty.
Qed.

Section observers.
Context {m : t K V} {s : list (K * V)} (Hms : implements m s).

Lemma implements_has k v : has m k v = true ↔ (k, v) ∈ s.
Proof.
  rewrite <-(impl_related _ _ Hms). unfold has, related, bucket.
  destruct (JMap.get k _); simpl; [apply JSet.has_true|set_solver].
Qed.

Lemma implements_pairs : pairs (valuesByKey m) ≡ₚ s.
Proof.
  destruct Hms as [Hw Hn Hr]. apply NoDup_Permutation; [by apply NoDup_pairs|done|].
  intros [k v]. by rewrite elem_of_pairs, Hr by apply Hw.
Qed.

Lemma implements_getValuesForKey k v : v ∈ getValuesForKey m k ↔ (k, v) ∈ s.
Proof.
  rewrite <-(impl_related _ _ Hms). unfold getValuesForKey, related, bucket.
  by destruct (JMap.get k _).
Qed.

Lemma implements_hasKey k : hasKey m k = true ↔ ∃ v, (k, v) ∈ s.
Proof.
  unfold hasKey, JMap.has. rewrite bool_decide_eq_true. split.
  - intros [vs Hvs]. pose proof (wf_pruned _ (impl_wf _ _ Hms) _ _ Hvs).
    destruct vs as [|v vs]; [done|]. exists v. apply (impl_related _ _ Hms).
    unfold related, bucket. rewrite Hvs. by left.
  - intros [v Hv%(impl_related _ _ Hms)]. unfold related, bucket in Hv.
    destruct (JMap.get k _); [done|]. set_solver.
Qed.

Lemma implements_getKeysForValue k v : k ∈ getKeysForValue m v ↔ (k, v) ∈ s.
Proof.
  rewrite <-(impl_related _ _ Hms). unfold getKeysForValue, related, bucket.
  rewrite list_elem_of_fmap. split.
  - intros ([k' vs] & -> & [Hv Hin]%list_elem_of_filter); simpl in *.
    erewrite JMap.elem_get_Some; [|by apply Hms|done].
    by apply JSet.has_true, Is_true_true.
  - intros Hv. destruct (JMap.get k _) as [vs|] eqn:Hvs; [|set_solver].
    exists (k, vs). split; [done|]. apply list_elem_of_filter.
    split; [|by apply JMap.get_Some_elem]. by apply Is_true_true, JSet.has_true.
Qed.

Lemma NoDup_getKeysForValue v : NoDup (getKeysForValue m v).
Proof.
  unfold getKeysForValue. eapply sublist_NoDup; [apply (wf_keys _ (impl_wf _ _ Hms))|].
  unfold JMap.keys. apply fmap_sublist, sublist_filter.
Qed.

Lemma implements_hasValue v : hasValue m v = true ↔ ∃ k, (k, v) ∈ s.
Proof.
  unfold hasValue, JMap.values. rewrite existsb_exists.
  setoid_rewrite JSet.has_true. setoid_rewrite <-list_elem_of_In. split.
  - intros (vs & ([k vs'] & -> & Hin)%list_elem_of_fmap & Hv). exists k.
    apply (impl_related _ _ Hms). unfold related, bucket.
    by erewrite JMap.elem_get_Some by (done || apply Hms).
  - intros [k Hk%(impl_related _ _ Hms)]. unfold related, bucket in Hk.
    destruct (JMap.get k _) as [vs|] eqn:Hvs; [|set_solver].
    exists vs. split; [|done]. apply list_elem_of_fmap. exists (k, vs).
    split; [done|]. by apply JMap.get_Some_elem.
Qed.
End observers.
End histories.
End Multimap.

(** ** [IndexedMultimap] *)

Module Indexed.
Section indexed.
Context {K V : Type} `{EqDecision K} `{EqDecision V}.

Record t := mk { super : Multimap.t K V; keysByValue : list (V * list K) }.

Definition empty : t := mk Multimap.empty [].

Definition values (m : t) : list V := JMap.keys (keysByValue m).
Definition add (m : t) (k : K) (v : V) : t :=
  mk (Multimap.add (super m) k v) (add (keysByValue m) v k).
Definition delete (m : t) (k : K) (v : V) : t :=
  mk (Multimap.delete (super m) k v) (del (keysByValue m) v k).
Definition hasValue (m : t) (v : V) : bool := JMap.has v (keysByValue m).
Definition getKeysForValue (m : t) (v : V) : list K :=
  match JMap.get v (keysByValue m) with
  | Some ks => ks
  | None => []
  end.
End indexed.
Arguments t : clear implicits.

Section histories.
Context {K V : Type} `{EqDecision K} `{EqDecision V}.

Definition apply_op (m : t K V) (o : Multimap.op K V) : t K V :=
  match o with Multimap.Add k v => add m k v | Multimap.Delete k v => delete m k v end.
Definition run (os : list (Multimap.op K V)) : t K V := foldl apply_op empty os.

(** The index is the inverse of the map. *)
Definition indexed (m : t K V) : Prop :=
  wf (keysByValue m) ∧
  ∀ k v, related (keysByValue m) v k ↔ related (Multimap.valuesByKey (super m)) k v.

Lemma indexed_empty : indexed empty.
Proof. split; [auto with js|]. intros k v. unfold related. set_solver. Qed.

Lemma indexed_op m o : indexed m → indexed (apply_op m o).
Proof.
  intros [Hw Hi]. destruct o as [k v|k v]; split; simpl; auto with js; intros k' v'.
  - rewrite !related_add, Hi. naive_solver.
  - rewrite !related_del, Hi. naive_solver.
Qed.

Lemma super_run os : super (run os) = Multimap.run os.
Proof.
  unfold run, Multimap.run.
  assert (∀ m, super (foldl apply_op m os) = foldl Multimap.apply_op (super m) os) as Hgo.
  { induction os as [|[] os IH]; intros m; simpl; [done| |]; by rewrite IH. }
  by rewrite Hgo.
Qed.

Lemma indexed_run os : indexed (run os).
Proof.
  unfold run. generalize indexed_empty. generalize (@empty K V).
  induction os as [|o os IH]; intros m Hm; simpl; [done|]. by apply IH, indexed_op.
Qed.

Lemma indexed_getKeysForValue os k v :
  k ∈ getKeysForValue (run os) v ↔ (k, v) ∈ Multimap.spec os.
Proof.
  destruct (indexed_run os) as [_ Hi].
  rewrite <-(Multimap.impl_related _ _ (Multimap.implements_run os)), <-super_run, <-Hi.
  unfold getKeysForValue, related, bucket. by destruct (JMap.get v _).
Qed.

Lemma NoDup_indexed_keys os v : NoDup (getKeysForValue (run os) v).
Proof.
  destruct (indexed_run os) as [Hw _]. unfold getKeysForValue.
  destruct (JMap.get v _) eqn:Hv; [by eapply (wf_bucket _ Hw)|constructor].
Qed.
End histories.
End Indexed.

(** ** Properties *)

Section properties.
Context {K V : Type} `{EqDecision K} `{EqDecision V}.

(** C37: after any history of [add] and [delete], a [Multimap] represents
    exactly the set of pairs the history builds: every observer answers as
    the set does, [size] counts its pairs, [values] lists their values with
    multiplicity, and no key is left with an empty set. *)
Theorem multimap_refines_pairs (os : list (Multimap.op K V)) :
  let m := Multimap.run os in
  let s := Multimap.spec os in
  (∀ k v, Multimap.has m k v = true ↔ (k, v) ∈ s) ∧
  (∀ k, Multimap.hasKey m k = true ↔ ∃ v, (k, v) ∈ s) ∧
  (∀ v, Multimap.hasValue m v = true ↔ ∃ k, (k, v) ∈ s) ∧
  (∀ k v, v ∈ Multimap.getValuesForKey m k ↔ (k, v) ∈ s) ∧
  (∀ k v, k ∈ Multimap.getKeysForValue m v ↔ (k, v) ∈ s) ∧
  Multimap.size m = length s ∧
  Multimap.values m ≡ₚ s.*2.
Proof.
  cbv zeta. pose proof (Multimap.implements_run os) as Hms. split_and!.
  - apply (Multimap.implements_has Hms).
  - apply (Multimap.implements_hasKey Hms).
  - apply (Multimap.implements_hasValue Hms).
  - apply (Multimap.implements_getValuesForKey Hms).
  - apply (Multimap.implements_getKeysForValue Hms).
  - unfold Multimap.size. rewrite <-pairs_size.
    apply Permutation_length, (Multimap.implements_pairs Hms).
  - unfold Multimap.values. rewrite <-pairs_values.
    apply fmap_Permutation, (Multimap.implements_pairs Hms).
Qed.

(** An [IndexedMultimap] driven by the same history as a [Multimap]
    gives the same answers: its inherited part is that multimap, its index
    answers [hasValue] as the scan of the buckets does, its
    [getKeysForValue] is the scan's up to order, and [values] lists each
    value once. *)
Lemma indexed_agrees (os : list (Multimap.op K V)) :
  let m := Multimap.run os in
  let i := Indexed.run os in
  Indexed.super i = m ∧
  (∀ v, Indexed.hasValue i v = Multimap.hasValue m v) ∧
  (∀ v, Indexed.getKeysForValue i v ≡ₚ Multimap.getKeysForValue m v) ∧
  NoDup (Indexed.values i) ∧
  (∀ v, v ∈ Indexed.values i ↔ v ∈ Multimap.values m).
Proof.
  cbv zeta. pose proof (Multimap.implements_run os) as Hms.
  destruct (Indexed.indexed_run os) as [Hw Hi].
  assert (∀ v, Indexed.hasValue (Indexed.run os) v = true ↔ ∃ k, (k, v) ∈ Multimap.spec os) as Hv.
  { intros v. setoid_rewrite <-Indexed.indexed_getKeysForValue.
    unfold Indexed.hasValue, Indexed.getKeysForValue, JMap.has.
    rewrite bool_decide_eq_true. split.
    - intros [ks Hks]. rewrite Hks. pose proof (wf_pruned _ Hw _ _ Hks).
      destruct ks as [|k ks]; [done|]. exists k. by left.
    - intros [k Hk]. destruct (JMap.get v _); [done|]. set_solver. }
  split_and!.
  - apply Indexed.super_run.
  - intros v. apply eq_true_iff_eq. by rewrite Hv, (Multimap.implements_hasValue Hms).
  - intros v. apply NoDup_Permutation.
    + apply Indexed.NoDup_indexed_keys.
    + apply (Multimap.NoDup_getKeysForValue Hms).
    + intros k. by rewrite Indexed.indexed_getKeysForValue, (Multimap.implements_getKeysForValue Hms).
  - apply (wf_keys _ Hw).
  - intros v. unfold Indexed.values, Multimap.values.
    rewrite <-JMap.map_has_true. fold (Indexed.hasValue (Indexed.run os) v). rewrite Hv.
    rewrite <-pairs_values.
    rewrite (fmap_Permutation snd _ _ (Multimap.implements_pairs Hms)), list_elem_of_fmap.
    split; [intros [k Hk]; by exists (k, v)|intros ([k ?] & -> & Hk); eauto].
Qed.
End properties.
