(* ===== verification/Observers.v ===== *)
(** The observers of the document: [ElementObserver] keeps the set of the
    elements of a subtree that its delegate matches and tells the delegate
    when an element enters or leaves the set; [AttributeObserver] is the
    delegate that matches the elements carrying an attribute.

Models [src/gui/web/assets/scripts/stimulus.js], the classes
[ElementObserver] and [AttributeObserver].  The delegate is a record of
functions over a state [D] that the observer threads through its calls.
The document is an argument of each operation: a delegate's callbacks do
not change it while the operation runs. *)

From S2P Require Import Prelude JsCore JsString Dom.

(** ** The browser's [MutationObserver] *)

Inductive node := ElementNode (e : elem) | OtherNode.

Inductive mutation :=
  | AttributesMutation (target : elem) (attributeName : string)
  | ChildListMutation (removedNodes addedNodes : list node)
  | OtherMutation.

(** What the browser keeps for an observer: whether it is observing, and the
    records not delivered yet. *)
Record MutationObserver := { mo_observing : bool; mo_records : list mutation }.

Definition mo_new : MutationObserver := {| mo_observing := false; mo_records := [] |}.
Definition mo_observe (mo : MutationObserver) : MutationObserver :=
  {| mo_observing := true; mo_records := mo_records mo |}.
Definition mo_takeRecords (mo : MutationObserver) : MutationObserver :=
  {| mo_observing := mo_observing mo; mo_records := [] |}.
Definition mo_disconnect (mo : MutationObserver) : MutationObserver :=
  {| mo_observing := false; mo_records := [] |}.

(** ** [ElementObserver] *)

Record ElementDelegate (doc D : Type) := {
  ed_matchElement : doc → elem → bool;
  ed_matchElementsInTree : doc → elem → list elem;
  ed_elementMatched : option (doc → D → elem → D);
  ed_elementUnmatched : option (doc → D → elem → D);
  ed_elementAttributeChanged : option (doc → D → elem → string → D);
}.
Arguments ed_matchElement {doc D}.
Arguments ed_matchElementsInTree {doc D}.
Arguments ed_elementMatched {doc D}.
Arguments ed_elementUnmatched {doc D}.
Arguments ed_elementAttributeChanged {doc D}.

Module ElementObserver.

(** The three steps that every operation of the observer is made of. *)
Inductive basic := BAdd (e : elem) | BRemove (e : elem) | BAttr (e : elem) (a : string).

#[export] Instance basic_eq_dec : EqDecision basic.
Proof. solve_decision. Defined.

Record t := mk {
  element : elem;
  started : bool;
  elements : list elem;
  mutationObserver : MutationObserver;
}.

Definition new (e : elem) : t := mk e false [] mo_new.

Section element_observer.
Context {doc : Type} `{Dom doc} {D : Type} (delegate : ElementDelegate doc D).
Implicit Types (dom : doc) (o : t) (d : D) (e : elem) (s : t * D).

Definition matchElement dom e : bool := ed_matchElement delegate dom e.
Definition matchElementsInTree dom (tree : elem) : list elem :=
  ed_matchElementsInTree delegate dom tree.

Definition elementFromNode (n : node) : option elem :=
  match n with ElementNode e => Some e | OtherNode => None end.

Definition elementIsActive dom o e : bool :=
  if decide (isConnected dom e ≠ isConnected dom (element o)) then false
  else contains dom (element o) e.

Definition addElement dom s e : t * D :=
  let '(o, d) := s in
  if JSet.has e (elements o) then (o, d)
  else if elementIsActive dom o e then
    (mk (element o) (started o) (JSet.add e (elements o)) (mutationObserver o),
     match ed_elementMatched delegate with Some f => f dom d e | None => d end)
  else (o, d).

Definition removeElement dom s e : t * D :=
  let '(o, d) := s in
  if JSet.has e (elements o) then
    (mk (element o) (started o) (JSet.delete e (elements o)) (mutationObserver o),
     match ed_elementUnmatched delegate with Some f => f dom d e | None => d end)
  else (o, d).

Definition processTree dom s (tree : elem) (processor : t * D → elem → t * D) : t * D :=
  foldl processor s (matchElementsInTree dom tree).

Definition processAttributeChange dom s e (attributeName : string) : t * D :=
  let '(o, d) := s in
  if JSet.has e (elements o) then
    match ed_elementAttributeChanged delegate with
    | Some f => if matchElement dom e then (o, f dom d e attributeName)
                else removeElement dom (o, d) e
    | None => removeElement dom (o, d) e
    end
  else if matchElement dom e then addElement dom (o, d) e
  else (o, d).

Definition processRemovedNodes dom s (nodes : list node) : t * D :=
  foldl (λ s n, match elementFromNode n with
                | Some e => processTree dom s e (removeElement dom)
                | None => s
                end) s nodes.

Definition processAddedNodes dom s (nodes : list node) : t * D :=
  foldl (λ s n, match elementFromNode n with
                | Some e => if elementIsActive dom s.1 e then processTree dom s e (addElement dom) else s
                | None => s
                end) s nodes.

Definition processMutation dom s (m : mutation) : t * D :=
  match m with
  | AttributesMutation target attributeName => processAttributeChange dom s target attributeName
  | ChildListMutation removedNodes addedNodes =>
    processAddedNodes dom (processRemovedNodes dom s removedNodes) addedNodes
  | OtherMutation => s
  end.

Definition processMutations dom s (mutations : list mutation) : t * D :=
  if started s.1 then foldl (processMutation dom) s mutations else s.

Definition refresh dom s : t * D :=
  if started s.1 then
    let matches := JSet.of_list (matchElementsInTree dom (element s.1)) in
    let s' := foldl (λ s e, if JSet.has e matches then s else removeElement dom s e)
                    s (elements s.1) in
    foldl (addElement dom) s' matches
  else s.

Definition start dom s : t * D :=
  let '(o, d) := s in
  if started o then (o, d)
  else refresh dom (mk (element o) true (elements o) (mo_observe (mutationObserver o)), d).

Definition stop s : t * D :=
  let '(o, d) := s in
  if started o then
    (mk (element o) false (elements o)
        (mo_disconnect (mo_takeRecords (mutationObserver o))), d)
  else (o, d).

#[local] Arguments addElement : simpl never.
#[local] Arguments removeElement : simpl never.
#[local] Arguments processAttributeChange : simpl never.

(** *** Normal form: every operation is a sequence of three basic steps *)

Definition exec dom s (b : basic) : t * D :=
  match b with
  | BAdd e => addElement dom s e
  | BRemove e => removeElement dom s e
  | BAttr e a => processAttributeChange dom s e a
  end.

(** The steps of a mutation record, for the observer of the subtree [root]. *)
Definition removed_basics dom (n : node) : list basic :=
  match elementFromNode n with
  | Some e => BRemove <$> matchElementsInTree dom e
  | None => []
  end.
Definition added_basics dom (root : elem) (n : node) : list basic :=
  match elementFromNode n with
  | Some e => if elementIsActive dom (new root) e then BAdd <$> matchElementsInTree dom e else []
  | None => []
  end.
Definition mutation_basics dom (root : elem) (m : mutation) : list basic :=
  match m with
  | AttributesMutation target a => [BAttr target a]
  | ChildListMutation removed added =>
    (removed ≫= removed_basics dom) ++ (added ≫= added_basics dom root)
  | OtherMutation => []
  end.

Lemma active_root dom o o' e :
  element o = element o' → elementIsActive dom o e = elementIsActive dom o' e.
Proof. unfold elementIsActive. by intros ->. Qed.

Lemma exec_fields dom s b :
  element (exec dom s b).1 = element s.1 ∧ started (exec dom s b).1 = started s.1 ∧
  mutationObserver (exec dom s b).1 = mutationObserver s.1.
Proof.
  destruct s as [o d], b; simpl; unfold processAttributeChange, addElement, removeElement;
    repeat case_match; done.
Qed.

Lemma execs_fields dom s bs :
  element (foldl (exec dom) s bs).1 = element s.1 ∧
  started (foldl (exec dom) s bs).1 = started s.1 ∧
  mutationObserver (foldl (exec dom) s bs).1 = mutationObserver s.1.
Proof.
  revert s. induction bs as [|b bs IH]; intros s; simpl; [done|].
  destruct (IH (exec dom s b)) as (-> & -> & ->). apply exec_fields.
Qed.

Lemma foldl_exec_map {A} dom (f : t * D → A → t * D) (g : A → basic) s (l : list A) :
  (∀ s x, f s x = exec dom s (g x)) → foldl f s l = foldl (exec dom) s (g <$> l).
Proof. intros Hf. revert s. induction l as [|x l IH]; intros s; simpl; [done|]. by rewrite Hf, IH. Qed.

Lemma processRemovedNodes_basics dom s ns :
  processRemovedNodes dom s ns = foldl (exec dom) s (ns ≫= removed_basics dom).
Proof.
  unfold processRemovedNodes. revert s. induction ns as [|n ns IH]; intros s; [done|].
  rewrite bind_cons, foldl_app. simpl. rewrite IH. unfold removed_basics.
  destruct (elementFromNode n); [|done]. unfold processTree.
  by erewrite (foldl_exec_map dom (removeElement dom) BRemove).
Qed.

Lemma processAddedNodes_basics dom s ns :
  processAddedNodes dom s ns = foldl (exec dom) s (ns ≫= added_basics dom (element s.1)).
Proof.
  unfold processAddedNodes. revert s. induction ns as [|n ns IH]; intros s; [done|].
  rewrite bind_cons, foldl_app. simpl. unfold added_basics at 1.
  destruct (elementFromNode n) as [e|]; simpl; [|by rewrite IH].
  rewrite (active_root dom s.1 (new (element s.1)) e) by done.
  destruct (elementIsActive _ _ e); simpl; [|by rewrite IH]. rewrite IH. unfold processTree.
  erewrite (foldl_exec_map dom (addElement dom) BAdd) by done.
  by destruct (execs_fields dom s (BAdd <$> matchElementsInTree dom e)) as (-> & _ & _).
Qed.

Lemma processMutation_basics dom s m :
  processMutation dom s m = foldl (exec dom) s (mutation_basics dom (element s.1) m).
Proof.
  destruct m as [e a|rem add|]; simpl; [by destruct s| |done].
  rewrite foldl_app, processAddedNodes_basics, processRemovedNodes_basics.
  by destruct (execs_fields dom s (rem ≫= removed_basics dom)) as (-> & _ & _).
Qed.

Lemma processMutations_basics dom s ms :
  processMutations dom s ms =
    if started s.1 then foldl (exec dom) s (ms ≫= mutation_basics dom (element s.1)) else s.
Proof.
  unfold processMutations. destruct (started s.1); [|done]. revert s.
  induction ms as [|m ms IH]; intros s; [done|].
  rewrite bind_cons, foldl_app. simpl. rewrite IH, processMutation_basics.
  by destruct (execs_fields dom s (mutation_basics dom (element s.1) m)) as (-> & _ & _).
Qed.

Definition refresh_basics dom o : list basic :=
  let matches := JSet.of_list (matchElementsInTree dom (element o)) in
  (BRemove <$> filter (λ e, negb (JSet.has e matches)) (elements o)) ++ (BAdd <$> matches).

Lemma refresh_basics_eq dom s :
  refresh dom s = if started s.1 then foldl (exec dom) s (refresh_basics dom s.1) else s.
Proof.
  unfold refresh, refresh_basics. destruct (started s.1); [|done]. rewrite foldl_app.
  rewrite (foldl_exec_map dom (addElement dom) BAdd) by done. f_equal.
  generalize (JSet.of_list (matchElementsInTree dom (element s.1))) as matches.
  generalize (elements s.1) as es. intros es matches. revert s.
  induction es as [|e es IH]; intros s; simpl; [done|].
  rewrite filter_cons, IH. by destruct (JSet.has e matches).
Qed.

(** *** Who is in the set after a step *)

Definition in_set s e : bool := JSet.has e (elements s.1).

Definition after dom (root : elem) e (b : bool) (k : basic) : bool :=
  match k with
  | BAdd e' => if decide (e' = e) then b || elementIsActive dom (new root) e else b
  | BRemove e' => if decide (e' = e) then false else b
  | BAttr e' _ =>
    if decide (e' = e) then
      if b then bool_decide (is_Some (ed_elementAttributeChanged delegate)) && matchElement dom e
      else matchElement dom e && elementIsActive dom (new root) e
    else b
  end.

Lemma has_delete x e es :
  JSet.has x (JSet.delete e es) = if decide (e = x) then false else JSet.has x es.
Proof.
  unfold JSet.has. case_decide; subst.
  - apply bool_decide_eq_false. rewrite JSet.elem_of_delete. naive_solver.
  - apply bool_decide_ext. rewrite JSet.elem_of_delete. naive_solver.
Qed.

Lemma has_add x e es :
  JSet.has x (JSet.add e es) = if decide (e = x) then true else JSet.has x es.
Proof.
  unfold JSet.has. case_decide; subst.
  - apply bool_decide_eq_true. rewrite JSet.elem_of_add. by left.
  - apply bool_decide_ext. rewrite JSet.elem_of_add. naive_solver.
Qed.

Lemma in_set_add dom s e x :
  in_set (addElement dom s e) x =
    if decide (e = x) then in_set s x || elementIsActive dom s.1 x else in_set s x.
Proof.
  destruct s as [o d]. unfold in_set, addElement.
  destruct (JSet.has e (elements o)) eqn:He; simpl.
  { case_decide; subst; [by rewrite He|done]. }
  destruct (elementIsActive dom o e) eqn:Ha; simpl; [rewrite has_add|];
    case_decide; subst; by rewrite ?He, ?Ha.
Qed.

Lemma in_set_remove dom s e x :
  in_set (removeElement dom s e) x = if decide (e = x) then false else in_set s x.
Proof.
  destruct s as [o d]. unfold in_set, removeElement.
  destruct (JSet.has e (elements o)) eqn:He; simpl; [by rewrite has_delete|].
  by case_decide; subst.
Qed.

Lemma in_set_exec dom s b x : in_set (exec dom s b) x = after dom (element s.1) x (in_set s x) b.
Proof.
  destruct b as [e|e|e a]; simpl.
  - rewrite in_set_add. by rewrite (active_root dom s.1 (new (element s.1)) x).
  - apply in_set_remove.
  - destruct s as [o d]. unfold processAttributeChange.
    destruct (JSet.has e (elements o)) eqn:He.
    + destruct (ed_elementAttributeChanged delegate); simpl.
      * destruct (matchElement dom e) eqn:Hm; [|rewrite in_set_remove];
          case_decide; subst; unfold in_set; simpl; by rewrite ?He.
      * rewrite in_set_remove. case_decide; subst; unfold in_set; simpl; by rewrite ?He.
    + destruct (matchElement dom e) eqn:Hm; [rewrite in_set_add|];
        case_decide; subst; unfold in_set; simpl; by rewrite ?He, ?Hm.
Qed.

Lemma in_set_execs dom s bs x :
  in_set (foldl (exec dom) s bs) x = foldl (after dom (element s.1) x) (in_set s x) bs.
Proof.
  revert s. induction bs as [|b bs IH]; intros s; simpl; [done|].
  rewrite IH, in_set_exec. by destruct (exec_fields dom s b) as (-> & _ & _).
Qed.
End element_observer.

(** *** What a delegate promises

[Inv] relates the observed set to the delegate's state; [Sync dom d e]
says that the state has the current content of the attribute [watched] of
the element [e]. *)

Record CallbackLaws {doc D : Type} `{Dom doc} (watched : string)
    (Inv : list elem → D → Prop) (Sync : doc → D → elem → Prop)
    (matched unmatched changed : doc → D → elem → D) : Prop := {
  inv_matched dom es d e :
    Inv es d → e ∉ es → Inv (JSet.add e es) (matched dom d e);
  inv_unmatched dom es d e :
    Inv es d → e ∈ es → Inv (JSet.delete e es) (unmatched dom d e);
  inv_changed dom es d e :
    Inv es d → e ∈ es → Inv es (changed dom d e);
  sync_matched dom es d e : Inv es d → e ∉ es → Sync dom (matched dom d e) e;
  sync_matched_other dom es d e e' :
    Inv es d → e ∉ es → e' ≠ e → Sync dom d e' → Sync dom (matched dom d e) e';
  sync_unmatched_other dom es d e e' :
    Inv es d → e ∈ es → e' ≠ e → Sync dom d e' → Sync dom (unmatched dom d e) e';
  sync_changed dom es d e : Inv es d → e ∈ es → Sync dom (changed dom d e) e;
  sync_changed_other dom es d e e' :
    Inv es d → e ∈ es → e' ≠ e → Sync dom d e' → Sync dom (changed dom d e) e';
  sync_dom dom dom' d e :
    getAttribute dom e watched = getAttribute dom' e watched → Sync dom d e → Sync dom' d e;
}.

(** The delegate matches the elements of a tree and forwards to the three
    callbacks, the last one for the watched attribute only. *)
Record Spec {doc D : Type} `{Dom doc} (delegate : ElementDelegate doc D) (watched : string)
    (Inv : list elem → D → Prop) (Sync : doc → D → elem → Prop)
    (matched unmatched changed : doc → D → elem → D) : Prop := {
  spec_matched : ed_elementMatched delegate = Some matched;
  spec_unmatched : ed_elementUnmatched delegate = Some unmatched;
  spec_changed :
    ed_elementAttributeChanged delegate =
      Some (λ dom d e a, if decide (watched = a) then changed dom d e else d);
  spec_tree dom tree e :
    e ∈ ed_matchElementsInTree delegate dom tree ↔
    contains dom tree e = true ∧ ed_matchElement delegate dom e = true;
  spec_laws :> CallbackLaws watched Inv Sync matched unmatched changed;
}.

Section refinement.
Context {doc : Type} `{DomLaws doc} {D : Type} {delegate : ElementDelegate doc D}.
Context {watched : string} {Inv : list elem → D → Prop} {Sync : doc → D → elem → Prop}.
Context {matched unmatched changed : doc → D → elem → D}.
Context (S : Spec delegate watched Inv Sync matched unmatched changed).
Implicit Types (dom : doc) (o : t) (d : D) (e : elem) (s : t * D).

#[local] Abbreviation active := (λ dom root, elementIsActive dom (new root)).
#[local] Abbreviation exec := (exec delegate).
#[local] Abbreviation after := (after delegate).

(** The elements that the observer of [root] should hold. *)
Definition target dom (root e : elem) : bool :=
  matchElement delegate dom e && active dom root e.

Definition inv s : Prop := Inv (elements s.1) s.2.
Definition synced dom s e : Prop := in_set s e = true → Sync dom s.2 e.

(** The set and the delegate's state agree with the document. *)
Definition coherent dom s : Prop :=
  inv s ∧ ∀ e, in_set s e = target dom (element s.1) e ∧ synced dom s e.

Definition basic_ok dom (b : basic) : Prop :=
  match b with BAdd e => matchElement delegate dom e = true | _ => True end.

#[local] Abbreviation laws := (spec_laws _ _ _ _ _ _ _ S).

Lemma step_add dom s e :
  inv s →
  inv (addElement delegate dom s e) ∧
  ∀ e', synced dom s e' → synced dom (addElement delegate dom s e) e'.
Proof.
  destruct s as [o d]. unfold inv, synced, in_set, addElement. intros Hs.
  destruct (JSet.has e (elements o)) eqn:Hh; [done|]. pose proof Hh as Hn%JSet.has_false.
  destruct (elementIsActive dom o e); [|done]. simpl in *. rewrite (spec_matched _ _ _ _ _ _ _ S).
  split; [by apply (inv_matched _ _ _ _ _ _ laws)|].
  intros e' He'. rewrite has_add. case_decide; subst; intros Hin.
  - by eapply (sync_matched _ _ _ _ _ _ laws).
  - eapply (sync_matched_other _ _ _ _ _ _ laws); eauto.
Qed.

Lemma step_remove dom s e :
  inv s →
  inv (removeElement delegate dom s e) ∧
  ∀ e', synced dom s e' → synced dom (removeElement delegate dom s e) e'.
Proof.
  destruct s as [o d]. unfold inv, synced, in_set, removeElement. intros Hs.
  destruct (JSet.has e (elements o)) eqn:Hh; [|done]. pose proof Hh as Hn%JSet.has_true.
  simpl in *. rewrite (spec_unmatched _ _ _ _ _ _ _ S).
  split; [by apply (inv_unmatched _ _ _ _ _ _ laws)|].
  intros e' He'. rewrite has_delete. case_decide; subst; [done|]. intros Hin.
  eapply (sync_unmatched_other _ _ _ _ _ _ laws); eauto.
Qed.

Lemma step_attr dom s e a :
  inv s →
  inv (processAttributeChange delegate dom s e a) ∧
  (∀ e', synced dom s e' → synced dom (processAttributeChange delegate dom s e a) e') ∧
  (a = watched → synced dom (processAttributeChange delegate dom s e a) e).
Proof.
  destruct s as [o d]. intros Hs. unfold processAttributeChange.
  destruct (JSet.has e (elements o)) eqn:Hh; [pose proof Hh as Hn%JSet.has_true|].
  - rewrite (spec_changed _ _ _ _ _ _ _ S). destruct (matchElement delegate dom e) eqn:Hm.
    + unfold inv, synced, in_set in *; simpl in *. case_decide; [|done]. subst a.
      split_and!; [by apply (inv_changed _ _ _ _ _ _ laws)| |].
      * intros e' He' Hin. destruct (decide (e' = e)) as [->|].
        -- by eapply (sync_changed _ _ _ _ _ _ laws).
        -- eapply (sync_changed_other _ _ _ _ _ _ laws); eauto.
      * intros _ _. by eapply (sync_changed _ _ _ _ _ _ laws).
    + destruct (step_remove dom (o, d) e Hs) as [? Hr]. split_and!; [done..|].
      intros _. unfold synced. by rewrite in_set_remove, decide_True.
  - destruct (matchElement delegate dom e) eqn:Hm.
    + destruct (step_add dom (o, d) e Hs) as [? Ha]. split_and!; [done..|].
      intros _. apply Ha. unfold synced, in_set. simpl. by rewrite Hh.
    + split_and!; [done..|]. intros _. unfold synced, in_set. simpl. by rewrite Hh.
Qed.

Lemma step_exec dom s b :
  inv s → inv (exec dom s b) ∧ ∀ e', synced dom s e' → synced dom (exec dom s b) e'.
Proof.
  intros Hs. destruct b as [e|e|e a]; simpl; [by apply step_add|by apply step_remove|].
  by destruct (step_attr dom s e a Hs) as (? & ? & _).
Qed.

Lemma execs_inv dom s bs : inv s → inv (foldl (exec dom) s bs).
Proof.
  revert s. induction bs as [|b bs IH]; intros s Hs; simpl; [done|]. by apply IH, step_exec.
Qed.

Lemma execs_synced dom s bs e :
  inv s → synced dom s e → synced dom (foldl (exec dom) s bs) e.
Proof.
  revert s. induction bs as [|b bs IH]; intros s Hs He; simpl; [done|].
  apply IH; by apply step_exec.
Qed.

(** Once the element has left, or once a change of the watched attribute has
    been processed, its content is current. *)
Lemma execs_refresh_sync dom s bs b e :
  inv s → b ∈ bs → b = BRemove e ∨ b = BAttr e watched →
  synced dom (foldl (exec dom) s bs) e.
Proof.
  intros Hs Hb Hk. revert s Hs.
  induction Hb as [b bs|b b' bs _ IH]; intros s Hs; simpl.
  - apply execs_synced; [by apply step_exec|]. destruct Hk as [-> | ->]; simpl.
    + unfold synced. by rewrite in_set_remove, decide_True.
    + by apply step_attr.
  - apply IH; [done|]. by apply step_exec.
Qed.

(** *** Membership of one element along a sequence of steps *)

Section one_element.
Context (dom : doc) (root e : elem).
#[local] Abbreviation run := (foldl (after dom root e)).

Lemma after_outside b :
  target dom root e = false → basic_ok dom b → after dom root e false b = false.
Proof.
  unfold target. intros Ht Hb. destruct b as [e'|e'|e' a]; simpl in *; case_decide; subst; try done.
  by rewrite Hb in Ht.
Qed.

Lemma run_outside bs :
  target dom root e = false → Forall (basic_ok dom) bs → run false bs = false.
Proof.
  intros Ht. induction 1 as [|b bs Hb _ IH]; simpl; [done|]. by rewrite after_outside.
Qed.

Lemma run_leaves bs b :
  target dom root e = false → Forall (basic_ok dom) bs →
  BRemove e ∈ bs ∨ (matchElement delegate dom e = false ∧ ∃ a, BAttr e a ∈ bs) →
  run b bs = false.
Proof.
  intros Ht Hbs. revert b. induction Hbs as [|k bs Hk Hbs IH]; intros b Hl; simpl.
  { destruct Hl as [Hin|(_ & a & Hin)]; by apply not_elem_of_nil in Hin. }
  destruct (after dom root e b k) eqn:Hak; [|by apply run_outside]. apply IH.
  destruct Hl as [Hin|(Hm & a & Hin)]; [left|right].
  - apply elem_of_cons in Hin as [<-|]; [|done]. simpl in Hak. by rewrite decide_True in Hak.
  - split; [done|]. exists a. apply elem_of_cons in Hin as [<-|]; [|done].
    simpl in Hak. rewrite decide_True, Hm, andb_false_r in Hak by done. by destruct b.
Qed.

Lemma run_stays bs :
  target dom root e = true → BRemove e ∉ bs → run true bs = true.
Proof.
  unfold target. intros [Hm Ha]%andb_true_iff.
  induction bs as [|b bs IH]; simpl; [done|]. rewrite not_elem_of_cons. intros [Hb Hbs].
  assert (after dom root e true b = true) as ->; [|by apply IH].
  destruct b as [e'|e'|e' a]; simpl; case_decide; subst; try done.
  by rewrite Hm, (spec_changed _ _ _ _ _ _ _ S).
Qed.

Lemma run_enters b bs1 k bs2 :
  target dom root e = true → k = BAdd e ∨ (∃ a, k = BAttr e a) → BRemove e ∉ bs2 →
  run b (bs1 ++ k :: bs2) = true.
Proof.
  intros Ht Hk Hbs. rewrite foldl_app. simpl.
  assert (∀ b, after dom root e b k = true) as ->; [|by apply run_stays].
  intros b'. unfold target in Ht. apply andb_true_iff in Ht as [Hm Ha].
  destruct Hk as [-> |[a ->]]; simpl; rewrite decide_True by done.
  - rewrite Ha. apply orb_true_r.
  - rewrite Hm, Ha, (spec_changed _ _ _ _ _ _ _ S). by destruct b'.
Qed.
End one_element.

Lemma elem_of_matchElementsInTree dom tree e :
  e ∈ matchElementsInTree delegate dom tree ↔
  contains dom tree e = true ∧ matchElement delegate dom e = true.
Proof. apply (spec_tree _ _ _ _ _ _ _ S). Qed.

Lemma contains_active dom root e : contains dom root e = true → active dom root e = true.
Proof.
  intros Hc. unfold elementIsActive. simpl.
  by rewrite decide_False, Hc by (rewrite (isConnected_contains dom root e) by done; tauto).
Qed.

Lemma active_contains dom root e : active dom root e = true → contains dom root e = true.
Proof. unfold elementIsActive. simpl. by case_decide. Qed.

Lemma target_elem dom root e :
  target dom root e = true ↔ e ∈ matchElementsInTree delegate dom root.
Proof.
  unfold target. rewrite elem_of_matchElementsInTree, andb_true_iff. split.
  - intros [? ?%active_contains]. done.
  - intros [??]. split; [done|]. by apply contains_active.
Qed.

(** *** [refresh] and [start] *)

Lemma in_set_refresh dom s e :
  started s.1 = true → in_set (refresh delegate dom s) e = target dom (element s.1) e.
Proof.
  intros Hst. rewrite refresh_basics_eq, Hst, in_set_execs. unfold refresh_basics.
  set (ms := matchElementsInTree delegate dom (element s.1)).
  set (rem := filter _ _). destruct (target dom (element s.1) e) eqn:Ht.
  - pose proof Ht as Hin%target_elem.
    assert (BAdd e ∈ BAdd <$> JSet.of_list ms) as (l1 & l2 & Hl)%list_elem_of_split.
    { apply list_elem_of_fmap. exists e. by rewrite JSet.elem_of_of_list. }
    rewrite Hl, (assoc_L (++)). apply run_enters; [done|by left|].
    intros Hr. assert (BRemove e ∈ BAdd <$> JSet.of_list ms) as Hr'.
    { rewrite Hl. apply elem_of_app. right. by right. }
    apply list_elem_of_fmap in Hr' as (? & [=] & _).
  - assert (Forall (basic_ok dom) ((BRemove <$> rem) ++ (BAdd <$> JSet.of_list ms))) as Hok.
    { apply Forall_app. split; apply Forall_fmap, Forall_forall; [done|].
      intros x [_ Hx]%JSet.elem_of_of_list%elem_of_matchElementsInTree. done. }
    destruct (in_set s e) eqn:Hs; [|by apply run_outside].
    apply run_leaves; [done..|]. left. apply elem_of_app. left. apply list_elem_of_fmap.
    exists e. split; [done|]. apply list_elem_of_filter. split; [|by apply JSet.has_true].
    apply Is_true_true, negb_true_iff, JSet.has_false. rewrite JSet.elem_of_of_list.
    intros Hin%target_elem. congruence.
Qed.

Lemma refresh_fields dom s :
  element (refresh delegate dom s).1 = element s.1 ∧
  started (refresh delegate dom s).1 = started s.1.
Proof.
  rewrite refresh_basics_eq. destruct (started s.1) eqn:Hst; [|done].
  destruct (execs_fields delegate dom s (refresh_basics delegate dom s.1)) as (-> & -> & _). done.
Qed.

(** Starting a new observer makes it coherent with the document. *)
Lemma start_coherent dom root d :
  Inv [] d → coherent dom (start delegate dom (new root, d)) ∧
             started (start delegate dom (new root, d)).1 = true.
Proof.
  intros Hd. unfold start, new. simpl.
  set (s := (mk root true [] _, d)). assert (inv s) as Hs by done.
  split; [|by apply (refresh_fields dom s)]. split.
  - rewrite refresh_basics_eq. by apply execs_inv.
  - intros e. destruct (refresh_fields dom s) as [-> _]. split; [by apply in_set_refresh|].
    rewrite refresh_basics_eq. by apply execs_synced.
Qed.

(** *** Mutation records *)

(** The record reports the removal of a tree that holds [e], as of [dom]. *)
Definition removes dom e (m : mutation) : Prop :=
  match m with
  | ChildListMutation removed _ => ∃ n, ElementNode n ∈ removed ∧ contains dom n e = true
  | _ => False
  end.

(** The record reports a change of an attribute of [e], or the insertion
    below [root] of a tree that holds [e]. *)
Definition enters dom (root : elem) e (m : mutation) : Prop :=
  match m with
  | AttributesMutation target _ => target = e
  | ChildListMutation _ added =>
    ∃ n, ElementNode n ∈ added ∧ contains dom n e = true ∧ contains dom root n = true
  | OtherMutation => False
  end.

(** An entry of [e] that no later record undoes. *)
Definition admitted dom root e (ms : list mutation) : Prop :=
  ∃ ms1 m ms2, ms = ms1 ++ m :: ms2 ∧ enters dom root e m ∧ ∀ m', m' ∈ ms2 → ¬ removes dom e m'.

(** The records [ms] account for the difference between the document [dom]
    the observer has seen and the document [dom'] it is run in. *)
Record reported dom dom' (root : elem) (ms : list mutation) : Prop := {
  reported_leaves e :
    target dom root e = true → target dom' root e = false →
    (∃ m, m ∈ ms ∧ removes dom' e m) ∧ matchElement delegate dom' e = true ∨
    matchElement delegate dom' e = false ∧ (∃ a, AttributesMutation e a ∈ ms);
  reported_enters e :
    target dom' root e = true →
    target dom root e = false ∨ (∃ m, m ∈ ms ∧ removes dom' e m) → admitted dom' root e ms;
  reported_content e :
    target dom root e = true → target dom' root e = true →
    getAttribute dom e watched = getAttribute dom' e watched ∨
    AttributesMutation e watched ∈ ms ∨ (∃ m, m ∈ ms ∧ removes dom' e m);
}.

Lemma mutation_basics_remove dom root e ms :
  BRemove e ∈ (ms ≫= mutation_basics delegate dom root) ↔
  matchElement delegate dom e = true ∧ ∃ m, m ∈ ms ∧ removes dom e m.
Proof.
  rewrite list_elem_of_bind. split.
  - intros (m & Hb & Hm). destruct m as [|rem add|]; simpl in Hb; [by no_elem Hb| |by no_elem Hb].
    apply elem_of_app in Hb as [Hb|Hb]; apply list_elem_of_bind in Hb as (n & Hb & Hn).
    + unfold removed_basics in Hb. destruct n as [n|]; simpl in Hb; [|by no_elem Hb].
      apply list_elem_of_fmap in Hb as (? & [= <-] & [??]%elem_of_matchElementsInTree).
      split; [done|]. exists (ChildListMutation rem add). split; [done|]. by exists n.
    + unfold added_basics in Hb. destruct n as [n|]; simpl in Hb; [|by no_elem Hb].
      case_match; [|by no_elem Hb]. by apply list_elem_of_fmap in Hb as (? & [=] & _).
  - intros (Hm & m & Hin & Hr). exists m. split; [|done].
    destruct m as [|rem add|]; simpl in *; [done| |done]. destruct Hr as (n & Hn & Hc).
    apply elem_of_app. left. apply list_elem_of_bind. exists (ElementNode n). split; [|done].
    unfold removed_basics. simpl. apply list_elem_of_fmap. exists e. split; [done|].
    by apply elem_of_matchElementsInTree.
Qed.

Lemma mutation_basics_enter dom root e m :
  target dom root e = true → enters dom root e m →
  ∃ bs1 k bs2, mutation_basics delegate dom root m = bs1 ++ k :: bs2 ∧
    (k = BAdd e ∨ ∃ a, k = BAttr e a) ∧ BRemove e ∉ bs2.
Proof.
  unfold target. intros [Hm Ha]%andb_true_iff He. destruct m as [e' a|rem add|]; simpl in *; [| |done].
  - subst. exists [], (BAttr e a), []. split_and!; [done|eauto|apply not_elem_of_nil].
  - destruct He as (n & Hn & Hne & Hrn).
    assert (BAdd e ∈ add ≫= added_basics delegate dom root) as Hin.
    { apply list_elem_of_bind. exists (ElementNode n). split; [|done].
      unfold added_basics. simpl. rewrite contains_active by done. apply list_elem_of_fmap.
      exists e. split; [done|]. by apply elem_of_matchElementsInTree. }
    pose proof Hin as (bs1 & bs2 & Hbs)%list_elem_of_split. rewrite Hbs.
    eexists (_ ++ bs1), (BAdd e), bs2. split_and!; [by rewrite (assoc_L (++))|by left|].
    intros Hr. assert (BRemove e ∈ add ≫= added_basics delegate dom root) as Hr'.
    { rewrite Hbs. apply elem_of_app. right. by right. }
    apply list_elem_of_bind in Hr' as (n' & Hr' & _). unfold added_basics in Hr'.
    case_match; [|by no_elem Hr']. case_match; [|by no_elem Hr'].
    by apply list_elem_of_fmap in Hr' as (? & [=] & _).
Qed.

Lemma mutation_basics_ok dom root ms :
  Forall (basic_ok dom) (ms ≫= mutation_basics delegate dom root).
Proof.
  apply Forall_forall. intros b (m & Hb & _)%list_elem_of_bind.
  destruct m as [e a|rem add|]; simpl in Hb; [by no_elem Hb| |by no_elem Hb].
  apply elem_of_app in Hb as [Hb|Hb]; apply list_elem_of_bind in Hb as (n & Hb & _).
  - unfold removed_basics in Hb. case_match; [|by no_elem Hb].
    by apply list_elem_of_fmap in Hb as (? & -> & _).
  - unfold added_basics in Hb. case_match; [|by no_elem Hb]. case_match; [|by no_elem Hb].
    by apply list_elem_of_fmap in Hb as (? & -> & [??]%elem_of_matchElementsInTree).
Qed.

Lemma attr_basic dom root e a ms :
  AttributesMutation e a ∈ ms → BAttr e a ∈ ms ≫= mutation_basics delegate dom root.
Proof.
  intros Ha. apply list_elem_of_bind. exists (AttributesMutation e a). split; [|done].
  by apply list_elem_of_singleton.
Qed.

Lemma admitted_run dom root e ms b :
  target dom root e = true → admitted dom root e ms →
  foldl (after dom root e) b (ms ≫= mutation_basics delegate dom root) = true.
Proof.
  intros Ht (ms1 & m & ms2 & -> & He & Hms).
  destruct (mutation_basics_enter dom root e m Ht He) as (bs1 & k & bs2 & Hm & Hk & Hbs).
  rewrite bind_app, bind_cons, Hm, <-(assoc_L (++) bs1), (assoc_L (++)), <-app_comm_cons.
  apply run_enters; [done..|]. intros [?|Hr]%elem_of_app; [done|].
  apply mutation_basics_remove in Hr as (_ & m' & Hm' & Hr). by eapply Hms.
Qed.

(** Processing the records of a change restores coherence. *)
Lemma processMutations_coherent dom dom' s ms :
  started s.1 = true → coherent dom s → reported dom dom' (element s.1) ms →
  coherent dom' (processMutations delegate dom' s ms).
Proof.
  intros Hst [Hs Hc] Hr. rewrite processMutations_basics, Hst.
  set (root := element s.1) in *. set (bs := ms ≫= mutation_basics delegate dom' root).
  split; [by apply execs_inv|]. intros e. destruct (Hc e) as [Hin Hsy].
  destruct (execs_fields delegate dom' s bs) as (-> & _ & _). fold root.
  assert (in_set (foldl (exec dom') s bs) e = target dom' root e) as Hmem.
  { rewrite in_set_execs, Hin. fold root. destruct (target dom' root e) eqn:Ht'.
    - destruct (decide (BRemove e ∈ bs)) as [Hb|Hb].
      + apply admitted_run; [done|]. apply (reported_enters _ _ _ _ Hr); [done|].
        apply mutation_basics_remove in Hb as [_ ?]. by right.
      + destruct (target dom root e) eqn:Ht; [by apply run_stays|].
        apply admitted_run; [done|]. apply (reported_enters _ _ _ _ Hr); auto.
    - pose proof (mutation_basics_ok dom' root ms) as Hok.
      destruct (target dom root e) eqn:Ht; [|by apply run_outside]. apply run_leaves; [done..|].
      destruct (reported_leaves _ _ _ _ Hr e Ht Ht') as [[Hm ?]|(Hm & a & Ha)].
      + left. by apply mutation_basics_remove.
      + right. split; [done|]. exists a. by eapply attr_basic. }
  split; [done|]. destruct (target dom' root e) eqn:Ht'; [|unfold synced; by rewrite Hmem].
  destruct (target dom root e) eqn:Ht.
  2: { apply execs_synced; [done|]. unfold synced. by rewrite Hin. }
  destruct (reported_content _ _ _ _ Hr e Ht Ht') as [Hv|[Ha|Hrm]].
  - apply execs_synced; [done|]. intros Hi. by eapply (sync_dom _ _ _ _ _ _ laws), Hsy.
  - eapply execs_refresh_sync; [done|by eapply attr_basic|by right].
  - apply execs_refresh_sync with (b := BRemove e); [done| |by left].
    apply mutation_basics_remove. split; [|done]. by apply andb_true_iff in Ht' as [? _].
Qed.
End refinement.
End ElementObserver.

(** ** [AttributeObserver] *)

Record AttributeDelegate (doc D : Type) := {
  ad_elementMatchedAttribute : option (doc → D → elem → string → D);
  ad_elementUnmatchedAttribute : option (doc → D → elem → string → D);
  ad_elementAttributeValueChanged : option (doc → D → elem → string → D);
}.
Arguments ad_elementMatchedAttribute {doc D}.
Arguments ad_elementUnmatchedAttribute {doc D}.
Arguments ad_elementAttributeValueChanged {doc D}.

Module AttributeObserver.

Record t := mk { attributeName : string; elementObserver : ElementObserver.t }.

Definition new (e : elem) (attributeName : string) : t :=
  mk attributeName (ElementObserver.new e).

Definition element (o : t) : elem := ElementObserver.element (elementObserver o).
Definition started (o : t) : bool := ElementObserver.started (elementObserver o).

Section attribute_observer.
Context {doc : Type} `{Dom doc} {D : Type}.
Context (attributeName : string) (delegate : AttributeDelegate doc D).

Definition selector : selector := HasAttribute attributeName.

Definition matchElement (dom : doc) (e : elem) : bool := hasAttribute dom e attributeName.

Definition matchElementsInTree (dom : doc) (tree : elem) : list elem :=
  let match_ := if matchElement dom tree then [tree] else [] in
  match_ ++ querySelectorAll dom tree selector.

Definition elementMatched (dom : doc) (d : D) (e : elem) : D :=
  match ad_elementMatchedAttribute delegate with
  | Some f => f dom d e attributeName
  | None => d
  end.

Definition elementUnmatched (dom : doc) (d : D) (e : elem) : D :=
  match ad_elementUnmatchedAttribute delegate with
  | Some f => f dom d e attributeName
  | None => d
  end.

Definition elementAttributeChanged (dom : doc) (d : D) (e : elem) (name : string) : D :=
  match ad_elementAttributeValueChanged delegate with
  | Some f => if decide (attributeName = name) then f dom d e name else d
  | None => d
  end.

(** The observer as the delegate of its [ElementObserver]. *)
Definition element_delegate : ElementDelegate doc D := {|
  ed_matchElement := matchElement;
  ed_matchElementsInTree := matchElementsInTree;
  ed_elementMatched := Some elementMatched;
  ed_elementUnmatched := Some elementUnmatched;
  ed_elementAttributeChanged := Some elementAttributeChanged;
|}.

Lemma elem_of_attribute_tree dom tree e :
  e ∈ matchElementsInTree dom tree ↔ contains dom tree e = true ∧ matchElement dom e = true.
Proof.
  unfold matchElementsInTree. rewrite elem_of_app, elem_of_querySelectorAll, contains_true.
  simpl. fold (matchElement dom e).
  destruct (matchElement dom tree) eqn:Ht; rewrite ?list_elem_of_singleton.
  - naive_solver.
  - pose proof (not_elem_of_nil e). split; [naive_solver|].
    intros [[->|?] He]; [congruence|]. by right.
Qed.
End attribute_observer.

Section operations.
Context {doc : Type} `{Dom doc} {D : Type} (delegate : AttributeDelegate doc D).

(** The state of the observer and of its delegate, seen as the state of the
    inner observer and back. *)
Definition with_inner (f : ElementDelegate doc D → ElementObserver.t * D → ElementObserver.t * D)
    (s : t * D) : t * D :=
  let '(o, d) := s in
  let '(eo, d) := f (element_delegate (attributeName o) delegate) (elementObserver o, d) in
  (mk (attributeName o) eo, d).

Definition start (dom : doc) : t * D → t * D :=
  with_inner (λ del, ElementObserver.start del dom).
Definition stop : t * D → t * D := with_inner (λ _, ElementObserver.stop).
Definition refresh (dom : doc) : t * D → t * D :=
  with_inner (λ del, ElementObserver.refresh del dom).
Definition processMutations (dom : doc) (ms : list mutation) : t * D → t * D :=
  with_inner (λ del s, ElementObserver.processMutations del dom s ms).
End operations.
End AttributeObserver.
