(* ===== verification/Tokens.v ===== *)
(** Token lists: [TokenListObserver] reads the white-space separated tokens of
    an attribute on every matched element and tells its delegate which tokens
    come and go.

Models [src/gui/web/assets/scripts/stimulus.js], the class
[TokenListObserver] and the functions [parseTokenString], [zip] and
[tokensAreEqual].  A token is a JavaScript object: [tok_id] is its
identity, drawn from the counter [next_token]. *)

From S2P Require Import Prelude JsCore JsString Dom Multimaps Observers.

Record token := mk_token {
  tok_id : nat;
  tok_element : elem;
  tok_attributeName : string;
  tok_content : string;
  tok_index : nat;
}.

#[export] Instance token_eq_dec : EqDecision token.
Proof. solve_decision. Defined.

(** ** Parsing and comparing *)

(** The strings that [parseTokenString] makes tokens of. *)
Definition token_contents (tokenString : string) : list string :=
  filter (λ content, Str.non_empty content) (Str.split_ws (Str.trim tokenString)).

Definition parseTokenString (next : nat) (tokenString : string) (element : elem)
    (attributeName : string) : list token :=
  imap (λ index content, mk_token (next + index) element attributeName content index)
       (token_contents tokenString).

Definition zip {A B : Type} (left : list A) (right : list B) : list (option A * option B) :=
  let length := length left `max` length right in
  (λ index, (left !! index, right !! index)) <$> seq 0 length.

Definition tokensAreEqual (left right : option token) : bool :=
  match left, right with
  | Some l, Some r =>
    bool_decide (tok_index l = tok_index r) && bool_decide (tok_content l = tok_content r)
  | _, _ => false
  end.

Lemma token_contents_words s : token_contents s = Str.words s.
Proof. apply (Str.words_trim s). Qed.

Lemma length_parseTokenString n s e a :
  length (parseTokenString n s e a) = length (token_contents s).
Proof. apply length_imap. Qed.

Lemma lookup_parseTokenString n s e a i tok :
  parseTokenString n s e a !! i = Some tok ↔
  ∃ c, token_contents s !! i = Some c ∧ tok = mk_token (n + i) e a c i.
Proof.
  unfold parseTokenString. rewrite list_lookup_imap, fmap_Some. naive_solver.
Qed.

Lemma parseTokenString_contents n s e a :
  tok_content <$> parseTokenString n s e a = token_contents s.
Proof.
  apply list_eq. intros i. rewrite list_lookup_fmap. unfold parseTokenString.
  rewrite list_lookup_imap. by destruct (token_contents s !! i).
Qed.

Lemma parseTokenString_indexes n s e a :
  tok_index <$> parseTokenString n s e a = seq 0 (length (token_contents s)).
Proof.
  apply list_eq. intros i. rewrite list_lookup_fmap. unfold parseTokenString.
  rewrite list_lookup_imap. destruct (token_contents s !! i) eqn:Hi; simpl.
  - apply lookup_lt_Some in Hi. by rewrite lookup_seq_lt.
  - apply lookup_ge_None in Hi. by rewrite lookup_seq_ge.
Qed.

Lemma lookup_zip {A B} (l : list A) (r : list B) i :
  i < length l ∨ i < length r → zip l r !! i = Some (l !! i, r !! i).
Proof.
  intros Hi. unfold zip. rewrite list_lookup_fmap, lookup_seq_lt by lia. done.
Qed.

(** The first position where two token lists differ. *)
Lemma zip_no_difference (l r : list token) :
  list_find (λ pc, negb (tokensAreEqual pc.1 pc.2)) (zip l r) = None →
  tok_content <$> l = tok_content <$> r.
Proof.
  intros Hn. apply list_find_None in Hn. rewrite Forall_lookup in Hn.
  assert (∀ i, i < length l ∨ i < length r → tokensAreEqual (l !! i) (r !! i) = true) as Heq.
  { intros i Hi. specialize (Hn i _ (lookup_zip l r i Hi)). simpl in Hn.
    by destruct (tokensAreEqual _ _). }
  apply list_eq. intros i. rewrite !list_lookup_fmap.
  destruct (decide (i < length l ∨ i < length r)) as [Hi|Hi].
  - specialize (Heq i Hi). unfold tokensAreEqual in Heq.
    destruct (l !! i), (r !! i); try done. apply andb_true_iff in Heq as [_ Hc].
    apply bool_decide_eq_true in Hc. simpl. by rewrite Hc.
  - by rewrite !lookup_ge_None_2 by lia.
Qed.

Lemma zip_first_difference (l r : list token) i pc :
  list_find (λ pc, negb (tokensAreEqual pc.1 pc.2)) (zip l r) = Some (i, pc) →
  tok_content <$> take i l = tok_content <$> take i r ∧ i ≤ length l ∧ i ≤ length r.
Proof.
  intros (Hi & _ & Hlt)%list_find_Some.
  assert (i < length l `max` length r) as Hm.
  { apply lookup_lt_Some in Hi. unfold zip in Hi. by rewrite length_fmap, length_seq in Hi. }
  assert (∀ j, j < i → tokensAreEqual (l !! j) (r !! j) = true) as Heq.
  { intros j Hj. assert (zip l r !! j = Some (l !! j, r !! j)) as Hz by (apply lookup_zip; lia).
    specialize (Hlt j _ Hz Hj). simpl in Hlt. by destruct (tokensAreEqual _ _). }
  assert (∀ j, j < i → is_Some (l !! j) ∧ is_Some (r !! j)) as Hsome.
  { intros j Hj. specialize (Heq j Hj). unfold tokensAreEqual in Heq.
    destruct (l !! j), (r !! j); naive_solver. }
  split_and!.
  - apply list_eq. intros j. rewrite !list_lookup_fmap.
    destruct (decide (j < i)) as [Hj|Hj]; [|by rewrite !lookup_take_ge by lia].
    rewrite !lookup_take_lt by done. specialize (Heq j Hj). unfold tokensAreEqual in Heq.
    destruct (l !! j), (r !! j); try done. apply andb_true_iff in Heq as [_ Hc].
    apply bool_decide_eq_true in Hc. simpl. by rewrite Hc.
  - destruct i as [|i]; [lia|]. destruct (Hsome i) as [Hl _]; [lia|].
    by apply lookup_lt_is_Some in Hl.
  - destruct i as [|i]; [lia|]. destruct (Hsome i) as [_ Hr]; [lia|].
    by apply lookup_lt_is_Some in Hr.
Qed.

(** ** [TokenListObserver] *)

Record TokenDelegate (doc D : Type) := {
  td_tokenMatched : doc → D → token → D;
  td_tokenUnmatched : doc → D → token → D;
}.
Arguments td_tokenMatched {doc D}.
Arguments td_tokenUnmatched {doc D}.

Module TokenListObserver.

(** The state next to the attribute observer, and the counter of token
    identities. *)
Record core := mk_core {
  tokensByElement : Multimap.t elem token;
  next_token : nat;
}.

Definition new_core : core := mk_core Multimap.empty 0.

Section token_list_observer.
Context {doc : Type} `{Dom doc} {D : Type}.
Context (attributeName : string) (delegate : TokenDelegate doc D).
Implicit Types (dom : doc) (c : core) (d : D) (e : elem) (s : core * D).

Definition readTokensForElement dom c e : core * list token :=
  let tokenString := default "" (getAttribute dom e attributeName) in
  let tokens := parseTokenString (next_token c) tokenString e attributeName in
  (mk_core (tokensByElement c) (next_token c + length tokens), tokens).

Definition refreshTokensForElement dom c e : core * (list token * list token) :=
  let previousTokens := Multimap.getValuesForKey (tokensByElement c) e in
  let '(c, currentTokens) := readTokensForElement dom c e in
  match list_find (λ pc, negb (tokensAreEqual pc.1 pc.2)) (zip previousTokens currentTokens) with
  | None => (c, ([], []))
  | Some (firstDifferingIndex, _) =>
    (c, (drop firstDifferingIndex previousTokens, drop firstDifferingIndex currentTokens))
  end.

Definition tokenMatched dom s (tok : token) : core * D :=
  let '(c, d) := s in
  (mk_core (Multimap.add (tokensByElement c) (tok_element tok) tok) (next_token c),
   td_tokenMatched delegate dom d tok).

Definition tokenUnmatched dom s (tok : token) : core * D :=
  let '(c, d) := s in
  (mk_core (Multimap.delete (tokensByElement c) (tok_element tok) tok) (next_token c),
   td_tokenUnmatched delegate dom d tok).

Definition tokensMatched dom s (tokens : list token) : core * D :=
  foldl (tokenMatched dom) s tokens.
Definition tokensUnmatched dom s (tokens : list token) : core * D :=
  foldl (tokenUnmatched dom) s tokens.

Definition elementMatchedAttribute dom s e : core * D :=
  let '(c, d) := s in
  let '(c, tokens) := readTokensForElement dom c e in
  tokensMatched dom (c, d) tokens.

Definition elementAttributeValueChanged dom s e : core * D :=
  let '(c, d) := s in
  let '(c, (unmatchedTokens, matchedTokens)) := refreshTokensForElement dom c e in
  tokensMatched dom (tokensUnmatched dom (c, d) unmatchedTokens) matchedTokens.

Definition elementUnmatchedAttribute dom s e : core * D :=
  let '(c, d) := s in
  tokensUnmatched dom (c, d) (Multimap.getValuesForKey (tokensByElement c) e).

(** The observer as the delegate of its [AttributeObserver]. *)
Definition attribute_delegate : AttributeDelegate doc (core * D) := {|
  ad_elementMatchedAttribute := Some (λ dom s e _, elementMatchedAttribute dom s e);
  ad_elementUnmatchedAttribute := Some (λ dom s e _, elementUnmatchedAttribute dom s e);
  ad_elementAttributeValueChanged := Some (λ dom s e _, elementAttributeValueChanged dom s e);
|}.

(** *** What the observer promises

[Live n ts d] says that the delegate's state [d] accounts for the live
tokens [ts], and that tokens with an identity from [n] on are new to
it. *)
Record TokenLaws (Live : nat → list token → D → Prop) : Prop := {
  live_perm n ts ts' d : ts ≡ₚ ts' → Live n ts d → Live n ts' d;
  live_mono n n' ts d : n ≤ n' → Live n ts d → Live n' ts d;
  live_matched dom n ts d tok :
    Live n ts d → n ≤ tok_id tok →
    Live (S (tok_id tok)) (tok :: ts) (td_tokenMatched delegate dom d tok);
  live_unmatched dom n ts d tok :
    Live n (tok :: ts) d → Live n ts (td_tokenUnmatched delegate dom d tok);
}.

#[local] Notation tbe c := (Multimap.valuesByKey (tokensByElement c)).

(** The live tokens, and those of one element in order. *)
Definition live (c : core) : list token := (pairs (tbe c)).*2.
Definition tokens_of (c : core) e : list token := bucket (tbe c) e.

Context {Live : nat → list token → D → Prop} (L : TokenLaws Live).

Record mid (n : nat) (s : core * D) : Prop := {
  mid_wf : wf (tbe s.1);
  mid_tok e tok :
    tok ∈ tokens_of s.1 e →
    tok_element tok = e ∧ tok_attributeName tok = attributeName ∧ tok_id tok < n;
  mid_live : Live n (live s.1) s.2;
}.

Lemma mid_mono n n' s : n ≤ n' → mid n s → mid n' s.
Proof.
  intros Hn [Hw Ht Hl]. split; [done| |by eapply (live_mono _ L)].
  intros e tok Hin. destruct (Ht e tok Hin) as (?&?&?). split_and!; [done..|lia].
Qed.

Lemma NoDup_tokens_of n s e : mid n s → NoDup (tokens_of s.1 e).
Proof. intros Hm. apply bucket_NoDup, (mid_wf _ _ Hm). Qed.

Lemma tokens_of_matched dom s tok e :
  tokens_of (tokenMatched dom s tok).1 e =
    if decide (tok_element tok = e) then JSet.add tok (tokens_of s.1 e) else tokens_of s.1 e.
Proof.
  destruct s as [c d]. unfold tokens_of. simpl. rewrite bucket_add. case_decide; by subst.
Qed.

Lemma tokens_of_unmatched dom s tok e :
  tokens_of (tokenUnmatched dom s tok).1 e =
    if decide (tok_element tok = e) then JSet.delete tok (tokens_of s.1 e) else tokens_of s.1 e.
Proof.
  destruct s as [c d]. unfold tokens_of. simpl. rewrite bucket_del. case_decide; by subst.
Qed.

Lemma mid_tokenMatched dom n s tok :
  mid n s → n ≤ tok_id tok → tok_attributeName tok = attributeName →
  mid (S (tok_id tok)) (tokenMatched dom s tok) ∧
  tok ∉ tokens_of s.1 (tok_element tok).
Proof.
  intros Hm Hn Ha. assert (tok ∉ tokens_of s.1 (tok_element tok)) as Hnew.
  { intros (_ & _ & ?)%(mid_tok _ _ Hm). lia. }
  split; [|done]. destruct Hm as [Hw Ht Hl]. split.
  - destruct s as [c d]. by apply wf_add.
  - intros e tok'. rewrite tokens_of_matched. case_decide as He.
    + rewrite JSet.elem_of_add. intros [->|Hin]; [split_and!; [done..|lia]|].
      destruct (Ht _ _ Hin) as (?&?&?). split_and!; [done..|lia].
    + intros Hin. destruct (Ht _ _ Hin) as (?&?&?). split_and!; [done..|lia].
  - destruct s as [c d]. simpl in *. eapply (live_perm _ L); [|by eapply (live_matched _ L)].
    unfold live. simpl. by rewrite (fmap_Permutation snd _ _ (pairs_add _ _ _ Hw Hnew)).
Qed.

Lemma mid_tokenUnmatched dom n s tok :
  mid n s → tok ∈ tokens_of s.1 (tok_element tok) → mid n (tokenUnmatched dom s tok).
Proof.
  intros [Hw Ht Hl] Hin. split.
  - destruct s as [c d]. by apply wf_del.
  - intros e tok'. rewrite tokens_of_unmatched. case_decide as He; [|apply Ht].
    rewrite JSet.elem_of_delete. intros [_ ?]. by apply Ht.
  - destruct s as [c d]. simpl in *. apply (live_unmatched _ L). eapply (live_perm _ L); [|done].
    unfold live. simpl. by rewrite (fmap_Permutation snd _ _ (pairs_del _ _ _ Hw Hin)).
Qed.

(** *** Batches *)

(** Newly read tokens of [e], with identities from [k] on. *)
Definition fresh_batch (k : nat) e (toks : list token) : Prop :=
  ∀ i tok, toks !! i = Some tok →
    tok_id tok = k + i ∧ tok_element tok = e ∧ tok_attributeName tok = attributeName.

Lemma fresh_batch_parse k str e : fresh_batch k e (parseTokenString k str e attributeName).
Proof. intros i tok (c & _ & ->)%lookup_parseTokenString. done. Qed.

Lemma fresh_batch_drop k e j toks : fresh_batch k e toks → fresh_batch (k + j) e (drop j toks).
Proof.
  intros Hf i tok. rewrite lookup_drop. intros (?&?&?)%Hf. split_and!; [lia|done..].
Qed.

Lemma tokensMatched_spec dom n k s e toks :
  mid n s → n ≤ k → fresh_batch k e toks →
  mid (k + length toks) (tokensMatched dom s toks) ∧
  (∀ e', tokens_of (tokensMatched dom s toks).1 e' =
    if decide (e = e') then tokens_of s.1 e' ++ toks else tokens_of s.1 e').
Proof.
  unfold tokensMatched. revert n k s. induction toks as [|tok toks IH]; intros n k s Hm Hk Hf; simpl.
  { split; [eapply mid_mono; [|done]; lia|]. intros e'. by rewrite app_nil_r; case_decide. }
  destruct (Hf 0 tok eq_refl) as (Hid & He & Ha). rewrite Nat.add_0_r in Hid.
  destruct (mid_tokenMatched dom n s tok) as [Hm' Hnew]; [done|lia|done|].
  destruct (IH (S k) (S k) (tokenMatched dom s tok)) as [Hmid Hof].
  - by rewrite <-Hid.
  - done.
  - intros i tok' Hi. destruct (Hf (S i) tok' Hi) as (?&?&?). split_and!; [lia|done..].
  - split; [by rewrite Nat.add_succ_r|]. intros e'. rewrite Hof, !tokens_of_matched, He.
    case_decide; subst; [|done]. by rewrite JSet.add_absent, <-(assoc_L (++)).
Qed.

Lemma tokensUnmatched_spec dom n s e pre toks :
  mid n s → tokens_of s.1 e = pre ++ toks →
  mid n (tokensUnmatched dom s toks) ∧
  (∀ e', tokens_of (tokensUnmatched dom s toks).1 e' =
    if decide (e = e') then pre else tokens_of s.1 e').
Proof.
  unfold tokensUnmatched. revert s. induction toks as [|tok toks IH]; intros s Hm Hb; simpl.
  { split; [done|]. intros e'. case_decide; [subst; by rewrite Hb, app_nil_r|done]. }
  assert (tok ∈ tokens_of s.1 e) as Hin.
  { rewrite Hb. apply elem_of_app. right. by left. }
  destruct (mid_tok _ _ Hm _ _ Hin) as (He & _ & _).
  assert (JSet.delete tok (pre ++ tok :: toks) = pre ++ toks) as Hdel.
  { pose proof (NoDup_tokens_of n s e Hm) as Hnd. rewrite Hb in Hnd.
    apply NoDup_app in Hnd as (_ & Hdis & [Htok _]%NoDup_cons).
    unfold JSet.delete. rewrite filter_app, filter_cons_False by naive_solver.
    rewrite !filter_ne_notin; [done|done|]. intros Hp. apply (Hdis _ Hp). by left. }
  destruct (IH (tokenUnmatched dom s tok)) as [Hm' Hof].
  - apply mid_tokenUnmatched; [done|]. by rewrite He.
  - by rewrite tokens_of_unmatched, decide_True, Hb.
  - split; [done|]. intros e'. rewrite Hof, tokens_of_unmatched, He. by case_decide.
Qed.

(** *** The observer keeps what it promises *)

Record Inv (es : list elem) (s : core * D) : Prop := {
  inv_mid : mid (next_token s.1) s;
  inv_elements e : tokens_of s.1 e ≠ [] → e ∈ es;
  inv_index e : tok_index <$> tokens_of s.1 e = seq 0 (length (tokens_of s.1 e));
}.

(** The tokens of [e] are the words of its attribute. *)
Definition Sync dom (s : core * D) e : Prop :=
  tok_content <$> tokens_of s.1 e = Str.words (default "" (getAttribute dom e attributeName)).

Lemma next_token_matched dom s toks :
  next_token (tokensMatched dom s toks).1 = next_token s.1.
Proof.
  unfold tokensMatched. revert s. induction toks as [|tok toks IH]; intros [c d]; [done|].
  simpl. by rewrite IH.
Qed.

Lemma next_token_unmatched dom s toks :
  next_token (tokensUnmatched dom s toks).1 = next_token s.1.
Proof.
  unfold tokensUnmatched. revert s. induction toks as [|tok toks IH]; intros [c d]; [done|].
  simpl. by rewrite IH.
Qed.

Lemma mid_core n c c' d : tokensByElement c = tokensByElement c' → mid n (c, d) → mid n (c', d).
Proof. destruct c, c'; simpl. intros ->. by intros [??]. Qed.

(** What [elementMatchedAttribute] leaves for each element. *)
Lemma elementMatched_spec dom es s e :
  Inv es s → e ∉ es →
  let s' := elementMatchedAttribute dom s e in
  mid (next_token s'.1) s' ∧
  (∀ e', e' ≠ e → tokens_of s'.1 e' = tokens_of s.1 e') ∧
  tokens_of s'.1 e =
    parseTokenString (next_token s.1) (default "" (getAttribute dom e attributeName)) e attributeName.
Proof.
  destruct s as [c d]. intros [Hm He _] Hin. unfold elementMatchedAttribute, readTokensForElement.
  set (toks := parseTokenString _ _ _ _). set (c' := mk_core _ _).
  assert (mid (next_token c) (c', d)) as Hm' by by apply (mid_core _ c).
  destruct (tokensMatched_spec dom _ (next_token c) (c', d) e toks Hm') as [Hmid Hof];
    [done|apply fresh_batch_parse|]. cbv zeta. split_and!.
  - rewrite next_token_matched. done.
  - intros e' Hne. by rewrite Hof, decide_False.
  - rewrite Hof, decide_True by done.
    assert (tokens_of c e = []) as Hnil.
    { destruct (tokens_of c e) eqn:Ht; [done|]. destruct Hin. apply He. simpl. by rewrite Ht. }
    change (tokens_of (c', d).1 e) with (tokens_of c e). by rewrite Hnil.
Qed.

Lemma elementUnmatched_spec dom es s e :
  Inv es s →
  let s' := elementUnmatchedAttribute dom s e in
  mid (next_token s'.1) s' ∧
  (∀ e', tokens_of s'.1 e' = if decide (e = e') then [] else tokens_of s.1 e').
Proof.
  destruct s as [c d]. intros [Hm He _]. unfold elementUnmatchedAttribute. cbv zeta.
  assert (Multimap.getValuesForKey (tokensByElement c) e = tokens_of c e) as ->.
  { unfold Multimap.getValuesForKey, tokens_of, bucket. by destruct (JMap.get e _). }
  destruct (tokensUnmatched_spec dom _ (c, d) e [] (tokens_of c e) Hm eq_refl) as [Hmid Hof].
  split; [|done]. by rewrite next_token_unmatched.
Qed.

(** What [elementAttributeValueChanged] leaves: the old tokens up to the
    first difference, then newly read ones. *)
Lemma elementChanged_spec dom es s e :
  Inv es s →
  let s' := elementAttributeValueChanged dom s e in
  let read := parseTokenString (next_token s.1)
                (default "" (getAttribute dom e attributeName)) e attributeName in
  mid (next_token s'.1) s' ∧
  (∀ e', e' ≠ e → tokens_of s'.1 e' = tokens_of s.1 e') ∧
  ∃ i, i ≤ length read ∧
    tok_content <$> take i (tokens_of s.1 e) = tok_content <$> take i read ∧
    i ≤ length (tokens_of s.1 e) ∧
    tokens_of s'.1 e = take i (tokens_of s.1 e) ++ drop i read.
Proof.
  destruct s as [c d]. intros [Hm He _].
  unfold elementAttributeValueChanged, refreshTokensForElement, readTokensForElement.
  assert (Multimap.getValuesForKey (tokensByElement c) e = tokens_of c e) as ->.
  { unfold Multimap.getValuesForKey, tokens_of, bucket. by destruct (JMap.get e _). }
  set (read := parseTokenString _ _ _ _). set (c' := mk_core _ _). cbv zeta.
  assert (mid (next_token c) (c', d)) as Hm' by by apply (mid_core _ c).
  destruct (list_find _ _) as [[i pc]|] eqn:Hf.
  - apply zip_first_difference in Hf as (Hc & Hil & Hir).
    destruct (tokensUnmatched_spec dom _ (c', d) e (take i (tokens_of c e))
                (drop i (tokens_of c e)) Hm') as [Hu Hou].
    { by rewrite take_drop. }
    destruct (tokensMatched_spec dom _ (next_token c + i) _ e (drop i read) Hu) as [Hmm Hom];
      [lia|apply fresh_batch_drop, fresh_batch_parse|]. split_and!.
    + rewrite next_token_matched, next_token_unmatched. simpl. rewrite length_drop in Hmm.
      eapply mid_mono; [|exact Hmm]. lia.
    + intros e' Hne. by rewrite Hom, decide_False, Hou, decide_False by done.
    + exists i. split_and!; [done..|]. by rewrite Hom, !decide_True, Hou, decide_True by done.
  - apply zip_no_difference in Hf.
    assert (length (tokens_of c e) = length read) as Hlen.
    { rewrite <-(length_fmap tok_content), Hf. apply length_fmap. }
    simpl. split_and!.
    + eapply mid_mono; [|exact Hm']. simpl. lia.
    + done.
    + exists (length read). rewrite firstn_all, drop_all, app_nil_r.
      rewrite !take_ge by lia. split_and!; [done..|lia|done].
Qed.

Lemma inv_matched_elements dom es s e :
  Inv es s → e ∉ es → Inv (JSet.add e es) (elementMatchedAttribute dom s e).
Proof.
  intros Hi He. destruct (elementMatched_spec dom es s e Hi He) as (Hm & Ho & Ht).
  split; [done| |]; intros e'.
  - rewrite JSet.elem_of_add. destruct (decide (e' = e)) as [|Hne]; [by left|].
    rewrite Ho by done. intros ?%(inv_elements _ _ Hi). by right.
  - destruct (decide (e' = e)) as [->|Hne].
    + by rewrite Ht, parseTokenString_indexes, length_parseTokenString.
    + rewrite Ho by done. apply (inv_index _ _ Hi).
Qed.

Lemma inv_unmatched_elements dom es s e :
  Inv es s → Inv (JSet.delete e es) (elementUnmatchedAttribute dom s e).
Proof.
  intros Hi. destruct (elementUnmatched_spec dom es s e Hi) as (Hm & Ho).
  split; [done| |]; intros e'; rewrite Ho; case_decide as Hd; [done| |done|].
  - intros ?%(inv_elements _ _ Hi). rewrite JSet.elem_of_delete. auto.
  - apply (inv_index _ _ Hi).
Qed.

Lemma inv_changed_elements dom es s e :
  Inv es s → e ∈ es → Inv es (elementAttributeValueChanged dom s e).
Proof.
  intros Hi He. destruct (elementChanged_spec dom es s e Hi) as (Hm & Ho & i & Hir & Hc & Hil & Ht).
  split; [done| |]; intros e'; (destruct (decide (e' = e)) as [->|Hne]; [|rewrite Ho by done]).
  - done.
  - apply (inv_elements _ _ Hi).
  - rewrite Ht, fmap_app, length_app, length_take, length_drop.
    rewrite fmap_take, fmap_drop, (inv_index _ _ Hi), parseTokenString_indexes.
    rewrite length_parseTokenString in *. rewrite take_seq, drop_seq, seq_app.
    do 2 f_equal; lia.
  - apply (inv_index _ _ Hi).
Qed.

Lemma sync_changed_content dom es s e :
  Inv es s → Sync dom (elementAttributeValueChanged dom s e) e.
Proof.
  intros Hi. destruct (elementChanged_spec dom es s e Hi) as (_ & _ & i & _ & Hc & _ & Ht).
  unfold Sync. by rewrite Ht, fmap_app, Hc, <-fmap_app, take_drop, parseTokenString_contents,
    token_contents_words.
Qed.

Lemma token_list_laws :
  ElementObserver.CallbackLaws attributeName Inv Sync
    elementMatchedAttribute elementUnmatchedAttribute elementAttributeValueChanged.
Proof.
  split; unfold Sync.
  - intros. by apply inv_matched_elements.
  - intros. by apply inv_unmatched_elements.
  - intros. by apply inv_changed_elements.
  - intros dom es s e Hi He. destruct (elementMatched_spec dom es s e Hi He) as (_ & _ & ->).
    by rewrite parseTokenString_contents, token_contents_words.
  - intros dom es s e e' Hi He Hne. destruct (elementMatched_spec dom es s e Hi He) as (_ & Ho & _).
    by rewrite Ho.
  - intros dom es s e e' Hi _ Hne. destruct (elementUnmatched_spec dom es s e Hi) as (_ & Ho).
    by rewrite Ho, decide_False by done.
  - intros. by eapply sync_changed_content.
  - intros dom es s e e' Hi He Hne.
    destruct (elementChanged_spec dom es s e Hi) as (_ & Ho & _). by rewrite Ho.
  - intros dom dom' s e Heq. by rewrite Heq.
Qed.

Context {LD : DomLaws doc}.

Lemma token_list_spec :
  ElementObserver.Spec
    (AttributeObserver.element_delegate attributeName attribute_delegate)
    attributeName Inv Sync
    elementMatchedAttribute elementUnmatchedAttribute elementAttributeValueChanged.
Proof.
  split; [done..| |apply token_list_laws].
  apply AttributeObserver.elem_of_attribute_tree.
Qed.

(** The initial state of the observer is coherent with no element. *)
Lemma inv_new d : Live 0 [] d → Inv [] (new_core, d).
Proof.
  intros Hl. split; [|by intros e []|done]. split; [apply wf_nil| |done].
  intros e tok Hin. by apply not_elem_of_nil in Hin.
Qed.
End token_list_observer.

(** The whole observer: its attribute observer, its own state and the
    delegate's. *)
Section operations.
Context {doc : Type} `{Dom doc} {D : Type} (delegate : TokenDelegate doc D).

Definition t : Type := AttributeObserver.t * core.

Definition new (e : elem) (attributeName : string) : t :=
  (AttributeObserver.new e attributeName, new_core).

Definition with_attribute_observer
    (f : AttributeDelegate doc (core * D) → AttributeObserver.t * (core * D) →
         AttributeObserver.t * (core * D)) (s : t * D) : t * D :=
  let '((ao, c), d) := s in
  let '(ao, (c, d)) :=
    f (attribute_delegate (AttributeObserver.attributeName ao) delegate) (ao, (c, d)) in
  ((ao, c), d).

Definition start (dom : doc) : t * D → t * D :=
  with_attribute_observer (λ del, AttributeObserver.start del dom).
Definition stop : t * D → t * D :=
  with_attribute_observer (λ del, AttributeObserver.stop del).
Definition refresh (dom : doc) : t * D → t * D :=
  with_attribute_observer (λ del, AttributeObserver.refresh del dom).
Definition processMutations (dom : doc) (ms : list mutation) : t * D → t * D :=
  with_attribute_observer (λ del, AttributeObserver.processMutations del dom ms).
End operations.
End TokenListObserver.
