(* ===== verification/ValueList.v ===== *)
(** Values of tokens: [ValueListObserver] parses each token once, remembers
    the result for that token object, and tells its delegate which parsed
    values come and go.

Models [src/gui/web/assets/scripts/stimulus.js], the class
[ValueListObserver].  Its two [WeakMap]s are keyed by token and element
identity. *)

From S2P Require Import Prelude JsCore JsString Dom Multimaps Observers Tokens.

(** What [parseToken] returns: [{ value }] (the value may be [undefined]) or
    [{ error }]. *)
Inductive parse_result (V : Type) := ParsedValue (value : option V) | ParseError (error : string).
Arguments ParsedValue {V} value.
Arguments ParseError {V} error.

(** The field [value] of a parse result. *)
Definition result_value {V} (r : parse_result V) : option V :=
  match r with ParsedValue v => v | ParseError _ => None end.

Record ValueDelegate (doc D V : Type) := {
  (** [inr] is a thrown error. *)
  vd_parseValueForToken : doc → D → token → D * (option V + string);
  vd_elementMatchedValue : doc → D → elem → V → D;
  vd_elementUnmatchedValue : doc → D → elem → V → D;
}.
Arguments vd_parseValueForToken {doc D V}.
Arguments vd_elementMatchedValue {doc D V}.
Arguments vd_elementUnmatchedValue {doc D V}.

Module ValueListObserver.

Record core (V : Type) := mk_core {
  parseResultsByToken : list (token * parse_result V);
  valuesByTokenByElement : list (elem * list (token * V));
}.
Arguments mk_core {V}.
Arguments parseResultsByToken {V}.
Arguments valuesByTokenByElement {V}.

Definition new_core {V} : core V := mk_core [] [].

Section value_list_observer.
Context {doc : Type} `{Dom doc} {D V : Type} (delegate : ValueDelegate doc D V).
Implicit Types (dom : doc) (c : core V) (d : D) (s : core V * D).

Definition parseToken dom d (tok : token) : D * parse_result V :=
  match vd_parseValueForToken delegate dom d tok with
  | (d, inl value) => (d, ParsedValue value)
  | (d, inr error) => (d, ParseError error)
  end.

Definition fetchParseResultForToken dom s (tok : token) : core V * D * parse_result V :=
  let '(c, d) := s in
  match JMap.get tok (parseResultsByToken c) with
  | Some parseResult => (c, d, parseResult)
  | None =>
    let '(d, parseResult) := parseToken dom d tok in
    (mk_core (JMap.set tok parseResult (parseResultsByToken c)) (valuesByTokenByElement c),
     d, parseResult)
  end.

(** The map of an element, after storing a fresh one when there is none. *)
Definition fetchValuesByTokenForElement c (e : elem) : core V * list (token * V) :=
  match JMap.get e (valuesByTokenByElement c) with
  | Some valuesByToken => (c, valuesByToken)
  | None => (mk_core (parseResultsByToken c) (JMap.set e [] (valuesByTokenByElement c)), [])
  end.

Definition store_values c (e : elem) (vs : list (token * V)) : core V :=
  mk_core (parseResultsByToken c) (JMap.set e vs (valuesByTokenByElement c)).

Definition tokenMatched dom s (tok : token) : core V * D :=
  let element := tok_element tok in
  let '(c, d, parseResult) := fetchParseResultForToken dom s tok in
  match result_value parseResult with
  | Some value =>
    let '(c, values) := fetchValuesByTokenForElement c element in
    (store_values c element (JMap.set tok value values),
     vd_elementMatchedValue delegate dom d element value)
  | None => (c, d)
  end.

Definition tokenUnmatched dom s (tok : token) : core V * D :=
  let element := tok_element tok in
  let '(c, d, parseResult) := fetchParseResultForToken dom s tok in
  match result_value parseResult with
  | Some value =>
    let '(c, values) := fetchValuesByTokenForElement c element in
    (store_values c element (JMap.delete tok values),
     vd_elementUnmatchedValue delegate dom d element value)
  | None => (c, d)
  end.

(** The observer as the delegate of its [TokenListObserver]. *)
Definition token_delegate : TokenDelegate doc (core V * D) := {|
  td_tokenMatched := tokenMatched;
  td_tokenUnmatched := tokenUnmatched;
|}.

(** *** What the delegate of the observer promises

[Vals tvs d] says that the state [d] accounts for the live values
[tvs], each with the token it was parsed from, which are different tokens; [Parsed d tok v], that
[v] is what [d] makes of [tok]; [Result tok r], that [r] is a possible
parse result of [tok]. *)
Record ValueLaws (Vals : list (token * V) → D → Prop) (Parsed : D → token → V → Prop)
    (Result : token → parse_result V → Prop) : Prop := {
  result_parse dom d tok : Result tok (parseToken dom d tok).2;
  vals_perm tvs tvs' d : tvs ≡ₚ tvs' → Vals tvs d → Vals tvs' d;
  vals_parse dom tvs d tok : Vals tvs d → Vals tvs (parseToken dom d tok).1;
  vals_matched dom tvs d tok v :
    Vals tvs d → Parsed d tok v → tok_id tok ∉ tok_id <$> tvs.*1 →
    Vals ((tok, v) :: tvs) (vd_elementMatchedValue delegate dom d (tok_element tok) v);
  vals_unmatched dom tvs d tok v :
    Vals ((tok, v) :: tvs) d → Parsed d tok v → tok_id tok ∉ tok_id <$> tvs.*1 →
    Vals tvs (vd_elementUnmatchedValue delegate dom d (tok_element tok) v);
  parsed_parse dom d tok v :
    (parseToken dom d tok).2 = ParsedValue (Some v) → Parsed (parseToken dom d tok).1 tok v;
  parsed_keep_parse dom d tok tok' v : Parsed d tok v → Parsed (parseToken dom d tok').1 tok v;
  parsed_keep_matched dom d tok v e v' :
    Parsed d tok v → Parsed (vd_elementMatchedValue delegate dom d e v') tok v;
  parsed_keep_unmatched dom d tok v e v' :
    Parsed d tok v → Parsed (vd_elementUnmatchedValue delegate dom d e v') tok v;
}.

Context {Vals : list (token * V) → D → Prop} {Parsed : D → token → V → Prop}.
Context {Result : token → parse_result V → Prop}.
Context (L : ValueLaws Vals Parsed Result).

(** The live values, in the order of their tokens. *)
Definition token_value c (tok : token) : option (token * V) :=
  r ← JMap.get tok (parseResultsByToken c); v ← result_value r; Some (tok, v).
Definition live_values c (ts : list token) : list (token * V) := omap (token_value c) ts.

Record Live (n : nat) (ts : list token) (s : core V * D) : Prop := {
  live_known tok r : JMap.get tok (parseResultsByToken s.1) = Some r → tok_id tok < n;
  live_read tok : tok ∈ ts → is_Some (JMap.get tok (parseResultsByToken s.1));
  live_result tok r : JMap.get tok (parseResultsByToken s.1) = Some r → Result tok r;
  live_nodup : NoDup (tok_id <$> ts);
  live_parsed tok v : token_value s.1 tok = Some (tok, v) → Parsed s.2 tok v;
  live_vals : Vals (live_values s.1 ts) s.2;
}.

Lemma fetch_known dom s tok r :
  JMap.get tok (parseResultsByToken s.1) = Some r →
  fetchParseResultForToken dom s tok = (s, r).
Proof. destruct s as [c d]. unfold fetchParseResultForToken. simpl. by intros ->. Qed.

(** Storing a value touches the second map only. *)
Lemma matched_eq dom s tok c d r :
  fetchParseResultForToken dom s tok = (c, d, r) →
  parseResultsByToken (tokenMatched dom s tok).1 = parseResultsByToken c ∧
  (tokenMatched dom s tok).2 =
    match result_value r with
    | Some v => vd_elementMatchedValue delegate dom d (tok_element tok) v
    | None => d
    end.
Proof.
  intros Hf. unfold tokenMatched. rewrite Hf. destruct (result_value r); [|done].
  unfold fetchValuesByTokenForElement. by destruct (JMap.get _ _).
Qed.

Lemma unmatched_eq dom s tok c d r :
  fetchParseResultForToken dom s tok = (c, d, r) →
  parseResultsByToken (tokenUnmatched dom s tok).1 = parseResultsByToken c ∧
  (tokenUnmatched dom s tok).2 =
    match result_value r with
    | Some v => vd_elementUnmatchedValue delegate dom d (tok_element tok) v
    | None => d
    end.
Proof.
  intros Hf. unfold tokenUnmatched. rewrite Hf. destruct (result_value r); [|done].
  unfold fetchValuesByTokenForElement. by destruct (JMap.get _ _).
Qed.

Lemma token_value_results c c' tok :
  parseResultsByToken c = parseResultsByToken c' → token_value c tok = token_value c' tok.
Proof. unfold token_value. by intros ->. Qed.

Lemma live_values_ext c c' ts :
  (∀ tok, tok ∈ ts → token_value c tok = token_value c' tok) →
  live_values c ts = live_values c' ts.
Proof.
  intros Hc. unfold live_values. induction ts as [|tok ts IH]; simpl; [done|].
  rewrite Hc by (by left).
  assert (omap (token_value c) ts = omap (token_value c') ts) as IH'.
  { apply IH. intros tok' ?. apply Hc. by right. }
  destruct (token_value c' tok); [f_equal|]; exact IH'.
Qed.

Lemma live_values_cons c tok ts :
  live_values c (tok :: ts) = option_list (token_value c tok) ++ live_values c ts.
Proof. unfold live_values. simpl. by destruct (token_value c tok). Qed.

#[local] Arguments live_values : simpl never.

(** Live values come from the tokens. *)
Lemma live_values_ids c ts n : n ∈ tok_id <$> (live_values c ts).*1 → n ∈ tok_id <$> ts.
Proof.
  rewrite !list_elem_of_fmap. intros (tok & -> & ([tok' v] & -> & Hin)%list_elem_of_fmap).
  apply list_elem_of_omap in Hin as (tok0 & Hin & Htv). simpl. exists tok'. split; [done|].
  unfold token_value in Htv. destruct (JMap.get tok0 _); [|done]. simpl in Htv.
  destruct (result_value _); [|done]. by simplify_eq/=.
Qed.

Lemma live_values_perm c ts ts' : ts ≡ₚ ts' → live_values c ts ≡ₚ live_values c ts'.
Proof. apply omap_Permutation. Qed.

Lemma tokenMatched_live dom n ts s tok :
  Live n ts s → n ≤ tok_id tok → Live (S (tok_id tok)) (tok :: ts) (tokenMatched dom s tok).
Proof.
  intros [Hk Hr Hre Hnd Hp Hv] Hn. destruct s as [c d]. simpl in *.
  assert (tok_id tok ∉ tok_id <$> ts) as Hfresh.
  { intros (tok' & Heq & Hin)%list_elem_of_fmap. destruct (Hr tok' Hin) as [r Hr']. apply Hk in Hr'. lia. }
  assert (JMap.get tok (parseResultsByToken c) = None) as Hnew.
  { destruct (JMap.get tok _) eqn:Hg; [|done]. apply Hk in Hg. lia. }
  destruct (parseToken dom d tok) as [d' r] eqn:Hparse.
  set (c' := mk_core (JMap.set tok r (parseResultsByToken c)) (valuesByTokenByElement c)).
  assert (fetchParseResultForToken dom (c, d) tok = (c', d', r)) as Hf.
  { unfold fetchParseResultForToken. by rewrite Hnew, Hparse. }
  destruct (matched_eq dom (c, d) tok c' d' r Hf) as [Hc Hd].
  destruct (tokenMatched dom (c, d) tok) as [c'' d'']. simpl in Hc, Hd.
  assert (∀ tok', token_value c'' tok' =
    if decide (tok' = tok) then (tok,.) <$> result_value r else token_value c tok') as Htv.
  { intros tok'. rewrite (token_value_results c'' c') by done. unfold token_value. simpl.
    rewrite JMap.get_set. case_decide; subst; [rewrite decide_True|rewrite decide_False]; done. }
  assert (∀ ts', ts' ⊆ ts → live_values c'' ts' = live_values c ts') as Hlv.
  { intros ts' Hts. apply live_values_ext. intros tok' Hin. rewrite Htv, decide_False; [done|].
    intros ->. destruct (Hr tok) as [? ?]; [by apply Hts|congruence]. }
  split; simpl.
  - intros tok' r'. rewrite Hc. simpl. rewrite JMap.get_set. case_decide; [subst; lia|].
    intros ?%Hk. lia.
  - intros tok'. rewrite Hc, elem_of_cons. simpl. rewrite JMap.get_set.
    intros [->|?]; [by rewrite decide_True|]. case_decide; eauto.
  - intros tok' r'. rewrite Hc. simpl. rewrite JMap.get_set. case_decide; [subst|apply Hre].
    intros [= <-]. pose proof (result_parse _ _ _ L dom d tok') as HR. by rewrite Hparse in HR.
  - by apply NoDup_cons.
  - intros tok' v. rewrite Htv. pose proof (parsed_parse _ _ _ L dom d tok) as Hpp.
    rewrite Hparse in Hpp. simpl in Hpp. case_decide; subst.
    + destruct r as [[v'|]|]; [|done..]. intros [= <-]. simpl. apply (parsed_keep_matched _ _ _ L). auto.
    + intros Htok. assert (Parsed d' tok' v) as Hk'.
      { pose proof (parsed_keep_parse _ _ _ L dom d tok' tok v (Hp _ _ Htok)) as HH.
        by rewrite Hparse in HH. }
      destruct (result_value r); [by apply (parsed_keep_matched _ _ _ L)|done].
  - rewrite live_values_cons, Hlv, Htv, decide_True by done.
    pose proof (vals_parse _ _ _ L dom _ d tok Hv) as Hv'. rewrite Hparse in Hv'. simpl in Hv'.
    subst d''. destruct (result_value r) as [v|] eqn:Hres; simpl; [|done].
    apply (vals_matched _ _ _ L); [done| |by intros ?%live_values_ids].
    pose proof (parsed_parse _ _ _ L dom d tok v) as Hpp. rewrite Hparse in Hpp. apply Hpp.
    simpl. destruct r; simplify_eq/=; done.
Qed.

Lemma tokenUnmatched_live dom n ts s tok :
  Live n (tok :: ts) s → Live n ts (tokenUnmatched dom s tok).
Proof.
  intros [Hk Hr Hre Hnd Hp Hv]. destruct s as [c d]. simpl in *. apply NoDup_cons in Hnd as [Hfresh Hnd].
  destruct (Hr tok) as [r Hg]; [by left|].
  pose proof (fetch_known dom (c, d) tok r Hg) as Hf.
  destruct (unmatched_eq dom (c, d) tok c d r Hf) as [Hc Hd].
  destruct (tokenUnmatched dom (c, d) tok) as [c' d']. simpl in Hc, Hd.
  assert (∀ tok', token_value c' tok' = token_value c tok') as Htv
    by (intros; by apply token_value_results).
  assert (token_value c tok = (tok,.) <$> result_value r) as Htok.
  { unfold token_value. rewrite Hg. simpl. by destruct (result_value r). }
  split; simpl.
  - intros tok' r'. rewrite Hc. apply Hk.
  - intros tok' Hin. rewrite Hc. apply Hr. by right.
  - intros tok' r'. rewrite Hc. apply Hre.
  - done.
  - intros tok' v. rewrite Htv. intros Hv'%Hp. subst d'.
    destruct (result_value r); [by apply (parsed_keep_unmatched _ _ _ L)|done].
  - rewrite (live_values_ext c' c) by done. rewrite live_values_cons, Htok in Hv. subst d'.
    destruct (result_value r) as [v|] eqn:Hres; simpl in *; [|done].
    apply (vals_unmatched _ _ _ L); [done| |by intros ?%live_values_ids]. apply Hp. by rewrite Htok.
Qed.

Lemma value_list_laws : TokenListObserver.TokenLaws token_delegate Live.
Proof.
  split.
  - intros n ts ts' s Hts [Hk Hr Hre Hnd Hp Hv]. split; [done| |done| |done|].
    + intros tok. rewrite <-Hts. apply Hr.
    + by rewrite <-Hts.
    + eapply (vals_perm _ _ _ L); [|done]. by apply live_values_perm.
  - intros n n' ts s Hn [Hk Hr Hre Hnd Hp Hv]. split; [|done..]. intros tok r ?%Hk. lia.
  - intros. by apply tokenMatched_live with n.
  - intros. by apply tokenUnmatched_live.
Qed.

Lemma live_new d : Vals [] d → Live 0 [] (new_core, d).
Proof. intros Hv. split; [done| |done|constructor|done|done]. intros tok Hin. by apply not_elem_of_nil in Hin. Qed.
End value_list_observer.
End ValueListObserver.
