(* ===== verification/ValueStack.v ===== *)
(** A [ValueListObserver] with the observers that it owns: down to the
    document there are a [TokenListObserver] on the attribute, an
    [AttributeObserver] and an [ElementObserver].

    Models [src/gui/web/assets/scripts/stimulus.js], the operations of
    [ValueListObserver] that pass through those objects, and proves that the
    whole stack stays in step with the document.  The router's scopes and the
    bindings of a context are two instances. *)

From S2P Require Import Prelude JsCore JsString Dom Multimaps Observers Tokens ValueList.

Module ValueStack.

Section operations.
Context {doc D V : Type} `{Dom doc} (delegate : ValueDelegate doc D V).

(** The state below the token list observer, and the whole state. *)
Definition inner (V D : Type) : Type := ValueListObserver.core V * D.
Definition t (V D : Type) : Type := TokenListObserver.t * inner V D.

Definition token_delegate : TokenDelegate doc (inner V D) := ValueListObserver.token_delegate delegate.

(** [new ValueListObserver(element, attributeName, delegate)] *)
Definition new (element : elem) (attributeName : string) (d : D) : t V D :=
  (TokenListObserver.new element attributeName, (ValueListObserver.new_core, d)).

Definition start (dom : doc) : t V D → t V D := TokenListObserver.start token_delegate dom.
Definition stop : t V D → t V D := TokenListObserver.stop token_delegate.
Definition refresh (dom : doc) : t V D → t V D := TokenListObserver.refresh token_delegate dom.
(** The mutation records the browser delivers. *)
Definition processMutations (dom : doc) (ms : list mutation) : t V D → t V D :=
  TokenListObserver.processMutations token_delegate dom ms.
End operations.

Section stack.
Context {doc D V : Type} `{DomLaws doc} (delegate : ValueDelegate doc D V) (attributeName : string).
Context {Vals : list (token * V) → D → Prop} {Parsed : D → token → V → Prop}.
Context {Result : token → parse_result V → Prop}.
Context (L : ValueListObserver.ValueLaws delegate Vals Parsed Result).
Implicit Types (dom : doc) (a : t V D) (e : elem).

#[local] Abbreviation VLive :=
  (ValueListObserver.Live (Vals := Vals) (Parsed := Parsed) (Result := Result)).
#[local] Abbreviation TInv := (TokenListObserver.Inv attributeName (Live := VLive)).
#[local] Abbreviation del := (token_delegate delegate).

Definition root_of a : elem := AttributeObserver.element a.1.1.
Definition started a : bool := AttributeObserver.started a.1.1.
Definition state_of a : D := a.2.2.

(** The state of the element observer and of everything below it. *)
Definition below a : ElementObserver.t * (TokenListObserver.core * inner V D) :=
  (AttributeObserver.elementObserver a.1.1, (a.1.2, a.2)).

Definition element_delegate : ElementDelegate doc (TokenListObserver.core * inner V D) :=
  AttributeObserver.element_delegate attributeName
    (TokenListObserver.attribute_delegate attributeName del).

Definition in_sync dom a : Prop :=
  AttributeObserver.attributeName a.1.1 = attributeName ∧
  started a = true ∧
  ElementObserver.coherent (delegate := element_delegate) (Inv := TInv)
    (Sync := TokenListObserver.Sync attributeName) dom (below a).

(** The observer before its start. *)
Definition idle (root : elem) a : Prop :=
  a.1 = TokenListObserver.new root attributeName ∧ a.2.1 = ValueListObserver.new_core ∧
  Vals [] (state_of a).

Lemma token_laws : TokenListObserver.TokenLaws del VLive.
Proof. apply ValueListObserver.value_list_laws, L. Qed.

Lemma stack_spec :
  ElementObserver.Spec element_delegate attributeName TInv (TokenListObserver.Sync attributeName)
    (TokenListObserver.elementMatchedAttribute attributeName del)
    (TokenListObserver.elementUnmatchedAttribute del)
    (TokenListObserver.elementAttributeValueChanged attributeName del).
Proof. apply TokenListObserver.token_list_spec, token_laws. Qed.

(** *** Reading the invariant *)

(** The tokens of an element, and the values that they were parsed to. *)
Definition tokens a e : list token := TokenListObserver.tokens_of a.1.2 e.
Definition live_values a : list (token * V) :=
  ValueListObserver.live_values a.2.1 (TokenListObserver.live a.1.2).

Lemma sync_vals dom a : in_sync dom a → Vals (live_values a) (state_of a).
Proof.
  intros (_ & _ & Hi & _). destruct (TokenListObserver.inv_mid _ _ _ Hi) as [_ _ Hl].
  apply (ValueListObserver.live_vals _ _ _ Hl).
Qed.

Lemma sync_parsed dom a tok v : in_sync dom a → (tok, v) ∈ live_values a → Parsed (state_of a) tok v.
Proof.
  intros (_ & _ & Hi & _) (tok' & _ & Htv)%list_elem_of_omap.
  destruct (TokenListObserver.inv_mid _ _ _ Hi) as [_ _ Hl].
  apply (ValueListObserver.live_parsed _ _ _ Hl).
  unfold ValueListObserver.token_value in Htv |- *.
  destruct (JMap.get tok' _) as [r|] eqn:Hr; [|done]. simpl in Htv.
  destruct (result_value r) as [v'|] eqn:Hv; [|done]. simpl in Htv. simplify_eq/=.
  rewrite Hr. simpl. by rewrite Hv.
Qed.

Lemma elem_of_live dom a tok :
  in_sync dom a → tok ∈ TokenListObserver.live a.1.2 ↔ tok ∈ tokens a (tok_element tok).
Proof.
  intros (_ & _ & Hi & _). destruct (TokenListObserver.inv_mid _ _ _ Hi) as [Hw Ht _].
  unfold TokenListObserver.live. rewrite list_elem_of_fmap. split.
  - intros ([e tok'] & -> & Hin%elem_of_pairs); [|by apply Hw]. simpl.
    destruct (Ht e tok' Hin) as [-> _]. done.
  - intros Hin. exists (tok_element tok, tok). split; [done|]. by apply elem_of_pairs; [apply Hw|].
Qed.

Lemma token_element dom a e tok :
  in_sync dom a → tok ∈ tokens a e → tok_element tok = e ∧ tok_attributeName tok = attributeName.
Proof.
  intros (_ & _ & Hi & _) Hin. destruct (TokenListObserver.inv_mid _ _ _ Hi) as [_ Ht _].
  by destruct (Ht e tok Hin) as (?&?&?).
Qed.

(** A value is live if a token of its element is parsed to it. *)
Lemma elem_of_live_values dom a tok v :
  in_sync dom a →
  (tok, v) ∈ live_values a ↔
    tok ∈ tokens a (tok_element tok) ∧
    ∃ r, JMap.get tok (ValueListObserver.parseResultsByToken a.2.1) = Some r ∧ result_value r = Some v.
Proof.
  intros Hs. unfold live_values, ValueListObserver.live_values. rewrite list_elem_of_omap.
  rewrite <-(elem_of_live dom a) by done. unfold ValueListObserver.token_value. split.
  - intros (tok' & Hin & Htv). destruct (JMap.get tok' _) as [r|] eqn:Hr; [|done]. simpl in Htv.
    destruct (result_value r) as [v'|] eqn:Hv; [|done]. simpl in Htv. simplify_eq/=. eauto.
  - intros (Hin & r & Hr & Hv). exists tok. split; [done|]. rewrite Hr. simpl. by rewrite Hv.
Qed.

(** Every token of the stack has been parsed. *)
Lemma token_parsed dom a tok :
  in_sync dom a → tok ∈ tokens a (tok_element tok) →
  ∃ r, JMap.get tok (ValueListObserver.parseResultsByToken a.2.1) = Some r ∧ Result tok r.
Proof.
  intros Hs Hin%(elem_of_live dom a); [|done]. destruct Hs as (_ & _ & Hi & _).
  destruct (TokenListObserver.inv_mid _ _ _ Hi) as [_ _ Hl].
  destruct (ValueListObserver.live_read _ _ _ Hl tok Hin) as [r Hr]. exists r. split; [done|].
  by apply (ValueListObserver.live_result _ _ _ Hl).
Qed.

(** The words of the attribute of an element in the subtree of the root. *)
Definition words_of dom (root e : elem) : list string :=
  if contains dom root e then
    match getAttribute dom e attributeName with Some v => Str.words v | None => [] end
  else [].

(** The tokens of an element are the words of its attribute, in order. *)
Lemma sync_words dom a e : in_sync dom a → tok_content <$> tokens a e = words_of dom (root_of a) e.
Proof.
  intros (_ & _ & Hi & Hc). destruct (Hc e) as [Hin Hsy]. unfold words_of.
  change (ElementObserver.element (below a).1) with (root_of a) in Hin.
  assert (ElementObserver.target (delegate := element_delegate) dom (root_of a) e = true ↔
          contains dom (root_of a) e = true ∧ is_Some (getAttribute dom e attributeName)) as Ht.
  { rewrite (ElementObserver.target_elem stack_spec), (ElementObserver.elem_of_matchElementsInTree stack_spec).
    unfold ElementObserver.matchElement, element_delegate. simpl.
    unfold AttributeObserver.matchElement, hasAttribute. by rewrite bool_decide_eq_true. }
  destruct (ElementObserver.in_set (below a) e) eqn:Hset.
  - symmetry in Hin. apply Ht in Hin as [-> [v Hv]].
    specialize (Hsy Hset). unfold TokenListObserver.Sync in Hsy. rewrite Hv in Hsy |- *. exact Hsy.
  - assert (tokens a e = []) as ->.
    { unfold tokens. destruct (TokenListObserver.tokens_of a.1.2 e) eqn:Htok; [done|].
      assert (e ∈ ElementObserver.elements (below a).1) as He.
      { apply (TokenListObserver.inv_elements _ _ _ Hi). simpl. by rewrite Htok. }
      apply JSet.has_true in He. unfold ElementObserver.in_set in Hset. congruence. }
    destruct (contains dom (root_of a) e) eqn:Hcon; [|done].
    destruct (getAttribute dom e attributeName) eqn:Hv; [|done].
    assert (false = true); [|done]. rewrite Hin. apply Ht. eauto.
Qed.

Lemma sync_index dom a e : in_sync dom a → tok_index <$> tokens a e = seq 0 (length (tokens a e)).
Proof. intros (_ & _ & Hi & _). apply (TokenListObserver.inv_index _ _ _ Hi). Qed.

(** A word of an attribute has one token, which knows its place. *)
Lemma sync_token dom a e i w :
  in_sync dom a →
  words_of dom (root_of a) e !! i = Some w ↔
  ∃ tok, tok ∈ tokens a e ∧ tok_index tok = i ∧ tok_content tok = w.
Proof.
  intros Hs. rewrite <-(sync_words dom a e Hs), list_lookup_fmap, fmap_Some.
  assert (∀ j tok, tokens a e !! j = Some tok → tok_index tok = j) as Hidx.
  { intros j tok Hj. pose proof (sync_index dom a e Hs) as Hseq.
    apply (f_equal (.!! j)) in Hseq. rewrite list_lookup_fmap, Hj in Hseq. simpl in Hseq.
    rewrite lookup_seq_lt in Hseq by by apply lookup_lt_Some in Hj. by injection Hseq. }
  split.
  - intros (tok & Hj & ->). exists tok. split_and!; [by eapply list_elem_of_lookup_2|by apply Hidx|done].
  - intros (tok & [j Hj]%list_elem_of_lookup & <- & <-). exists tok. by rewrite (Hidx j tok Hj).
Qed.

Lemma sync_token_unique dom a e tok tok' :
  in_sync dom a → tok ∈ tokens a e → tok' ∈ tokens a e → tok_index tok = tok_index tok' → tok = tok'.
Proof.
  intros Hs [j Hj]%list_elem_of_lookup [j' Hj']%list_elem_of_lookup Heq.
  pose proof (sync_index dom a e Hs) as Hseq.
  assert (∀ j tok, tokens a e !! j = Some tok → tok_index tok = j) as Hidx.
  { intros k tok0 Hk. pose proof Hseq as Hseq'.
    apply (f_equal (.!! k)) in Hseq'. rewrite list_lookup_fmap, Hk in Hseq'. simpl in Hseq'.
    rewrite lookup_seq_lt in Hseq' by by apply lookup_lt_Some in Hk. by injection Hseq'. }
  rewrite (Hidx _ _ Hj), (Hidx _ _ Hj') in Heq. subst. congruence.
Qed.

(** *** The operations keep the stack in step with the document *)

#[local] Arguments ElementObserver.start : simpl never.
#[local] Arguments ElementObserver.processMutations : simpl never.

Lemma below_start dom a :
  AttributeObserver.attributeName a.1.1 = attributeName →
  below (start delegate dom a) = ElementObserver.start element_delegate dom (below a) ∧
  AttributeObserver.attributeName (start delegate dom a).1.1 = attributeName.
Proof.
  destruct a as [[[an eo] tl] d].
  unfold below, start, TokenListObserver.start, AttributeObserver.start. simpl.
  intros ->. fold element_delegate.
  by destruct (ElementObserver.start element_delegate dom (eo, (tl, d))) as [eo' [tl' d']].
Qed.

Lemma below_mutations dom ms a :
  AttributeObserver.attributeName a.1.1 = attributeName →
  below (processMutations delegate dom ms a) =
    ElementObserver.processMutations element_delegate dom (below a) ms ∧
  AttributeObserver.attributeName (processMutations delegate dom ms a).1.1 = attributeName.
Proof.
  destruct a as [[[an eo] tl] d].
  unfold below, processMutations, TokenListObserver.processMutations, AttributeObserver.processMutations.
  simpl. intros ->. fold element_delegate.
  by destruct (ElementObserver.processMutations element_delegate dom (eo, (tl, d)) ms) as [eo' [tl' d']].
Qed.

Lemma start_sync dom root a :
  idle root a → in_sync dom (start delegate dom a) ∧ root_of (start delegate dom a) = root.
Proof.
  intros (Hn & Hv & Hi).
  assert (below a = (ElementObserver.new root, (TokenListObserver.new_core, a.2)) ∧
          AttributeObserver.attributeName a.1.1 = attributeName) as [Hb Ha].
  { destruct a as [tl [vl d]]. simpl in *. by rewrite Hn. }
  assert (TInv [] (TokenListObserver.new_core, a.2)) as Hinv.
  { apply TokenListObserver.inv_new. destruct a as [tl [vl d]]. simpl in *. subst.
    by apply ValueListObserver.live_new. }
  destruct (below_start dom a Ha) as [Hbs Has].
  destruct (ElementObserver.start_coherent stack_spec dom root _ Hinv) as [Hc Hst].
  rewrite Hb in Hbs. unfold in_sync, started, root_of, AttributeObserver.started, AttributeObserver.element.
  change (AttributeObserver.elementObserver (start delegate dom a).1.1) with (below (start delegate dom a)).1.
  rewrite Hbs. split_and!; [done..|].
  destruct (ElementObserver.refresh_fields (delegate := element_delegate) dom
    (ElementObserver.mk root true [] (mo_observe mo_new), (TokenListObserver.new_core, a.2))) as [He _].
  exact He.
Qed.

(** The mutation records account for what changed in the document. *)
Definition reported : doc → doc → elem → list mutation → Prop :=
  ElementObserver.reported (delegate := element_delegate) (watched := attributeName).

Lemma mutations_sync dom dom' ms a :
  in_sync dom a → reported dom dom' (root_of a) ms →
  in_sync dom' (processMutations delegate dom' ms a) ∧
  root_of (processMutations delegate dom' ms a) = root_of a.
Proof.
  intros (Ha & Hst & Hc) Hr. destruct (below_mutations dom' ms a Ha) as [Hb Ha'].
  unfold in_sync, started, root_of, AttributeObserver.started, AttributeObserver.element in *.
  change (AttributeObserver.elementObserver (processMutations delegate dom' ms a).1.1)
    with (below (processMutations delegate dom' ms a)).1.
  pose proof (ElementObserver.processMutations_coherent stack_spec dom dom' (below a) ms Hst Hc Hr) as Hc'.
  rewrite Hb. rewrite ElementObserver.processMutations_basics in Hc' |- *.
  change (ElementObserver.started (below a).1)
    with (ElementObserver.started (AttributeObserver.elementObserver a.1.1)) in *.
  rewrite Hst in Hc' |- *.
  destruct (ElementObserver.execs_fields element_delegate dom' (below a)
      (ms ≫= ElementObserver.mutation_basics element_delegate dom' (ElementObserver.element (below a).1)))
    as (He & Hs & _).
  split_and!; [done|by rewrite Hs|done|by rewrite He].
Qed.

(** A change of the delegate's state alone. *)
Lemma state_sync dom a d :
  (∀ tvs, Vals tvs (state_of a) → Vals tvs d) →
  (∀ tok v, Parsed (state_of a) tok v → Parsed d tok v) →
  in_sync dom a → in_sync dom (a.1, (a.2.1, d)).
Proof.
  intros Hv Hp. destruct a as [tl [vl d0]]. intros (Ha & Hst & Hi & Hc).
  split_and!; [done..|]. split; [|done].
  destruct Hi as [[Hw Ht Hl] He Hx]. split; [|done..]. split; [done..|].
  destruct Hl as [Hk Hr Hre Hnd Hpa Hva]. split; [done..| |by apply Hv]. auto.
Qed.
End stack.
End ValueStack.
