(* ===== verification/Scopes.v ===== *)
(** Scopes: one per element and controller identifier, connected while the
    element's controller attribute names the identifier.

Models [src/gui/web/assets/scripts/stimulus.js], the class
[ScopeObserver].  A scope is a JavaScript object: [sc_id] is its identity,
drawn from [next_scope]. *)

From S2P Require Import Prelude JsCore JsString Dom Multimaps Observers Tokens ValueList.

Record scope := mk_scope { sc_id : nat; sc_element : elem; sc_identifier : string }.

#[export] Instance scope_eq_dec : EqDecision scope.
Proof. solve_decision. Defined.

Record ScopeDelegate (doc D : Type) := {
  (** The new scope, given its identity. *)
  sd_createScopeForElementAndIdentifier : nat → elem → string → scope;
  sd_scopeConnected : doc → D → scope → D;
  sd_scopeDisconnected : doc → D → scope → D;
}.
Arguments sd_createScopeForElementAndIdentifier {doc D}.
Arguments sd_scopeConnected {doc D}.
Arguments sd_scopeDisconnected {doc D}.

Module ScopeObserver.

Record core := mk_core {
  scopesByIdentifierByElement : list (elem * list (string * scope));
  scopeReferenceCounts : list (scope * nat);
  next_scope : nat;
}.

Definition new_core : core := mk_core [] [] 0.

Section scope_observer.
Context {doc : Type} `{Dom doc} {D : Type} (delegate : ScopeDelegate doc D).
Implicit Types (dom : doc) (c : core) (d : D) (s : core * D).

(** The map of an element, after storing a fresh one when there is none. *)
Definition fetchScopesByIdentifierForElement c (e : elem) : core * list (string * scope) :=
  match JMap.get e (scopesByIdentifierByElement c) with
  | Some scopesByIdentifier => (c, scopesByIdentifier)
  | None =>
    (mk_core (JMap.set e [] (scopesByIdentifierByElement c)) (scopeReferenceCounts c)
             (next_scope c), [])
  end.

Definition parseValueForToken dom s (tok : token) : core * D * (option scope + string) :=
  let '(c, d) := s in
  let element := tok_element tok in
  let identifier := tok_content tok in
  let '(c, scopesByIdentifier) := fetchScopesByIdentifierForElement c element in
  match JMap.get identifier scopesByIdentifier with
  | Some scope => (c, d, inl (Some scope))
  | None =>
    let scope := sd_createScopeForElementAndIdentifier delegate (next_scope c) element identifier in
    (mk_core (JMap.set element (JMap.set identifier scope scopesByIdentifier)
                       (scopesByIdentifierByElement c))
             (scopeReferenceCounts c) (S (next_scope c)),
     d, inl (Some scope))
  end.

Definition set_count c (sc : scope) (n : nat) : core :=
  mk_core (scopesByIdentifierByElement c) (JMap.set sc n (scopeReferenceCounts c)) (next_scope c).

Definition elementMatchedValue dom s (_ : elem) (value : scope) : core * D :=
  let '(c, d) := s in
  let referenceCount := default 0 (JMap.get value (scopeReferenceCounts c)) + 1 in
  (set_count c value referenceCount,
   if decide (referenceCount = 1) then sd_scopeConnected delegate dom d value else d).

Definition elementUnmatchedValue dom s (_ : elem) (value : scope) : core * D :=
  let '(c, d) := s in
  match JMap.get value (scopeReferenceCounts c) with
  | Some (S n as referenceCount) =>
    (set_count c value (referenceCount - 1),
     if decide (referenceCount = 1) then sd_scopeDisconnected delegate dom d value else d)
  | _ => (c, d)
  end.

(** The observer as the delegate of its [ValueListObserver]. *)
Definition value_delegate : ValueDelegate doc (core * D) scope := {|
  vd_parseValueForToken := parseValueForToken;
  vd_elementMatchedValue := elementMatchedValue;
  vd_elementUnmatchedValue := elementUnmatchedValue;
|}.

(** *** What the delegate of the observer promises

[Conn scs d] says that the connected scopes of [d] are [scs]. *)
Record ScopeLaws (Conn : list scope → D → Prop) : Prop := {
  conn_perm scs scs' d : scs ≡ₚ scs' → Conn scs d → Conn scs' d;
  conn_connect dom scs d sc :
    Conn scs d → sc ∉ scs → Conn (sc :: scs) (sd_scopeConnected delegate dom d sc);
  conn_disconnect dom scs d sc :
    Conn (sc :: scs) d → sc ∉ scs → Conn scs (sd_scopeDisconnected delegate dom d sc);
  create_scope n e i :
    let sc := sd_createScopeForElementAndIdentifier delegate n e i in
    sc_element sc = e ∧ sc_identifier sc = i;
}.

Context {Conn : list scope → D → Prop} (L : ScopeLaws Conn).

Definition count (sc : scope) (tvs : list (token * scope)) : nat :=
  length (filter (λ tv : token * scope, tv.2 = sc) tvs).

Definition known c (e : elem) (i : string) : option scope :=
  m ← JMap.get e (scopesByIdentifierByElement c); JMap.get i m.

(** Every count is the number of live values; the connected scopes are those
    with a live value; the table maps an element and an identifier to their
    scope. *)
Record Vals (tvs : list (token * scope)) (s : core * D) : Prop := {
  vals_count sc : default 0 (JMap.get sc (scopeReferenceCounts s.1)) = count sc tvs;
  vals_conn : Conn (remove_dups tvs.*2) s.2;
  vals_known e i sc : known s.1 e i = Some sc → sc_element sc = e ∧ sc_identifier sc = i;
}.

Definition Parsed (s : core * D) (tok : token) (sc : scope) : Prop :=
  known s.1 (tok_element tok) (tok_content tok) = Some sc.

(** Every token has a scope. *)
Definition Result (_ : token) (r : parse_result scope) : Prop := is_Some (result_value r).

Lemma count_pos sc tvs : 0 < count sc tvs ↔ sc ∈ tvs.*2.
Proof.
  unfold count. induction tvs as [|[tok sc'] tvs IH]; simpl.
  - pose proof (not_elem_of_nil sc). split; [lia|done].
  - rewrite filter_cons, elem_of_cons. simpl. case_decide; simpl; [subst|rewrite IH].
    + split; [by left|lia].
    + split; [by right|]. intros [->|]; done.
Qed.

Lemma count_cons sc tok sc' tvs :
  count sc ((tok, sc') :: tvs) = (if decide (sc' = sc) then 1 else 0) + count sc tvs.
Proof. unfold count. rewrite filter_cons. simpl. by case_decide. Qed.

Lemma parse_known dom s tok e i :
  let s' := (parseValueForToken dom s tok).1 in
  known s'.1 e i =
    match known s.1 e i with
    | Some sc => Some sc
    | None =>
      if decide (tok_element tok = e ∧ tok_content tok = i)
      then Some (sd_createScopeForElementAndIdentifier delegate (next_scope s.1) e i)
      else None
    end.
Proof.
  destruct s as [c d]. unfold parseValueForToken, fetchScopesByIdentifierForElement, known.
  simpl. destruct (JMap.get (tok_element tok) _) as [m|] eqn:Hm; simpl.
  - destruct (JMap.get (tok_content tok) m) as [sc|] eqn:Hi; simpl.
    + destruct (decide (tok_element tok = e ∧ tok_content tok = i)) as [[<- <-]|Hne].
      * by rewrite Hm; simpl; rewrite Hi.
      * by destruct (JMap.get e _) as [m'|]; simpl; [destruct (JMap.get i m')|].
    + rewrite JMap.get_set. destruct (decide (tok_element tok = e)) as [<-|Hne].
      * rewrite Hm. simpl. rewrite JMap.get_set. destruct (decide (tok_content tok = i)) as [<-|Hni].
        -- rewrite Hi. by rewrite decide_True.
        -- destruct (JMap.get i m); [done|]. rewrite decide_False; [done|tauto].
      * destruct (JMap.get e _) as [m'|]; simpl; [destruct (JMap.get i m')|]; try done;
          rewrite decide_False by tauto; done.
  - rewrite JMap.set_set, JMap.get_set. destruct (decide (tok_element tok = e)) as [<-|Hne].
    + rewrite Hm. simpl. destruct (decide (tok_content tok = i)) as [->|Hni].
      * by rewrite !decide_True.
      * by rewrite !decide_False by naive_solver.
    + destruct (JMap.get e _) as [m'|]; simpl; [destruct (JMap.get i m')|]; try done;
        rewrite decide_False by tauto; done.
Qed.

Lemma parse_other dom s tok :
  scopeReferenceCounts (parseValueForToken dom s tok).1.1 = scopeReferenceCounts s.1 ∧
  (parseValueForToken dom s tok).1.2 = s.2.
Proof.
  destruct s as [c d]. unfold parseValueForToken, fetchScopesByIdentifierForElement.
  destruct (JMap.get (tok_element tok) _) as [m|]; simpl; [|done].
  by destruct (JMap.get (tok_content tok) m).
Qed.

Lemma parse_result dom s tok :
  ∃ sc, (parseValueForToken dom s tok).2 = inl (Some sc) ∧
        Parsed (parseValueForToken dom s tok).1 tok sc.
Proof.
  unfold Parsed. rewrite parse_known.
  destruct s as [c d]. unfold parseValueForToken, fetchScopesByIdentifierForElement, known.
  simpl. destruct (JMap.get (tok_element tok) _) as [m|]; simpl.
  - destruct (JMap.get (tok_content tok) m); simpl; [by eauto|].
    rewrite decide_True by done. eauto.
  - rewrite decide_True by done. eauto.
Qed.

Lemma parseToken_eq dom s tok :
  ValueListObserver.parseToken value_delegate dom s tok =
    ((parseValueForToken dom s tok).1,
     match (parseValueForToken dom s tok).2 with
     | inl v => ParsedValue v | inr e => ParseError e end).
Proof.
  unfold ValueListObserver.parseToken. simpl.
  destruct (parseValueForToken dom s tok) as [? [?|?]]; done.
Qed.

Lemma vals_connected tvs s sc : Vals tvs s → sc ∈ remove_dups tvs.*2 ↔ 0 < count sc tvs.
Proof. intros _. by rewrite elem_of_remove_dups, count_pos. Qed.

Lemma vals_matched_value dom tvs s tok sc :
  Vals tvs s → Vals ((tok, sc) :: tvs) (elementMatchedValue dom s (tok_element tok) sc).
Proof.
  intros [Hc Hn Hk]. destruct s as [c d]. cbn [fst snd] in *. unfold elementMatchedValue. split; cbn [fst snd set_count scopeReferenceCounts].
  - intros sc'. rewrite JMap.get_set, count_cons. case_decide; subst; simpl; [|by apply Hc].
    rewrite Hc. lia.
  - rewrite Hc. case_decide as H1.
    + assert (sc ∉ tvs.*2) as Hni by (rewrite <-count_pos; lia).
      rewrite fmap_cons, remove_dups_notin by done. apply (conn_connect _ L); [done|].
      by rewrite elem_of_remove_dups.
    + assert (sc ∈ tvs.*2) as Hin by (apply count_pos; lia).
      by rewrite fmap_cons, remove_dups_in.
  - intros e i. apply Hk.
Qed.

Lemma vals_unmatched_value dom tvs s tok sc :
  Vals ((tok, sc) :: tvs) s → Vals tvs (elementUnmatchedValue dom s (tok_element tok) sc).
Proof.
  intros [Hc Hn Hk]. rewrite fmap_cons in Hn. destruct s as [c d]. cbn [fst snd] in *.
  unfold elementUnmatchedValue.
  pose proof (Hc sc) as Hsc. rewrite count_cons, decide_True in Hsc by done.
  destruct (JMap.get sc (scopeReferenceCounts c)) as [[|n]|]; simpl in Hsc; [lia| |lia].
  split; cbn [fst snd set_count scopeReferenceCounts].
  - intros sc'. rewrite JMap.get_set. pose proof (Hc sc') as Hsc'. rewrite count_cons in Hsc'.
    case_decide; simpl; [subst; lia|]. rewrite Hsc'. done.
  - case_decide as H1.
    + assert (sc ∉ tvs.*2) as Hni by (rewrite <-count_pos; lia).
      rewrite remove_dups_notin in Hn by done. apply (conn_disconnect _ L); [done|].
      by rewrite elem_of_remove_dups.
    + assert (sc ∈ tvs.*2) as Hin by (apply count_pos; lia).
      by rewrite remove_dups_in in Hn.
  - intros e i. apply Hk.
Qed.

Lemma known_matched dom s e i e' sc : known (elementMatchedValue dom s e' sc).1 e i = known s.1 e i.
Proof. by destruct s. Qed.

Lemma known_unmatched dom s e i e' sc : known (elementUnmatchedValue dom s e' sc).1 e i = known s.1 e i.
Proof.
  destruct s as [c d]. unfold elementUnmatchedValue.
  by destruct (JMap.get sc _) as [[|n]|].
Qed.

Lemma scope_laws : ValueListObserver.ValueLaws value_delegate Vals Parsed Result.
Proof.
  split.
  - intros dom s tok. rewrite parseToken_eq. simpl.
    destruct (parse_result dom s tok) as (sc & -> & _). by eexists.
  - intros tvs tvs' s Hp [Hc Hn Hk]. split; [| |done].
    + intros sc. rewrite Hc. unfold count. by rewrite Hp.
    + eapply (conn_perm _ L); [|done]. apply NoDup_Permutation; [apply NoDup_remove_dups..|].
      intros sc. by rewrite !elem_of_remove_dups, Hp.
  - intros dom tvs s tok [Hc Hn Hk]. rewrite parseToken_eq. simpl.
    destruct (parse_other dom s tok) as [Hcs Hd]. split.
    + intros sc. by rewrite Hcs.
    + by rewrite Hd.
    + intros e i sc. rewrite parse_known. destruct (known s.1 e i) eqn:He; [naive_solver|].
      case_decide; [|done]. intros [= <-]. apply (create_scope _ L).
  - intros. by apply vals_matched_value.
  - intros. by apply vals_unmatched_value.
  - intros dom s tok sc. rewrite parseToken_eq. simpl.
    destruct (parse_result dom s tok) as (sc' & -> & Hp). by intros [= ->].
  - intros dom s tok tok' sc. rewrite parseToken_eq. simpl. unfold Parsed.
    rewrite parse_known. by intros ->.
  - intros dom s tok sc e sc'. unfold Parsed. simpl. by rewrite known_matched.
  - intros dom s tok sc e sc'. unfold Parsed. simpl. by rewrite known_unmatched.
Qed.

Lemma vals_new d : Conn [] d → Vals [] (new_core, d).
Proof. intros Hc. by split. Qed.
End scope_observer.
End ScopeObserver.
