(* ===== verification/Names.v ===== *)
(** Names of data attributes: [camelize], [capitalize], [dasherize], and the
    maps [DataMap] and [ClassMap] of a scope.

    Models [src/gui/web/assets/scripts/stimulus.js], the functions on names
    and the classes [DataMap] and [ClassMap]. *)

From S2P Require Import Prelude JsCore JsString Dom Scopes.
From Stdlib Require Import Ascii.

#[local] Open Scope string_scope.

(** ** Names *)

Definition is_separator (c : ascii) : bool := bool_decide (c = "_"%char ∨ c = "-"%char).

(** [value.replace(/(?:[_-])([a-z0-9])/g, (_, char) => char.toUpperCase())] *)
Fixpoint camelize (value : string) : string :=
  match value with
  | "" => ""
  | String c rest =>
    match rest with
    | String d rest' =>
      if is_separator c && (Str.is_lower d || Str.is_digit d)
      then String (Str.upper d) (camelize rest')
      else String c (camelize rest)
    | "" => String c ""
    end
  end.

Definition capitalize (value : string) : string :=
  match value with
  | "" => ""
  | String c rest => String (Str.upper c) rest
  end.

(** [value.replace(/([A-Z])/g, (_, char) => "-" + char.toLowerCase())] *)
Fixpoint dasherize (value : string) : string :=
  match value with
  | "" => ""
  | String c rest =>
    if Str.is_upper c then String "-" (String (Str.lower c) (dasherize rest))
    else String c (dasherize rest)
  end.

(** ** [DataMap] and [ClassMap] *)

Module DataMap.

Definition getAttributeNameForKey (sc : scope) (key : string) : string :=
  "data-" +:+ sc_identifier sc +:+ "-" +:+ dasherize key.

Section data_map.
Context {doc : Type} `{Dom doc}.
Implicit Types (d : doc) (sc : scope).

Definition get d sc (key : string) : option string :=
  getAttribute d (sc_element sc) (getAttributeNameForKey sc key).

(** The document after the update, and the value read back. *)
Definition set d sc (key value : string) : doc * option string :=
  let d := setAttribute d (sc_element sc) (getAttributeNameForKey sc key) value in
  (d, get d sc key).

Definition has d sc (key : string) : bool :=
  hasAttribute d (sc_element sc) (getAttributeNameForKey sc key).

Definition delete d sc (key : string) : doc * bool :=
  if has d sc key
  then (removeAttribute d (sc_element sc) (getAttributeNameForKey sc key), true)
  else (d, false).
End data_map.
End DataMap.

Module ClassMap.
Section class_map.
Context {doc : Type} `{Dom doc}.
Implicit Types (d : doc) (sc : scope).

Definition getDataKey (name : string) : string := name +:+ "-class".
Definition has d sc (name : string) : bool := DataMap.has d sc (getDataKey name).
Definition get d sc (name : string) : option string := DataMap.get d sc (getDataKey name).
Definition getAttributeName sc (name : string) : string :=
  DataMap.getAttributeNameForKey sc (getDataKey name).
End class_map.
End ClassMap.

(** ** Round trips *)

Lemma upper_lower c : Str.is_upper c = true → Str.upper (Str.lower c) = c.
Proof. by destruct c as [[] [] [] [] [] [] [] []]; vm_compute. Qed.

Lemma lower_is_lower c : Str.is_upper c = true → Str.is_lower (Str.lower c) = true.
Proof. by destruct c as [[] [] [] [] [] [] [] []]; vm_compute. Qed.

Lemma lower_upper c : Str.is_lower c = true → Str.lower (Str.upper c) = c.
Proof. by destruct c as [[] [] [] [] [] [] [] []]; vm_compute. Qed.

Lemma upper_is_upper c : Str.is_lower c = true → Str.is_upper (Str.upper c) = true.
Proof. by destruct c as [[] [] [] [] [] [] [] []]; vm_compute. Qed.

Lemma upper_not_separator c : Str.is_upper c = true → is_separator c = false.
Proof. by destruct c as [[] [] [] [] [] [] [] []]; vm_compute. Qed.

Lemma lower_lower c : Str.is_upper (Str.lower c) = false.
Proof. by destruct c as [[] [] [] [] [] [] [] []]; vm_compute. Qed.

(** A camel-case name: no separator in it. *)
Definition camel (s : string) : Prop := Str.all (λ c, negb (is_separator c)) s = true.

Lemma camel_cons c s : camel (String c s) ↔ is_separator c = false ∧ camel s.
Proof. unfold camel. simpl. by rewrite andb_true_iff, negb_true_iff. Qed.

Lemma camelize_plain c s : is_separator c = false → camelize (String c s) = String c (camelize s).
Proof. intros Hc. simpl. rewrite Hc. by destruct s. Qed.

Lemma camelize_dash d s :
  Str.is_lower d || Str.is_digit d = true →
  camelize (String "-" (String d s)) = String (Str.upper d) (camelize s).
Proof. intros Hd. simpl. by rewrite Hd. Qed.

Lemma camelize_dasherize s : camel s → camelize (dasherize s) = s.
Proof.
  induction s as [|c s IH]; [done|]. intros [Hc Hs]%camel_cons. simpl dasherize.
  destruct (Str.is_upper c) eqn:Hu.
  - rewrite camelize_dash by by rewrite lower_is_lower. by rewrite upper_lower, IH.
  - by rewrite camelize_plain, IH.
Qed.

(** A kebab-case name: no capital and no underscore, and every dash is followed
    by a small letter. *)
Fixpoint kebab (s : string) : bool :=
  match s with
  | "" => true
  | String c rest =>
    if bool_decide (c = "-"%char)
    then match rest with
         | String d rest' => Str.is_lower d && kebab rest'
         | "" => false
         end
    else negb (Str.is_upper c) && negb (is_separator c) && kebab rest
  end.

Lemma dasherize_camelize_length n s :
  (String.length s ≤ n)%nat → kebab s = true → dasherize (camelize s) = s.
Proof.
  revert s. induction n as [|n IH]; intros s Hn Hk; destruct s as [|c s]; simpl in Hn; try (done || lia).
  simpl in Hk. case_bool_decide as Hc.
  - subst c. destruct s as [|d s]; [done|]. apply andb_true_iff in Hk as [Hd Hk].
    rewrite camelize_dash by by rewrite Hd. simpl. rewrite upper_is_upper, lower_upper by done.
    by rewrite IH by (simpl in Hn; lia || done).
  - apply andb_true_iff in Hk as [[Hu Hs]%andb_true_iff Hk].
    apply negb_true_iff in Hu, Hs. rewrite camelize_plain by done. simpl. rewrite Hu.
    by rewrite IH by (lia || done).
Qed.

Lemma dasherize_not_upper s : Str.all (λ c, negb (Str.is_upper c)) (dasherize s) = true.
Proof.
  induction s as [|c s IH]; [done|]. simpl. destruct (Str.is_upper c) eqn:Hc; simpl.
  - by rewrite lower_lower.
  - by rewrite Hc.
Qed.

Lemma lower_name_app s t : lower_name (s +:+ t) = lower_name s +:+ lower_name t.
Proof.
  unfold lower_name. induction s as [|c s IH]; [done|]. rewrite Str.app_cons. simpl. by rewrite IH.
Qed.

Lemma lower_name_fixed s : Str.all (λ c, negb (Str.is_upper c)) s = true → lower_name s = s.
Proof.
  unfold lower_name. induction s as [|c s IH]; simpl; [done|].
  rewrite andb_true_iff, negb_true_iff. intros [Hc Hs]. rewrite IH by done.
  unfold Str.lower. by rewrite Hc.
Qed.

Lemma app_inj_l (s t u : string) : s +:+ t = s +:+ u → t = u.
Proof. induction s as [|c s IH]; [done|]. rewrite !Str.app_cons. intros [= ?]; auto. Qed.

(** The attributes of two camel-case keys of a scope differ, also once the
    document has lower-cased them. *)
Lemma attribute_name_inj sc k k' :
  camel k → camel k' →
  lower_name (DataMap.getAttributeNameForKey sc k) = lower_name (DataMap.getAttributeNameForKey sc k') →
  k = k'.
Proof.
  intros Hk Hk'. unfold DataMap.getAttributeNameForKey. rewrite !lower_name_app.
  intros Heq%app_inj_l%app_inj_l%app_inj_l.
  rewrite !lower_name_fixed in Heq by apply dasherize_not_upper.
  by rewrite <-(camelize_dasherize k), Heq, camelize_dasherize.
Qed.

(** ** Properties *)

(** [camelize] and [dasherize] are inverse to each other: [camelize]
    undoes [dasherize] on names without separators, and [dasherize] undoes
    [camelize] on lower-case names whose dashes precede letters. *)
Lemma names_roundtrip :
  (∀ name, camel name → camelize (dasherize name) = name) ∧
  (∀ name, kebab name = true → dasherize (camelize name) = name).
Proof.
  split; [apply camelize_dasherize|]. intros name. by apply (dasherize_camelize_length (String.length name)).
Qed.

(** The data of a scope is a map from camel-case keys: [set] returns the
    value and makes [get] return it, leaving every other key and every other
    element alone; [delete] answers whether the key was there and makes it
    absent, leaving the others alone; [has] says whether [get] has a value. *)
Lemma data_map_laws {doc} `{DomLaws doc} (d : doc) sc key value :
  camel key →
  (DataMap.set d sc key value).2 = Some value ∧
  (∀ sc' key', camel key' → sc_identifier sc' = sc_identifier sc →
     DataMap.get (DataMap.set d sc key value).1 sc' key' =
       if decide (sc_element sc' = sc_element sc ∧ key' = key) then Some value
       else DataMap.get d sc' key') ∧
  (DataMap.delete d sc key).2 = DataMap.has d sc key ∧
  (∀ sc' key', camel key' → sc_identifier sc' = sc_identifier sc →
     DataMap.get (DataMap.delete d sc key).1 sc' key' =
       if decide (sc_element sc' = sc_element sc ∧ key' = key) then None
       else DataMap.get d sc' key') ∧
  (DataMap.has d sc key = true ↔ is_Some (DataMap.get d sc key)).
Proof.
  intros Hk.
  assert (∀ o sc' key', camel key' → sc_identifier sc' = sc_identifier sc →
    DataMap.get (set_attr d (sc_element sc) (lower_name (DataMap.getAttributeNameForKey sc key)) o) sc' key' =
    if decide (sc_element sc' = sc_element sc ∧ key' = key) then o else DataMap.get d sc' key') as Hset.
  { intros o sc' key' Hk' Hid. unfold DataMap.get, getAttribute. rewrite attr_set_attr.
    assert (DataMap.getAttributeNameForKey sc' key' = DataMap.getAttributeNameForKey sc key') as ->
      by (unfold DataMap.getAttributeNameForKey; by rewrite Hid).
    case_decide as Hc; case_decide as Hc'; try done.
    - destruct Hc as [He Hn]. apply attribute_name_inj in Hn; [|done..]. exfalso. apply Hc'. by subst.
    - destruct Hc' as [He ->]. exfalso. apply Hc. by rewrite He. }
  assert (DataMap.has d sc key = true ↔ is_Some (DataMap.get d sc key)) as Hhas.
  { unfold DataMap.has, hasAttribute. apply bool_decide_eq_true. }
  split_and!; [| |by unfold DataMap.delete; destruct (DataMap.has d sc key)| |done].
  - unfold DataMap.set, setAttribute. cbn [snd]. rewrite Hset by done. by rewrite decide_True.
  - intros sc' key' Hk' Hid. by apply Hset.
  - intros sc' key' Hk' Hid. unfold DataMap.delete. destruct (DataMap.has d sc key) eqn:Hh; [by apply Hset|].
    cbn [fst]. case_decide as Hc; [|done]. destruct Hc as [He ->].
    destruct (DataMap.get d sc' key) eqn:Hg; [|done]. exfalso.
    assert (is_Some (DataMap.get d sc key)) as Hs; [|rewrite <-Hhas in Hs; congruence].
    unfold DataMap.get, DataMap.getAttributeNameForKey in *. rewrite He, Hid in Hg. by eexists.
Qed.

Definition data_scope : scope := mk_scope 0 1 "catalog".
Definition data_page : PageDom.t := PageDom.mk [(0, 1)] [] [] eq_refl.

Lemma data_map_laws_witness :
  DataMap.get (DataMap.set data_page data_scope "lastPeer" "x").1 data_scope "lastPeer" = Some "x".
Proof.
  destruct (data_map_laws data_page data_scope "lastPeer" "x" eq_refl) as (_ & Hget & _).
  rewrite Hget by reflexivity. by rewrite decide_True.
Defined.
