(* ===== verification/Router.v ===== *)
(** The router: it connects a controller context for every scope whose
    identifier has a registered module, and disconnects it when the scope or
    the module goes.

Models [src/gui/web/assets/scripts/stimulus.js], the classes [Module] (the
part that manages contexts) and [Router].  Modules are objects that the
map [modulesByIdentifier] and running operations share, so they live in a
heap [modules] indexed by their identity.  What a context does when it is
constructed, connected and disconnected is an interface, [ContextOps], over
a state [W]; its operations read the router, as controllers do. *)

From S2P Require Import Prelude JsCore JsString Dom Multimaps Observers Tokens ValueList Scopes.

(** A context object: its identity, its module and its scope. *)
Record context := mk_context { cx_id : nat; cx_module : nat; cx_scope : scope }.

#[export] Instance context_eq_dec : EqDecision context.
Proof. solve_decision. Defined.

Definition cx_element (cx : context) : elem := sc_element (cx_scope cx).

(** A definition: an identifier and the (blessed) controller class. *)
Record definition := mk_definition { def_identifier : string; def_constructor : string }.

Record module := mk_module {
  m_definition : definition;
  m_contextsByScope : list (scope * context);
  m_connectedContexts : list context;
}.

Definition m_identifier (m : module) : string := def_identifier (m_definition m).

Record router := mk_router {
  scopesByIdentifier : Multimap.t string scope;
  modulesByIdentifier : list (string * nat);
  modules : list (nat * module);
  next_module : nat;
  next_context : nat;
}.

Definition new_router : router := mk_router Multimap.empty [] [] 0 0.

Record ContextOps (doc W : Type) := {
  (** [new Context(module, scope)]: constructs the controller and calls its
      [initialize]. *)
  co_new : doc → router → W → context → W;
  co_connect : doc → router → W → context → W;
  co_disconnect : doc → router → W → context → W;
}.
Arguments co_new {doc W}.
Arguments co_connect {doc W}.
Arguments co_disconnect {doc W}.

(** ** Modules *)

Module Module.

Definition empty_module : module := mk_module (mk_definition "" "") [] [].

Definition deref (r : router) (mid : nat) : module := default empty_module (JMap.get mid (modules r)).

Definition store (r : router) (mid : nat) (m : module) : router :=
  mk_router (scopesByIdentifier r) (modulesByIdentifier r) (JMap.set mid m (modules r))
    (next_module r) (next_context r).

Definition contexts (r : router) (mid : nat) : list context := m_connectedContexts (deref r mid).

Section module.
Context {doc W : Type} (ops : ContextOps doc W).
Implicit Types (dom : doc) (r : router) (w : W) (s : router * W).

Definition fetchContextForScope dom s (mid : nat) (sc : scope) : router * W * context :=
  let '(r, w) := s in
  match JMap.get sc (m_contextsByScope (deref r mid)) with
  | Some context => (r, w, context)
  | None =>
    let context := mk_context (next_context r) mid sc in
    let r := mk_router (scopesByIdentifier r) (modulesByIdentifier r) (modules r)
               (next_module r) (S (next_context r)) in
    let w := co_new ops dom r w context in
    let m := deref r mid in
    (store r mid (mk_module (m_definition m) (JMap.set sc context (m_contextsByScope m))
                            (m_connectedContexts m)), w, context)
  end.

Definition connectContextForScope dom s (mid : nat) (sc : scope) : router * W :=
  let '(r, w, context) := fetchContextForScope dom s mid sc in
  let m := deref r mid in
  let r := store r mid (mk_module (m_definition m) (m_contextsByScope m)
                          (JSet.add context (m_connectedContexts m))) in
  (r, co_connect ops dom r w context).

Definition disconnectContextForScope dom s (mid : nat) (sc : scope) : router * W :=
  let '(r, w) := s in
  match JMap.get sc (m_contextsByScope (deref r mid)) with
  | Some context =>
    let m := deref r mid in
    let r := store r mid (mk_module (m_definition m) (m_contextsByScope m)
                            (JSet.delete context (m_connectedContexts m))) in
    (r, co_disconnect ops dom r w context)
  | None => (r, w)
  end.

(** *** The objects behind the router *)

Definition conn r (mid : nat) : list scope := cx_scope <$> contexts r mid.

(** Contexts belong to their module and scope, and each connected context is
    the one recorded for its scope. *)
Record heap_ok r : Prop := {
  heap_bound mid m : JMap.get mid (modules r) = Some m → mid < next_module r;
  heap_contexts mid sc cx :
    JMap.get sc (m_contextsByScope (deref r mid)) = Some cx →
    cx_scope cx = sc ∧ cx_module cx = mid ∧ cx_id cx < next_context r;
  heap_connected mid cx :
    cx ∈ contexts r mid → JMap.get (cx_scope cx) (m_contextsByScope (deref r mid)) = Some cx;
  heap_nodup mid : NoDup (contexts r mid);
}.

Definition allocated r (mid : nat) : Prop := is_Some (JMap.get mid (modules r)).

(** What an operation on contexts leaves alone. *)
Record same_tables r r' : Prop := {
  same_scopes : scopesByIdentifier r' = scopesByIdentifier r;
  same_modules : modulesByIdentifier r' = modulesByIdentifier r;
  same_next : next_module r' = next_module r;
  same_allocated mid : allocated r' mid ↔ allocated r mid;
  same_definition mid : m_definition (deref r' mid) = m_definition (deref r mid);
}.

Lemma deref_store r mid m mid' :
  deref (store r mid m) mid' = if decide (mid = mid') then m else deref r mid'.
Proof. unfold deref, store. simpl. rewrite JMap.get_set. by case_decide. Qed.

Lemma allocated_store r mid m mid' :
  allocated r mid → allocated (store r mid m) mid' ↔ allocated r mid'.
Proof.
  unfold allocated, store. simpl. intros Hm. rewrite JMap.get_set.
  case_decide; [subst|done]. by split; eauto.
Qed.

Lemma same_refl r : same_tables r r.
Proof. by split. Qed.

Lemma same_trans r1 r2 r3 : same_tables r1 r2 → same_tables r2 r3 → same_tables r1 r3.
Proof.
  intros [? ? ? Ha Hd] [? ? ? Ha' Hd']. split; try congruence.
  intros mid. by rewrite Ha', Ha.
Qed.

Lemma same_store r mid m :
  allocated r mid → m_definition m = m_definition (deref r mid) → same_tables r (store r mid m).
Proof.
  intros Ha Hd. split; try done.
  - intros mid'. by apply allocated_store.
  - intros mid'. rewrite deref_store. case_decide; by subst.
Qed.

Lemma conn_NoDup r mid : heap_ok r → NoDup (conn r mid).
Proof.
  intros [_ _ Hc Hn]. unfold conn. apply NoDup_fmap_2_strong; [|apply Hn].
  intros cx cx' Hcx%Hc Hcx'%Hc Heq. rewrite Heq in Hcx. congruence.
Qed.

Lemma store_bound r mid m :
  (∀ mid m, JMap.get mid (modules r) = Some m → mid < next_module r) → allocated r mid →
  ∀ mid' m', JMap.get mid' (modules (store r mid m)) = Some m' → mid' < next_module r.
Proof.
  intros Hb Ha mid' m'. simpl. rewrite JMap.get_set. case_decide; subst; [|apply Hb].
  intros _. destruct Ha as [? ?]. by eapply Hb.
Qed.

(** *** Fetching a context *)

Lemma fetch_spec dom r w mid sc :
  heap_ok r → allocated r mid →
  ∃ r' w' cx, fetchContextForScope dom (r, w) mid sc = (r', w', cx) ∧
    heap_ok r' ∧ same_tables r r' ∧ (∀ mid', contexts r' mid' = contexts r mid') ∧
    cx_scope cx = sc ∧ JMap.get sc (m_contextsByScope (deref r' mid)) = Some cx.
Proof.
  intros Ho Ha. unfold fetchContextForScope.
  destruct (JMap.get sc _) as [cx|] eqn:Hget.
  { exists r, w, cx. split_and!; [done..|apply same_refl|done| |done].
    by apply (heap_contexts _ Ho) in Hget as [? _]. }
  set (cx := mk_context _ _ _). set (r1 := mk_router _ _ _ _ _). cbv zeta.
  set (m' := mk_module _ _ _). eexists _, _, cx. split; [done|].
  assert (∀ mid', contexts (store r1 mid m') mid' = contexts r mid') as Hcx.
  { intros mid'. unfold contexts. rewrite deref_store. case_decide; by subst. }
  split_and!.
  - split.
    + apply (store_bound r1 mid m'); [apply Ho|done].
    + intros mid' sc' cx'. rewrite deref_store. case_decide; subst; simpl.
      * rewrite JMap.get_set. case_decide; subst.
        -- intros [= <-]. simpl. split_and!; [done..|lia].
        -- intros (?&?&?)%(heap_contexts _ Ho). split_and!; [done..|lia].
      * intros (?&?&?)%(heap_contexts _ Ho). split_and!; [done..|lia].
    + intros mid' cx'. rewrite Hcx. intros Hin%(heap_connected _ Ho). rewrite deref_store.
      case_decide; subst; [|done]. simpl. rewrite JMap.get_set. case_decide; [congruence|done].
    + intros mid'. rewrite Hcx. apply Ho.
  - apply (same_trans r r1); [by split|by apply same_store].
  - done.
  - done.
  - rewrite deref_store, decide_True by done. simpl. apply JMap.get_set_eq.
Qed.

(** *** Connecting and disconnecting *)

Lemma set_connected_ok r mid cxs :
  heap_ok r → allocated r mid → NoDup cxs →
  (∀ cx, cx ∈ cxs → JMap.get (cx_scope cx) (m_contextsByScope (deref r mid)) = Some cx) →
  let m := deref r mid in
  let r' := store r mid (mk_module (m_definition m) (m_contextsByScope m) cxs) in
  heap_ok r' ∧ same_tables r r' ∧
  ∀ mid', contexts r' mid' = if decide (mid = mid') then cxs else contexts r mid'.
Proof.
  intros Ho Ha Hn Hcxs m r'.
  assert (∀ mid', contexts r' mid' = if decide (mid = mid') then cxs else contexts r mid') as Hcx.
  { intros mid'. unfold contexts, r'. rewrite deref_store. by case_decide. }
  assert (∀ mid', m_contextsByScope (deref r' mid') = m_contextsByScope (deref r mid')) as Hby.
  { intros mid'. unfold r'. rewrite deref_store. case_decide; by subst. }
  split_and!; [|by apply same_store|done]. split.
  - apply store_bound; [apply Ho|done].
  - intros mid' sc cx. rewrite Hby. apply (heap_contexts _ Ho).
  - intros mid' cx. rewrite Hby, Hcx. case_decide; subst; [apply Hcxs|apply (heap_connected _ Ho)].
  - intros mid'. rewrite Hcx. case_decide; [done|apply Ho].
Qed.

Lemma connect_spec dom s mid sc :
  heap_ok s.1 → allocated s.1 mid →
  let s' := connectContextForScope dom s mid sc in
  heap_ok s'.1 ∧ same_tables s.1 s'.1 ∧
  ∀ mid' sc', sc' ∈ conn s'.1 mid' ↔ (mid' = mid ∧ sc' = sc) ∨ sc' ∈ conn s.1 mid'.
Proof.
  destruct s as [r w]. intros Ho Ha. simpl in *. unfold connectContextForScope.
  destruct (fetch_spec dom r w mid sc Ho Ha) as (r1 & w1 & cx & -> & Ho1 & Hs1 & Hc1 & Hsc & Hget).
  assert (allocated r1 mid) as Ha1 by by apply (same_allocated _ _ Hs1).
  destruct (set_connected_ok r1 mid (JSet.add cx (contexts r1 mid)) Ho1 Ha1) as (Ho2 & Hs2 & Hc2).
  { apply JSet.NoDup_add, Ho1. }
  { intros cx'. rewrite JSet.elem_of_add. intros [->|Hin]; [by rewrite Hsc|].
    by apply (heap_connected _ Ho1). }
  simpl. split_and!; [done|by eapply same_trans|]. intros mid' sc'. unfold conn.
  fold (contexts r1 mid). rewrite Hc2, <-Hc1. case_decide; subst.
  - rewrite !list_elem_of_fmap. setoid_rewrite JSet.elem_of_add. naive_solver.
  - naive_solver.
Qed.

Lemma disconnect_spec dom s mid sc :
  heap_ok s.1 → allocated s.1 mid →
  let s' := disconnectContextForScope dom s mid sc in
  heap_ok s'.1 ∧ same_tables s.1 s'.1 ∧
  ∀ mid' sc', sc' ∈ conn s'.1 mid' ↔ ¬ (mid' = mid ∧ sc' = sc) ∧ sc' ∈ conn s.1 mid'.
Proof.
  destruct s as [r w]. intros Ho Ha. simpl in *. unfold disconnectContextForScope.
  destruct (JMap.get sc _) as [cx|] eqn:Hget; simpl.
  - destruct (heap_contexts _ Ho _ _ _ Hget) as (Hsc & _).
    destruct (set_connected_ok r mid (JSet.delete cx (contexts r mid)) Ho Ha) as (Ho2 & Hs2 & Hc2).
    { apply JSet.NoDup_delete, Ho. }
    { intros cx' [_ Hin]%JSet.elem_of_delete. by apply (heap_connected _ Ho). }
    split_and!; [done..|]. intros mid' sc'. unfold conn.
    fold (contexts r mid). rewrite Hc2. case_decide; subst; [|naive_solver].
    rewrite !list_elem_of_fmap. setoid_rewrite JSet.elem_of_delete. split.
    + intros (cx' & -> & Hne & Hin). split; [|by eauto]. intros [_ Heq].
      apply (heap_connected _ Ho) in Hin. rewrite Heq in Hin. congruence.
    + intros (Hne & cx' & -> & Hin). exists cx'. split_and!; [done| |done]. intros ->. naive_solver.
  - split_and!; [done|apply same_refl|]. intros mid' sc'. split; [|tauto]. intros Hin.
    split; [|done]. intros [-> ->]. unfold conn in Hin.
    apply list_elem_of_fmap in Hin as (cx & -> & Hcx%(heap_connected _ Ho)). congruence.
Qed.
End module.
End Module.

(** ** The router *)

Module Router.
Import Module.

Section router.
Context {doc W : Type} (ops : ContextOps doc W).
Implicit Types (dom : doc) (r : router) (w : W) (s : router * W).

Definition set_scopes r (ss : Multimap.t string scope) : router :=
  mk_router ss (modulesByIdentifier r) (modules r) (next_module r) (next_context r).
Definition set_modules r (ms : list (string * nat)) : router :=
  mk_router (scopesByIdentifier r) ms (modules r) (next_module r) (next_context r).

(** The connected contexts of all registered modules. *)
Definition contexts r : list context :=
  foldl (λ cs mid, cs ++ Module.contexts r mid) [] (JMap.values (modulesByIdentifier r)).

Definition connectModule dom s (mid : nat) : router * W :=
  let '(r, w) := s in
  let identifier := m_identifier (deref r mid) in
  let r := set_modules r (JMap.set identifier mid (modulesByIdentifier r)) in
  let scopes := Multimap.getValuesForKey (scopesByIdentifier r) identifier in
  foldl (λ s sc, connectContextForScope ops dom s mid sc) (r, w) scopes.

Definition disconnectModule dom s (mid : nat) : router * W :=
  let '(r, w) := s in
  let identifier := m_identifier (deref r mid) in
  let r := set_modules r (JMap.delete identifier (modulesByIdentifier r)) in
  let scopes := Multimap.getValuesForKey (scopesByIdentifier r) identifier in
  foldl (λ s sc, disconnectContextForScope ops dom s mid sc) (r, w) scopes.

Definition unloadIdentifier dom s (identifier : string) : router * W :=
  match JMap.get identifier (modulesByIdentifier s.1) with
  | Some mid => disconnectModule dom s mid
  | None => s
  end.

(** [new Module(application, definition)] *)
Definition new_module_object r (def : definition) : router * nat :=
  let mid := next_module r in
  (mk_router (scopesByIdentifier r) (modulesByIdentifier r)
     (JMap.set mid (mk_module def [] []) (modules r)) (S mid) (next_context r), mid).

Definition loadDefinition dom s (def : definition) : router * W :=
  let '(r, w) := unloadIdentifier dom s (def_identifier def) in
  let '(r, mid) := new_module_object r def in
  connectModule dom (r, w) mid.

Definition getContextForElementAndIdentifier r (element : elem) (identifier : string) : option context :=
  match JMap.get identifier (modulesByIdentifier r) with
  | Some mid => snd <$> list_find (λ cx, cx_element cx = element) (Module.contexts r mid)
  | None => None
  end.

Definition scopeConnected dom s (sc : scope) : router * W :=
  let '(r, w) := s in
  let r := set_scopes r (Multimap.add (scopesByIdentifier r) (sc_identifier sc) sc) in
  match JMap.get (sc_identifier sc) (modulesByIdentifier r) with
  | Some mid => connectContextForScope ops dom (r, w) mid sc
  | None => (r, w)
  end.

Definition scopeDisconnected dom s (sc : scope) : router * W :=
  let '(r, w) := s in
  let r := set_scopes r (Multimap.delete (scopesByIdentifier r) (sc_identifier sc) sc) in
  match JMap.get (sc_identifier sc) (modulesByIdentifier r) with
  | Some mid => disconnectContextForScope ops dom (r, w) mid sc
  | None => (r, w)
  end.

(** The router as the delegate of its scope observer. *)
Definition scope_delegate : ScopeDelegate doc (router * W) := {|
  sd_createScopeForElementAndIdentifier := mk_scope;
  sd_scopeConnected := scopeConnected;
  sd_scopeDisconnected := scopeDisconnected;
|}.

(** *** The router's invariant

[ok scs s]: the scopes the router knows are [scs]; registered modules
are allocated under their own identifier; and a module has a connected
context for a scope exactly if the scope is known and the module is the
one registered for its identifier. *)
Record ok (scs : list scope) (r : router) : Prop := {
  ok_heap : heap_ok r;
  ok_scopes_wf : wf (Multimap.valuesByKey (scopesByIdentifier r));
  ok_scopes i sc :
    related (Multimap.valuesByKey (scopesByIdentifier r)) i sc ↔ sc_identifier sc = i ∧ sc ∈ scs;
  ok_modules_wf : JMap.wf (modulesByIdentifier r);
  ok_registered i mid :
    JMap.get i (modulesByIdentifier r) = Some mid → allocated r mid ∧ m_identifier (deref r mid) = i;
  ok_connected mid sc :
    sc ∈ conn r mid ↔ sc ∈ scs ∧ JMap.get (sc_identifier sc) (modulesByIdentifier r) = Some mid;
}.

Lemma getValuesForKey_scopes scs r i sc :
  ok scs r → sc ∈ Multimap.getValuesForKey (scopesByIdentifier r) i ↔ sc_identifier sc = i ∧ sc ∈ scs.
Proof.
  intros Ho. rewrite <-(ok_scopes _ _ Ho). unfold Multimap.getValuesForKey, related, bucket.
  by destruct (JMap.get i _).
Qed.

(** Connecting or disconnecting one module's contexts for a list of scopes. *)
Lemma connect_all dom s mid l :
  heap_ok s.1 → allocated s.1 mid →
  let s' := foldl (λ s sc, connectContextForScope ops dom s mid sc) s l in
  heap_ok s'.1 ∧ same_tables s.1 s'.1 ∧
  ∀ mid' sc', sc' ∈ conn s'.1 mid' ↔ (mid' = mid ∧ sc' ∈ l) ∨ sc' ∈ conn s.1 mid'.
Proof.
  cbv zeta. revert s. induction l as [|sc l IH]; intros s Ho Ha; simpl.
  { split_and!; [done|apply same_refl|]. intros mid' sc'. pose proof (not_elem_of_nil sc'). tauto. }
  destruct (connect_spec ops dom s mid sc Ho Ha) as (Ho1 & Hs1 & Hc1).
  destruct (IH (connectContextForScope ops dom s mid sc) Ho1) as (Ho2 & Hs2 & Hc2).
  { by apply (same_allocated _ _ Hs1). }
  split_and!; [done|by eapply same_trans|]. intros mid' sc'. rewrite Hc2, Hc1, elem_of_cons. tauto.
Qed.

Lemma disconnect_all dom s mid l :
  heap_ok s.1 → allocated s.1 mid →
  let s' := foldl (λ s sc, disconnectContextForScope ops dom s mid sc) s l in
  heap_ok s'.1 ∧ same_tables s.1 s'.1 ∧
  ∀ mid' sc', sc' ∈ conn s'.1 mid' ↔ ¬ (mid' = mid ∧ sc' ∈ l) ∧ sc' ∈ conn s.1 mid'.
Proof.
  cbv zeta. revert s. induction l as [|sc l IH]; intros s Ho Ha; simpl.
  { split_and!; [done|apply same_refl|]. intros mid' sc'. pose proof (not_elem_of_nil sc'). tauto. }
  destruct (disconnect_spec ops dom s mid sc Ho Ha) as (Ho1 & Hs1 & Hc1).
  destruct (IH (disconnectContextForScope ops dom s mid sc) Ho1) as (Ho2 & Hs2 & Hc2).
  { by apply (same_allocated _ _ Hs1). }
  split_and!; [done|by eapply same_trans|]. intros mid' sc'. rewrite Hc2, Hc1, elem_of_cons. tauto.
Qed.

(** Rebuilding the invariant after context operations that leave the tables
    alone. *)
Lemma ok_after scs r r' scs' :
  heap_ok r' → same_tables r r' →
  wf (Multimap.valuesByKey (scopesByIdentifier r)) →
  (∀ i sc, related (Multimap.valuesByKey (scopesByIdentifier r)) i sc ↔ sc_identifier sc = i ∧ sc ∈ scs') →
  JMap.wf (modulesByIdentifier r) →
  (∀ i mid, JMap.get i (modulesByIdentifier r) = Some mid →
     allocated r mid ∧ m_identifier (deref r mid) = i) →
  (∀ mid sc, sc ∈ conn r' mid ↔
     sc ∈ scs' ∧ JMap.get (sc_identifier sc) (modulesByIdentifier r) = Some mid) →
  scs = scs' → ok scs r'.
Proof.
  intros Ho [Hs Hm Hn Ha Hd] Hw Hr Hmw Hreg Hc ->. split; rewrite ?Hs, ?Hm; try done.
  intros i mid [??]%Hreg. split; [by apply Ha|]. unfold m_identifier. by rewrite Hd.
Qed.

Lemma scopeConnected_ok dom scs s sc :
  ok scs s.1 → sc ∉ scs → ok (sc :: scs) (scopeConnected dom s sc).1.
Proof.
  destruct s as [r w]. simpl. intros Ho Hsc. unfold scopeConnected.
  set (r1 := set_scopes r _). assert (heap_ok r1) as Hh by (destruct (ok_heap _ _ Ho); by split).
  assert (wf (Multimap.valuesByKey (scopesByIdentifier r1))) as Hw by apply wf_add, Ho.
  assert (∀ i sc', related (Multimap.valuesByKey (scopesByIdentifier r1)) i sc' ↔
                   sc_identifier sc' = i ∧ sc' ∈ sc :: scs) as Hrel.
  { intros i sc'. simpl. rewrite related_add, (ok_scopes _ _ Ho), elem_of_cons. naive_solver. }
  destruct (JMap.get (sc_identifier sc) _) as [mid|] eqn:Hmid.
  - destruct (connect_spec ops dom (r1, w) mid sc Hh) as (Ho1 & Hs1 & Hc1).
    { by apply (ok_registered _ _ Ho) in Hmid as [? _]. }
    eapply ok_after; [exact Ho1|exact Hs1|done|exact Hrel| | | |done].
    + apply Ho.
    + apply (ok_registered _ _ Ho).
    + intros mid' sc'. rewrite Hc1, elem_of_cons. simpl.
      change (conn r1 mid') with (conn r mid'). rewrite (ok_connected _ _ Ho). naive_solver.
  - simpl. eapply (ok_after _ r1); [done|apply same_refl|done|exact Hrel| | | |done].
    + apply Ho.
    + apply (ok_registered _ _ Ho).
    + intros mid' sc'. change (conn r1 mid') with (conn r mid').
      rewrite (ok_connected _ _ Ho), elem_of_cons. simpl. naive_solver.
Qed.

Lemma scopeDisconnected_ok dom scs s sc :
  ok (sc :: scs) s.1 → sc ∉ scs → ok scs (scopeDisconnected dom s sc).1.
Proof.
  destruct s as [r w]. simpl. intros Ho Hsc. unfold scopeDisconnected.
  set (r1 := set_scopes r _). assert (heap_ok r1) as Hh by (destruct (ok_heap _ _ Ho); by split).
  assert (wf (Multimap.valuesByKey (scopesByIdentifier r1))) as Hw by apply wf_del, Ho.
  assert (∀ i sc', related (Multimap.valuesByKey (scopesByIdentifier r1)) i sc' ↔
                   sc_identifier sc' = i ∧ sc' ∈ scs) as Hrel.
  { intros i sc'. simpl. rewrite related_del, (ok_scopes _ _ Ho), elem_of_cons. naive_solver. }
  destruct (JMap.get (sc_identifier sc) _) as [mid|] eqn:Hmid.
  - destruct (disconnect_spec ops dom (r1, w) mid sc Hh) as (Ho1 & Hs1 & Hc1).
    { by apply (ok_registered _ _ Ho) in Hmid as [? _]. }
    eapply ok_after; [exact Ho1|exact Hs1|done|exact Hrel| | | |done].
    + apply Ho.
    + apply (ok_registered _ _ Ho).
    + intros mid' sc'. rewrite Hc1. simpl.
      change (conn r1 mid') with (conn r mid'). rewrite (ok_connected _ _ Ho), elem_of_cons.
      naive_solver.
  - simpl. eapply (ok_after _ r1); [done|apply same_refl|done|exact Hrel| | | |done].
    + apply Ho.
    + apply (ok_registered _ _ Ho).
    + intros mid' sc'. change (conn r1 mid') with (conn r mid').
      rewrite (ok_connected _ _ Ho), elem_of_cons. simpl. naive_solver.
Qed.

Lemma disconnectModule_ok dom scs s i mid :
  ok scs s.1 → JMap.get i (modulesByIdentifier s.1) = Some mid →
  ok scs (disconnectModule dom s mid).1 ∧
  (∀ i', JMap.get i' (modulesByIdentifier (disconnectModule dom s mid).1) =
         if decide (i = i') then None else JMap.get i' (modulesByIdentifier s.1)).
Proof.
  destruct s as [r w]. simpl. intros Ho Hi. unfold disconnectModule.
  destruct (ok_registered _ _ Ho _ _ Hi) as [Ha ->].
  set (r1 := set_modules r _). assert (heap_ok r1) as Hh by (destruct (ok_heap _ _ Ho); by split).
  destruct (disconnect_all dom (r1, w) mid
              (Multimap.getValuesForKey (scopesByIdentifier r) i)) as (Ho1 & Hs1 & Hc1); [done..|].
  split.
  - eapply ok_after; [exact Ho1|exact Hs1|apply Ho|apply Ho| | | |done].
    + apply JMap.wf_delete, Ho.
    + intros i' mid'. simpl. rewrite JMap.get_delete. case_decide; [done|].
      apply (ok_registered _ _ Ho).
    + intros mid' sc'. rewrite Hc1. simpl. change (conn r1 mid') with (conn r mid').
      rewrite (getValuesForKey_scopes scs r), (ok_connected _ _ Ho), JMap.get_delete by done.
      case_decide; naive_solver.
  - intros i'. rewrite (same_modules _ _ Hs1). apply JMap.get_delete.
Qed.

Lemma unloadIdentifier_ok dom scs s i :
  ok scs s.1 →
  ok scs (unloadIdentifier dom s i).1 ∧
  (∀ i', JMap.get i' (modulesByIdentifier (unloadIdentifier dom s i).1) =
         if decide (i = i') then None else JMap.get i' (modulesByIdentifier s.1)).
Proof.
  intros Ho. unfold unloadIdentifier.
  destruct (JMap.get i _) as [mid|] eqn:Hi; [by apply disconnectModule_ok|].
  split; [done|]. intros i'. case_decide; by subst.
Qed.

Lemma connectModule_ok dom scs s i mid :
  ok scs s.1 → allocated s.1 mid → m_identifier (deref s.1 mid) = i →
  JMap.get i (modulesByIdentifier s.1) = None → conn s.1 mid = [] →
  ok scs (connectModule dom s mid).1 ∧
  (∀ i', JMap.get i' (modulesByIdentifier (connectModule dom s mid).1) =
         if decide (i = i') then Some mid else JMap.get i' (modulesByIdentifier s.1)).
Proof.
  destruct s as [r w]. simpl. intros Ho Ha Hm Hi Hnil. unfold connectModule. rewrite Hm.
  set (r1 := set_modules r _). assert (heap_ok r1) as Hh by (destruct (ok_heap _ _ Ho); by split).
  destruct (connect_all dom (r1, w) mid
              (Multimap.getValuesForKey (scopesByIdentifier r) i)) as (Ho1 & Hs1 & Hc1); [done..|].
  split.
  - eapply ok_after; [exact Ho1|exact Hs1|apply Ho|apply Ho| | | |done].
    + apply JMap.wf_set, Ho.
    + intros i' mid'. simpl. rewrite JMap.get_set. case_decide; [|apply (ok_registered _ _ Ho)].
      intros [= <-]. by subst.
    + intros mid' sc'. rewrite Hc1. simpl. change (conn r1 mid') with (conn r mid').
      rewrite (getValuesForKey_scopes scs r), (ok_connected _ _ Ho), JMap.get_set by done.
      case_decide; [subst|].
      * split; [|naive_solver]. intros [?|[? Hg]]; [naive_solver|]. congruence.
      * naive_solver.
  - intros i'. rewrite (same_modules _ _ Hs1). apply JMap.get_set.
Qed.

(** A new module leaves the others alone. *)
Lemma new_module_heap r def :
  heap_ok r →
  let '(r', mid) := new_module_object r def in
  heap_ok r' ∧ allocated r' mid ∧ m_identifier (deref r' mid) = def_identifier def ∧
  (∀ mid', Module.contexts r' mid' = Module.contexts r mid') ∧ Module.contexts r' mid = [] ∧
  (∀ mid', allocated r mid' → allocated r' mid' ∧ deref r' mid' = deref r mid').
Proof.
  intros Ho. unfold new_module_object. set (mid := next_module r).
  set (r1 := mk_router _ _ (JMap.set mid _ _) _ _).
  assert (∀ mid', deref r1 mid' = if decide (mid = mid') then mk_module def [] [] else deref r mid') as Hd.
  { intros mid'. unfold deref, r1. simpl. rewrite JMap.get_set. by case_decide. }
  assert (JMap.get mid (modules r) = None) as Hnew.
  { destruct (JMap.get mid _) eqn:Hb; [|done].
    apply (heap_bound _ Ho) in Hb. unfold mid in Hb. lia. }
  assert (Module.contexts r mid = []) as Hnil by (unfold Module.contexts, deref; by rewrite Hnew).
  assert (∀ mid', Module.contexts r1 mid' = Module.contexts r mid') as Hcx.
  { intros mid'. unfold Module.contexts at 1. rewrite Hd. case_decide; [by subst|done]. }
  destruct Ho as [Hb Hc1 Hc2 Hn]. split_and!.
  - split.
    + intros mid' m. simpl. rewrite JMap.get_set. case_decide; [subst; lia|]. intros ?%Hb. lia.
    + intros mid' sc cx. rewrite Hd. case_decide; [done|]. apply Hc1.
    + intros mid' cx. rewrite Hcx, Hd. intros Hin. case_decide; [subst|by apply Hc2].
      rewrite Hnil in Hin. by apply not_elem_of_nil in Hin.
    + intros mid'. rewrite Hcx. apply Hn.
  - unfold allocated. simpl. rewrite JMap.get_set_eq. eauto.
  - unfold m_identifier. by rewrite Hd, decide_True.
  - done.
  - by rewrite Hcx.
  - intros mid' Ha. assert (mid ≠ mid') by (intros <-; destruct Ha; congruence). split.
    + unfold allocated. simpl. rewrite JMap.get_set. case_decide; eauto.
    + by rewrite Hd, decide_False.
Qed.

Lemma new_module_ok scs r def :
  ok scs r →
  let '(r', mid) := new_module_object r def in
  ok scs r' ∧ allocated r' mid ∧ m_identifier (deref r' mid) = def_identifier def ∧ conn r' mid = [].
Proof.
  intros Ho. pose proof (new_module_heap r def (ok_heap _ _ Ho)) as (Hh & Ha & Hid & Hcx & Hnil & Hold).
  split_and!; [|done|done|unfold conn; by rewrite Hnil].
  split; [done|apply Ho|apply Ho|apply Ho|..].
  - intros i' mid' [Ha' Hi]%(ok_registered _ _ Ho). destruct (Hold _ Ha') as [? Hd]. split; [done|].
    by unfold m_identifier; rewrite Hd.
  - intros mid' sc. unfold conn. rewrite Hcx. apply (ok_connected _ _ Ho).
Qed.

Lemma loadDefinition_ok dom scs s def :
  ok scs s.1 →
  ok scs (loadDefinition dom s def).1 ∧
  (∀ i', is_Some (JMap.get i' (modulesByIdentifier (loadDefinition dom s def).1)) ↔
         i' = def_identifier def ∨ is_Some (JMap.get i' (modulesByIdentifier s.1))).
Proof.
  intros Ho. unfold loadDefinition.
  destruct (unloadIdentifier_ok dom scs s (def_identifier def) Ho) as [Ho1 Hg1].
  destruct (unloadIdentifier dom s (def_identifier def)) as [r w]. simpl in *.
  pose proof (new_module_ok scs r def Ho1) as Hnew. unfold new_module_object in *.
  set (mid := next_module r) in *. set (r1 := mk_router _ _ (JMap.set mid _ _) _ _) in *.
  destruct Hnew as (Ho2 & Ha2 & Hid & Hc2).
  destruct (connectModule_ok dom scs (r1, w) (def_identifier def) mid) as [Ho3 Hg3]; [done..| |done|].
  - simpl. by rewrite Hg1, decide_True.
  - split; [done|]. intros i'. rewrite Hg3. simpl. rewrite Hg1. case_decide; [subst|naive_solver].
    split; [by left|eauto].
Qed.

Lemma ok_new : ok [] new_router.
Proof.
  assert (∀ mid, deref new_router mid = empty_module) as Hd by done.
  split; try done.
  - split; [done|done| |constructor]. intros mid cx Hin. by apply not_elem_of_nil in Hin.
  - apply wf_nil.
  - intros i sc. unfold related. simpl. pose proof (not_elem_of_nil sc). tauto.
  - apply JMap.map_wf_nil.
  - intros mid sc. unfold conn. simpl. pose proof (not_elem_of_nil sc). tauto.
Qed.

(** *** Properties of the contexts' own state

[P] is [Stable] if it is kept by connecting a scope that is not connected
and by disconnecting one that is, and does not look at the tables.  The
router only ever connects and disconnects in this way, so it keeps [P]. *)
Record Stable (P : router * W → Prop) : Prop := {
  stable_tables r r' w :
    P (r, w) → modules r' = modules r → next_context r' = next_context r → P (r', w);
  stable_module r w def :
    P (r, w) → heap_ok r → P ((new_module_object r def).1, w);
  stable_connect dom s mid sc :
    P s → heap_ok s.1 → allocated s.1 mid → sc ∉ conn s.1 mid →
    P (connectContextForScope ops dom s mid sc);
  stable_disconnect dom s mid sc :
    P s → heap_ok s.1 → allocated s.1 mid → sc ∈ conn s.1 mid →
    P (disconnectContextForScope ops dom s mid sc);
}.

Lemma stable_trivial : Stable (λ _, True).
Proof. by split. Qed.

Section stable.
Context (P : router * W → Prop) (SP : Stable P).
#[local] Arguments connectContextForScope : simpl never.
#[local] Arguments disconnectContextForScope : simpl never.
#[local] Arguments new_module_object : simpl never.

Lemma connect_all_stable dom s mid l :
  P s → heap_ok s.1 → allocated s.1 mid → NoDup l → (∀ sc, sc ∈ l → sc ∉ conn s.1 mid) →
  P (foldl (λ s sc, connectContextForScope ops dom s mid sc) s l).
Proof.
  revert s. induction l as [|sc l IH]; intros s Hp Hh Ha Hn Hl; simpl; [done|].
  apply NoDup_cons in Hn as [Hsc Hn].
  destruct (connect_spec ops dom s mid sc Hh Ha) as (Ho1 & Hs1 & Hc1). apply IH; [|done| |done|].
  - apply stable_connect; [done..|]. apply Hl. by left.
  - by apply (same_allocated _ _ Hs1).
  - intros sc' Hin. rewrite Hc1. intros [[_ ->]|Hin']; [done|]. eapply Hl; [|done]. by right.
Qed.

Lemma disconnect_all_stable dom s mid l :
  P s → heap_ok s.1 → allocated s.1 mid → NoDup l → (∀ sc, sc ∈ l → sc ∈ conn s.1 mid) →
  P (foldl (λ s sc, disconnectContextForScope ops dom s mid sc) s l).
Proof.
  revert s. induction l as [|sc l IH]; intros s Hp Hh Ha Hn Hl; simpl; [done|].
  apply NoDup_cons in Hn as [Hsc Hn].
  destruct (disconnect_spec ops dom s mid sc Hh Ha) as (Ho1 & Hs1 & Hc1). apply IH; [|done| |done|].
  - apply stable_disconnect; [done..|]. apply Hl. by left.
  - by apply (same_allocated _ _ Hs1).
  - intros sc' Hin. rewrite Hc1. split; [intros [_ ->]; done|]. apply Hl. by right.
Qed.

Lemma scopes_NoDup scs r i : ok scs r → NoDup (Multimap.getValuesForKey (scopesByIdentifier r) i).
Proof.
  intros Ho. unfold Multimap.getValuesForKey. destruct (JMap.get i _) as [l|] eqn:Hl; [|constructor].
  by apply (wf_bucket _ (ok_scopes_wf _ _ Ho) _ _ Hl).
Qed.

Lemma scopeConnected_stable dom scs s sc :
  ok scs s.1 → sc ∉ scs → P s → P (scopeConnected dom s sc).
Proof.
  destruct s as [r w]. simpl. intros Ho Hsc Hp. unfold scopeConnected.
  set (r1 := set_scopes r _). assert (heap_ok r1) as Hh by (destruct (ok_heap _ _ Ho); by split).
  assert (P (r1, w)) as Hp1 by (eapply stable_tables; [exact SP|exact Hp|done..]).
  destruct (JMap.get (sc_identifier sc) _) as [mid|] eqn:Hmid; [|done]. apply stable_connect; [done..| |].
  - by apply (ok_registered _ _ Ho) in Hmid as [? _].
  - change (sc ∉ conn r mid). rewrite (ok_connected _ _ Ho). tauto.
Qed.

Lemma scopeDisconnected_stable dom scs s sc :
  ok (sc :: scs) s.1 → P s → P (scopeDisconnected dom s sc).
Proof.
  destruct s as [r w]. simpl. intros Ho Hp. unfold scopeDisconnected.
  set (r1 := set_scopes r _). assert (heap_ok r1) as Hh by (destruct (ok_heap _ _ Ho); by split).
  assert (P (r1, w)) as Hp1 by (eapply stable_tables; [exact SP|exact Hp|done..]).
  destruct (JMap.get (sc_identifier sc) _) as [mid|] eqn:Hmid; [|done]. apply stable_disconnect; [done..| |].
  - by apply (ok_registered _ _ Ho) in Hmid as [? _].
  - change (sc ∈ conn r mid). rewrite (ok_connected _ _ Ho). split; [by left|done].
Qed.

Lemma unloadIdentifier_stable dom scs s i : ok scs s.1 → P s → P (unloadIdentifier dom s i).
Proof.
  intros Ho Hp. unfold unloadIdentifier. destruct (JMap.get i _) as [mid|] eqn:Hi; [|done].
  destruct s as [r w]. simpl in *. unfold disconnectModule.
  destruct (ok_registered _ _ Ho _ _ Hi) as [Ha ->].
  apply disconnect_all_stable; [by eapply stable_tables|by destruct (ok_heap _ _ Ho)|done| |].
  - by eapply scopes_NoDup.
  - intros sc. simpl. rewrite (getValuesForKey_scopes scs) by done. intros [<- Hsc].
    by apply (ok_connected _ _ Ho).
Qed.

Lemma loadDefinition_stable dom scs s def : ok scs s.1 → P s → P (loadDefinition dom s def).
Proof.
  intros Ho Hp. unfold loadDefinition.
  destruct (unloadIdentifier_ok dom scs s (def_identifier def) Ho) as [Ho1 _].
  pose proof (unloadIdentifier_stable dom scs s (def_identifier def) Ho Hp) as Hp1.
  destruct (unloadIdentifier dom s (def_identifier def)) as [r w]. cbn [fst snd] in *.
  pose proof (new_module_ok scs r def Ho1) as Hnew.
  pose proof (stable_module _ SP r w def Hp1 (ok_heap _ _ Ho1)) as Hp2.
  destruct (new_module_object r def) as [r2 mid]. destruct Hnew as (Ho2 & Ha2 & Hid & Hc2). cbn [fst snd] in *.
  unfold connectModule. rewrite Hid. apply connect_all_stable.
  - by eapply stable_tables.
  - by destruct (ok_heap _ _ Ho2).
  - done.
  - by eapply (scopes_NoDup scs r2).
  - intros sc _. change (sc ∉ conn r2 mid). rewrite Hc2. apply not_elem_of_nil.
Qed.

(** The router's state for the scopes [scs] and the registered identifiers
    [ids]. *)
Record good (ids : list string) (scs : list scope) s : Prop := {
  good_ok : ok scs s.1;
  good_stable : P s;
  good_modules i : is_Some (JMap.get i (modulesByIdentifier s.1)) ↔ i ∈ ids;
}.

Lemma loadDefinition_good dom ids scs s def :
  good ids scs s → good (def_identifier def :: ids) scs (loadDefinition dom s def).
Proof.
  intros [Ho HP Hm]. destruct (loadDefinition_ok dom scs s def Ho) as [Ho' Hm'].
  split; [done|by eapply loadDefinition_stable|]. intros i. by rewrite Hm', Hm, elem_of_cons.
Qed.

Lemma unloadIdentifier_good dom ids scs s i :
  good ids scs s → good (JSet.delete i ids) scs (unloadIdentifier dom s i).
Proof.
  intros [Ho HP Hm]. destruct (unloadIdentifier_ok dom scs s i Ho) as [Ho' Hm'].
  split; [done|by eapply unloadIdentifier_stable|]. intros i'.
  rewrite Hm', JSet.elem_of_delete, <-Hm. case_decide; [subst|naive_solver].
  split; [by intros []|naive_solver].
Qed.

Lemma scopeConnected_modules dom scs s sc :
  ok scs s.1 → modulesByIdentifier (scopeConnected dom s sc).1 = modulesByIdentifier s.1.
Proof.
  destruct s as [r w]. intros Ho. cbn [fst] in *. unfold scopeConnected.
  destruct (JMap.get (sc_identifier sc) _) as [mid|] eqn:Hmid; [|done].
  set (r1 := set_scopes r _). assert (heap_ok r1) as Hh by (destruct (ok_heap _ _ Ho); by split).
  destruct (connect_spec ops dom (r1, w) mid sc Hh) as (_ & [_ Hm _ _ _] & _); [|done].
  by apply (ok_registered _ _ Ho) in Hmid as [? _].
Qed.

Lemma scopeDisconnected_modules dom scs s sc :
  ok scs s.1 → modulesByIdentifier (scopeDisconnected dom s sc).1 = modulesByIdentifier s.1.
Proof.
  destruct s as [r w]. intros Ho. cbn [fst] in *. unfold scopeDisconnected.
  destruct (JMap.get (sc_identifier sc) _) as [mid|] eqn:Hmid; [|done].
  set (r1 := set_scopes r _). assert (heap_ok r1) as Hh by (destruct (ok_heap _ _ Ho); by split).
  destruct (disconnect_spec ops dom (r1, w) mid sc Hh) as (_ & [_ Hm _ _ _] & _); [|done].
  by apply (ok_registered _ _ Ho) in Hmid as [? _].
Qed.

(** The router fulfils what its scope observer expects of its delegate. *)
Lemma router_scope_laws ids : ScopeObserver.ScopeLaws scope_delegate (good ids).
Proof.
  split.
  - intros scs scs' s Hp [[? ? Hr ? ? Hc] HP Hm]. split; [|done..]. split; try done.
    + intros i sc. by rewrite <-Hp.
    + intros mid sc. by rewrite <-Hp.
  - intros dom scs s sc [Ho HP Hm] Hsc.
    split; [by apply scopeConnected_ok|by eapply scopeConnected_stable|].
    intros i. cbn [sd_scopeConnected scope_delegate].
    by rewrite (scopeConnected_modules dom scs s sc).
  - intros dom scs s sc [Ho HP Hm] Hsc.
    split; [by apply scopeDisconnected_ok|by eapply scopeDisconnected_stable|].
    intros i. cbn [sd_scopeDisconnected scope_delegate].
    by rewrite (scopeDisconnected_modules dom (sc :: scs) s sc).
  - done.
Qed.
End stable.

(** *** What the router answers *)

Lemma elem_of_contexts scs r cx :
  ok scs r →
  cx ∈ contexts r ↔
    JMap.get (sc_identifier (cx_scope cx)) (modulesByIdentifier r) = Some (cx_module cx) ∧
    cx ∈ Module.contexts r (cx_module cx).
Proof.
  intros Ho. unfold contexts.
  assert (∀ mids acc, foldl (λ cs mid, cs ++ Module.contexts r mid) acc mids =
                      acc ++ (mids ≫= Module.contexts r)) as Hfold.
  { induction mids as [|mid mids IH]; intros acc; simpl; [by rewrite app_nil_r|].
    by rewrite IH, (assoc_L (++)). }
  rewrite Hfold, app_nil_l, list_elem_of_bind. unfold JMap.values. split.
  - intros (mid & Hin & ([i mid'] & Heq & Hm)%list_elem_of_fmap). simpl in Heq. subst mid'.
    destruct (heap_contexts _ (ok_heap _ _ Ho) mid (cx_scope cx) cx) as (_ & -> & _).
    { by apply (heap_connected _ (ok_heap _ _ Ho)). }
    split; [|done]. apply (ok_connected _ _ Ho). by apply list_elem_of_fmap_2.
  - intros [Hm Hin]. exists (cx_module cx). split; [done|].
    apply list_elem_of_fmap. apply JMap.get_Some_elem in Hm. by eexists (_, _).
Qed.
End router.
End Router.
