(* ===== verification/Lifecycle.v ===== *)
(** The life cycle of a context: [initialize] once, then [connect] and
    [disconnect] in turn.

[logged] wraps the operations of contexts so that they also record what
they were called with; [Lifecycle] relates the record to the router, and
[lifecycle_stable] shows that every step of the router keeps it, whatever
the controllers do. *)

From S2P Require Import Prelude JsCore JsString Dom Multimaps Observers Tokens ValueList Scopes Router.
Import Module.

Inductive phase := Initialize | Connect | Disconnect.

#[export] Instance phase_eq_dec : EqDecision phase.
Proof. solve_decision. Defined.

(** What a context has been through. *)
Inductive status := Fresh | Idle | Connected.

Definition advance (st : status) (p : phase) : option status :=
  match st, p with
  | Fresh, Initialize => Some Idle
  | Idle, Connect => Some Connected
  | Connected, Disconnect => Some Idle
  | _, _ => None
  end.

(** The status after a sequence of calls, if they follow the protocol. *)
Fixpoint follow (st : status) (ps : list phase) : option status :=
  match ps with
  | [] => Some st
  | p :: ps => st ← advance st p; follow st ps
  end.

Lemma follow_app st ps ps' : follow st (ps ++ ps') = (st ← follow st ps; follow st ps').
Proof.
  revert st. induction ps as [|p ps IH]; intros st; simpl; [done|].
  destruct (advance st p); simpl; [apply IH|done].
Qed.

Abbreviation log := (list (context * phase)).

(** The calls that one context received. *)
Definition calls (cx : context) (l : log) : list phase :=
  (filter (λ c : context * phase, c.1 = cx) l).*2.

Lemma calls_app cx l l' : calls cx (l ++ l') = calls cx l ++ calls cx l'.
Proof. unfold calls. by rewrite filter_app, fmap_app. Qed.

Lemma calls_one cx cx' p : calls cx [(cx', p)] = if decide (cx' = cx) then [p] else [].
Proof. unfold calls. rewrite filter_cons. simpl. by case_decide. Qed.

Definition logged {doc W : Type} (ops : ContextOps doc W) : ContextOps doc (W * log) := {|
  co_new dom r w cx := (co_new ops dom r w.1 cx, w.2 ++ [(cx, Initialize)]);
  co_connect dom r w cx := (co_connect ops dom r w.1 cx, w.2 ++ [(cx, Connect)]);
  co_disconnect dom r w cx := (co_disconnect ops dom r w.1 cx, w.2 ++ [(cx, Disconnect)]);
|}.

(** What the router's tables say of a context. *)
Definition status_of (r : router) (cx : context) : status :=
  if decide (cx ∈ contexts r (cx_module cx)) then Connected
  else if decide (JMap.get (cx_scope cx) (m_contextsByScope (deref r (cx_module cx))) = Some cx) then Idle
  else Fresh.

Section lifecycle.
Context {doc W : Type} (ops : ContextOps doc W).
Implicit Types (dom : doc) (r : router) (s : router * (W * log)).

Definition Lifecycle s : Prop :=
  ∀ cx, follow Fresh (calls cx s.2.2) = Some (status_of s.1 cx).

Lemma deref_modules r r' mid : modules r' = modules r → deref r' mid = deref r mid.
Proof. unfold deref. by intros ->. Qed.

Lemma status_of_modules r r' cx :
  (∀ mid, deref r' mid = deref r mid) → status_of r' cx = status_of r cx.
Proof. intros Hd. unfold status_of, contexts. by rewrite Hd. Qed.

(** [st] is the status of [cx] and every other context keeps its own. *)
Definition status_step r r' cx st : Prop :=
  status_of r' cx = st ∧ ∀ cx', cx' ≠ cx → status_of r' cx' = status_of r cx'.

Lemma status_step_trans r r1 r2 cx st st' :
  status_step r r1 cx st → status_step r1 r2 cx st' → status_step r r2 cx st'.
Proof. intros [_ H1] [? H2]. split; [done|]. intros cx' Hne. by rewrite H2, H1. Qed.

Lemma log_call r r' w w' l cx p st :
  Lifecycle (r, (w, l)) → status_step r r' cx st → advance (status_of r cx) p = Some st →
  Lifecycle (r', (w', l ++ [(cx, p)])).
Proof.
  intros HL [Hst Hne] Ha cx'. specialize (HL cx'). simpl in *.
  rewrite calls_app, calls_one, follow_app, HL. simpl.
  case_decide; subst; simpl; [by rewrite Ha|]. by rewrite Hne.
Qed.

(** Recording a new context. *)
Lemma record_step r mid sc cx :
  heap_ok r → cx_module cx = mid → cx_scope cx = sc → cx_id cx = next_context r →
  JMap.get sc (m_contextsByScope (deref r mid)) = None →
  let m := deref r mid in
  status_of r cx = Fresh ∧
  status_step r (store r mid (mk_module (m_definition m) (JMap.set sc cx (m_contextsByScope m))
                                        (m_connectedContexts m))) cx Idle.
Proof.
  intros Ho <- <- Hi Hnone. simpl. set (r' := store _ _ _).
  assert (∀ mid', contexts r' mid' = contexts r mid') as Hc.
  { intros mid'. unfold contexts, r'. rewrite deref_store. case_decide; by subst. }
  assert (cx ∉ contexts r (cx_module cx)) as Hout.
  { intros Hin%(heap_connected _ Ho). congruence. }
  unfold status_step, status_of. split_and!.
  - rewrite decide_False by done. rewrite decide_False; [done|]. congruence.
  - rewrite Hc, decide_False by done. unfold r'.
    rewrite deref_store, (decide_True (P := cx_module cx = cx_module cx)) by done. simpl.
    by rewrite JMap.get_set_eq, decide_True.
  - intros cx' Hne. rewrite Hc. unfold r'. rewrite deref_store.
    destruct (decide (cx_module cx = cx_module cx')) as [Hmid|]; [|done]. simpl.
    rewrite JMap.get_set. destruct (decide (cx_scope cx = cx_scope cx')) as [Hsc|].
    + by rewrite <-Hmid, <-Hsc, Hnone, !(decide_False (P := Some _ = _)),
        (decide_False (P := None = _)) by congruence.
    + by rewrite <-Hmid.
Qed.

(** Marking a recorded context as connected or not. *)
Lemma mark_step r mid cx (cxs : list context) (b : bool) :
  JMap.get (cx_scope cx) (m_contextsByScope (deref r mid)) = Some cx → cx_module cx = mid →
  (∀ cx', cx' ∈ cxs ↔ if decide (cx' = cx) then b = true else cx' ∈ contexts r mid) →
  let m := deref r mid in
  status_step r (store r mid (mk_module (m_definition m) (m_contextsByScope m) cxs)) cx
    (if b then Connected else Idle).
Proof.
  intros Hget <- Hcxs. simpl. unfold status_step, status_of, contexts. split.
  - rewrite deref_store, (decide_True (P := cx_module cx = cx_module cx)) by done. simpl.
    specialize (Hcxs cx).
    rewrite decide_True in Hcxs by done. destruct b.
    + by rewrite decide_True by by apply Hcxs.
    + rewrite decide_False by (rewrite Hcxs; done). by rewrite decide_True.
  - intros cx' Hne. rewrite deref_store.
    destruct (decide (cx_module cx = cx_module cx')) as [Hmid|]; [|done]. simpl. specialize (Hcxs cx').
    rewrite decide_False, Hmid in Hcxs by done. rewrite Hmid.
    by apply decide_ext.
Qed.

(** The router's steps keep [Lifecycle]. *)
Lemma lifecycle_stable : Router.Stable (logged ops) Lifecycle.
Proof.
  split.
  - intros r r' w HL Hm _ cx. specialize (HL cx). simpl in *. rewrite HL. f_equal. symmetry.
    apply status_of_modules. intros mid. by apply deref_modules.
  - intros r w def HL Ho cx. specialize (HL cx). simpl in *. rewrite HL. f_equal. symmetry.
    assert (JMap.get (next_module r) (modules r) = None) as Hnew.
    { destruct (JMap.get _ _) eqn:Hb; [|done]. apply (heap_bound _ Ho) in Hb. lia. }
    set (r' := mk_router _ _ _ _ _).
    assert (∀ mid, m_contextsByScope (deref r' mid) = m_contextsByScope (deref r mid) ∧
                   contexts r' mid = contexts r mid) as Hd.
    { intros mid. unfold contexts, deref, r'. simpl. rewrite JMap.get_set.
      case_decide; [subst; by rewrite Hnew|done]. }
    unfold status_of. by destruct (Hd (cx_module cx)) as [-> ->].
  - intros dom [r [w l]] mid sc HL Ho Ha Hsc. simpl in *.
    unfold connectContextForScope, fetchContextForScope.
    destruct (JMap.get sc (m_contextsByScope (deref r mid))) as [cx|] eqn:Hget.
    + destruct (heap_contexts _ Ho _ _ _ Hget) as (Hcs & Hcm & _).
      apply (log_call r _ w _ l cx Connect Connected); [done| |].
      * apply (mark_step r mid cx _ true); [by rewrite Hcs|done|]. intros cx'.
        rewrite JSet.elem_of_add. case_decide; subst; [tauto|]. unfold contexts. naive_solver.
      * unfold status_of. rewrite decide_False, decide_True; [done|by rewrite Hcm, Hcs|].
        rewrite Hcm. intros Hin. apply Hsc. rewrite <-Hcs. by apply list_elem_of_fmap_2.
    + set (cx := mk_context (next_context r) mid sc). set (r1 := mk_router _ _ _ _ _). cbv zeta.
      set (r2 := store r1 mid _).
      destruct (record_step r mid sc cx Ho eq_refl eq_refl eq_refl Hget) as [Hfresh Hstep].
      assert (status_step r r2 cx Idle) as Hs2 by exact Hstep.
      assert (Lifecycle (r2, (co_new ops dom r1 w cx, l ++ [(cx, Initialize)]))) as HL2.
      { apply (log_call r _ w _ l cx Initialize Idle); [done|done|by rewrite Hfresh]. }
      eapply (log_call r2 _ _ _ _ cx Connect Connected); [exact HL2| |].
      * apply (mark_step r2 mid cx _ true); [|done|].
        -- unfold r2. rewrite deref_store, decide_True by done. apply JMap.get_set_eq.
        -- intros cx'. rewrite JSet.elem_of_add. case_decide; subst; [tauto|].
           unfold contexts. naive_solver.
      * by rewrite (proj1 Hs2).
  - intros dom [r [w l]] mid sc HL Ho Ha Hsc. simpl in *. unfold disconnectContextForScope.
    unfold conn in Hsc. apply list_elem_of_fmap in Hsc as (cx & -> & Hin).
    pose proof (heap_connected _ Ho _ _ Hin) as Hget. rewrite Hget.
    destruct (heap_contexts _ Ho _ _ _ Hget) as (_ & Hcm & _).
    apply (log_call r _ w _ l cx Disconnect Idle); [done| |].
    + apply (mark_step r mid cx _ false); [done..|]. intros cx'.
      rewrite JSet.elem_of_delete. unfold contexts. case_decide; subst; naive_solver.
    + unfold status_of. by rewrite decide_True by by rewrite Hcm.
Qed.

Lemma lifecycle_new w : Lifecycle (new_router, (w, [])).
Proof.
  intros cx. done.
Qed.
End lifecycle.
