(* ===== verification/App.v ===== *)
(** The application: the stack of observers from the document down to the
    router, and its public operations.

Models [src/gui/web/assets/scripts/stimulus.js], the class [Application]
and [Router.start]/[Router.stop]: the router's [ScopeObserver] owns a
[ValueListObserver], which owns a [TokenListObserver] on the controller
attribute, which owns an [AttributeObserver] and its [ElementObserver]. *)

From S2P Require Import Prelude JsCore JsString Dom Multimaps Observers Tokens ValueList ValueStack Scopes Router Lifecycle.

Module App.

(** [defaultSchema] *)
Definition controllerAttribute : string := "data-controller".
Definition actionAttribute : string := "data-action".
Definition targetAttribute : string := "data-target".

(** The operations of the dispatcher that the application calls, with those
    of the contexts. *)
Record Ops (doc W : Type) := {
  contextOps : ContextOps doc W;
  dispatcher_start : W → W;
  dispatcher_stop : W → W;
}.
Arguments contextOps {doc W}.
Arguments dispatcher_start {doc W}.
Arguments dispatcher_stop {doc W}.

Section application.
Context {doc W : Type} `{Dom doc} (ops : Ops doc W).

(** The observer's stack over the state of the scopes and the router. *)
Definition t : Type := ValueStack.t scope (ScopeObserver.core * (router * W)).

Definition delegate : ValueDelegate doc (ScopeObserver.core * (router * W)) scope :=
  ScopeObserver.value_delegate (Router.scope_delegate (contextOps ops)).

Definition router_of (a : t) : router := a.2.2.2.1.
Definition world_of (a : t) : W := a.2.2.2.2.

Definition map_router (f : router * W → router * W) (a : t) : t :=
  let '(tl, (vl, (so, s))) := a in (tl, (vl, (so, f s))).

(** [new Application(element, schema)] *)
Definition new (element : elem) (w : W) : t :=
  ValueStack.new element controllerAttribute (ScopeObserver.new_core, (new_router, w)).

(** [start], once the document is ready. *)
Definition start (dom : doc) (a : t) : t :=
  let a := map_router (λ '(r, w), (r, dispatcher_start ops w)) a in
  ValueStack.start delegate dom a.

Definition stop (a : t) : t :=
  let a := map_router (λ '(r, w), (r, dispatcher_stop ops w)) a in
  ValueStack.stop delegate a.

Definition load (dom : doc) (definitions : list definition) (a : t) : t :=
  foldl (λ a def, map_router (λ s, Router.loadDefinition (contextOps ops) dom s def) a) a definitions.

Definition register (dom : doc) (identifier controllerConstructor : string) (a : t) : t :=
  load dom [mk_definition identifier controllerConstructor] a.

Definition unload (dom : doc) (identifiers : list string) (a : t) : t :=
  foldl (λ a i, map_router (λ s, Router.unloadIdentifier (contextOps ops) dom s i) a) a identifiers.

(** The mutation records the browser delivers. *)
Definition processMutations (dom : doc) (ms : list mutation) (a : t) : t :=
  ValueStack.processMutations delegate dom ms a.

(** The context whose controller is returned. *)
Definition getControllerForElementAndIdentifier (a : t) (element : elem) (identifier : string)
    : option context :=
  Router.getContextForElementAndIdentifier (router_of a) element identifier.

Definition contexts (a : t) : list context := Router.contexts (router_of a).
End application.

(** ** The connected contexts are those the document asks for *)

Section refinement.
Context {doc W : Type} `{DomLaws doc} (ops : Ops doc W).
Context (P : router * W → Prop) (SP : Router.Stable (contextOps ops) P).
Context (PD : ∀ r w, P (r, w) → P (r, dispatcher_start ops w)).
Implicit Types (dom : doc) (a : t (W := W)).

(** The identifiers that are registered. *)
Context (ids : list string).

#[local] Abbreviation Conn := (Router.good P ids).
#[local] Abbreviation SVals := (ScopeObserver.Vals (Conn := Conn)).

Definition root_of a : elem := ValueStack.root_of a.

Lemma value_laws : ValueListObserver.ValueLaws (delegate ops) SVals ScopeObserver.Parsed ScopeObserver.Result.
Proof. by apply ScopeObserver.scope_laws, Router.router_scope_laws. Qed.

Definition in_sync : doc → t → Prop :=
  ValueStack.in_sync (delegate ops) controllerAttribute (Vals := SVals)
    (Parsed := ScopeObserver.Parsed (D := router * W)) (Result := ScopeObserver.Result).

(** *** Reading the invariant *)

Lemma sync_router dom a :
  in_sync dom a → Router.good P ids (remove_dups (ValueStack.live_values a).*2) a.2.2.2.
Proof. intros Hs. apply (ScopeObserver.vals_conn _ _ (ValueStack.sync_vals _ _ _ _ Hs)). Qed.

Lemma live_known dom a tok sc :
  in_sync dom a → (tok, sc) ∈ ValueStack.live_values a →
  ScopeObserver.known a.2.2.1 (tok_element tok) (tok_content tok) = Some sc ∧
  sc_element sc = tok_element tok ∧ sc_identifier sc = tok_content tok.
Proof.
  intros Hs Hin. pose proof (ValueStack.sync_parsed _ _ _ _ _ _ Hs Hin) as Hk. split; [done|].
  by apply (ScopeObserver.vals_known _ _ (ValueStack.sync_vals _ _ _ _ Hs)).
Qed.

(** The scopes with a live token are, per element and identifier, the words
    of the observed attributes. *)
Lemma sync_scopes dom a e i :
  in_sync dom a →
  (∃ sc, sc ∈ (ValueStack.live_values a).*2 ∧ sc_element sc = e ∧ sc_identifier sc = i) ↔
  i ∈ tok_content <$> ValueStack.tokens a e.
Proof.
  intros Hs. split.
  - intros (sc & ([tok sc'] & -> & Hin)%list_elem_of_fmap & <- & <-). simpl.
    destruct (live_known _ _ _ _ Hs Hin) as (_ & -> & ->). apply list_elem_of_fmap.
    exists tok. split; [done|]. by apply (ValueStack.elem_of_live_values _ _ _ _ _ _ Hs) in Hin as [? _].
  - intros (tok & -> & Hin)%list_elem_of_fmap.
    destruct (ValueStack.token_element _ _ _ _ _ _ Hs Hin) as [<- _].
    destruct (ValueStack.token_parsed _ _ _ _ _ Hs Hin) as (r & Hr & sc & Hsc).
    assert ((tok, sc) ∈ ValueStack.live_values a) as Hl.
    { apply (ValueStack.elem_of_live_values _ _ _ _ _ _ Hs). eauto. }
    exists sc. destruct (live_known _ _ _ _ Hs Hl) as (_ & -> & ->). split; [|done].
    by apply (list_elem_of_fmap_2 snd) in Hl.
Qed.

(** There is at most one scope per element and identifier. *)
Lemma sync_scope_unique dom a sc sc' :
  in_sync dom a →
  sc ∈ (ValueStack.live_values a).*2 → sc' ∈ (ValueStack.live_values a).*2 →
  sc_element sc = sc_element sc' → sc_identifier sc = sc_identifier sc' → sc = sc'.
Proof.
  intros Hs ([tok sc0] & -> & Hin)%list_elem_of_fmap ([tok' sc0'] & -> & Hin')%list_elem_of_fmap.
  destruct (live_known _ _ _ _ Hs Hin) as (Hk & He & Hi).
  destruct (live_known _ _ _ _ Hs Hin') as (Hk' & He' & Hi'). simpl. congruence.
Qed.

(** The words of the controller attributes in the subtree of the root. *)
Definition wanted dom (root e : elem) (i : string) : Prop :=
  contains dom root e = true ∧
  ∃ v, getAttribute dom e controllerAttribute = Some v ∧ i ∈ Str.words v.

Lemma sync_tokens dom a e i :
  in_sync dom a →
  i ∈ tok_content <$> ValueStack.tokens a e ↔ wanted dom (root_of a) e i.
Proof.
  intros Hs. rewrite (ValueStack.sync_words _ _ value_laws _ _ _ Hs). unfold ValueStack.words_of, wanted, root_of.
  destruct (contains dom _ e); [|by split; [intros ?%not_elem_of_nil|intros []]].
  destruct (getAttribute dom e _) as [v|]; [|split; [by intros ?%not_elem_of_nil|naive_solver]].
  naive_solver.
Qed.

Definition connected a (e : elem) (i : string) : Prop :=
  ∃ cx, cx ∈ contexts a ∧ cx_element cx = e ∧ sc_identifier (cx_scope cx) = i.

Lemma sync_connected dom a e i :
  in_sync dom a → connected a e i ↔ i ∈ ids ∧ wanted dom (root_of a) e i.
Proof.
  intros Hs. rewrite <-(sync_tokens dom a e i Hs), <-(sync_scopes dom a e i Hs).
  destruct (sync_router dom a Hs) as [Ho _ Hreg].
  change (a.2.2.2.1) with (router_of a) in *. unfold connected, contexts. rewrite <-Hreg. split.
  - intros (cx & Hcx & <- & <-). apply (Router.elem_of_contexts _ _ _ Ho) in Hcx as [Hm Hin].
    split; [by eauto|]. exists (cx_scope cx). split; [|done].
    apply (list_elem_of_fmap_2 cx_scope) in Hin.
    apply (Router.ok_connected _ _ Ho) in Hin as [Hin _]. by rewrite elem_of_remove_dups in Hin.
  - intros [[mid Hmid] (sc & Hsc & <- & <-)].
    assert (sc ∈ Module.conn (router_of a) mid) as Hin.
    { apply (Router.ok_connected _ _ Ho). by rewrite elem_of_remove_dups. }
    apply list_elem_of_fmap in Hin as (cx & -> & Hcx). exists cx. split; [|done].
    apply (Router.elem_of_contexts _ _ _ Ho).
    assert (cx_module cx = mid) as ->; [|done].
    pose proof (Module.heap_connected _ (Router.ok_heap _ _ Ho) _ _ Hcx) as Hg.
    by apply (Module.heap_contexts _ (Router.ok_heap _ _ Ho)) in Hg as (_ & ? & _).
Qed.

(** The context found for an element and an identifier. *)
Lemma getController_spec dom a e i cx :
  in_sync dom a →
  getControllerForElementAndIdentifier a e i = Some cx ↔
  cx ∈ contexts a ∧ cx_element cx = e ∧ sc_identifier (cx_scope cx) = i.
Proof.
  intros Hs. destruct (sync_router dom a Hs) as [Ho _ Hreg].
  change (a.2.2.2.1) with (router_of a) in *.
  unfold getControllerForElementAndIdentifier, Router.getContextForElementAndIdentifier, contexts.
  assert (∀ mid cx, cx ∈ Module.contexts (router_of a) mid →
    cx_module cx = mid ∧ cx_scope cx ∈ Module.conn (router_of a) mid) as Hmod.
  { intros mid cx' Hin. pose proof (Module.heap_connected _ (Router.ok_heap _ _ Ho) _ _ Hin) as Hg.
    apply (Module.heap_contexts _ (Router.ok_heap _ _ Ho)) in Hg as (_ & ? & _).
    split; [done|]. by apply list_elem_of_fmap_2. }
  rewrite (Router.elem_of_contexts _ _ _ Ho). split.
  - destruct (JMap.get i _) as [mid|] eqn:Hmid; [|done].
    intros ([j cx0] & (Hj & He & _)%list_find_Some & ->)%fmap_Some. simpl.
    apply list_elem_of_lookup_2 in Hj. destruct (Hmod _ _ Hj) as [<- Hin].
    apply (Router.ok_connected _ _ Ho) in Hin as [_ Hin].
    destruct (Router.ok_registered _ _ Ho _ _ Hin) as [_ Hi1].
    destruct (Router.ok_registered _ _ Ho _ _ Hmid) as [_ Hi2]. split_and!; congruence.
  - intros ([Hm Hin] & He & Hi). rewrite Hi in Hm. rewrite Hm.
    destruct (list_find_elem_of (λ cx, cx_element cx = e) _ cx Hin He) as [[j cx'] Hf].
    rewrite Hf. simpl. f_equal. apply list_find_Some in Hf as (Hj & He' & _).
    apply list_elem_of_lookup_2 in Hj. destruct (Hmod _ _ Hj) as [_ Hin'].
    destruct (Hmod _ _ Hin) as [_ Hin''].
    apply (Router.ok_connected _ _ Ho) in Hin' as [Hsc' Hid'].
    apply (Router.ok_connected _ _ Ho) in Hin'' as [Hsc Hid].
    destruct (Router.ok_registered _ _ Ho _ _ Hid) as [_ Hi1].
    destruct (Router.ok_registered _ _ Ho _ _ Hid') as [_ Hi2].
    assert (cx_scope cx' = cx_scope cx) as Heq.
    { apply (sync_scope_unique dom a); [done|..]; rewrite ?elem_of_remove_dups in *; try done.
      - unfold cx_element in *. congruence.
      - congruence. }
    pose proof (Module.heap_connected _ (Router.ok_heap _ _ Ho) _ _ Hj) as Hg1.
    pose proof (Module.heap_connected _ (Router.ok_heap _ _ Ho) _ _ Hin) as Hg2.
    rewrite Heq in Hg1. congruence.
Qed.

(** There is at most one context per element and identifier. *)
Lemma sync_context_unique dom a cx cx' :
  in_sync dom a → cx ∈ contexts a → cx' ∈ contexts a → cx_element cx = cx_element cx' →
  sc_identifier (cx_scope cx) = sc_identifier (cx_scope cx') → cx = cx'.
Proof.
  intros Hs Hcx Hcx' He Hi.
  pose proof (getController_spec dom a (cx_element cx') (sc_identifier (cx_scope cx'))) as Hg.
  assert (Some cx = Some cx') as [= ->]; [|done].
  rewrite <-(proj2 (Hg cx Hs) (conj Hcx (conj He Hi))). by apply Hg.
Qed.

(** *** The operations keep the stack in step with the document *)

Definition idle : elem → t → Prop := ValueStack.idle controllerAttribute (Vals := SVals).

Lemma app_start_sync dom root a :
  idle root a → in_sync dom (start ops dom a) ∧ root_of (start ops dom a) = root.
Proof.
  intros (Hn & Hv & Hi). apply (ValueStack.start_sync _ _ value_laws).
  destruct a as [tl [vl [so [r w]]]]. simpl in *. split_and!; [done..|].
  destruct Hi as [Hc [Ho HP Hreg] Hk]. split; [done| |done]. split; [done|by apply PD|done].
Qed.

Lemma app_mutations_sync dom dom' ms a :
  in_sync dom a → ValueStack.reported (delegate ops) controllerAttribute dom dom' (root_of a) ms →
  in_sync dom' (processMutations ops dom' ms a) ∧
  root_of (processMutations ops dom' ms a) = root_of a.
Proof. apply (ValueStack.mutations_sync _ _ value_laws). Qed.

End refinement.

(** ** Sessions

What an application has been through: [vw_identifiers] are the registered
identifiers and [vw_document] is the document as of the last records that
were delivered, once the application has started. *)

Record view (doc : Type) := mk_view {
  vw_document : option doc;
  vw_identifiers : list string;
}.
Arguments mk_view {doc}.
Arguments vw_document {doc}.
Arguments vw_identifiers {doc}.

Section sessions.
Context {doc W : Type} `{DomLaws doc} (ops : Ops doc W).
Implicit Types (dom : doc) (a : t (W := W)) (v : view doc).

Definition view_load v (definitions : list definition) : view doc :=
  mk_view (vw_document v) (foldl (λ ids def, def_identifier def :: ids) (vw_identifiers v) definitions).
Definition view_unload v (identifiers : list string) : view doc :=
  mk_view (vw_document v) (foldl (λ ids i, JSet.delete i ids) (vw_identifiers v) identifiers).

(** The mutation records account for what changed in the document. *)
Definition reported : doc → doc → elem → list mutation → Prop :=
  ValueStack.reported (delegate ops) controllerAttribute.

Inductive session (root : elem) (w : W) : view doc → t → Prop :=
  | session_new : session root w (mk_view None []) (new root w)
  | session_load v a dom definitions :
    session root w v a →
    session root w (view_load v definitions) (load ops dom definitions a)
  | session_unload v a dom identifiers :
    session root w v a →
    session root w (view_unload v identifiers) (unload ops dom identifiers a)
  | session_start ids a dom :
    session root w (mk_view None ids) a →
    session root w (mk_view (Some dom) ids) (start ops dom a)
  | session_mutations ids a dom dom' records :
    session root w (mk_view (Some dom) ids) a → reported dom dom' root records →
    session root w (mk_view (Some dom') ids) (processMutations ops dom' records a).

Context (P : router * W → Prop) (SP : Router.Stable (contextOps ops) P).
Context (PD : ∀ r w, P (r, w) → P (r, dispatcher_start ops w)).

(** Operations on the router alone. *)
Lemma map_router_sync dom ids ids' f a :
  (∀ scs, Router.good P ids scs a.2.2.2 → Router.good P ids' scs (f a.2.2.2)) →
  in_sync ops P ids dom a →
  in_sync ops P ids' dom (map_router f a) ∧ root_of (map_router f a) = root_of a.
Proof.
  intros Hf. destruct a as [tl [vl [so s]]]. intros Hs. split; [|done].
  destruct Hs as (Ha & Hst & [[Hw Ht Hl] He Hx] & Hc). split_and!; [done..|]. split; [|done].
  split; [|done..]. split; [done..|].
  destruct Hl as [Hk Hr Hre Hnd Hp [Hvc Hvn Hvk]]. split; [done..|]. split; [done| |done]. by apply Hf.
Qed.

Lemma map_router_idle root ids ids' f a :
  (∀ scs, Router.good P ids scs a.2.2.2 → Router.good P ids' scs (f a.2.2.2)) →
  idle P ids root a → idle P ids' root (map_router f a).
Proof.
  intros Hf. destruct a as [tl [vl [so s]]]. intros (? & ? & [Hc Hg Hk]).
  split_and!; [done..|]. split; [done| |done]. by apply Hf.
Qed.

(** The relation between the view and the application. *)
Definition tracks (root : elem) v a : Prop :=
  match vw_document v with
  | Some dom => in_sync ops P (vw_identifiers v) dom a ∧ root_of a = root
  | None => idle P (vw_identifiers v) root a
  end.

Lemma map_router_tracks root od ids ids' f a :
  (∀ scs, Router.good P ids scs a.2.2.2 → Router.good P ids' scs (f a.2.2.2)) →
  tracks root (mk_view od ids) a → tracks root (mk_view od ids') (map_router f a).
Proof.
  intros Hf. destruct od as [dom|]; unfold tracks; simpl.
  - intros [Hs <-]. by apply map_router_sync with ids.
  - by apply map_router_idle.
Qed.

Lemma load_tracks root v dom defs a :
  tracks root v a → tracks root (view_load v defs) (load ops dom defs a).
Proof.
  unfold load, view_load. destruct v as [od ids]. simpl.
  revert ids a. induction defs as [|def defs IH]; intros ids a Hs; simpl; [done|].
  apply IH. apply map_router_tracks with ids; [|done].
  intros scs. by apply Router.loadDefinition_good.
Qed.

Lemma unload_tracks root v dom is_ a :
  tracks root v a → tracks root (view_unload v is_) (unload ops dom is_ a).
Proof.
  unfold unload, view_unload. destruct v as [od ids]. simpl.
  revert ids a. induction is_ as [|i is_ IH]; intros ids a Hs; simpl; [done|].
  apply IH. apply map_router_tracks with ids; [|done].
  intros scs. by apply Router.unloadIdentifier_good.
Qed.

Lemma session_tracks root w v a : P (new_router, w) → session root w v a → tracks root v a.
Proof.
  intros HP. induction 1 as [|v a dom defs _ IH|v a dom is_ _ IH|ids a dom _ IH|ids a dom dom' ms _ IH Hr].
  - split_and!; [done..|]. apply ScopeObserver.vals_new. split; [apply Router.ok_new|done|].
    intros i. simpl. pose proof (not_elem_of_nil i). split; [by intros []|done].
  - by apply load_tracks.
  - by apply unload_tracks.
  - by apply app_start_sync.
  - destruct IH as [Hs Hroot]. unfold tracks in *. simpl in *. subst root. by eapply app_mutations_sync.
Qed.
End sessions.

(** Operations that also keep a log of the calls to contexts. *)
Definition logged_ops {doc W : Type} (ops : Ops doc W) : Ops doc (W * log) := {|
  contextOps := logged (contextOps ops);
  dispatcher_start w := (dispatcher_start ops w.1, w.2);
  dispatcher_stop w := (dispatcher_stop ops w.1, w.2);
|}.

(** ** What a session guarantees *)

Section properties.
Context {doc W : Type} `{DomLaws doc}.
Implicit Types (dom : doc).

(** C3: whatever sequence of registrations, unloads, the start and reported
    document changes an application has been through, a controller context
    is connected for an element and an identifier exactly if the identifier
    is registered and the element, inside the application's root, has it
    among the words of its [data-controller] attribute; and there is at most
    one such context. *)
Theorem connected_contexts (ops : Ops doc W) root w dom ids a :
  session ops root w (mk_view (Some dom) ids) a →
  (∀ e i, connected a e i ↔ i ∈ ids ∧ wanted dom root e i) ∧
  (∀ cx cx', cx ∈ contexts a → cx' ∈ contexts a → cx_element cx = cx_element cx' →
     sc_identifier (cx_scope cx) = sc_identifier (cx_scope cx') → cx = cx').
Proof.
  intros Hs. pose proof (Router.stable_trivial (contextOps ops)) as SP.
  destruct (session_tracks ops _ SP (λ _ _ _, I) root w _ a I Hs) as [Hin <-]. split.
  - intros e i. by eapply sync_connected.
  - intros cx cx'. by apply (sync_context_unique ops (λ _, True) ids dom).
Qed.

(** [getControllerForElementAndIdentifier] answers for an element and an
    identifier exactly when the identifier is registered and the element
    asks for it, and then with the connected context of both. *)
Lemma getController_found (ops : Ops doc W) root w dom ids a e i :
  session ops root w (mk_view (Some dom) ids) a →
  match getControllerForElementAndIdentifier a e i with
  | Some cx => (i ∈ ids ∧ wanted dom root e i) ∧
               cx ∈ contexts a ∧ cx_element cx = e ∧ sc_identifier (cx_scope cx) = i
  | None => ¬ (i ∈ ids ∧ wanted dom root e i)
  end.
Proof.
  intros Hs. pose proof (Router.stable_trivial (contextOps ops)) as SP.
  destruct (session_tracks ops _ SP (λ _ _ _, I) root w _ a I Hs) as [Hin <-].
  pose proof (sync_connected ops (λ _, True) SP ids dom a e i Hin) as Hc. unfold connected in Hc.
  destruct (getControllerForElementAndIdentifier a e i) as [cx|] eqn:Hg.
  - apply (getController_spec ops (λ _, True) ids dom) in Hg; [|done]. rewrite <-Hc. eauto.
  - rewrite <-Hc. intros (cx & Hcx). apply (getController_spec ops (λ _, True) ids dom) in Hcx; [|done].
    congruence.
Qed.

(** C10: in every session each context's controller is initialised once,
    before anything else, then connected and disconnected in turn; and at
    any moment the last call was [connect] exactly for the contexts that are
    connected.  This holds whatever the controllers do. *)
Theorem lifecycle_protocol (ops : Ops doc W) root w v a cx :
  session (logged_ops ops) root (w, []) v a →
  ∃ st, follow Fresh (calls cx (world_of a).2) = Some st ∧
        (st = Connected ↔ cx ∈ Module.contexts (router_of a) (cx_module cx)).
Proof.
  intros Hs. pose proof (lifecycle_stable (contextOps ops)) as SP.
  assert (Lifecycle (a.2.2.2)) as HL.
  { pose proof (session_tracks (logged_ops ops) _ SP (λ _ _ HL, HL) root _ v a (lifecycle_new w) Hs) as Ht.
    unfold tracks in Ht. destruct (vw_document v).
    - destruct Ht as [Ht _]. apply (sync_router (logged_ops ops) (Lifecycle) v.(vw_identifiers)) in Ht as [_ HL _]. exact HL.
    - destruct Ht as (_ & _ & [_ [_ HL _] _]). exact HL. }
  eexists. split; [apply HL|]. unfold status_of, router_of. by repeat case_decide.
Qed.
End properties.

(** ** A page

[html] (1) holds [div] (2), which holds [p] (3).  The [div] has the
controller [flash]; later it also has [naming], and a [div] (4) with the
controller [search] is inserted. *)

Definition page0 : PageDom.t := {|
  PageDom.page := [(0, 1); (1, 2); (2, 3)];
  PageDom.detached := [(0, 4)];
  PageDom.attrs := [((2, "data-controller"), "flash"); ((4, "data-controller"), "search  unknown")];
  PageDom.ids_ok := eq_refl;
|}.

Definition page1 : PageDom.t := {|
  PageDom.page := [(0, 1); (1, 2); (2, 3); (1, 4)];
  PageDom.detached := [];
  PageDom.attrs := [((2, "data-controller"), "flash naming"); ((4, "data-controller"), "search  unknown")];
  PageDom.ids_ok := eq_refl;
|}.

Definition records1 : list mutation :=
  [AttributesMutation 2 "data-controller"; ChildListMutation [] [ElementNode 4]].

Definition page_ops : Ops PageDom.t unit := {|
  contextOps := {| co_new _ _ w _ := w; co_connect _ _ w _ := w; co_disconnect _ _ w _ := w |};
  dispatcher_start w := w;
  dispatcher_stop w := w;
|}.

Definition registrations : list definition :=
  [mk_definition "flash" "Flash"; mk_definition "search" "Search"; mk_definition "naming" "Naming"].

(** The elements that the page's observer keeps. *)
Lemma page_target {W} (ops : Ops PageDom.t W) dom e :
  dom = page0 ∨ dom = page1 →
  ElementObserver.target (delegate := ValueStack.element_delegate (delegate ops) controllerAttribute) dom 1 e =
    bool_decide (e = 2 ∨ (e = 4 ∧ 4 ∈ (PageDom.page dom).*2)).
Proof.
  intros Hd. unfold ElementObserver.target, ElementObserver.elementIsActive, ElementObserver.matchElement.
  simpl. unfold AttributeObserver.matchElement, hasAttribute, getAttribute, contains. simpl.
  destruct (decide (e = 1)) as [->|H1]; [by destruct Hd as [-> | ->]|].
  destruct (decide (e = 2)) as [->|H2]; [by destruct Hd as [-> | ->]|].
  destruct (decide (e = 3)) as [->|H3]; [by destruct Hd as [-> | ->]|].
  destruct (decide (e = 4)) as [->|H4]; [by destruct Hd as [-> | ->]|].
  rewrite (bool_decide_eq_false_2 (e = 2 ∨ _)) by naive_solver.
  destruct Hd as [-> | ->]; simpl; unfold lower_name; simpl;
    rewrite !(decide_False (P := (e, _) = _)) by congruence; done.
Qed.

Lemma page_reported {W} (ops : Ops PageDom.t W) : reported ops page0 page1 1 records1.
Proof.
  split; intros e; rewrite ?page_target by auto; simpl.
  - intros Ht%bool_decide_eq_true Hf%bool_decide_eq_false. exfalso. set_solver.
  - intros Ht%bool_decide_eq_true [Hf|(m & Hm & Hr)].
    + apply bool_decide_eq_false in Hf. assert (e = 4) as -> by tauto.
      eexists [_], _, []. split_and!; [done| |intros m ?%not_elem_of_nil; done].
      exists 4. split_and!; [by left|done|done].
    + apply elem_of_cons in Hm as [->|Hm]; [done|]. apply list_elem_of_singleton in Hm as ->.
      destruct Hr as (n & Hn & _). by apply not_elem_of_nil in Hn.
  - intros Ht%bool_decide_eq_true _. right; left.
    destruct Ht as [-> |[-> Hin]]; [by left|]. exfalso. set_solver.
Qed.

(** The application on that page, run through the same session. *)
Definition page_app : t :=
  processMutations page_ops page1 records1
    (start page_ops page0 (load page_ops page0 registrations (new 1 tt))).

Lemma page_app_session :
  session page_ops 1 tt (mk_view (Some page1) ["naming"; "search"; "flash"]) page_app.
Proof.
  eapply (session_mutations _ _ _ _ _ page0 page1 records1); [|apply page_reported].
  apply session_start. apply (session_load _ _ _ (mk_view None []) _ page0 registrations).
  apply session_new.
Qed.

Example page_app_contexts :
  (λ cx, (cx_element cx, sc_identifier (cx_scope cx))) <$> contexts page_app =
    [(2, "flash"); (4, "search"); (2, "naming")].
Proof. vm_compute. reflexivity. Qed.

Lemma connected_contexts_witness :
  connected page_app 4 "search" ∧ ¬ connected page_app 4 "unknown".
Proof.
  destruct (connected_contexts page_ops 1 tt page1 ["naming"; "search"; "flash"] page_app
              page_app_session) as [Hc _].
  split.
  - apply Hc. split; [by right; left|]. split; [done|]. exists "search  unknown". split; [done|].
    apply (bool_decide_unpack _). vm_compute. exact I.
  - rewrite Hc. intros [Hin _]. apply (bool_decide_pack _) in Hin. vm_compute in Hin. exact Hin.
Defined.

Lemma getController_found_witness :
  ∃ cx, getControllerForElementAndIdentifier page_app 2 "naming" = Some cx ∧ cx ∈ contexts page_app.
Proof.
  pose proof (getController_found page_ops 1 tt page1 ["naming"; "search"; "flash"] page_app
    2 "naming" page_app_session) as Hg.
  destruct (getControllerForElementAndIdentifier page_app 2 "naming") as [cx|] eqn:E.
  - exists cx. split; [done|apply Hg].
  - vm_compute in E. discriminate E.
Defined.

(** The same page with the log: the calls that each context received. *)
Definition page_log : t :=
  unload (logged_ops page_ops) page1 ["flash"]
    (processMutations (logged_ops page_ops) page1 records1
      (start (logged_ops page_ops) page0
        (load (logged_ops page_ops) page0 registrations (new 1 (tt, []))))).

Lemma lifecycle_protocol_witness :
  ∃ cx, calls cx (world_of page_log).2 = [Initialize; Connect; Disconnect] ∧
        follow Fresh [Initialize; Connect; Disconnect] = Some Idle ∧
        cx ∉ Module.contexts (router_of page_log) (cx_module cx).
Proof.
  set (cx := mk_context 0 0 (mk_scope 0 2 "flash")). exists cx.
  assert (calls cx (world_of page_log).2 = [Initialize; Connect; Disconnect]) as Hc
    by (vm_compute; reflexivity).
  split; [done|]. split; [done|].
  destruct (lifecycle_protocol page_ops 1 tt
    (view_unload (mk_view (Some page1) ["naming"; "search"; "flash"]) ["flash"]) page_log cx)
    as (st & Hf & Hst).
  { apply session_unload.
    eapply (session_mutations _ _ _ _ _ page0 page1 records1); [|apply page_reported].
    apply session_start. apply (session_load _ _ _ (mk_view None []) _ page0 registrations).
    apply session_new. }
  rewrite Hc in Hf. injection Hf as <-. intros Hin. apply Hst in Hin. discriminate Hin.
Defined.
End App.
