(* ===== verification/Targets.v ===== *)
(** The targets of a scope: the elements below the scope's element that name a
    target of its controller and belong to no nested scope of the identifier.

    Models [src/gui/web/assets/scripts/stimulus.js], the classes [Guide] and
    [TargetSet], the queries of [Scope], and the properties that
    [TargetPropertiesBlessing] gives a controller. *)

From S2P Require Import Prelude JsCore JsString Dom Scopes Names Router App.

#[local] Open Scope string_scope.
#[local] Open Scope list_scope.

(** ** [Guide]: each warning is given once *)

Module Guide.

(** [logged] is what the logger was given: messages with their object. *)
Record t := mk {
  warnedKeysByObject : list (elem * list string);
  logged : list (string * elem);
}.

Definition new : t := mk [] [].

Definition warn (g : t) (object : elem) (key message : string) : t :=
  let '(table, warnedKeys) :=
    match JMap.get object (warnedKeysByObject g) with
    | Some warnedKeys => (warnedKeysByObject g, warnedKeys)
    | None => (JMap.set object [] (warnedKeysByObject g), [])
    end in
  if JSet.has key warnedKeys then mk table (logged g)
  else mk (JMap.set object (JSet.add key warnedKeys) table) (logged g ++ [(message, object)]).

Definition warned (g : t) (object : elem) (key : string) : Prop :=
  key ∈ default [] (JMap.get object (warnedKeysByObject g)).

#[global] Instance warned_dec g object key : Decision (warned g object key).
Proof. unfold warned. apply _. Defined.

Lemma warn_warned g object key message object' key' :
  warned (warn g object key message) object' key' ↔
    (object' = object ∧ key' = key) ∨ warned g object' key'.
Proof.
  unfold warned, warn. destruct (JMap.get object (warnedKeysByObject g)) as [ks|] eqn:Hg.
  - destruct (JSet.has key ks) eqn:Hk; simpl.
    + apply JSet.has_true in Hk. split; [tauto|]. intros [[-> ->]|?]; [by rewrite Hg|done].
    + rewrite JMap.get_set. case_decide as Ho; subst; simpl.
      * rewrite JSet.elem_of_add, Hg. simpl. tauto.
      * split; [tauto|]. intros [[-> ->]|?]; done.
  - assert (JSet.has key [] = false) as -> by by apply JSet.has_false, not_elem_of_nil.
    simpl. rewrite JMap.set_set, JMap.get_set. case_decide as Ho; subst; simpl.
    + rewrite JSet.elem_of_add, Hg. simpl. tauto.
    + split; [tauto|]. intros [[-> ->]|?]; done.
Qed.

Lemma warn_logged g object key message :
  logged (warn g object key message) =
    if decide (warned g object key) then logged g else logged g ++ [(message, object)].
Proof.
  destruct (decide (warned g object key)) as [Hw|Hw]; unfold warned in Hw; unfold warn;
    destruct (JMap.get object (warnedKeysByObject g)) as [ks|]; simpl in Hw |- *.
  - by apply JSet.has_true in Hw as ->.
  - by apply not_elem_of_nil in Hw.
  - by apply JSet.has_false in Hw as ->.
  - done.
Qed.
End Guide.

(** ** Queries of a scope *)

Module Scope.
Section scope_queries.
Context {doc : Type} `{Dom doc}.
Implicit Types (d : doc) (sc : scope) (e : elem) (sel : selector).

Definition controllerSelector sc : selector :=
  AttributeContainsToken App.controllerAttribute (sc_identifier sc).

Definition containsElement d sc e : bool :=
  bool_decide (closest d e (controllerSelector sc) = Some (sc_element sc)).

Definition queryElements d sc sel : list elem := querySelectorAll d (sc_element sc) sel.

Definition findElement d sc sel : option elem :=
  if matches d (sc_element sc) sel then Some (sc_element sc)
  else snd <$> list_find (λ e, containsElement d sc e = true) (queryElements d sc sel).

Definition findAllElements d sc sel : list elem :=
  (if matches d (sc_element sc) sel then [sc_element sc] else []) ++
  filter (λ e, containsElement d sc e = true) (queryElements d sc sel).

Lemma list_find_head (Q : elem → Prop) `{∀ x, Decision (Q x)} (l : list elem) :
  snd <$> list_find Q l = head (filter Q l).
Proof.
  induction l as [|x l IH]; [done|]. simpl. rewrite filter_cons. case_decide; [done|].
  rewrite <-IH. by destruct (list_find Q l) as [[]|].
Qed.

Lemma findElement_head d sc sel : findElement d sc sel = head (findAllElements d sc sel).
Proof.
  unfold findElement, findAllElements. destruct (matches d _ sel); [done|]. apply list_find_head.
Qed.

Lemma containsElement_true d sc e :
  containsElement d sc e = true ↔ closest d e (controllerSelector sc) = Some (sc_element sc).
Proof. apply bool_decide_eq_true. Qed.

(** An element is of the scope: its own element, or one below it whose nearest
    element with the controller is that of the scope. *)
Definition belongs d sc e : Prop :=
  e = sc_element sc ∨
  (e ∈ descendants d (sc_element sc) ∧ closest d e (controllerSelector sc) = Some (sc_element sc)).

Lemma elem_of_findAllElements d sc sel e :
  e ∈ findAllElements d sc sel ↔ belongs d sc e ∧ matches d e sel = true.
Proof.
  unfold findAllElements, belongs, queryElements.
  rewrite elem_of_app, list_elem_of_filter, elem_of_querySelectorAll, containsElement_true.
  destruct (matches d (sc_element sc) sel) eqn:Hm.
  - rewrite list_elem_of_singleton. naive_solver.
  - pose proof (not_elem_of_nil e). split; [tauto|]. intros [[->|[]] He]; [congruence|tauto].
Qed.

Lemma NoDup_findAllElements `{!DomLaws doc} d sc sel : NoDup (findAllElements d sc sel).
Proof.
  unfold findAllElements. apply NoDup_app. split_and!.
  - case_match; [apply NoDup_singleton|constructor].
  - intros e He. case_match; [|by apply not_elem_of_nil in He].
    apply list_elem_of_singleton in He as ->. unfold queryElements.
    rewrite list_elem_of_filter, elem_of_querySelectorAll. intros (_ & _ & Hin).
    by apply not_own_descendant in Hin.
  - apply NoDup_filter. unfold queryElements, querySelectorAll. apply NoDup_filter, NoDup_descendants.
Qed.

Lemma closest_self `{!DomLaws doc} d e sel : matches d e sel = true → closest d e sel = Some e.
Proof.
  intros Hm. unfold closest. pose proof (ancestors_self d e) as Ha.
  destruct (ancestors d e) as [|e' l]; [done|]. injection Ha as ->.
  by rewrite filter_cons_True by by rewrite Hm.
Qed.

Lemma belongs_closest d sc e :
  closest d (sc_element sc) (controllerSelector sc) = Some (sc_element sc) →
  belongs d sc e → closest d e (controllerSelector sc) = Some (sc_element sc).
Proof. intros Hsc [->|[]]; done. Qed.
End scope_queries.
End Scope.

(** ** [TargetSet] *)

Module TargetSet.
Section target_set.
Context {doc : Type} `{Dom doc}.
Implicit Types (d : doc) (sc : scope) (e : elem) (g : Guide.t) (targetName : string).

Definition getSelectorForTargetName sc targetName : selector :=
  let attributeName := "data-" +:+ sc_identifier sc +:+ "-target" in
  AttributeContainsToken attributeName targetName.

Definition getLegacySelectorForTargetName sc targetName : selector :=
  let targetDescriptor := sc_identifier sc +:+ "." +:+ targetName in
  AttributeContainsToken App.targetAttribute targetDescriptor.

Definition findTarget d sc targetName : option elem :=
  Scope.findElement d sc (getSelectorForTargetName sc targetName).

Definition findAllTargets d sc targetName : list elem :=
  Scope.findAllElements d sc (getSelectorForTargetName sc targetName).

Definition message sc targetName : string :=
  "Please replace " +:+ App.targetAttribute +:+ "=" +:+ Str.quoted (sc_identifier sc +:+ "." +:+ targetName) +:+
  " with data-" +:+ sc_identifier sc +:+ "-target=" +:+ Str.quoted targetName +:+ ". " +:+
  "The " +:+ App.targetAttribute +:+
  " attribute is deprecated and will be removed in a future version of Stimulus.".

Definition deprecate sc g (element : option elem) targetName : Guide.t * option elem :=
  (match element with
   | Some e => Guide.warn g e ("target:" +:+ targetName) (message sc targetName)
   | None => g
   end, element).

Definition findLegacyTarget d sc g targetName : Guide.t * option elem :=
  deprecate sc g (Scope.findElement d sc (getLegacySelectorForTargetName sc targetName)) targetName.

Definition findAllLegacyTargets d sc g targetName : Guide.t * list elem :=
  foldl (λ '(g, elements) e,
           let '(g, element) := deprecate sc g (Some e) targetName in
           (g, elements ++ option_list element))
    (g, []) (Scope.findAllElements d sc (getLegacySelectorForTargetName sc targetName)).

Definition find d sc g (targetNames : list string) : Guide.t * option elem :=
  foldl (λ '(g, target) targetName,
           match target with
           | Some _ => (g, target)
           | None =>
             match findTarget d sc targetName with
             | Some e => (g, Some e)
             | None => findLegacyTarget d sc g targetName
             end
           end)
    (g, None) targetNames.

Definition findAll d sc g (targetNames : list string) : Guide.t * list elem :=
  foldl (λ '(g, targets) targetName,
           let '(g, legacy) := findAllLegacyTargets d sc g targetName in
           (g, targets ++ findAllTargets d sc targetName ++ legacy))
    (g, []) targetNames.

Definition has d sc g targetName : Guide.t * bool :=
  let '(g, target) := find d sc g [targetName] in (g, bool_decide (is_Some target)).

(** The properties [nameTarget], [nameTargets] and [hasNameTarget] of a
    controller. *)
Definition get_target d sc g (name : string) : Guide.t * (elem + string) :=
  match find d sc g [name] with
  | (g, Some target) => (g, inl target)
  | (g, None) => (g, inr ("Missing target element " +:+ Str.quoted (sc_identifier sc +:+ "." +:+ name)))
  end.
Definition get_targets d sc g (name : string) : Guide.t * list elem := findAll d sc g [name].
Definition get_has d sc g (name : string) : Guide.t * bool := has d sc g name.

(** The elements a name stands for, as a specification: those of the scope
    that list the name, then those that use the deprecated attribute. *)
Definition legacy d sc targetName : list elem :=
  Scope.findAllElements d sc (getLegacySelectorForTargetName sc targetName).
Definition all d sc targetName : list elem := findAllTargets d sc targetName ++ legacy d sc targetName.

Definition warn_all sc g targetName (es : list elem) : Guide.t :=
  foldl (λ g e, Guide.warn g e ("target:" +:+ targetName) (message sc targetName)) g es.

Lemma findAllLegacyTargets_eq d sc g targetName :
  findAllLegacyTargets d sc g targetName = (warn_all sc g targetName (legacy d sc targetName), legacy d sc targetName).
Proof.
  unfold findAllLegacyTargets, legacy, warn_all. set (es := Scope.findAllElements _ _ _). clearbody es.
  assert (∀ acc, foldl (λ '(g, elements) e, let '(g, element) := deprecate sc g (Some e) targetName in
             (g, elements ++ option_list element)) (g, acc) es =
    (foldl (λ g e, Guide.warn g e ("target:" +:+ targetName) (message sc targetName)) g es, acc ++ es)) as Hall.
  { revert g. induction es as [|e es IH]; intros g acc; simpl; [by rewrite app_nil_r|].
    rewrite IH. by rewrite <-app_assoc. }
  by rewrite Hall.
Qed.

Lemma findAll_from d sc targetNames g acc :
  (foldl (λ '(g, targets) targetName,
           let '(g, legacy) := findAllLegacyTargets d sc g targetName in
           (g, targets ++ findAllTargets d sc targetName ++ legacy)) (g, acc) targetNames) =
  (foldl (λ g n, warn_all sc g n (legacy d sc n)) g targetNames, acc ++ (targetNames ≫= all d sc)).
Proof.
  revert g acc. induction targetNames as [|n ns IH]; intros g acc; simpl; [by rewrite app_nil_r|].
  rewrite findAllLegacyTargets_eq, IH. unfold all. by rewrite <-!app_assoc.
Qed.

Lemma findAll_eq d sc g targetNames :
  findAll d sc g targetNames =
    (foldl (λ g n, warn_all sc g n (legacy d sc n)) g targetNames, targetNames ≫= all d sc).
Proof. apply findAll_from. Qed.

Lemma head_app_option (l k : list elem) :
  head (l ++ k) = match head l with Some x => Some x | None => head k end.
Proof. by destruct l. Qed.

Lemma find_one_eq d sc g n :
  (match findTarget d sc n with
   | Some e => (g, Some e)
   | None => findLegacyTarget d sc g n
   end) =
  (match findTarget d sc n with
   | Some _ => g
   | None => warn_all sc g n (option_list (head (legacy d sc n)))
   end, head (all d sc n)).
Proof.
  unfold all. rewrite head_app_option. unfold findTarget at 1 2, findAllTargets, findLegacyTarget, legacy.
  rewrite !Scope.findElement_head. destruct (head (Scope.findAllElements _ _ _)); [done|].
  by destruct (head (Scope.findAllElements _ _ _)).
Qed.

Lemma find_some d sc g e ns :
  foldl (λ '(g, target) targetName,
           match target with
           | Some _ => (g, target)
           | None =>
             match findTarget d sc targetName with
             | Some e => (g, Some e)
             | None => findLegacyTarget d sc g targetName
             end
           end) (g, Some e) ns = (g, Some e).
Proof. induction ns as [|n ns IH]; done. Qed.

Lemma find_cons d sc g n ns :
  find d sc g (n :: ns) =
    match head (all d sc n) with
    | Some e => (match findTarget d sc n with
                 | Some _ => g
                 | None => warn_all sc g n (option_list (head (legacy d sc n)))
                 end, Some e)
    | None => find d sc g ns
    end.
Proof.
  unfold find. simpl. rewrite find_one_eq. destruct (head (all d sc n)) eqn:Ha; [apply find_some|].
  unfold all in Ha. rewrite head_app_option in Ha. unfold findTarget.
  rewrite Scope.findElement_head. fold (findAllTargets d sc n).
  destruct (head (findAllTargets d sc n)); [done|]. by rewrite Ha.
Qed.

Lemma find_head d sc g ns : (find d sc g ns).2 = head (ns ≫= all d sc).
Proof.
  induction ns as [|n ns IH]; [done|]. rewrite find_cons. simpl. rewrite head_app_option.
  by destruct (head (all d sc n)).
Qed.

(** The getters of a name that one element has, in the current attribute. *)
Lemma one_target d sc g n e :
  findAllTargets d sc n = [e] → legacy d sc n = [] →
  get_target d sc g n = (g, inl e) ∧ get_targets d sc g n = (g, [e]).
Proof.
  intros Hf Hl. assert (all d sc n = [e]) as Ha by (unfold all; by rewrite Hf, Hl).
  assert (findTarget d sc n = Some e) as Ho.
  { unfold findTarget. rewrite Scope.findElement_head. fold (findAllTargets d sc n). by rewrite Hf. }
  unfold get_target, get_targets. rewrite find_cons, findAll_eq, Ha, Ho. split; [done|].
  simpl. by rewrite Hl, Ha.
Qed.
End target_set.
End TargetSet.

(** ** Properties *)

Section properties.
Context {doc : Type} `{Dom doc}.
Implicit Types (d : doc) (sc : scope) (e : elem) (g : Guide.t).

(** The attribute [a] of the element lists the token [t]. *)
Definition lists d e (a t : string) : Prop :=
  ∃ v, getAttribute d e a = Some v ∧ t ∈ value_tokens d v.

Lemma matches_lists d e a t : matches d e (AttributeContainsToken a t) = true ↔ lists d e a t.
Proof.
  unfold lists. simpl. destruct (getAttribute d e a) as [v|].
  - rewrite bool_decide_eq_true. naive_solver.
  - naive_solver.
Qed.

Lemma elem_of_all d sc n e :
  e ∈ TargetSet.all d sc n ↔
    Scope.belongs d sc e ∧
    (lists d e ("data-" +:+ sc_identifier sc +:+ "-target") n ∨
     lists d e App.targetAttribute (sc_identifier sc +:+ "." +:+ n)).
Proof.
  unfold TargetSet.all, TargetSet.findAllTargets, TargetSet.legacy.
  rewrite elem_of_app, !Scope.elem_of_findAllElements.
  unfold TargetSet.getSelectorForTargetName, TargetSet.getLegacySelectorForTargetName.
  rewrite !matches_lists. tauto.
Qed.

(** C15: [findAll] returns exactly the elements of the scope that list one of
    the names in the target attribute of its controller or, qualified by the
    identifier, in the deprecated attribute; nothing outside the element and
    nothing below a nested scope of the same identifier is returned. *)
Theorem targets_membership d sc g ns e :
  e ∈ (TargetSet.findAll d sc g ns).2 ↔
    (e = sc_element sc ∨
     (e ∈ descendants d (sc_element sc) ∧
      closest d e (Scope.controllerSelector sc) = Some (sc_element sc))) ∧
    ∃ n, n ∈ ns ∧
      (lists d e ("data-" +:+ sc_identifier sc +:+ "-target") n ∨
       lists d e App.targetAttribute (sc_identifier sc +:+ "." +:+ n)).
Proof.
  rewrite TargetSet.findAll_eq. simpl. rewrite list_elem_of_bind. setoid_rewrite elem_of_all.
  unfold Scope.belongs. naive_solver.
Qed.

Lemma find_effect d sc g ns :
  (TargetSet.find d sc g ns).1 = g ∨
  ∃ e n, (TargetSet.find d sc g ns).2 = Some e ∧ n ∈ ns ∧ e ∈ TargetSet.legacy d sc n ∧
         (TargetSet.find d sc g ns).1 = Guide.warn g e ("target:" +:+ n) (TargetSet.message sc n).
Proof.
  induction ns as [|n ns IH]; [by left|]. rewrite TargetSet.find_cons.
  destruct (head (TargetSet.all d sc n)) as [e|] eqn:Ha.
  - destruct (TargetSet.findTarget d sc n) eqn:Hf; [by left|]. simpl.
    unfold TargetSet.all in Ha. rewrite TargetSet.head_app_option in Ha.
    unfold TargetSet.findTarget in Hf. rewrite Scope.findElement_head in Hf.
    unfold TargetSet.findAllTargets in Ha. rewrite Hf in Ha.
    destruct (TargetSet.legacy d sc n) as [|e' es] eqn:Hl; simplify_eq/=.
    right. exists e, n. split_and!; [done|by left|rewrite Hl; by left|done].
  - destruct IH as [->|(e & n' & He & Hn' & Hl & Hg)]; [by left|].
    right. exists e, n'. split_and!; [done|by right|done..].
Qed.

(** [find] is the first element of [findAll]; it fails exactly if there is
    none, as the getter of the target and [has] report, and it warns of the
    deprecated attribute only for the element that it returns. *)
Lemma find_first_target d sc g ns :
  (TargetSet.find d sc g ns).2 = head (TargetSet.findAll d sc g ns).2 ∧
  ((TargetSet.find d sc g ns).1 = g ∨
   ∃ e n, (TargetSet.find d sc g ns).2 = Some e ∧ n ∈ ns ∧ e ∈ TargetSet.legacy d sc n ∧
          (TargetSet.find d sc g ns).1 = Guide.warn g e ("target:" +:+ n) (TargetSet.message sc n)) ∧
  (∀ name, (TargetSet.has d sc g name).2 = true ↔ (TargetSet.get_targets d sc g name).2 ≠ []) ∧
  (∀ name, match (TargetSet.get_target d sc g name).2 with
           | inl e => head (TargetSet.get_targets d sc g name).2 = Some e
           | inr _ => (TargetSet.get_targets d sc g name).2 = []
           end).
Proof.
  assert (∀ ns, (TargetSet.find d sc g ns).2 = head (TargetSet.findAll d sc g ns).2) as Hhead.
  { intros ns'. by rewrite TargetSet.find_head, TargetSet.findAll_eq. }
  split_and!; [done|apply find_effect| |].
  - intros name. unfold TargetSet.has, TargetSet.get_targets.
    specialize (Hhead [name]). destruct (TargetSet.find d sc g [name]) as [g' o]. simpl in *. subst o.
    rewrite bool_decide_eq_true. destruct (TargetSet.findAll d sc g [name]).2; simpl.
    + split; [by intros [? ?]|done].
    + split; eauto.
  - intros name. unfold TargetSet.get_target, TargetSet.get_targets.
    specialize (Hhead [name]). destruct (TargetSet.find d sc g [name]) as [g' [e|]]; simpl in *; [done|].
    by destruct (TargetSet.findAll d sc g [name]).2.
Qed.

(** Nested scopes of one identifier share no target: if both elements have
    the controller, no element is a target of both. *)
Lemma targets_disjoint `{!DomLaws doc} d sc sc' g g' ns ns' e :
  sc_identifier sc = sc_identifier sc' → sc_element sc ≠ sc_element sc' →
  lists d (sc_element sc) App.controllerAttribute (sc_identifier sc) →
  lists d (sc_element sc') App.controllerAttribute (sc_identifier sc') →
  e ∈ (TargetSet.findAll d sc g ns).2 → e ∉ (TargetSet.findAll d sc' g' ns').2.
Proof.
  intros Hi Hne Hsc Hsc'. rewrite !TargetSet.findAll_eq. simpl. rewrite !list_elem_of_bind.
  intros (n & [Hb _]%elem_of_all & _) (n' & [Hb' _]%elem_of_all & _).
  assert (∀ sc, Scope.belongs d sc e →
    lists d (sc_element sc) App.controllerAttribute (sc_identifier sc) →
    closest d e (Scope.controllerSelector sc) = Some (sc_element sc)) as Hall.
  { intros sc0 Hb0 Hl. apply Scope.belongs_closest; [|done]. by apply Scope.closest_self, matches_lists. }
  pose proof (Hall sc Hb Hsc) as He. pose proof (Hall sc' Hb' Hsc') as He'.
  unfold Scope.controllerSelector in He, He'. rewrite Hi in He. congruence.
Qed.

(** *** Sequences of lookups *)

(** A query of the target set of a scope, on the document of its moment. *)
Inductive lookup :=
  | Find (d : doc) (targetNames : list string)
  | FindAll (d : doc) (targetNames : list string)
  | Has (d : doc) (targetName : string).

Definition run_lookup sc g (q : lookup) : Guide.t :=
  match q with
  | Find d ns => (TargetSet.find d sc g ns).1
  | FindAll d ns => (TargetSet.findAll d sc g ns).1
  | Has d n => (TargetSet.has d sc g n).1
  end.
Definition run_lookups sc (qs : list lookup) : Guide.t := foldl (run_lookup sc) Guide.new qs.

(** The guide has warned of exactly the elements and names [ps], once each. *)
Record Warned sc g (ps : list (elem * string)) : Prop := {
  warned_nodup : NoDup ps;
  warned_log : Guide.logged g = (λ p, (TargetSet.message sc p.2, p.1)) <$> ps;
  warned_keys e key : Guide.warned g e key ↔ ∃ n, key = "target:" +:+ n ∧ (e, n) ∈ ps;
}.

Lemma warned_new sc : Warned sc Guide.new [].
Proof.
  split; [constructor|done|]. intros e key. unfold Guide.warned. simpl.
  split; [by intros ?%not_elem_of_nil|by intros (n & _ & ?%not_elem_of_nil)].
Qed.

Lemma warned_warn sc g ps e n :
  Warned sc g ps →
  ∃ ps', Warned sc (Guide.warn g e ("target:" +:+ n) (TargetSet.message sc n)) ps' ∧
         ∀ p, p ∈ ps' ↔ p = (e, n) ∨ p ∈ ps.
Proof.
  intros [Hn Hl Hk].
  assert (Guide.warned g e ("target:" +:+ n) ↔ (e, n) ∈ ps) as Hw.
  { rewrite Hk. split; [|eauto]. by intros (n' & ->%app_inj_l & ?). }
  pose proof (Guide.warn_logged g e ("target:" +:+ n) (TargetSet.message sc n)) as Hl'.
  case_decide as Hd.
  - exists ps. apply Hw in Hd. split; [|naive_solver]. split; [done|by rewrite Hl'|].
    intros e' key. rewrite Guide.warn_warned, Hk. naive_solver.
  - exists (ps ++ [(e, n)]). rewrite Hw in Hd. split.
    + split.
      * apply NoDup_app. split_and!; [done| |apply NoDup_singleton].
        by intros p Hp ->%list_elem_of_singleton.
      * rewrite Hl', Hl, fmap_app. done.
      * intros e' key. rewrite Guide.warn_warned, Hk. setoid_rewrite elem_of_app.
        setoid_rewrite list_elem_of_singleton. naive_solver.
    + intros p. rewrite elem_of_app, list_elem_of_singleton. tauto.
Qed.

Lemma warned_warn_all sc g ps n es :
  Warned sc g ps →
  ∃ ps', Warned sc (TargetSet.warn_all sc g n es) ps' ∧
         ∀ p, p ∈ ps' ↔ (p.2 = n ∧ p.1 ∈ es) ∨ p ∈ ps.
Proof.
  revert g ps. induction es as [|e es IH]; intros g ps Hw.
  - exists ps. split; [done|]. intros p. pose proof (not_elem_of_nil p.1). tauto.
  - destruct (warned_warn sc g ps e n Hw) as (ps1 & Hw1 & Hp1).
    destruct (IH _ _ Hw1) as (ps2 & Hw2 & Hp2). exists ps2. split; [done|].
    intros [e' n']. rewrite Hp2, Hp1, elem_of_cons. naive_solver.
Qed.

Lemma warned_findAll d sc g ps ns :
  Warned sc g ps →
  ∃ ps', Warned sc (TargetSet.findAll d sc g ns).1 ps' ∧
         ∀ p, p ∈ ps' ↔ (p.2 ∈ ns ∧ p.1 ∈ TargetSet.legacy d sc p.2) ∨ p ∈ ps.
Proof.
  rewrite TargetSet.findAll_eq. simpl. revert g ps. induction ns as [|n ns IH]; intros g ps Hw.
  - exists ps. split; [done|]. intros p. pose proof (not_elem_of_nil p.2). tauto.
  - destruct (warned_warn_all sc g ps n (TargetSet.legacy d sc n) Hw) as (ps1 & Hw1 & Hp1).
    destruct (IH _ _ Hw1) as (ps2 & Hw2 & Hp2). exists ps2. split; [done|].
    intros [e' n']. rewrite Hp2, Hp1, elem_of_cons. simpl. naive_solver.
Qed.

Lemma warned_find d sc g ps ns :
  Warned sc g ps →
  ∃ ps', Warned sc (TargetSet.find d sc g ns).1 ps' ∧ ps ⊆ ps' ∧
         ∀ p, p ∈ ps' → (p.2 ∈ ns ∧ p.1 ∈ TargetSet.legacy d sc p.2) ∨ p ∈ ps.
Proof.
  intros Hw. destruct (find_effect d sc g ns) as [->|(e & n & _ & Hn & He & ->)].
  - exists ps. split_and!; [done..|tauto].
  - destruct (warned_warn sc g ps e n Hw) as (ps' & Hw' & Hp). exists ps'. split_and!; [done| |].
    + intros p ?. apply Hp. by right.
    + intros p [->|?]%Hp; [by left|by right].
Qed.

(** The elements and names that a lookup may warn of, and those it must. *)
Definition may_warn sc (q : lookup) (p : elem * string) : Prop :=
  match q with
  | Find d ns | FindAll d ns => p.2 ∈ ns ∧ p.1 ∈ TargetSet.legacy d sc p.2
  | Has d n => p.2 = n ∧ p.1 ∈ TargetSet.legacy d sc p.2
  end.
Definition must_warn sc (q : lookup) (p : elem * string) : Prop :=
  match q with FindAll _ _ => may_warn sc q p | _ => False end.

Lemma warned_lookup sc g ps q :
  Warned sc g ps →
  ∃ ps', Warned sc (run_lookup sc g q) ps' ∧ ps ⊆ ps' ∧
         (∀ p, p ∈ ps' → may_warn sc q p ∨ p ∈ ps) ∧ (∀ p, must_warn sc q p → p ∈ ps').
Proof.
  intros Hw. destruct q as [d ns|d ns|d n]; simpl.
  - destruct (warned_find d sc g ps ns Hw) as (ps' & ? & ? & ?). exists ps'. by split_and!.
  - destruct (warned_findAll d sc g ps ns Hw) as (ps' & ? & Hp). exists ps'. split_and!; [done| | |].
    + intros p ?. apply Hp. by right.
    + intros p. apply Hp.
    + intros p ?. apply Hp. by left.
  - destruct (warned_find d sc g ps [n] Hw) as (ps' & ? & ? & Hp). exists ps'.
    unfold TargetSet.has. destruct (TargetSet.find d sc g [n]) eqn:Hf. simpl in *.
    split_and!; [done|done| |done]. intros p Hin. specialize (Hp p Hin).
    rewrite list_elem_of_singleton in Hp. done.
Qed.

(** C33: over any sequence of lookups in changing documents, each use of the
    deprecated attribute is warned of at most once per element and name,
    nothing else is warned of, and no use among the names of a [findAll] goes
    unwarned. *)
Theorem warnings_once sc qs :
  ∃ ps, NoDup ps ∧
    Guide.logged (run_lookups sc qs) = (λ p, (TargetSet.message sc p.2, p.1)) <$> ps ∧
    (∀ p, p ∈ ps → ∃ q, q ∈ qs ∧ may_warn sc q p) ∧
    (∀ p q, q ∈ qs → must_warn sc q p → p ∈ ps).
Proof.
  assert (∃ ps, Warned sc (run_lookups sc qs) ps ∧ (∀ p, p ∈ ps → ∃ q, q ∈ qs ∧ may_warn sc q p) ∧
    (∀ p q, q ∈ qs → must_warn sc q p → p ∈ ps)) as (ps & [? ? _] & ? & ?); [|by exists ps].
  unfold run_lookups. induction qs as [|q qs IH] using rev_ind.
  { exists []. split_and!; [apply warned_new|by intros p ?%not_elem_of_nil|by intros p q ?%not_elem_of_nil]. }
  rewrite foldl_app. simpl. destruct IH as (ps & Hw & Hmay & Hmust).
  destruct (warned_lookup sc _ ps q Hw) as (ps' & Hw' & Hsub & Hmay' & Hmust'). exists ps'.
  split_and!; [done| |].
  - intros p [?|(q' & ? & ?)%Hmay]%Hmay'; [exists q|exists q']; (split; [|done]); set_solver.
  - intros p q' [Hin| ->%list_elem_of_singleton]%elem_of_app Hp; [|by apply Hmust'].
    by eapply Hsub, Hmust.
Qed.
End properties.

(** *** Witnesses *)

(** A page with a nested scope: the element 0 is the root, 1 and 3 have the
    controller [c], 2 is a target of 1, and 4, below 3, one of 3. *)
Definition nested_page : PageDom.t := PageDom.mk
  [(0, 0); (1, 1); (2, 2); (2, 3); (3, 4)] []
  [((1, "data-controller"), "c"); ((3, "data-controller"), "c x");
   ((2, "data-c-target"), "a b"); ((4, "data-target"), "c.a")] eq_refl.

Lemma targets_disjoint_witness :
  4 ∉ (TargetSet.findAll nested_page (mk_scope 0 1 "c") Guide.new ["a"]).2.
Proof.
  apply (targets_disjoint nested_page (mk_scope 1 3 "c") (mk_scope 0 1 "c") Guide.new Guide.new ["a"] ["a"]).
  - reflexivity.
  - discriminate.
  - exists "c x". split; [reflexivity|]. vm_compute. left.
  - exists "c". split; [reflexivity|]. vm_compute. left.
  - vm_compute. left.
Defined.

Example nested_targets :
  (TargetSet.findAll nested_page (mk_scope 0 1 "c") Guide.new ["a"]).2 = [2] ∧
  (TargetSet.findAll nested_page (mk_scope 1 3 "c") Guide.new ["a"]).2 = [4].
Proof. by vm_compute. Qed.
