(* ===== verification/EventLoop.v ===== *)
(** The event loop: [async] functions, [await], exceptions and the state that
    handlers share.

    A handler is a computation of the monad [M]: it reads and writes the
    shared state, throws and catches, and stops at each [await] until the
    event loop resumes it.  [M] is written with two continuations, one for the
    value and one for the exception, over the inductive type [cmd] of what a
    handler does next; so [try] and an [async] call without [await] ([spawn])
    have the meaning they have in JavaScript.  [Safe] is the logic of what
    holds between two turns of the loop, and [reachable_inv] its soundness. *)

From S2P Require Import Prelude.

(** ** Requests and responses *)

Inductive payload := TextBody (s : string) | FileBody (contents : string).

Record request := mk_request {
  url : string;
  method : string;
  headers : list (string * string);
  body : option payload;
}.

Record response := mk_response { status : Z; statusText : string; response_body : string }.

(** ** Commands *)

Section commands.
Context {St : Type}.

Inductive cmd :=
  | Done
  | Unhandled (error : string)
  | Get (k : St → cmd)
  | Put (s : St) (c : cmd)
  | Fetch (r : request) (k : response + string → cmd)
  | Settle (k : option string → cmd)
  | Spawn (callee caller : cmd).

(** A handler that waits: for the response to a request, or for another
    promise to be fulfilled ([None]) or rejected. *)
Inductive waiting :=
  | Fetching (r : request) (k : response + string → cmd)
  | Settling (k : option string → cmd).

(** What a turn of the loop leaves: the state, the handlers that now wait, the
    requests it sent and the rejections that nothing handles. *)
Record turn := mk_turn {
  tn_state : St;
  tn_waiting : list waiting;
  tn_sent : list request;
  tn_unhandled : list string;
}.

Fixpoint run (c : cmd) (s : St) : turn :=
  match c with
  | Done => mk_turn s [] [] []
  | Unhandled e => mk_turn s [] [] [e]
  | Get k => run (k s) s
  | Put s c => run c s
  | Fetch r k => mk_turn s [Fetching r k] [r] []
  | Settle k => mk_turn s [Settling k] [] []
  | Spawn callee caller =>
    let t := run callee s in
    let t' := run caller (tn_state t) in
    mk_turn (tn_state t') (tn_waiting t ++ tn_waiting t') (tn_sent t ++ tn_sent t')
      (tn_unhandled t ++ tn_unhandled t')
  end.

(** ** The monad of handlers *)

Definition M (A : Type) : Type := (A → cmd) → (string → cmd) → cmd.

Definition ret {A} (x : A) : M A := λ k _, k x.
Definition bind {A B} (m : M A) (f : A → M B) : M B := λ k e, m (λ x, f x k e) e.
Definition throw {A} (error : string) : M A := λ _ e, e error.
Definition try_catch {A} (m : M A) (h : string → M A) : M A := λ k e, m k (λ x, h x k e).
Definition get : M St := λ k _, Get k.
Definition put (s : St) : M unit := λ k _, Put s (k tt).
Definition fetch (r : request) : M response :=
  λ k e, Fetch r (λ o, match o with inl resp => k resp | inr error => e error end).

(** [await p] for a promise whose value is [x] if it is fulfilled. *)
Definition settle {A} (x : A) : M A :=
  λ k e, Settle (λ o, match o with None => k x | Some error => e error end).

(** A call of an [async] function, from the event loop. *)
Definition start (m : M unit) : cmd := m (λ _, Done) Unhandled.

(** A call of an [async] function whose promise is not awaited. *)
Definition spawn (m : M unit) : M unit := λ k _, Spawn (start m) (k tt).

Fixpoint for_each {A} (l : list A) (f : A → M unit) : M unit :=
  match l with
  | [] => ret tt
  | x :: l => bind (f x) (λ _, for_each l f)
  end.

(** ** The loop *)

Record world := mk_world {
  state : St;
  pending : list waiting;
  sent : list request;
  unhandled : list string;
}.

Definition enter (w : world) (c : cmd) : world :=
  let t := run c (state w) in
  mk_world (tn_state t) (pending w ++ tn_waiting t) (sent w ++ tn_sent t)
    (unhandled w ++ tn_unhandled t).

(** How the environment answers a handler that waits. *)
Inductive answer := Responds (r : response) | Fulfils | Rejects (error : string).

Definition resume (p : waiting) (a : answer) : option cmd :=
  match p, a with
  | Fetching _ k, Responds r => Some (k (inl r))
  | Fetching _ k, Rejects e => Some (k (inr e))
  | Settling k, Fulfils => Some (k None)
  | Settling k, Rejects e => Some (k (Some e))
  | _, _ => None
  end.

(** Answering the [i]th waiting handler. *)
Definition complete (w : world) (i : nat) (a : answer) : option world :=
  p ← pending w !! i;
  c ← resume p a;
  Some (enter (mk_world (state w) (delete i (pending w)) (sent w) (unhandled w)) c).

(** A turn of the loop starts a handler that can start in the state, resumes one,
    or is an event that only changes the state. *)
Inductive step (handlers : St → M unit → Prop) (events : St → St → Prop) : world → world → Prop :=
  | step_handler w m : handlers (state w) m → step handlers events w (enter w (start m))
  | step_resume w w' i a : complete w i a = Some w' → step handlers events w w'
  | step_event s s' ps rs us :
    events s s' → step handlers events (mk_world s ps rs us) (mk_world s' ps rs us).

(** ** What holds between the turns

    A contract has an invariant of the state, the requests that may be sent
    and the rejections that may stay unhandled. *)
Record contract := mk_contract {
  inv : St → Prop;
  allowed : request → Prop;
  tolerated : string → Prop;
}.

Section contracts.
Context (C : contract).

(** [safe c s]: if [c] runs in [s] it keeps the contract: the invariant holds
    whenever the loop gets control back, provided that it does each time [c]
    is resumed. *)
Fixpoint safe (c : cmd) (s : St) : Prop :=
  match c with
  | Done => inv C s
  | Unhandled e => inv C s ∧ tolerated C e
  | Get k => safe (k s) s
  | Put s c => safe c s
  | Fetch r k => (inv C s ∧ allowed C r) ∧ ∀ o s', inv C s' → safe (k o) s'
  | Settle k => inv C s ∧ ∀ o s', inv C s' → safe (k o) s'
  | Spawn callee caller => safe callee s ∧ ∀ s', inv C s' → safe caller s'
  end.

Definition safe_waiting (p : waiting) : Prop :=
  match p with
  | Fetching _ k => ∀ o s, inv C s → safe (k o) s
  | Settling k => ∀ o s, inv C s → safe (k o) s
  end.

Record ok_turn (t : turn) : Prop := {
  turn_inv : inv C (tn_state t);
  turn_waiting : Forall safe_waiting (tn_waiting t);
  turn_sent : Forall (allowed C) (tn_sent t);
  turn_unhandled : Forall (tolerated C) (tn_unhandled t);
}.

Record ok_world (w : world) : Prop := {
  world_inv : inv C (state w);
  world_pending : Forall safe_waiting (pending w);
  world_sent : Forall (allowed C) (sent w);
  world_unhandled : Forall (tolerated C) (unhandled w);
}.

Lemma run_safe c s : safe c s → ok_turn (run c s).
Proof.
  revert s. induction c as [|e|k IH|s' c IH|r k IH|k IH|c1 IH1 c2 IH2]; intros s; simpl; auto.
  - by split.
  - intros [Hs He]. split; simpl; auto.
  - intros [[Hs Hr] Hk]. split; simpl; auto.
  - intros [Hs Hk]. split; simpl; auto.
  - intros [Hs Hc]. destruct (IH1 s Hs) as [Hs1 ???]. destruct (IH2 _ (Hc _ Hs1)).
    split; simpl; rewrite ?Forall_app; auto.
Qed.

Lemma enter_ok w c : ok_world w → safe c (state w) → ok_world (enter w c).
Proof.
  intros [] Hc. destruct (run_safe _ _ Hc). split; simpl; rewrite ?Forall_app; auto.
Qed.

Lemma resume_safe p a c s : safe_waiting p → resume p a = Some c → inv C s → safe c s.
Proof. destruct p, a; simpl; intros Hp ? Hs; simplify_eq; auto. Qed.

Lemma complete_ok w i a w' : ok_world w → complete w i a = Some w' → ok_world w'.
Proof.
  intros [Hs Hp Hr Hu] Hc. unfold complete in Hc.
  destruct (pending w !! i) as [p|] eqn:Hi; [|done]. simpl in Hc.
  destruct (resume p a) as [c|] eqn:Ha; [|done]. simplify_eq/=. apply enter_ok.
  - split; [done| |done..]. by apply Forall_delete.
  - eapply resume_safe; [|done|done]. by eapply Forall_lookup_1.
Qed.

Lemma reachable_ok (handlers : St → M unit → Prop) (events : St → St → Prop) w w' :
  (∀ m s, handlers s m → inv C s → safe (start m) s) →
  (∀ s s', events s s' → inv C s → inv C s') →
  ok_world w → rtc (step handlers events) w w' → ok_world w'.
Proof.
  intros Hh He Hw. induction 1 as [|w w1 w2 Hstep _ IH]; [done|]. apply IH. clear IH.
  destruct Hstep as [w m Hm|w w' i a Hc|s s' ps rs us Hev].
  - apply enter_ok; [done|]. apply Hh; [done|apply Hw].
  - by eapply complete_ok.
  - destruct Hw. split; simpl in *; eauto.
Qed.

(** ** Rules

    [holds m s Q X]: the handler [m], run in [s], keeps the contract; it
    returns only with [Q] and throws only with [X]. *)
Definition holds {A} (m : M A) (s : St) (Q : A → St → Prop) (X : string → St → Prop) : Prop :=
  ∀ k e, (∀ x s', Q x s' → safe (k x) s') → (∀ err s', X err s' → safe (e err) s') →
         safe (m k e) s.

Lemma holds_start m s :
  holds m s (λ _, inv C) (λ e s', inv C s' ∧ tolerated C e) → safe (start m) s.
Proof. intros Hm. by apply Hm. Qed.

Lemma holds_weaken {A} (m : M A) s (Q Q' : A → St → Prop) (X X' : string → St → Prop) :
  holds m s Q X → (∀ x s', Q x s' → Q' x s') → (∀ e s', X e s' → X' e s') → holds m s Q' X'.
Proof. intros Hm HQ HX k e Hk He. apply Hm; auto. Qed.

Lemma holds_ret {A} (x : A) s (Q : A → St → Prop) X : Q x s → holds (ret x) s Q X.
Proof. intros HQ k e Hk _. by apply Hk. Qed.

Lemma holds_bind {A B} (m : M A) (f : A → M B) s Q X :
  holds m s (λ x s', holds (f x) s' Q X) X → holds (bind m f) s Q X.
Proof. intros Hm k e Hk He. apply Hm; [|done]. intros x s' Hf. by apply Hf. Qed.

Lemma holds_throw {A} e s (Q : A → St → Prop) (X : string → St → Prop) :
  X e s → holds (throw e) s Q X.
Proof. intros HX k h _ Hh. by apply Hh. Qed.

Lemma holds_try {A} (m : M A) h s Q X :
  holds m s Q (λ e s', holds (h e) s' Q X) → holds (try_catch m h) s Q X.
Proof. intros Hm k e Hk He. apply Hm; [done|]. intros err s' Hh. by apply Hh. Qed.

Lemma holds_get s (Q : St → St → Prop) X : Q s s → holds get s Q X.
Proof. intros HQ k e Hk _. simpl. by apply Hk. Qed.

Lemma holds_put s s' (Q : unit → St → Prop) X : Q tt s' → holds (put s') s Q X.
Proof. intros HQ k e Hk _. simpl. by apply Hk. Qed.

Lemma holds_fetch r s (Q : response → St → Prop) (X : string → St → Prop) :
  inv C s → allowed C r → (∀ resp s', inv C s' → Q resp s') → (∀ e s', inv C s' → X e s') →
  holds (fetch r) s Q X.
Proof. intros Hs Hr HQ HX k e Hk He. simpl. split; [done|]. intros [resp|err] s' Hs'; auto. Qed.

Lemma holds_settle {A} (x : A) s (Q : A → St → Prop) (X : string → St → Prop) :
  inv C s → (∀ s', inv C s' → Q x s') → (∀ e s', inv C s' → X e s') → holds (settle x) s Q X.
Proof. intros Hs HQ HX k e Hk He. simpl. split; [done|]. intros [err|] s' Hs'; auto. Qed.

Lemma holds_spawn m s (Q : unit → St → Prop) X :
  safe (start m) s → (∀ s', inv C s' → Q tt s') → holds (spawn m) s Q X.
Proof. intros Hm HQ k e Hk _. simpl. split; [done|]. auto. Qed.

Lemma holds_for_each {A} (l : list A) (f : A → M unit) (J : list A → St → Prop) s
    (Q : unit → St → Prop) X :
  J l s → (∀ s', J [] s' → Q tt s') →
  (∀ x l' s', J (x :: l') s' → holds (f x) s' (λ _, J l') X) →
  holds (for_each l f) s Q X.
Proof.
  intros HJ HQ Hf. revert s HJ. induction l as [|x l IH]; intros s HJ; simpl.
  - apply holds_ret. by apply HQ.
  - apply holds_bind. eapply holds_weaken; [by apply Hf| |done]. simpl. intros _ s'. apply IH.
Qed.
End contracts.
End commands.

Arguments cmd : clear implicits.
Arguments M : clear implicits.
Arguments waiting : clear implicits.
Arguments world : clear implicits.
Arguments turn : clear implicits.
Arguments contract : clear implicits.

Declare Scope handler_scope.
Delimit Scope handler_scope with handler.
Notation "'let*' x := m 'in' f" := (bind m (λ x, f))
  (at level 200, x pattern, m at level 100, f at level 200, right associativity) : handler_scope.
Notation "m ;;; f" := (bind m (λ _, f))
  (at level 100, f at level 200, right associativity) : handler_scope.
