(* ===== verification/Json.v ===== *)
(** JavaScript objects as records of values, [JSON.stringify] and [parseInt].

    The bodies that the handlers of [main.js] post are objects of strings,
    numbers, arrays and objects.  [stringify] is [JSON.stringify] on them and
    [stringify_indent] is [JSON.stringify(v, null, 2)].  The reader of the texts
    that [stringify] writes is [JsonText]. *)

From S2P Require Import Prelude JsCore JsString.
From Stdlib Require Import Ascii.
From stdpp Require Import pretty.

#[local] Open Scope string_scope.

(** ** Objects

    The properties of an object are listed with the array indexes first, in
    ascending order, and the other keys after them in the order in which they
    were created. *)

Module Obj.

Definition digit_value (c : ascii) : N := N_of_ascii c - 48.

Fixpoint digits_value (acc : N) (s : string) : N :=
  match s with
  | "" => acc
  | String c s => digits_value (acc * 10 + digit_value c) s
  end.

(** The array index that a key denotes. *)
Definition index (k : string) : option N :=
  if Str.non_empty k && Str.all Str.is_digit k then
    let n := digits_value 0 k in
    if decide (pretty n = k ∧ (n < 4294967295)%N) then Some n else None
  else None.

(** [true] if a new index [n] is listed before the key [k]. *)
Definition before (n : N) (k : string) : bool :=
  match index k with
  | Some m => bool_decide (n < m)%N
  | None => true
  end.

Fixpoint insert_index {V} (n : N) (k : string) (v : V) (o : list (string * V)) : list (string * V) :=
  match o with
  | [] => [(k, v)]
  | (k', v') :: o' => if before n k' then (k, v) :: o else (k', v') :: insert_index n k v o'
  end.

(** [o[k] = v] *)
Definition set {V} (k : string) (v : V) (o : list (string * V)) : list (string * V) :=
  if JMap.has k o then JMap.set k v o
  else match index k with
       | Some n => insert_index n k v o
       | None => o ++ [(k, v)]
       end.

(** [o[k] = v] for a key that the program does not choose: every object
    inherits the accessor [__proto__], whose setter adds no property. *)
Definition proto : string := "__proto__".
Definition assign {V} (k : string) (v : V) (o : list (string * V)) : list (string * V) :=
  if decide (k = proto) then o else set k v o.

Definition keys {V} (o : list (string * V)) : list string := o.*1.

Lemma elem_of_insert_index {V} n k (v : V) o kv :
  kv ∈ insert_index n k v o ↔ kv = (k, v) ∨ kv ∈ o.
Proof.
  induction o as [|[k' v'] o IH]; simpl; [by rewrite elem_of_cons|].
  destruct (before n k'); rewrite !elem_of_cons; [tauto|]. rewrite IH. tauto.
Qed.

Lemma obj_keys_set {V} k (v : V) o k' : k' ∈ keys (set k v o) ↔ k' = k ∨ k' ∈ keys o.
Proof.
  unfold set. destruct (JMap.has k o) eqn:Hk.
  { apply JMap.map_has_true in Hk. change (keys (JMap.set k v o)) with (JMap.keys (JMap.set k v o)).
    rewrite JMap.keys_set, JSet.elem_of_add. done. }
  unfold keys. destruct (index k) as [n|].
  - rewrite !list_elem_of_fmap. setoid_rewrite elem_of_insert_index. split.
    + intros ([k0 v0] & -> & [[= -> ->]|?]); eauto.
    + intros [->|(kv & -> & ?)]; [exists (k, v); auto|eauto].
  - rewrite fmap_app, elem_of_app. simpl. rewrite list_elem_of_singleton. tauto.
Qed.

Lemma NoDup_insert_index {V} n k (v : V) o :
  k ∉ keys o → NoDup (keys o) → NoDup (keys (insert_index n k v o)).
Proof.
  unfold keys. induction o as [|[k' v'] o IH]; simpl; [intros; apply NoDup_singleton|].
  rewrite not_elem_of_cons, NoDup_cons. intros [Hne Hk] [Hk' Hn].
  destruct (before n k'); simpl; rewrite !NoDup_cons.
  - rewrite not_elem_of_cons. tauto.
  - split; [|by apply IH]. rewrite list_elem_of_fmap. intros ([k0 v0] & -> & Hin).
    apply elem_of_insert_index in Hin as [[= -> ->]|Hin]; [done|].
    apply Hk'. by apply (list_elem_of_fmap_2 fst) in Hin.
Qed.

Lemma obj_NoDup_set {V} k (v : V) o : NoDup (keys o) → NoDup (keys (set k v o)).
Proof.
  intros Hn. unfold set. destruct (JMap.has k o) eqn:Hk; [by apply JMap.wf_set|].
  assert (k ∉ keys o) as Hk' by (rewrite <-JMap.map_has_true, Hk; done).
  destruct (index k); [by apply NoDup_insert_index|].
  unfold keys. rewrite fmap_app. apply NoDup_app. split_and!; [done| |apply NoDup_singleton].
  intros x Hx ->%list_elem_of_singleton. done.
Qed.

Lemma get_insert_index {V} n k (v : V) o k' :
  k ∉ keys o → JMap.get k' (insert_index n k v o) = if decide (k = k') then Some v else JMap.get k' o.
Proof.
  unfold keys. induction o as [|[k0 v0] o IH]; simpl.
  - intros _. destruct (decide (k = k')) as [->|Hk]; [by rewrite decide_True|by rewrite decide_False].
  - rewrite not_elem_of_cons. intros [Hne Hk]. destruct (before n k0); simpl.
    + destruct (decide (k = k')) as [->|Hk']; [by rewrite decide_True|by rewrite (decide_False (P := k' = k))].
    + rewrite IH by done. destruct (decide (k' = k0)) as [->|]; [|done]. by rewrite decide_False.
Qed.

Lemma obj_get_set {V} k (v : V) o k' :
  JMap.get k' (set k v o) = if decide (k = k') then Some v else JMap.get k' o.
Proof.
  unfold set. destruct (JMap.has k o) eqn:Hk; [apply JMap.get_set|].
  assert (k ∉ keys o) as Hk' by (rewrite <-JMap.map_has_true, Hk; done).
  destruct (index k); [by apply get_insert_index|].
  induction o as [|[k0 v0] o IH]; simpl.
  - destruct (decide (k = k')) as [->|]; [by rewrite decide_True|by rewrite decide_False].
  - unfold keys in Hk'. simpl in Hk'. apply not_elem_of_cons in Hk' as [Hne Hk'].
    destruct (decide (k' = k0)) as [->|]; [by rewrite decide_False|].
    apply IH; [|done]. apply not_true_iff_false. rewrite JMap.map_has_true. done.
Qed.

Lemma obj_get_assign {V} k (v : V) o k' :
  k' ≠ proto → JMap.get k' (assign k v o) = if decide (k = k') then Some v else JMap.get k' o.
Proof.
  intros Hk. unfold assign. destruct (decide (k = proto)) as [->|]; [|apply obj_get_set].
  by rewrite decide_False by congruence.
Qed.

Lemma obj_keys_assign {V} k (v : V) o k' :
  k' ∈ keys (assign k v o) ↔ (k' = k ∧ k ≠ proto) ∨ k' ∈ keys o.
Proof. unfold assign. case_decide; [tauto|]. rewrite obj_keys_set. tauto. Qed.

Lemma obj_NoDup_assign {V} k (v : V) o : NoDup (keys o) → NoDup (keys (assign k v o)).
Proof. unfold assign. case_decide; [done|]. apply obj_NoDup_set. Qed.

Lemma obj_values_assign {V} k (v : V) o (P : V → Prop) :
  P v → (∀ k' v', JMap.get k' o = Some v' → P v') →
  ∀ k' v', JMap.get k' (assign k v o) = Some v' → P v'.
Proof.
  intros Hv Ho k' v'. unfold assign. case_decide; [apply Ho|]. rewrite obj_get_set.
  case_decide; [by intros [= <-]|apply Ho].
Qed.
End Obj.

(** ** JSON values *)

Inductive json :=
  | JNull
  | JBool (b : bool)
  | JNum (z : Z)
  | JStr (s : string)
  | JArr (l : list json)
  | JObj (o : list (string * json)).

Module Json.

Definition hex_digit (n : N) : ascii :=
  if (n <? 10)%N then ascii_of_N (48 + n) else ascii_of_N (87 + n).

(** The escape sequence of a character of a string. *)
Definition escape (c : ascii) : string :=
  let n := N_of_ascii c in
  if (n =? 34)%N then "\" +:+ String c ""
  else if (n =? 92)%N then "\\"
  else if (n =? 8)%N then "\b"
  else if (n =? 12)%N then "\f"
  else if (n =? 10)%N then "\n"
  else if (n =? 13)%N then "\r"
  else if (n =? 9)%N then "\t"
  else if (n <? 32)%N then "\u00" +:+ String (hex_digit (n / 16)) (String (hex_digit (n mod 16)) "")
  else String c "".

Fixpoint escapes (s : string) : string :=
  match s with
  | "" => ""
  | String c s => escape c +:+ escapes s
  end.

Definition quote (s : string) : string := Str.dquote +:+ escapes s +:+ Str.dquote.

Fixpoint stringify (j : json) : string :=
  match j with
  | JNull => "null"
  | JBool true => "true"
  | JBool false => "false"
  | JNum z => pretty z
  | JStr s => quote s
  | JArr l => "[" +:+ Str.join "," (map stringify l) +:+ "]"
  | JObj o => "{" +:+ Str.join "," (map (λ kv, quote kv.1 +:+ ":" +:+ stringify kv.2) o) +:+ "}"
  end.

Definition newline : string := String (ascii_of_N 10) "".
Fixpoint spaces (n : nat) : string :=
  match n with 0 => "" | S n => String " " (spaces n) end.

(** [JSON.stringify(v, null, 2)], at a depth of [n] spaces. *)
Fixpoint stringify_indent (n : nat) (j : json) : string :=
  let inner := newline +:+ spaces (n + 2) in
  let block (opening closing : string) (l : list string) :=
    match l with
    | [] => opening +:+ closing
    | _ => opening +:+ inner +:+ Str.join ("," +:+ inner) l +:+ newline +:+ spaces n +:+ closing
    end in
  match j with
  | JArr l => block "[" "]" (map (stringify_indent (n + 2)) l)
  | JObj o => block "{" "}" (map (λ kv, quote kv.1 +:+ ": " +:+ stringify_indent (n + 2) kv.2) o)
  | _ => stringify j
  end.

(** ** [parseInt]: [None] stands for [NaN] *)

Definition digit (c : ascii) : option N :=
  let n := N_of_ascii c in
  if Str.is_digit c then Some (n - 48)%N
  else if Str.in_range "a" "z" c then Some (n - 87)%N
  else if Str.in_range "A" "Z" c then Some (n - 55)%N
  else None.

(** The longest prefix of digits in the radix, after [acc]. *)
Fixpoint read_digits (radix : N) (acc : option N) (s : string) : option N :=
  match s with
  | "" => acc
  | String c s' =>
    match digit c with
    | Some d => if (d <? radix)%N then read_digits radix (Some (default 0 acc * radix + d)%N) s' else acc
    | None => acc
    end
  end.

Definition parseInt (s : string) : option Z :=
  let s := Str.trimStart s in
  let '(sign, s) :=
    match s with
    | String "-" s => (-1, s)%Z
    | String "+" s => (1, s)%Z
    | _ => (1, s)%Z
    end in
  let digits :=
    match s with
    | String "0" (String "x" s) | String "0" (String "X" s) => read_digits 16 None s
    | _ => read_digits 10 None s
    end in
  (λ n, sign * Z.of_N n)%Z <$> digits.

(** A number in an object given to [JSON.stringify]: [NaN] is written [null]. *)
Definition of_number (n : option Z) : json :=
  match n with Some z => JNum z | None => JNull end.

(** [String(v)] for a parsed value. *)
Fixpoint to_string (j : json) : string :=
  match j with
  | JNull => "null"
  | JBool true => "true"
  | JBool false => "false"
  | JNum z => pretty z
  | JStr s => s
  | JArr l => Str.join "," (map (λ v, match v with JNull => "" | _ => to_string v end) l)
  | JObj _ => "[object Object]"
  end.

Example stringify_example :
  stringify (JObj [("Dest", JStr "a\b"); ("Budget", of_number (parseInt " 12px")); ("X", JArr [JBool true; JNull])]) =
  "{" +:+ quote "Dest" +:+ ":" +:+ Str.dquote +:+ "a\\b" +:+ Str.dquote +:+ "," +:+ quote "Budget" +:+ ":12,"
    +:+ quote "X" +:+ ":[true,null]}".
Proof. vm_compute. reflexivity. Qed.

Example parseInt_examples :
  (parseInt "0x1F", parseInt "-7 apples", parseInt "", parseInt "1e3", parseInt "+0")
  = (Some 31%Z, Some (-7)%Z, None, Some 1%Z, Some 0%Z).
Proof. vm_compute. reflexivity. Qed.
End Json.
