(* ===== verification/JsonText.v ===== *)
(** A reader of JSON texts, and that it reads back what [JSON.stringify]
    writes: a body that a handler posts determines the value it was made from.

    [parse] is [JSON.parse] on texts whose numbers are integers and whose
    characters are the code units that the strings of the model hold; other
    texts are rejected.  It is used by proofs and as the reader of concrete
    pages; the page's own reader is an operation of [Page.Browser]. *)

From S2P Require Import Prelude JsCore JsString Json.
From Stdlib Require Import Ascii.
From stdpp Require Import pretty.

#[local] Open Scope string_scope.

Module JsonText.

(** ** Reading *)

Definition is_json_ws (c : ascii) : bool :=
  let n := N_of_ascii c in (n =? 32)%N || (n =? 9)%N || (n =? 10)%N || (n =? 13)%N.

Fixpoint skip (s : string) : string :=
  match s with
  | "" => ""
  | String c s' => if is_json_ws c then skip s' else s
  end.

(** *** Strings *)

Definition unescape (c : ascii) : option ascii :=
  let n := N_of_ascii c in
  if (n =? 34)%N || (n =? 92)%N || (n =? 47)%N then Some c
  else if (n =? 98)%N then Some (ascii_of_N 8)
  else if (n =? 102)%N then Some (ascii_of_N 12)
  else if (n =? 110)%N then Some (ascii_of_N 10)
  else if (n =? 114)%N then Some (ascii_of_N 13)
  else if (n =? 116)%N then Some (ascii_of_N 9)
  else None.

Definition hex_value (c : ascii) : option N :=
  match Json.digit c with Some n => if (n <? 16)%N then Some n else None | None => None end.

(** The code unit of four hexadecimal digits, if the model's strings hold it. *)
Definition code_unit (a b c d : ascii) : option ascii :=
  match hex_value a, hex_value b, hex_value c, hex_value d with
  | Some 0%N, Some 0%N, Some c, Some d => Some (ascii_of_N (c * 16 + d))
  | _, _, _, _ => None
  end.

Definition prepend (c : ascii) (r : option (string * string)) : option (string * string) :=
  match r with Some (t, rest) => Some (String c t, rest) | None => None end.

(** The string after its opening quote, and the rest of the text. *)
Fixpoint read_string (s : string) : option (string * string) :=
  match s with
  | "" => None
  | String c s =>
    if (N_of_ascii c =? 34)%N then Some ("", s)
    else if (N_of_ascii c =? 92)%N then
      match s with
      | "" => None
      | String e s =>
        if (N_of_ascii e =? 117)%N then
          match s with
          | String h1 (String h2 (String h3 (String h4 s))) =>
            match code_unit h1 h2 h3 h4 with
            | Some u => prepend u (read_string s)
            | None => None
            end
          | _ => None
          end
        else match unescape e with
             | Some u => prepend u (read_string s)
             | None => None
             end
      end
    else if (N_of_ascii c <? 32)%N then None
    else prepend c (read_string s)
  end.

(** *** Numbers *)

Fixpoint span_digits (s : string) : string * string :=
  match s with
  | "" => ("", "")
  | String c s' => if Str.is_digit c then let '(d, r) := span_digits s' in (String c d, r) else ("", s)
  end.

(** No leading zero. *)
Definition canonical (digits : string) : bool :=
  match digits with
  | "" => false
  | String c rest => negb (bool_decide (c = "0"%char)) || negb (Str.non_empty rest)
  end.

(** The number does not go on with a fraction or an exponent. *)
Definition number_ends (s : string) : bool :=
  match s with
  | "" => true
  | String c _ =>
    negb (Str.is_digit c || bool_decide (c = "."%char) || bool_decide (c = "e"%char) || bool_decide (c = "E"%char))
  end.

Definition read_number (s : string) : option (json * string) :=
  let '(sign, s) := match s with String "-" s => (-1, s)%Z | _ => (1, s)%Z end in
  let '(digits, rest) := span_digits s in
  if canonical digits && number_ends rest
  then Some (JNum (sign * Z.of_N (Obj.digits_value 0 digits)), rest)
  else None.

(** *** Values *)

Section items.
Context {A : Type} (item : string → option (A * string)) (closing : ascii).

(** The items of a block, separated by commas, and its closing bracket. *)
Fixpoint items (fuel : nat) (s : string) : option (list A * string) :=
  match fuel with
  | 0 => None
  | S fuel =>
    match item s with
    | None => None
    | Some (x, s) =>
      match skip s with
      | "" => None
      | String c s =>
        if decide (c = ","%char) then
          match items fuel s with Some (xs, s) => Some (x :: xs, s) | None => None end
        else if decide (c = closing) then Some ([x], s) else None
      end
    end
  end.

(** The block after its opening bracket. *)
Definition block (fuel : nat) (s : string) : option (list A * string) :=
  match skip s with
  | "" => None
  | String c s' => if decide (c = closing) then Some ([], s') else items fuel s
  end.
End items.

Definition member (value : string → option (json * string)) (s : string) : option ((string * json) * string) :=
  match skip s with
  | "" => None
  | String c s =>
    if (N_of_ascii c =? 34)%N then
      match read_string s with
      | None => None
      | Some (k, s) =>
        match skip s with
        | String ":" s => match value s with Some (v, s) => Some ((k, v), s) | None => None end
        | _ => None
        end
      end
    else None
  end.

Definition rebuild (o : list (string * json)) : list (string * json) :=
  foldl (λ o kv, Obj.set kv.1 kv.2 o) [] o.

Fixpoint value (fuel : nat) (s : string) : option (json * string) :=
  match fuel with
  | 0 => None
  | S fuel =>
    match skip s with
    | "" => None
    | String "n" (String "u" (String "l" (String "l" s))) => Some (JNull, s)
    | String "t" (String "r" (String "u" (String "e" s))) => Some (JBool true, s)
    | String "f" (String "a" (String "l" (String "s" (String "e" s)))) => Some (JBool false, s)
    | String "[" s =>
      match block (value fuel) "]" fuel s with Some (l, s) => Some (JArr l, s) | None => None end
    | String "{" s =>
      match block (member (value fuel)) "}" fuel s with
      | Some (o, s) => Some (JObj (rebuild o), s)
      | None => None
      end
    | String c s as s' =>
      if (N_of_ascii c =? 34)%N then
        match read_string s with Some (t, s) => Some (JStr t, s) | None => None end
      else read_number s'
    end
  end.

Definition parse (s : string) : option json :=
  match value (S (String.length s)) s with
  | Some (j, rest) => if Str.non_empty (skip rest) then None else Some j
  | None => None
  end.

Example parse_example :
  parse (" { " +:+ Str.quoted "a\u0041" +:+ " : [1, -20 ,null, true], " +:+ Str.quoted "2" +:+ ":{}} ") =
    Some (JObj [("2", JObj []); ("aA", JArr [JNum 1; JNum (-20); JNull; JBool true])]).
Proof. vm_compute. reflexivity. Qed.

(** ** What is written is read *)

Lemma read_escape c t : read_string (Json.escape c +:+ t) = prepend c (read_string t).
Proof. by destruct c as [[] [] [] [] [] [] [] []]. Qed.

Lemma read_quoted s rest : read_string (Json.escapes s +:+ Str.dquote +:+ rest) = Some (s, rest).
Proof.
  induction s as [|c s IH]; [done|]. simpl Json.escapes. rewrite Str.app_assoc, read_escape, IH. done.
Qed.

(** No digit follows. *)
Definition digits_end (s : string) : bool :=
  match s with "" => true | String c _ => negb (Str.is_digit c) end.

Lemma span_digits_app d rest :
  Str.all Str.is_digit d = true → digits_end rest = true → span_digits (d +:+ rest) = (d, rest).
Proof.
  intros Hd Hr. induction d as [|c d IH].
  - rewrite Str.app_nil_l. destruct rest as [|c rest]; [done|]. simpl in Hr |- *.
    by destruct (Str.is_digit c).
  - rewrite Str.app_cons. simpl in Hd |- *. apply andb_true_iff in Hd as [-> Hd]. by rewrite IH.
Qed.

Lemma span_app d rest :
  Str.all Str.is_digit d = true → number_ends rest = true → span_digits (d +:+ rest) = (d, rest).
Proof.
  intros Hd Hr. apply span_digits_app; [done|]. destruct rest as [|c rest]; [done|]. simpl in Hr |- *.
  apply negb_true_iff in Hr. by destruct (Str.is_digit c).
Qed.

(** *** The digits of a number *)

Lemma pretty_char_value x :
  (x < 10)%N → Str.is_digit (pretty_N_char x) = true ∧ Obj.digit_value (pretty_N_char x) = x ∧
               (x ≠ 0 → pretty_N_char x ≠ "0"%char)%N.
Proof.
  intros Hx. assert (x = 0 ∨ x = 1 ∨ x = 2 ∨ x = 3 ∨ x = 4 ∨ x = 5 ∨ x = 6 ∨ x = 7 ∨ x = 8 ∨ x = 9)%N as Hc by lia.
  by repeat destruct Hc as [->|Hc]; [split_and! ..|subst; split_and!].
Qed.

Lemma pretty_go_digits x s :
  Str.all Str.is_digit s = true →
  Str.all Str.is_digit (pretty_N_go x s) = true ∧
  Obj.digits_value 0 (pretty_N_go x s) = Obj.digits_value x s.
Proof.
  revert s. induction (N.lt_wf_0 x) as [x _ IH]. intros s Hs. destruct (decide (x = 0%N)) as [->|Hx].
  { by rewrite pretty_N_go_0. }
  rewrite pretty_N_go_step by lia.
  destruct (pretty_char_value (x `mod` 10)) as (Hd & Hv & _); [by apply N.mod_lt|].
  destruct (IH (x `div` 10)%N) with (s := String (pretty_N_char (x `mod` 10)) s) as [Ha Hval].
  - apply N.div_lt; lia.
  - simpl. by rewrite Hd, Hs.
  - split; [done|]. rewrite Hval. simpl. rewrite Hv. f_equal. rewrite N.mul_comm. symmetry. by apply N.div_mod.
Qed.

Lemma pretty_go_head x s : (0 < x)%N → ∃ c r, pretty_N_go x s = String c r ∧ c ≠ "0"%char.
Proof.
  revert s. induction (N.lt_wf_0 x) as [x _ IH]. intros s Hx. rewrite pretty_N_go_step by done.
  destruct (decide (x `div` 10 = 0)%N) as [Hz|Hz].
  - rewrite Hz, pretty_N_go_0. eexists _, _. split; [done|].
    apply pretty_char_value; [by apply N.mod_lt|]. intros Hm. pose proof (N.div_mod x 10 ltac:(done)) as Hd. rewrite Hz, Hm in Hd. lia.
  - apply IH; [apply N.div_lt; lia|by apply N.neq_0_lt_0].
Qed.

Lemma pretty_digits (n : N) :
  Str.all Str.is_digit (pretty n) = true ∧ canonical (pretty n) = true ∧ Obj.digits_value 0 (pretty n) = n.
Proof.
  unfold pretty, pretty_N. case_decide as Hn; [by subst|].
  destruct (pretty_go_digits n "") as [Ha Hv]; [done|]. split_and!; [done| |done].
  destruct (pretty_go_head n "") as (c & r & -> & Hc); [lia|]. simpl. by rewrite bool_decide_eq_false_2.
Qed.

Lemma pretty_pos p : pretty (Z.pos p) = pretty (N.pos p).
Proof. done. Qed.

Lemma read_natural (n : N) rest :
  number_ends rest = true → read_number (pretty n +:+ rest) = Some (JNum (Z.of_N n), rest).
Proof.
  intros Hr. destruct (pretty_digits n) as (Ha & Hc & Hv). unfold read_number.
  assert (match pretty n +:+ rest with String "-" s => (-1, s)%Z | _ => (1, pretty n +:+ rest)%Z end =
          (1, pretty n +:+ rest)%Z) as ->.
  { destruct (pretty n) as [|c d]; [done|]. rewrite Str.app_cons.
    simpl in Ha. apply andb_true_iff in Ha as [Hd _]. by destruct c as [[] [] [] [] [] [] [] []]. }
  rewrite span_app, Hc, Hr, Hv by done. simpl andb. by rewrite Z.mul_1_l.
Qed.

Lemma read_pretty z rest : number_ends rest = true → read_number (pretty z +:+ rest) = Some (JNum z, rest).
Proof.
  intros Hr. destruct z as [|p|p]; [apply (read_natural 0), Hr|apply (read_natural (N.pos p)), Hr|].
  destruct (pretty_digits (N.pos p)) as (Ha & Hc & Hv).
  change (pretty (Z.neg p)) with ("-" +:+ pretty (N.pos p)). rewrite Str.app_assoc.
  change ("-" +:+ ?t) with (String "-" t). unfold read_number.
  by rewrite span_app, Hc, Hr, Hv.
Qed.

(** *** Blocks *)

(** What may follow a value in a text that [stringify] writes. *)
Definition follows (closing : ascii) (rest : string) : Prop :=
  ∃ c s, rest = String c s ∧ (c = ","%char ∨ c = closing).

Lemma items_join {A} (item : string → option (A * string)) closing texts xs :
  closing ≠ ","%char → is_json_ws closing = false →
  Forall2 (λ t x, ∀ rest, follows closing rest → item (t +:+ rest) = Some (x, rest)) texts xs →
  texts ≠ [] → ∀ fuel rest, (length texts ≤ fuel)%nat →
  items item closing fuel (Str.join "," texts +:+ String closing rest) = Some (xs, rest).
Proof.
  intros Hc Hw Hall Hne. induction Hall as [|t x texts xs Hx Hall IH]; [done|].
  intros [|fuel] rest Hfuel; simpl in Hfuel; [lia|]. destruct texts as [|t' texts].
  - inversion Hall; subst. simpl. rewrite Hx by (eexists _, _; eauto). simpl. rewrite Hw.
    by rewrite decide_False, decide_True.
  - change (Str.join "," (t :: t' :: texts)) with (t +:+ "," +:+ Str.join "," (t' :: texts)).
    rewrite !Str.app_assoc, Str.app_cons, Str.app_nil_l.
    simpl items. rewrite Hx by (eexists _, _; eauto). simpl skip. cbv beta iota.
    rewrite decide_True by done. change (match texts with [] => _ | _ :: _ => _ end) with (Str.join "," (t' :: texts)).
    rewrite IH by (done || lia). done.
Qed.

(** The first character of an item. *)
Definition opens (closing : ascii) (t : string) : Prop :=
  ∃ c s, t = String c s ∧ is_json_ws c = false ∧ c ≠ closing.

Lemma block_join {A} (item : string → option (A * string)) closing texts xs fuel rest :
  closing ≠ ","%char → is_json_ws closing = false →
  Forall2 (λ t x, opens closing t ∧ ∀ rest, follows closing rest → item (t +:+ rest) = Some (x, rest)) texts xs →
  (length texts ≤ fuel)%nat →
  block item closing fuel (Str.join "," texts +:+ String closing rest) = Some (xs, rest).
Proof.
  intros Hc Hw Hall Hfuel. destruct texts as [|t texts].
  { inversion Hall; subst. unfold block. simpl. rewrite Hw. by rewrite decide_True. }
  assert (∃ c s, Str.join "," (t :: texts) +:+ String closing rest = String c s ∧
                 is_json_ws c = false ∧ c ≠ closing) as (c & s & Heq & Hcw & Hcc).
  { inversion Hall as [|? ? ? ? [(c & s & -> & ? & ?) _]]; subst.
    destruct texts; simpl; rewrite ?Str.app_cons; eauto. }
  unfold block. rewrite Heq. simpl. rewrite Hcw, decide_False by done. rewrite <-Heq.
  apply items_join; [done..| |done|done]. eapply Forall2_impl; [done|]. by intros ? ? [_ ?].
Qed.

Lemma length_app s t : String.length (s +:+ t) = (String.length s + String.length t)%nat.
Proof. induction s as [|c s IH]; [done|]. rewrite Str.app_cons. simpl. by rewrite IH. Qed.

Lemma length_join_elem sep t texts : t ∈ texts → (String.length t ≤ String.length (Str.join sep texts))%nat.
Proof.
  induction texts as [|t' texts IH]; [by intros ?%not_elem_of_nil|].
  rewrite elem_of_cons. destruct texts as [|t2 texts]; [intros [->|?%not_elem_of_nil]; done|].
  change (Str.join sep (t' :: t2 :: texts)) with (t' +:+ sep +:+ Str.join sep (t2 :: texts)).
  rewrite !length_app. intros [->|Ht%IH]; lia.
Qed.

Lemma length_join_count texts :
  Forall (λ t, t ≠ "") texts → (length texts ≤ String.length (Str.join "," texts))%nat.
Proof.
  induction 1 as [|t texts Ht _ IH]; [done|]. assert (1 ≤ String.length t)%nat by (destruct t; simpl; [done|lia]).
  destruct texts as [|t2 texts]; [simpl; lia|].
  change (Str.join "," (t :: t2 :: texts)) with (t +:+ "," +:+ Str.join "," (t2 :: texts)).
  rewrite !length_app. simpl length in *. lia.
Qed.

(** *** Values *)

(** Induction on the values, through their items and properties. *)
Definition json_nested_ind (P : json → Prop) (Hnull : P JNull) (Hbool : ∀ b, P (JBool b))
    (Hnum : ∀ z, P (JNum z)) (Hstr : ∀ s, P (JStr s)) (Harr : ∀ l, Forall P l → P (JArr l))
    (Hobj : ∀ o, Forall (λ kv, P kv.2) o → P (JObj o)) : ∀ j, P j :=
  fix go j :=
    match j with
    | JNull => Hnull
    | JBool b => Hbool b
    | JNum z => Hnum z
    | JStr s => Hstr s
    | JArr l => Harr l (list_ind (Forall P) (Forall_nil_2 _) (λ x l H, Forall_cons_2 _ x l (go x) H) l)
    | JObj o =>
      Hobj o ((fix gos o : Forall (λ kv, P kv.2) o :=
                 match o with
                 | [] => Forall_nil_2 _
                 | kv :: o => Forall_cons_2 _ kv o (go kv.2) (gos o)
                 end) o)
    end.

(** The objects of a value list their properties in the order of the
    language; every value that a program builds does. *)
Fixpoint ordered (j : json) : Prop :=
  match j with
  | JArr l => foldr and True (map ordered l)
  | JObj o => rebuild o = o ∧ foldr and True (map (λ kv, ordered kv.2) o)
  | _ => True
  end.

Lemma foldr_and {A} (P : A → Prop) l : foldr and True (map P l) ↔ Forall P l.
Proof. induction l as [|x l IH]; simpl; [split; auto|]. rewrite Forall_cons. by rewrite IH. Qed.

Lemma stringify_arr l : Json.stringify (JArr l) = "[" +:+ Str.join "," (map Json.stringify l) +:+ "]".
Proof. done. Qed.

Definition write_member (kv : string * json) : string := Json.quote kv.1 +:+ ":" +:+ Json.stringify kv.2.

Lemma stringify_obj o : Json.stringify (JObj o) = "{" +:+ Str.join "," (map write_member o) +:+ "}".
Proof. done. Qed.

(** The first character of the text of a number, and of any value. *)
Definition numeric (c : ascii) : bool := Str.is_digit c || bool_decide (c = "-"%char).

Lemma pretty_opens (z : Z) : ∃ c s, pretty z = String c s ∧ numeric c = true.
Proof.
  destruct z as [|p|p]; [by exists "0"%char, ""| |by exists "-"%char, (pretty (N.pos p))].
  change (pretty (Z.pos p)) with (pretty (N.pos p)). destruct (pretty_digits (N.pos p)) as (Ha & Hc & _).
  destruct (pretty (N.pos p)) as [|c s]; [done|]. simpl in Ha. apply andb_true_iff in Ha as [Ha _].
  exists c, s. split; [done|]. unfold numeric. by rewrite Ha.
Qed.

Lemma value_numeric fuel c s : numeric c = true → value (S fuel) (String c s) = read_number (String c s).
Proof. destruct c as [[] [] [] [] [] [] [] []]; intros Hc; first [discriminate Hc|reflexivity]. Qed.

Lemma value_dquote fuel t :
  value (S fuel) (String (ascii_of_N 34) t) =
    match read_string t with Some (t, s) => Some (JStr t, s) | None => None end.
Proof. reflexivity. Qed.

Lemma value_quote fuel s rest : value (S fuel) (Json.quote s +:+ rest) = Some (JStr s, rest).
Proof.
  unfold Json.quote. rewrite !Str.app_assoc. unfold Str.dquote at 1. rewrite Str.app_cons, Str.app_nil_l.
  rewrite value_dquote. by rewrite read_quoted.
Qed.

Lemma stringify_opens closing j :
  closing = "]"%char ∨ closing = "}"%char → opens closing (Json.stringify j).
Proof.
  intros Hc. destruct j as [|[]|z|s|l|o].
  1-3,5-7: eexists _, _; split; [done|]; split; [done|]; by destruct Hc as [->| ->].
  destruct (pretty_opens z) as (c & s & Hz & Hn). exists c, s. split; [done|].
  by destruct c as [[] [] [] [] [] [] [] []], Hc as [->| ->].
Qed.

(** A value is read from its text, with as much fuel as the text is long. *)
Definition reads (j : json) : Prop :=
  ∀ fuel rest, (String.length (Json.stringify j) < fuel)%nat → ordered j → number_ends rest = true →
    value fuel (Json.stringify j +:+ rest) = Some (j, rest).

Lemma follows_ends closing rest :
  closing = "]"%char ∨ closing = "}"%char → follows closing rest → number_ends rest = true.
Proof. by intros [->| ->] (c & s & -> & [->| ->]). Qed.

Lemma member_dquote rd t :
  member rd (String (ascii_of_N 34) t) =
    match read_string t with
    | None => None
    | Some (k, s) =>
      match skip s with
      | String ":" s => match rd s with Some (v, s) => Some ((k, v), s) | None => None end
      | _ => None
      end
    end.
Proof. reflexivity. Qed.

Lemma read_member fuel kv rest :
  (String.length (Json.stringify kv.2) < fuel)%nat → ordered kv.2 → reads kv.2 → number_ends rest = true →
  member (value fuel) (write_member kv +:+ rest) = Some (kv, rest).
Proof.
  intros Hf Ho Hr He. destruct kv as [k v]. unfold write_member, Json.quote, Str.dquote. cbn [fst snd] in *.
  rewrite !Str.app_assoc, !Str.app_cons, !Str.app_nil_l.
  pose proof (read_quoted k (String ":" (Json.stringify v +:+ rest))) as Hk.
  unfold Str.dquote in Hk. rewrite !Str.app_cons, !Str.app_nil_l in Hk.
  rewrite member_dquote, Hk. simpl skip. cbv beta iota. by rewrite Hr.
Qed.

Lemma length_write_member kv : (String.length (Json.stringify kv.2) ≤ String.length (write_member kv))%nat.
Proof. unfold write_member. rewrite !length_app. lia. Qed.

Lemma value_reads j : reads j.
Proof.
  induction j as [|b|z|s|l IH|o IH] using json_nested_ind; intros [|fuel] rest Hf Ho He; try lia.
  - done.
  - by destruct b.
  - simpl Json.stringify. destruct (pretty_opens z) as (c & s & Hz & Hc).
    rewrite <-read_pretty by done. rewrite Hz, Str.app_cons. by apply value_numeric.
  - apply value_quote.
  - rewrite stringify_arr in Hf |- *. rewrite !length_app in Hf. simpl String.length in Hf.
    simpl in Ho. rewrite foldr_and in Ho. rewrite !Str.app_assoc, !Str.app_cons, !Str.app_nil_l.
    simpl value. rewrite (block_join _ _ _ l); [done..| |].
    + apply Forall2_fmap_l, Forall_Forall2_diag. rewrite Forall_forall in IH, Ho |- *. intros j Hj.
      split; [by apply stringify_opens; left|]. intros rest' Hrest. apply IH; [done| |by apply Ho|].
      * assert (String.length (Json.stringify j) ≤ String.length (Str.join "," (map Json.stringify l)))%nat
          by by apply length_join_elem, (list_elem_of_fmap_2 Json.stringify).
        lia.
      * eapply follows_ends; [|done]. by left.
    + etrans; [apply length_join_count|lia]. apply Forall_map. apply Forall_true. intros j.
      by destruct (stringify_opens "]" j) as (c & s & -> & _); [left|].
  - rewrite stringify_obj in Hf |- *. rewrite !length_app in Hf. simpl String.length in Hf.
    simpl in Ho. rewrite foldr_and in Ho. destruct Ho as [Ho Hos].
    rewrite !Str.app_assoc, !Str.app_cons, !Str.app_nil_l.
    simpl value. rewrite (block_join _ _ _ o); [by rewrite Ho|done..| |].
    + apply Forall2_fmap_l, Forall_Forall2_diag. rewrite Forall_forall in IH, Hos |- *. intros kv Hkv.
      split; [by eexists _, _|]. intros rest' Hrest. apply read_member; [|by apply Hos|by apply IH|].
      * assert (String.length (write_member kv) ≤ String.length (Str.join "," (map write_member o)))%nat as Hl
          by by apply length_join_elem, (list_elem_of_fmap_2 write_member).
        pose proof (length_write_member kv). lia.
      * eapply follows_ends; [|done]. by right.
    + etrans; [apply length_join_count|lia]. apply Forall_map. by apply Forall_true.
Qed.

(** The text that [JSON.stringify] writes for a value determines it: the
    reader takes the text of every value, whatever its nesting, its strings
    and its numbers, and gives the value back. *)
Lemma parse_stringify j : ordered j → parse (Json.stringify j) = Some j.
Proof.
  intros Ho. unfold parse. rewrite <-(Str.app_nil_r (Json.stringify j)) at 2.
  rewrite value_reads by (done || lia). done.
Qed.

End JsonText.
