(* ===== verification/Numbers.v ===== *)
(** Numbers of JavaScript: [parseFloat], [String(n)], and that the second's
    text is read back by the first.

    A finite number is the decimal that its text writes, [m * 10 ^ e].  The
    language rounds decimals to binary floating point; every decimal of up to
    fifteen digits in range survives this, and longer ones are outside of the
    model.  The two zeros are one. *)

From S2P Require Import Prelude JsCore JsString Json JsonText.
From Stdlib Require Import Ascii.
From stdpp Require Import pretty.

#[local] Open Scope string_scope.
#[local] Open Scope Z_scope.

Inductive number :=
  | NaN
  | Infinity (negative : bool)
  | Decimal (m e : Z).

#[export] Instance number_eq_dec : EqDecision number.
Proof. solve_decision. Defined.

Module Number.

(** ** Canonical decimals: no trailing zero *)

Fixpoint strip (fuel : nat) (m e : Z) : Z * Z :=
  match fuel with
  | 0%nat => (m, e)
  | S fuel => if m mod 10 =? 0 then strip fuel (m / 10) (e + 1) else (m, e)
  end.

Definition decimal (m e : Z) : number :=
  if m =? 0 then Decimal 0 0
  else let '(m, e) := strip (Z.to_nat (Z.log2 (Z.abs m))) m e in Decimal m e.

Definition canonical (x : number) : Prop :=
  match x with
  | Decimal m e => (m = 0 ∧ e = 0) ∨ m mod 10 ≠ 0
  | _ => True
  end.

(** ** [parseFloat] *)

Definition read_sign (s : string) : bool * string :=
  match s with
  | String "-" s => (true, s)
  | String "+" s => (false, s)
  | _ => (false, s)
  end.

Definition signed (negative : bool) (n : N) : Z := if negative then - Z.of_N n else Z.of_N n.

Definition read_exponent (s : string) : Z :=
  match s with
  | String "e" s | String "E" s =>
    let '(negative, s) := read_sign s in
    let digits := (JsonText.span_digits s).1 in
    if Str.non_empty digits then signed negative (Obj.digits_value 0 digits) else 0
  | _ => 0
  end.

Definition read_decimal (negative : bool) (s : string) : number :=
  let '(whole, s) := JsonText.span_digits s in
  let '(fraction, s) :=
    match s with String "." s => JsonText.span_digits s | _ => ("", s) end in
  if Str.non_empty whole || Str.non_empty fraction
  then decimal (signed negative (Obj.digits_value 0 (whole +:+ fraction)))
               (read_exponent s - Z.of_nat (String.length fraction))
  else NaN.

Definition parseFloat (s : string) : number :=
  let '(negative, s) := read_sign (Str.trimStart s) in
  if String.prefix "Infinity" s then Infinity negative else read_decimal negative s.

(** ** [Number(s)], the number that a text is compared as *)

Definition all_digits (radix : N) (s : string) : number :=
  if Str.non_empty s && Str.all (λ c, match Json.digit c with Some d => (d <? radix)%N | None => false end) s
  then match Json.read_digits radix None s with Some n => decimal (Z.of_N n) 0 | None => NaN end
  else NaN.

(** The exponent of a numeral, if the text is one. *)
Definition whole_exponent (s : string) : option Z :=
  match s with
  | "" => Some 0
  | String "e" s | String "E" s =>
    let '(negative, s) := read_sign s in
    if Str.non_empty s && Str.all Str.is_digit s then Some (signed negative (Obj.digits_value 0 s)) else None
  | _ => None
  end.

Definition whole_decimal (negative : bool) (s : string) : number :=
  let '(whole, s) := JsonText.span_digits s in
  let '(fraction, s) :=
    match s with String "." s => JsonText.span_digits s | _ => ("", s) end in
  match whole_exponent s with
  | Some e =>
    if Str.non_empty whole || Str.non_empty fraction
    then decimal (signed negative (Obj.digits_value 0 (whole +:+ fraction))) (e - Z.of_nat (String.length fraction))
    else NaN
  | None => NaN
  end.

Definition ofString (s : string) : number :=
  match Str.trim s with
  | "" => Decimal 0 0
  | String "0" (String "x" s) | String "0" (String "X" s) => all_digits 16 s
  | String "0" (String "o" s) | String "0" (String "O" s) => all_digits 8 s
  | String "0" (String "b" s) | String "0" (String "B" s) => all_digits 2 s
  | s =>
    let '(negative, s) := read_sign s in
    if decide (s = "Infinity") then Infinity negative else whole_decimal negative s
  end.

Example ofString_examples :
  ofString <$> [" 12 "; ""; "1e1"; "0x1F"; "0b2"; "12px"; "chat"; "-Infinity"; "1.50"; "+.5e-1"; "."] =
  [Decimal 12 0; Decimal 0 0; Decimal 1 1; Decimal 31 0; NaN; NaN; NaN; Infinity true; Decimal 15 (-1); Decimal 5 (-2); NaN].
Proof. vm_compute. reflexivity. Qed.

(** ** [String(n)] *)

Fixpoint zeros (n : nat) : string :=
  match n with 0%nat => "" | S n => String "0" (zeros n) end.

Fixpoint split_at (n : nat) (s : string) : string * string :=
  match n, s with
  | S n, String c s => let '(a, b) := split_at n s in (String c a, b)
  | _, _ => ("", s)
  end.

Definition exponent_part (z : Z) : string :=
  "e" +:+ (if z <? 0 then "-" else "+") +:+ pretty (Z.abs_N z).

(** The digits [ds] of a decimal, with the point after the first [n]. *)
Definition point (ds : string) (n : Z) : string :=
  let k := Z.of_nat (String.length ds) in
  if (k <=? n) && (n <=? 21) then ds +:+ zeros (Z.to_nat (n - k))
  else if (0 <? n) && (n <=? 21) then
    let '(whole, fraction) := split_at (Z.to_nat n) ds in whole +:+ "." +:+ fraction
  else if (-6 <? n) && (n <=? 0) then "0." +:+ zeros (Z.to_nat (- n)) +:+ ds
  else
    let '(first, rest) := split_at 1 ds in
    first +:+ (if Str.non_empty rest then "." +:+ rest else "") +:+ exponent_part (n - 1).

Definition toString (x : number) : string :=
  match x with
  | NaN => "NaN"
  | Infinity negative => if negative then "-Infinity" else "Infinity"
  | Decimal m e =>
    if m =? 0 then "0"
    else
      let ds := pretty (Z.abs_N m) in
      (if m <? 0 then "-" else "") +:+ point ds (Z.of_nat (String.length ds) + e)
  end.

Example number_examples :
  (toString <$> [Decimal 5 20; Decimal (-15) (-1); Decimal 12 (-4); Decimal 1 21; Decimal 123 (-9)],
   parseFloat <$> [" 12.50px"; "-.5e+2"; "abc"; "+Infinity!"; "1e"; "0.000"; "100"]) =
  (["500000000000000000000"; "-1.5"; "0.0012"; "1e+21"; "1.23e-7"],
   [Decimal 125 (-1); Decimal (-5) 1; NaN; Infinity false; Decimal 1 0; Decimal 0 0; Decimal 1 2]).
Proof. vm_compute. reflexivity. Qed.

(** ** The text of a number is read back *)

Lemma digits_app acc a b :
  Obj.digits_value acc (a +:+ b) = Obj.digits_value (Obj.digits_value acc a) b.
Proof. revert acc. induction a as [|c a IH]; intros acc; [done|]. rewrite Str.app_cons. apply IH. Qed.

Lemma digits_zeros acc n : Obj.digits_value acc (zeros n) = (acc * 10 ^ N.of_nat n)%N.
Proof.
  revert acc. induction n as [|n IH]; intros acc; simpl zeros; [simpl; lia|].
  cbn [Obj.digits_value]. rewrite IH. rewrite Nat2N.inj_succ, N.pow_succ_r'.
  change (Obj.digit_value "0") with 0%N. lia.
Qed.

Lemma zeros_digits n : Str.all Str.is_digit (zeros n) = true.
Proof. by induction n. Qed.

Lemma length_zeros n : String.length (zeros n) = n.
Proof. induction n as [|n IH]; simpl; [done|]. by rewrite IH. Qed.

Lemma split_at_app n s : let '(a, b) := split_at n s in a +:+ b = s.
Proof.
  revert s. induction n as [|n IH]; intros [|c s]; simpl; try done.
  specialize (IH s). destruct (split_at n s) as [a b]. by rewrite Str.app_cons, IH.
Qed.

Lemma split_at_length n s :
  (n ≤ String.length s)%nat → String.length (split_at n s).1 = n.
Proof.
  revert s. induction n as [|n IH]; intros [|c s] Hn; simpl in Hn |- *; try done; try lia.
  specialize (IH s ltac:(lia)). destruct (split_at n s) as [a b]. simpl in *. by rewrite IH.
Qed.

Lemma strip_scaled m j fuel e :
  m mod 10 ≠ 0 → (j ≤ fuel)%nat → strip fuel (m * 10 ^ Z.of_nat j) e = (m, e + Z.of_nat j).
Proof.
  intros Hm. revert fuel e. induction j as [|j IH]; intros fuel e Hf.
  - rewrite Z.pow_0_r, Z.mul_1_r, Z.add_0_r. destruct fuel; simpl; [done|].
    by rewrite (proj2 (Z.eqb_neq _ _) Hm).
  - destruct fuel as [|fuel]; [lia|]. simpl strip.
    rewrite Nat2Z.inj_succ, Z.pow_succ_r by lia.
    replace (m * (10 * 10 ^ Z.of_nat j)) with (m * 10 ^ Z.of_nat j * 10) by ring.
    rewrite Z.mod_mul, Z.div_mul by done. simpl. rewrite IH by lia. f_equal. lia.
Qed.

Lemma decimal_scaled m j e :
  m mod 10 ≠ 0 → decimal (m * 10 ^ Z.of_nat j) e = Decimal m (e + Z.of_nat j).
Proof.
  intros Hm. assert (m ≠ 0) as Hm0 by (by intros ->). unfold decimal.
  assert (0 < 10 ^ Z.of_nat j) as Hp by (apply Z.pow_pos_nonneg; lia).
  rewrite (proj2 (Z.eqb_neq _ _)) by (apply Z.neq_mul_0; lia).
  rewrite strip_scaled; [done..|]. rewrite Z.abs_mul, (Z.abs_eq (10 ^ _)) by lia.
  apply Nat2Z.inj_le. rewrite Z2Nat.id by apply Z.log2_nonneg. apply Z.log2_le_pow2; [nia|].
  etrans; [apply (Z.pow_le_mono_l 2 10); lia|]. nia.
Qed.

Lemma read_whole negative whole tail :
  Str.all Str.is_digit whole = true → Str.non_empty whole = true →
  JsonText.digits_end tail = true → (∀ s, tail ≠ String "." s) →
  read_decimal negative (whole +:+ tail) =
    decimal (signed negative (Obj.digits_value 0 whole)) (read_exponent tail).
Proof.
  intros Hw Hn He Hp. unfold read_decimal. rewrite JsonText.span_digits_app by done.
  assert (match tail with String "." s => JsonText.span_digits s | _ => ("", tail) end = ("", tail)) as ->.
  { destruct tail as [|c s]; [done|]. specialize (Hp s).
    destruct c as [[] [] [] [] [] [] [] []]; by first [reflexivity|destruct Hp]. }
  rewrite Hn, Str.app_nil_r. simpl. by rewrite Z.sub_0_r.
Qed.

Lemma read_fraction negative whole fraction tail :
  Str.all Str.is_digit whole = true → Str.non_empty whole = true →
  Str.all Str.is_digit fraction = true → JsonText.digits_end tail = true →
  read_decimal negative (whole +:+ "." +:+ fraction +:+ tail) =
    decimal (signed negative (Obj.digits_value 0 (whole +:+ fraction)))
            (read_exponent tail - Z.of_nat (String.length fraction)).
Proof.
  intros Hw Hn Hf He. unfold read_decimal.
  rewrite (JsonText.span_digits_app whole), Str.app_cons, Str.app_nil_l by done.
  cbv beta iota. rewrite (JsonText.span_digits_app fraction) by done. by rewrite Hn.
Qed.

Lemma read_exponent_part z : read_exponent (exponent_part z) = z.
Proof.
  unfold exponent_part. rewrite Str.app_cons, Str.app_nil_l. unfold read_exponent.
  destruct (JsonText.pretty_digits (Z.abs_N z)) as (Ha & Hc & Hv).
  pose proof (JsonText.span_digits_app _ "" Ha eq_refl) as Hs. rewrite Str.app_nil_r in Hs.
  assert (Str.non_empty (pretty (Z.abs_N z)) = true) as Hn by by destruct (pretty (Z.abs_N z)).
  destruct (Z.ltb_spec z 0); rewrite Str.app_cons, Str.app_nil_l; simpl read_sign; cbv beta iota;
    rewrite Hs; cbn [fst]; rewrite Hn, Hv; unfold signed; lia.
Qed.

Lemma signed_mod negative n : (n mod 10 ≠ 0)%N → signed negative n mod 10 ≠ 0.
Proof.
  intros Hn. assert (Z.of_N n mod 10 ≠ 0) as Hz.
  { intros Hz. apply Hn, N2Z.inj. by rewrite N2Z.inj_mod. }
  destruct negative; [|done]. simpl. rewrite Z.mod_opp_l_nz by done.
  pose proof (Z.mod_pos_bound (Z.of_N n) 10 ltac:(done)). lia.
Qed.

Section point.
Context (negative : bool) (ds : string) (e : Z).
Context (Hdigits : Str.all Str.is_digit ds = true) (Hne : Str.non_empty ds = true).
Context (Hmod : (Obj.digits_value 0 ds mod 10 ≠ 0)%N).

#[local] Abbreviation k := (Z.of_nat (String.length ds)).
#[local] Abbreviation m := (signed negative (Obj.digits_value 0 ds)).

Lemma decimal_exact z : decimal m z = Decimal m z.
Proof.
  pose proof (decimal_scaled m 0 z (signed_mod _ _ Hmod)) as Hd.
  by rewrite Z.pow_0_r, Z.mul_1_r, Z.add_0_r in Hd.
Qed.

Lemma split_digits n a b :
  split_at n ds = (a, b) →
  Str.all Str.is_digit a = true ∧ Str.all Str.is_digit b = true ∧ a +:+ b = ds.
Proof.
  intros Hs. pose proof (split_at_app n ds) as Ha. rewrite Hs in Ha. pose proof Hdigits as Hd.
  rewrite <-Ha, Str.all_app in Hd. by apply andb_true_iff in Hd as [? ?].
Qed.

Lemma split_lengths n a b :
  split_at n ds = (a, b) → (n ≤ String.length ds)%nat →
  String.length a = n ∧ Z.of_nat (String.length b) = k - Z.of_nat n.
Proof.
  intros Hs Hn. pose proof (split_at_length n ds Hn) as Ha. destruct (split_digits _ _ _ Hs) as (_ & _ & Hab).
  rewrite Hs in Ha. simpl in Ha. split; [done|]. rewrite <-Hab, JsonText.length_app. lia.
Qed.

Lemma length_positive : 1 ≤ k.
Proof. clear -Hne. destruct ds; simpl in *; [done|lia]. Qed.

(** The text of a number starts with a digit. *)
Lemma point_head n : ∃ c s, point ds n = String c s ∧ Str.is_digit c = true.
Proof.
  assert (∀ a t, Str.all Str.is_digit a = true → Str.non_empty a = true →
    ∃ c s, a +:+ t = String c s ∧ Str.is_digit c = true) as Hhead.
  { intros [|c a] t Ha Hn; [done|]. simpl in Ha. apply andb_true_iff in Ha as [Ha _].
    rewrite Str.app_cons. eauto. }
  pose proof length_positive as Hk. unfold point. destruct ((k <=? n) && (n <=? 21)) eqn:H1; [by apply Hhead|].
  destruct ((0 <? n) && (n <=? 21)) eqn:H2.
  { destruct (split_at (Z.to_nat n) ds) as [a b] eqn:Hs. destruct (split_digits _ _ _ Hs) as (Ha & _ & _).
    apply Hhead; [done|]. destruct (split_lengths _ _ _ Hs) as [Hl _]; [lia|]. destruct a; [simpl in Hl; lia|done]. }
  destruct ((-6 <? n) && (n <=? 0)); [by eexists _, _|].
  destruct (split_at 1 ds) as [a b] eqn:Hs. destruct (split_digits _ _ _ Hs) as (Ha & _ & _).
  apply Hhead; [done|]. destruct (split_lengths _ _ _ Hs) as [Hl _]; [lia|]. by destruct a.
Qed.

Lemma read_point : read_decimal negative (point ds (k + e)) = Decimal m e.
Proof.
  pose proof length_positive as Hk. unfold point.
  destruct ((k <=? k + e) && (k + e <=? 21)) eqn:H1.
  { rewrite <-(Str.app_nil_r (ds +:+ _)), read_whole; [|by rewrite Str.all_app, Hdigits, zeros_digits| |done|done].
    - rewrite digits_app, digits_zeros. replace (k + e - k) with e by lia. apply andb_true_iff in H1 as [H1 _].
      replace (signed _ _) with (m * 10 ^ Z.of_nat (Z.to_nat e)).
      + rewrite decimal_scaled by by apply signed_mod. f_equal. simpl. lia.
      + unfold signed. destruct negative; rewrite N2Z.inj_mul, N2Z.inj_pow; simpl Z.of_N; rewrite ?nat_N_Z; ring.
    - clear -Hne. by destruct ds. }
  destruct ((0 <? k + e) && (k + e <=? 21)) eqn:H2.
  { destruct (split_at (Z.to_nat (k + e)) ds) as [a b] eqn:Hs. destruct (split_digits _ _ _ Hs) as (Ha & Hb & Hab).
    destruct (split_lengths _ _ _ Hs) as [Hl Hl']; [lia|].
    rewrite <-(Str.app_nil_r b), read_fraction; [|done| |done|done].
    - rewrite Hab, Hl', decimal_exact. f_equal. simpl. lia.
    - destruct a; [simpl in Hl; lia|done]. }
  destruct ((-6 <? k + e) && (k + e <=? 0)) eqn:H3.
  { change ("0." +:+ ?t) with ("0" +:+ "." +:+ t). rewrite <-(Str.app_nil_r (zeros _ +:+ ds)).
    rewrite read_fraction; [|done..|by rewrite Str.all_app, Hdigits, zeros_digits|done].
    rewrite JsonText.length_app, length_zeros, !digits_app, digits_zeros. simpl (Obj.digits_value 0 "0").
    rewrite N.mul_0_l, decimal_exact. f_equal. simpl. lia. }
  destruct (split_at 1 ds) as [a b] eqn:Hs. destruct (split_digits _ _ _ Hs) as (Ha & Hb & Hab).
  destruct (split_lengths _ _ _ Hs) as [Hl Hl']; [lia|].
  assert (Str.non_empty a = true) as Hna by by destruct a.
  destruct (Str.non_empty b) eqn:Hnb.
  - rewrite Str.app_assoc, read_fraction by done. rewrite Hab, Hl', read_exponent_part, decimal_exact.
    f_equal. lia.
  - assert (b = "") as -> by by destruct b. rewrite Str.app_nil_l, Str.app_nil_r in *. subst a.
    rewrite read_whole by done. rewrite read_exponent_part, decimal_exact. f_equal. simpl in Hl'. lia.
Qed.
End point.

Lemma digit_head c s :
  Str.is_digit c = true →
  Str.trimStart (String c s) = String c s ∧ read_sign (String c s) = (false, String c s) ∧
  String.prefix "Infinity" (String c s) = false.
Proof. destruct c as [[] [] [] [] [] [] [] []]; intros Hc; first [discriminate Hc|done]. Qed.

Lemma mod_abs m : m mod 10 ≠ 0 → (Z.abs_N m mod 10 ≠ 0)%N.
Proof.
  intros Hm Hn. apply Hm. assert (Z.of_N (Z.abs_N m mod 10) = 0) as Hz by by rewrite Hn.
  rewrite N2Z.inj_mod, N2Z.inj_abs_N in Hz. change (Z.of_N 10) with 10 in Hz.
  apply Z.mod_divide in Hz; [|done]. apply Z.mod_divide; [done|]. by apply Z.divide_abs_r.
Qed.

(** [parseFloat] reads back the text of every number in canonical form. *)
Lemma parseFloat_toString x : canonical x → parseFloat (toString x) = x.
Proof.
  destruct x as [|[]|m e]; [done..|]. intros [[-> ->]|Hm]; [done|].
  assert (m ≠ 0) as Hm0 by (by intros ->). simpl toString. rewrite (proj2 (Z.eqb_neq _ _) Hm0).
  destruct (JsonText.pretty_digits (Z.abs_N m)) as (Ha & Hc & Hv).
  assert (Str.non_empty (pretty (Z.abs_N m)) = true) as Hne by by destruct (pretty (Z.abs_N m)).
  pose proof (mod_abs m Hm) as Hmod. rewrite <-Hv in Hmod at 1.
  set (n := Z.of_nat _ + e).
  destruct (point_head _ Ha Hne Hmod n) as (c & s & Hp & Hd).
  destruct (digit_head c s Hd) as (Ht & Hs & Hi). pose proof (read_point (m <? 0) _ e Ha Hne Hmod) as Hr.
  fold n in Hr. rewrite Hv in Hr. rewrite Hp in Hr |- *. unfold parseFloat.
  destruct (Z.ltb_spec m 0) as [Hneg|Hpos].
  - change ("-" +:+ String c s) with (String "-" (String c s)). simpl Str.trimStart. simpl read_sign. cbv beta iota.
    rewrite Hi, Hr. f_equal. simpl. lia.
  - rewrite Str.app_nil_l, Ht, Hs, Hi, Hr. f_equal. simpl. lia.
Qed.

End Number.
