(* ===== verification/StringMap.v ===== *)
(** [StringMapObserver]: the record of the values of an element's attributes,
    and its delegate's calls when they change.

    Models [src/gui/web/assets/scripts/stimulus.js], the class
    [StringMapObserver].  The delegate's callbacks run the code of a
    controller, which may change the document and may throw, so the operations
    thread what the browser holds for the observer, the document and the
    records not delivered yet, and stop at an exception. *)

From S2P Require Import Prelude JsCore JsString Dom Observers.

(** ** Statements that may throw

A statement changes a state and either completes or throws; the state that
it reached is kept. *)

Module Act.

Definition t (S : Type) : Type := S → S * option string.

Definition skip {S} : t S := λ s, (s, None).
Definition throw {S} (error : string) : t S := λ s, (s, Some error).
Definition update {S} (f : S → S) : t S := λ s, (f s, None).
Definition seq {S} (a b : t S) : t S :=
  λ s, match a s with (s, None) => b s | r => r end.

(** [for (const x of l) f(x)] *)
Fixpoint each {S A} (f : A → t S) (l : list A) : t S :=
  match l with
  | [] => skip
  | x :: l => seq (f x) (each f l)
  end.

(** [try { a } catch (error) { handle(error) }] *)
Definition attempt {S} (a : t S) (handle : string → S → S) : S → S :=
  λ s, match a s with (s, None) => s | (s, Some error) => handle error s end.

Lemma seq_completes {S} (a b : t S) s s' :
  seq a b s = (s', None) ↔ ∃ s1, a s = (s1, None) ∧ b s1 = (s', None).
Proof.
  unfold seq. destruct (a s) as [s1 [e|]]; [split; [done|by intros (? & ? & _)]|].
  split; [eauto|]. by intros (? & [= ->] & ?).
Qed.

(** A relation that is reflexive and transitive holds along a loop whose
    steps keep it, also if one throws. *)
Lemma each_rel {S A} (f : A → t S) (R : S → S → Prop) l s :
  Reflexive R → Transitive R → (∀ x s, x ∈ l → R s (f x s).1) → R s (each f l s).1.
Proof.
  intros HR HT. revert s. induction l as [|x l IH]; intros s Hf; simpl; [done|].
  unfold seq. pose proof (Hf x s ltac:(left)) as Hx. destruct (f x s) as [s1 [e|]]; [done|].
  etrans; [apply Hx|]. apply IH. intros. apply Hf. by right.
Qed.
End Act.

Declare Scope act_scope.
Delimit Scope act_scope with act.
Notation "a ;; b" := (Act.seq a%act b%act) (at level 100, b at level 200, right associativity) : act_scope.
Notation "'when' b 'do_' a" := (if b then a%act else Act.skip)
  (at level 99, b at level 1, a at level 99) : act_scope.

#[local] Open Scope act_scope.

(** ** The browser, as one observer sees it *)

Record browser (doc : Type) := mk_browser {
  document : doc;
  observer : MutationObserver;
}.
Arguments mk_browser {doc}.
Arguments document {doc}.
Arguments observer {doc}.

Definition on_observer {doc} (f : MutationObserver → MutationObserver) (b : browser doc) : browser doc :=
  mk_browser (document b) (f (observer b)).

Record StringMapDelegate (doc D : Type) := {
  sd_getStringMapKeyForAttribute : string → option string;
  sd_stringMapKeyAdded : option (string → string → Act.t (browser doc * D));
  sd_stringMapValueChanged : option (option string → string → Act.t (browser doc * D));
  sd_stringMapKeyRemoved : option (string → string → Act.t (browser doc * D));
}.
Arguments sd_getStringMapKeyForAttribute {doc D}.
Arguments sd_stringMapKeyAdded {doc D}.
Arguments sd_stringMapValueChanged {doc D}.
Arguments sd_stringMapKeyRemoved {doc D}.

Module StringMapObserver.

Record t := mk {
  element : elem;
  started : bool;
  stringMap : list (string * string);
}.

Definition new (e : elem) : t := mk e false [].

Section string_map_observer.
Context {doc : Type} `{Dom doc} {D : Type} (delegate : StringMapDelegate doc D).

(** The observer, what the browser holds, and the delegate's state. *)
Definition state : Type := t * (browser doc * D).
Implicit Types (s : state) (a k : string).

Definition document_of s : doc := document s.2.1.
Definition records_of s : list mutation := mo_records (observer s.2.1).

(** Statements of the delegate, and updates of the observer's own table and of
    the browser. *)
Definition call (f : Act.t (browser doc * D)) : Act.t state :=
  λ s, let '(x, r) := f s.2 in ((s.1, x), r).
Definition on_map (f : list (string * string) → list (string * string)) : Act.t state :=
  Act.update (λ s, (mk (element s.1) (started s.1) (f (stringMap s.1)), s.2)).
Definition set_started (v : bool) : Act.t state :=
  Act.update (λ s, (mk (element s.1) v (stringMap s.1), s.2)).
Definition on_mutationObserver (f : MutationObserver → MutationObserver) : Act.t state :=
  Act.update (λ s, (s.1, (on_observer f s.2.1, s.2.2))).

Definition stringMapKeyAdded (key attributeName : string) : Act.t state :=
  match sd_stringMapKeyAdded delegate with Some f => call (f key attributeName) | None => Act.skip end.
Definition stringMapValueChanged (value : option string) (key : string) : Act.t state :=
  match sd_stringMapValueChanged delegate with Some f => call (f value key) | None => Act.skip end.
Definition stringMapKeyRemoved (key attributeName : string) : Act.t state :=
  match sd_stringMapKeyRemoved delegate with Some f => call (f key attributeName) | None => Act.skip end.

Definition recordedAttributeNames s : list string := JMap.keys (stringMap s.1).
Definition currentAttributeNames s : list string := attributes (document_of s) (element s.1).
Definition knownAttributeNames s : list string :=
  JSet.of_list (currentAttributeNames s ++ recordedAttributeNames s).

Definition refreshAttribute (attributeName : string) : Act.t state := λ s,
  match sd_getStringMapKeyForAttribute delegate attributeName with
  | None => Act.skip s
  | Some key =>
    (when (negb (JMap.has attributeName (stringMap s.1))) do_ stringMapKeyAdded key attributeName ;;
     λ s, let value := getAttribute (document_of s) (element s.1) attributeName in
       (when (bool_decide (JMap.get attributeName (stringMap s.1) ≠ value)) do_ stringMapValueChanged value key ;;
        match value with
        | None => on_map (JMap.delete attributeName) ;; stringMapKeyRemoved key attributeName
        | Some value => on_map (JMap.set attributeName value)
        end) s)%act s
  end.

Definition refresh : Act.t state := λ s,
  (when (started s.1) do_ Act.each refreshAttribute (knownAttributeNames s))%act s.

Definition start : Act.t state := λ s,
  (when (negb (started s.1)) do_
     (set_started true ;; on_mutationObserver mo_observe ;; refresh))%act s.

Definition stop : Act.t state := λ s,
  (when (started s.1) do_
     (on_mutationObserver mo_takeRecords ;; on_mutationObserver mo_disconnect ;; set_started false))%act s.

(** The [attributeName] of a record, [None] for [null]. *)
Definition attributeName (m : mutation) : option string :=
  match m with AttributesMutation _ a => Some a | _ => None end.

Definition processMutation (m : mutation) : Act.t state :=
  match attributeName m with
  | Some a => if decide (a = "") then Act.skip else refreshAttribute a
  | None => Act.skip
  end.

Definition processMutations (ms : list mutation) : Act.t state := λ s,
  (when (started s.1) do_ Act.each processMutation ms)%act s.
End string_map_observer.

(** ** The record and the document

A change of the document is reported: the browser queues a record for every
attribute of the element that changes while the observer observes. *)

Definition named (a : string) (ms : list mutation) : Prop := ∃ m, m ∈ ms ∧ attributeName m = Some a.

Section sync.
Context {doc : Type} `{DomLaws doc} {D : Type} (delegate : StringMapDelegate doc D) (el : elem).
Implicit Types (s : state (doc := doc) (D := D)) (b : browser doc) (a : string) (P : string → Prop).

Record evolves b b' : Prop := {
  ev_observing : mo_observing (observer b') = mo_observing (observer b);
  ev_records : mo_records (observer b) ⊆ mo_records (observer b');
  ev_reported a : mo_observing (observer b) = true → lower_name a = a →
    getAttribute (document b') el a = getAttribute (document b) el a ∨
    named a (mo_records (observer b'));
}.

#[export] Instance evolves_refl : Reflexive evolves.
Proof. split; auto. Qed.

Lemma named_mono a ms ms' : ms ⊆ ms' → named a ms → named a ms'.
Proof. intros Hs (m & Hm & Ha). exists m. auto. Qed.

#[export] Instance evolves_trans : Transitive evolves.
Proof.
  intros b1 b2 b3 [Ho Hr Ha] [Ho' Hr' Ha']. split; [congruence|set_solver|].
  intros a Hobs Hl. destruct (Ha' a) as [->|?]; [congruence|done| |by right].
  destruct (Ha a Hobs Hl) as [->|?]; [by left|]. right. by eapply named_mono.
Qed.

(** The delegate's statements may change the document and throw, but do not
    operate the observer. *)
Definition reports (f : Act.t (browser doc * D)) : Prop := ∀ x, evolves x.1 (f x).1.1.

Record Reports : Prop := {
  added_reports f k a : sd_stringMapKeyAdded delegate = Some f → reports (f k a);
  changed_reports f v k : sd_stringMapValueChanged delegate = Some f → reports (f v k);
  removed_reports f k a : sd_stringMapKeyRemoved delegate = Some f → reports (f k a);
}.
Context (HR : Reports).

(** An attribute that the observer watches. *)
Definition watched a : Prop :=
  is_Some (sd_getStringMapKeyForAttribute delegate a) ∧ lower_name a = a ∧ a ≠ "".

(** The record agrees with the document, except on attributes whose change is
    in a record that is not delivered yet, and on those of [P]. *)
Record Sync P s : Prop := {
  sync_element : element s.1 = el;
  sync_wf : JMap.wf (stringMap s.1);
  sync_started : mo_observing (observer s.2.1) = started s.1;
  sync_values a : started s.1 = true → watched a →
    JMap.get a (stringMap s.1) = getAttribute (document_of s) el a ∨ named a (records_of s) ∨ P a;
}.

Lemma sync_weaken P Q s : Sync P s → (∀ a, P a → Q a) → Sync Q s.
Proof. intros [? ? ? Hv] HPQ. split; [done..|]. intros a ? ?. destruct (Hv a) as [?|[?|?]]; auto. Qed.

(** A statement of the delegate's. *)
Lemma call_frame f s : reports f → (call f s).1.1 = s.1 ∧ evolves s.2.1 (call f s).1.2.1.
Proof. intros Hf. unfold call. specialize (Hf s.2). by destruct (f s.2). Qed.

Lemma browser_sync P s b d : evolves s.2.1 b → Sync P s → Sync P (s.1, (b, d)).
Proof.
  intros [Ho Hr Ha] [He Hw Hs Hv]. split; [done|done|simpl; congruence|]. intros a Hst Hwa.
  destruct (Hv a Hst Hwa) as [Heq|[Hn|HP]]; [|right; left; by eapply named_mono|by right; right].
  destruct (Ha a) as [Hd|Hn]; [by rewrite Hs|apply Hwa| |by right; left]. left. etrans; [exact Heq|]. symmetry. exact Hd.
Qed.

Lemma call_sync P f s : reports f → Sync P s → Sync P (call f s).1.
Proof.
  intros Hf Hs. destruct (call_frame f s Hf) as [H1 H2].
  destruct (call f s) as [[o [b d]] r]. simpl in *. subst o. by apply browser_sync.
Qed.

Lemma callback_frame s (c : Act.t state) :
  (∃ f, reports f ∧ c = call f) ∨ c = Act.skip → (c s).1.1 = s.1 ∧ evolves s.2.1 (c s).1.2.1.
Proof. intros [(f & Hf & ->)| ->]; [by apply call_frame|done]. Qed.

Lemma callback_sync P s (c : Act.t state) :
  (∃ f, reports f ∧ c = call f) ∨ c = Act.skip → Sync P s → Sync P (c s).1.
Proof. intros [(f & Hf & ->)| ->]; [by apply call_sync|done]. Qed.

Lemma added_callback (b : bool) k a :
  let c := (when b do_ stringMapKeyAdded delegate k a)%act in (∃ f, reports f ∧ c = call f) ∨ c = Act.skip.
Proof.
  simpl. unfold stringMapKeyAdded. destruct b; [|by right].
  destruct (sd_stringMapKeyAdded delegate) eqn:Hf; [|by right]. left. eexists. split; [by eapply added_reports|done].
Qed.

Lemma changed_callback (b : bool) v k :
  let c := (when b do_ stringMapValueChanged delegate v k)%act in (∃ f, reports f ∧ c = call f) ∨ c = Act.skip.
Proof.
  simpl. unfold stringMapValueChanged. destruct b; [|by right].
  destruct (sd_stringMapValueChanged delegate) eqn:Hf; [|by right]. left. eexists. split; [by eapply changed_reports|done].
Qed.

Lemma removed_callback k a :
  let c := stringMapKeyRemoved delegate k a in (∃ f, reports f ∧ c = call f) ∨ c = Act.skip.
Proof.
  simpl. unfold stringMapKeyRemoved.
  destruct (sd_stringMapKeyRemoved delegate) eqn:Hf; [|by right]. left. eexists. split; [by eapply removed_reports|done].
Qed.

(** Writing the value that was read for an attribute. *)
Lemma record_sync P s a value m :
  Sync P s → JMap.wf m → JMap.get a m = value →
  (∀ a', a' ≠ a → JMap.get a' m = JMap.get a' (stringMap s.1)) →
  (watched a → getAttribute (document_of s) el a = value ∨ named a (records_of s)) →
  Sync (λ x, P x ∧ x ≠ a) (mk (element s.1) (started s.1) m, s.2).
Proof.
  intros [He _ Hs Hv] Hm Hget Hne Ha. split; [done..|]. intros a' Hst Hw. simpl.
  destruct (decide (a' = a)) as [->|Hn].
  - rewrite Hget. destruct (Ha Hw) as [<-|?]; [by left|by right; left].
  - rewrite Hne by done. destruct (Hv a' Hst Hw) as [?|[?|?]]; auto.
Qed.

Lemma refreshAttribute_sync P a s s' r :
  started s.1 = true → refreshAttribute delegate a s = (s', r) → Sync P s →
  Sync (match r with None => λ x, P x ∧ x ≠ a | Some _ => P end) s' ∧ started s'.1 = true.
Proof.
  intros Hst. unfold refreshAttribute.
  destruct (sd_getStringMapKeyForAttribute delegate a) as [key|] eqn:Hkey.
  2:{ intros [= <- <-] Hs. split; [|done]. destruct Hs as [? ? ? Hv]. split; [done..|]. intros a' Hst' Hw.
      destruct (Hv a' Hst' Hw) as [?|[?|?]]; auto. right; right. split; [done|]. intros ->.
      destruct Hw as [[? Hw] _]. congruence. }
  unfold Act.seq at 1.
  pose proof (added_callback (negb (JMap.has a (stringMap s.1))) key a) as Hc1.
  set (c1 := if negb _ then _ else _) in *. intros Hrun Hs.
  destruct (callback_frame s c1 Hc1) as [Hf1 _]. pose proof (callback_sync P s c1 Hc1 Hs) as Hs1.
  destruct (c1 s) as [s1 [e1|]]; simpl in Hf1, Hs1; [injection Hrun as <- <-; by rewrite Hf1|].
  cbv zeta in Hrun. remember (getAttribute (document_of s1) (element s1.1) a) as value eqn:Hval.
  unfold Act.seq at 1 in Hrun.
  pose proof (changed_callback (bool_decide (JMap.get a (stringMap s1.1) ≠ value)) value key) as Hc2.
  set (c2 := if bool_decide _ then _ else _) in *.
  destruct (callback_frame s1 c2 Hc2) as [Hf2 Hev]. pose proof (callback_sync P s1 c2 Hc2 Hs1) as Hs2.
  destruct (c2 s1) as [s2 [e2|]]; simpl in Hf2, Hs2, Hev; [injection Hrun as <- <-; by rewrite Hf2, Hf1|].
  assert (watched a → getAttribute (document_of s2) el a = value ∨ named a (records_of s2)) as Ha.
  { intros Hw. rewrite (sync_element _ _ Hs1) in Hval. subst value. apply Hev; [|apply Hw].
    by rewrite (sync_started _ _ Hs1), Hf1. }
  clear Hval. destruct value as [v|].
  - unfold on_map, Act.update in Hrun. injection Hrun as <- <-. split; [|simpl; by rewrite Hf2, Hf1].
    eapply record_sync; [done|apply JMap.wf_set, Hs2|apply JMap.get_set_eq| |done].
    intros a' Hne. by apply JMap.get_set_ne.
  - unfold Act.seq at 1, on_map, Act.update in Hrun. set (s3 := (mk _ _ _, _)) in Hrun.
    assert (Sync (λ x, P x ∧ x ≠ a) s3) as Hs3.
    { eapply record_sync; [done|apply JMap.wf_delete, Hs2|apply JMap.get_delete_eq| |done].
      intros a' Hne. by apply JMap.get_delete_ne. }
    pose proof (removed_callback key a) as Hc4.
    destruct (callback_frame s3 _ Hc4) as [Hf4 _]. pose proof (callback_sync _ s3 _ Hc4 Hs3) as Hs4.
    rewrite Hrun in Hf4, Hs4. simpl in Hf4, Hs4. split; [|rewrite Hf4; simpl; by rewrite Hf2, Hf1].
    destruct r; [|done]. eapply sync_weaken; [done|]. by intros ? [].
Qed.

(** A loop of refreshes. *)
Lemma refreshes_sync {A} (f : A → Act.t state) (name : A → option string) P l s s' r :
  (∀ x s, f x s = match name x with Some a => refreshAttribute delegate a s | None => Act.skip s end) →
  started s.1 = true → Act.each f l s = (s', r) → Sync P s →
  Sync (match r with None => λ a, P a ∧ Some a ∉ name <$> l | Some _ => P end) s' ∧ started s'.1 = true.
Proof.
  intros Hf. revert P s. induction l as [|x l IH]; intros P s Hst Hrun Hs; simpl in Hrun.
  { injection Hrun as <- <-. split; [|done]. eapply sync_weaken; [done|]. intros a Ha. split; [done|].
    apply not_elem_of_nil. }
  unfold Act.seq in Hrun. destruct (f x s) as [s1 r1] eqn:Hx.
  assert (Sync (match r1 with None => λ a, P a ∧ name x ≠ Some a | Some _ => P end) s1 ∧ started s1.1 = true)
    as [Hs1 Hst1].
  { rewrite Hf in Hx. destruct (name x) as [a|] eqn:Hn.
    - destruct (refreshAttribute_sync P a s s1 r1 Hst Hx Hs) as [Hs1 ?]. split; [|done].
      destruct r1; [done|]. eapply sync_weaken; [done|]. simpl. intros a' [? ?]. split; congruence.
    - injection Hx as <- <-. split; [|done]. by eapply sync_weaken. }
  destruct r1 as [e|]; [by injection Hrun as <- <-|].
  destruct (IH _ s1 Hst1 Hrun Hs1) as [Hs' Hst']. split; [|done]. eapply sync_weaken; [done|].
  destruct r; simpl; [by intros ? []|]. intros a [[? ?] ?]. split; [done|]. change (name <$> x :: l) with (name x :: (name <$> l)). rewrite not_elem_of_cons.
  split; [by apply not_eq_sym|done].
Qed.

Lemma refresh_sync P s s' r :
  started s.1 = true → refresh delegate s = (s', r) → Sync P s →
  Sync (match r with None => λ a, P a ∧ a ∉ knownAttributeNames s | Some _ => P end) s' ∧ started s'.1 = true.
Proof.
  intros Hst Hrun Hs. unfold refresh in Hrun. rewrite Hst in Hrun.
  destruct (refreshes_sync _ Some P (knownAttributeNames s) s s' r (λ _ _, eq_refl) Hst Hrun Hs) as [Hs' ?].
  split; [|done]. destruct r; [done|]. eapply sync_weaken; [done|]. intros a [? Hn]. split; [done|].
  intros Hin. apply Hn. by apply list_elem_of_fmap_2.
Qed.

(** Before a start nothing is known of the attributes; what the record and the
    document both lack agrees. *)
Lemma unknown_agree s a :
  element s.1 = el → lower_name a = a → a ∉ knownAttributeNames s →
  JMap.get a (stringMap s.1) = getAttribute (document_of s) el a.
Proof.
  intros He Hl Hn. unfold knownAttributeNames in Hn. rewrite JSet.elem_of_of_list, not_elem_of_app in Hn.
  destruct Hn as [Hc Hr]. unfold currentAttributeNames in Hc. rewrite He, elem_of_attributes in Hc.
  unfold getAttribute. rewrite Hl. destruct (attr (document_of s) el a) eqn:Ha; [by destruct Hc|].
  destruct (JMap.get a (stringMap s.1)) eqn:Hg; [|done]. destruct Hr. apply JMap.get_is_Some. by rewrite Hg.
Qed.

(** What a start works on. *)
Definition starting s : state :=
  (mk (element s.1) true (stringMap s.1), (on_observer mo_observe s.2.1, s.2.2)).

Lemma start_eq s : started s.1 = false → start delegate s = refresh delegate (starting s).
Proof. intros Hst. unfold start. rewrite Hst. destruct s as [o [b d]]. done. Qed.

Lemma observer_start_sync P s s' r :
  started s.1 = false → start delegate s = (s', r) → Sync P s →
  Sync (match r with None => λ _, False | Some _ => λ a, a ∈ knownAttributeNames s end) s' ∧ started s'.1 = true.
Proof.
  intros Hst Hrun [He Hw Ho _]. rewrite start_eq in Hrun by done.
  assert (Sync (λ a, a ∈ knownAttributeNames s) (starting s)) as Hs.
  { split; [done..|]. intros a _ [_ [Hl _]]. destruct (decide (a ∈ knownAttributeNames s)); [by auto|].
    left. by apply unknown_agree. }
  destruct (refresh_sync _ (starting s) s' r eq_refl Hrun Hs) as [Hs' Hst']. split; [|done]. destruct r; [done|].
  eapply sync_weaken; [done|]. simpl. intros a [Ha Hn]. by apply Hn.
Qed.

Lemma stop_sync P s : Sync P s → Sync (λ _, False) (stop s).1 ∧ (stop s).2 = None ∧ started (stop s).1.1 = false.
Proof.
  intros [He Hw Ho Hv]. unfold stop. destruct (started s.1) eqn:Hst; simpl.
  - split; [|done]. split; simpl; [done..|]. intros a ?; done.
  - split; [|done]. split; [done|done|by rewrite Ho|]. intros a ?; congruence.
Qed.

(** The attribute that a record makes the observer refresh. *)
Definition refreshed (m : mutation) : option string :=
  match attributeName m with Some a => if decide (a = "") then None else Some a | None => None end.

Lemma processMutation_refreshed m s :
  processMutation delegate m s =
    match refreshed m with Some a => refreshAttribute delegate a s | None => Act.skip s end.
Proof. unfold processMutation, refreshed. destruct (attributeName m); [|done]. by case_decide. Qed.

Lemma elem_of_refreshed a ms : a ≠ "" → Some a ∈ refreshed <$> ms ↔ named a ms.
Proof.
  intros Ha. rewrite list_elem_of_fmap. unfold named, refreshed. split.
  - intros (m & Hm & Hin). exists m. split; [done|]. destruct (attributeName m); [|done]. by case_decide.
  - intros (m & Hin & Hm). exists m. rewrite Hm. by case_decide.
Qed.

(** The browser takes the records and delivers them. *)
Definition deliver : Act.t state := λ s,
  processMutations delegate (records_of s) (s.1, (on_observer mo_takeRecords s.2.1, s.2.2)).

Lemma deliver_sync P s s' r :
  deliver s = (s', r) → Sync P s →
  Sync (match r with None => λ a, P a ∧ ¬ named a (records_of s)
                   | Some _ => λ a, P a ∨ named a (records_of s) end) s' ∧ started s'.1 = started s.1.
Proof.
  intros Hrun [He Hw Ho Hv]. unfold deliver, processMutations in Hrun. simpl in Hrun.
  set (s0 := (s.1, _)) in Hrun. assert (Sync (λ a, P a ∨ named a (records_of s)) s0) as Hs0.
  { split; [done..|]. intros a Hst Hwa. destruct (Hv a Hst Hwa) as [?|[?|?]]; auto. }
  destruct (started s.1) eqn:Hst.
  2:{ injection Hrun as <- <-. split; [|done]. split; simpl; [done|done|congruence|intros a ?; congruence]. }
  destruct (refreshes_sync _ refreshed _ _ s0 s' r processMutation_refreshed Hst Hrun Hs0) as [Hs' Hst2].
  split; [|done].
  destruct r; [done|]. destruct Hs' as [He' Hw' Ho' Hv']. split; [done..|]. intros a Hst' Hwa.
  destruct (Hv' a Hst' Hwa) as [?|[?|[HP Hn]]]; auto. right; right.
  rewrite elem_of_refreshed in Hn by apply Hwa. naive_solver.
Qed.

(** *** Sessions

What happens to an observer: it starts and stops, the document changes, and
the browser delivers records.  [lost] are the attributes whose refresh an
exception of the delegate kept from happening. *)
Inductive session : state → list string → Prop :=
  | session_new dom d : session (new el, (mk_browser dom mo_new, d)) []
  | session_change s lost b d : session s lost → evolves s.2.1 b → session (s.1, (b, d)) lost
  | session_start s lost s' r :
      session s lost → started s.1 = false → start delegate s = (s', r) →
      session s' (if r is Some _ then knownAttributeNames s else [])
  | session_stop s lost : session s lost → session (stop s).1 []
  | session_deliver s lost s' r :
      session s lost → deliver s = (s', r) →
      session s' (if r is Some _ then lost ++ omap attributeName (records_of s)
                  else filter (λ a, a ∉ omap attributeName (records_of s)) lost).

Lemma named_omap a ms : a ∈ omap attributeName ms ↔ named a ms.
Proof. rewrite list_elem_of_omap. unfold named. done. Qed.

Lemma session_sync s lost : session s lost → Sync (λ a, a ∈ lost) s.
Proof.
  induction 1 as [dom d|s lost b d Hs IH Hev|s lost s' r Hs IH Hst Hrun|s lost Hs IH|s lost s' r Hs IH Hrun].
  - split; [done|apply NoDup_nil_2|done|]. intros a ?; done.
  - by apply browser_sync.
  - destruct (observer_start_sync _ _ _ _ Hst Hrun IH) as [Hs' _]. destruct r; [done|].
    eapply sync_weaken; [done|]. by intros.
  - destruct (stop_sync _ _ IH) as [Hs' _]. eapply sync_weaken; [done|]. by intros.
  - destruct (deliver_sync _ _ _ _ Hrun IH) as [Hs' _]. destruct r.
    + eapply sync_weaken; [done|]. intros a. by rewrite elem_of_app, named_omap.
    + eapply sync_weaken; [done|]. intros a. rewrite list_elem_of_filter, named_omap. tauto.
Qed.

End sync.

(** ** What the delegate is told

While the delegate leaves the document alone, a batch of refreshes tells it of
each attribute whose value differs from the recorded one, once, in the order of
their first occurrences, until it throws. *)

Section quiet.
Context {doc : Type} `{DomLaws doc} {D : Type} (delegate : StringMapDelegate doc D).
Context (b : browser doc) (changed : option string → string → Act.t (browser doc * D)).
Context (told : string → D → D * option string).
Context (Hadded : sd_stringMapKeyAdded delegate = None) (Hremoved : sd_stringMapKeyRemoved delegate = None).
Context (Hchanged : sd_stringMapValueChanged delegate = Some changed).
Context (Htold : ∀ v k d, changed v k (b, d) = ((b, (told k d).1), (told k d).2)).

Abbreviation key_of := (sd_getStringMapKeyForAttribute delegate).

(** The attributes of [l] that differ from the record, each once. *)
Definition differing (o : t) (l : list string) : list string :=
  filter (λ a, is_Some (key_of a) ∧ JMap.get a (stringMap o) ≠ getAttribute (document b) (element o) a)
         (JSet.of_list l).

(** The keys that the delegate is told of, until a call throws. *)
Fixpoint tells (keys : list string) (d : D) : D * option string :=
  match keys with
  | [] => (d, None)
  | k :: keys => match told k d with (d', None) => tells keys d' | r => r end
  end.

Lemma tells_app keys keys' d :
  tells (keys ++ keys') d = match tells keys d with (d', None) => tells keys' d' | r => r end.
Proof.
  revert d. induction keys as [|k keys IH]; intros d; [done|]. simpl.
  destruct (told k d) as [d' [e|]]; [done|apply IH].
Qed.

Definition differing_keys (o : t) (l : list string) : list string :=
  (λ a, default "" (key_of a)) <$> differing o l.

(** The record after the attributes of [l] were refreshed. *)
Definition recorded (o o' : t) (l : list string) : Prop :=
  element o' = element o ∧ started o' = started o ∧
  ∀ a, JMap.get a (stringMap o') =
    if decide (a ∈ l ∧ is_Some (key_of a)) then getAttribute (document b) (element o) a
    else JMap.get a (stringMap o).

Lemma recorded_nil o : recorded o o [].
Proof. split_and!; [done..|]. intros a. rewrite decide_False; [done|]. by intros [?%not_elem_of_nil _]. Qed.

Lemma recorded_cons o o1 o' a l : recorded o o1 [a] → recorded o1 o' l → recorded o o' (a :: l).
Proof.
  intros (He & Hs & Hm) (He' & Hs' & Hm'). split_and!; [congruence..|]. intros a'. rewrite Hm', Hm, He.
  destruct (decide (a' ∈ l ∧ is_Some (key_of a'))) as [[? ?]|Hn].
  { rewrite decide_True; [done|]. split; [by right|done]. }
  destruct (decide (a' ∈ [a] ∧ is_Some (key_of a'))) as [[->%list_elem_of_singleton ?]|Hn'].
  { rewrite decide_True; [done|]. split; [by left|done]. }
  rewrite decide_False; [done|]. intros [[->|?]%elem_of_cons ?]; [|tauto]. apply Hn'. split; [by left|done].
Qed.

(** One attribute: the delegate is told if it differs, and the text is recorded
    if that does not throw. *)
Lemma refreshAttribute_quiet o d a :
  ∃ o', refreshAttribute delegate a (o, (b, d)) =
      ((o', (b, (tells (differing_keys o [a]) d).1)), (tells (differing_keys o [a]) d).2) ∧
    recorded o o' (if (tells (differing_keys o [a]) d).2 is None then [a] else []) ∧
    ((tells (differing_keys o [a]) d).2 = None ∨ differing o [a] = [a]).
Proof.
  unfold refreshAttribute, differing_keys, differing. change (JSet.of_list [a]) with [a]. rewrite filter_cons.
  destruct (key_of a) as [key|] eqn:Hkey.
  2:{ exists o. rewrite (decide_False (P := is_Some None ∧ _)) by (by intros [[? ?] _]). simpl.
      split; [done|]. split; [|by left]. split_and!; [done..|]. intros a'. rewrite decide_False; [done|].
      by intros [->%list_elem_of_singleton [? ?]]; simplify_eq. }
  unfold Act.seq, stringMapKeyAdded, stringMapValueChanged, stringMapKeyRemoved. rewrite Hadded, Hremoved, Hchanged.
  replace (if negb _ then Act.skip else Act.skip) with (@Act.skip (state (doc := doc) (D := D))) by by destruct (negb _).
  unfold Act.skip at 1, document_of. cbv beta iota zeta. cbn [fst snd].
  set (value := getAttribute (document b) (element o) a). set (m := JMap.get a (stringMap o)).
  set (keys := (λ a, default "" (key_of a)) <$> _).
  assert ((if bool_decide (m ≠ value) then call (changed value key) else Act.skip) (o, (b, d)) =
    ((o, (b, (tells keys d).1)), (tells keys d).2)) as Hcall.
  { subst keys. case_bool_decide as Hm; [|rewrite decide_False by naive_solver; done].
    rewrite decide_True by (split; [eauto|done]). unfold call. simpl. rewrite Htold, Hkey. simpl.
    by destruct (told key d) as [d' [e|]]. }
  rewrite Hcall. clear Hcall. destruct (tells keys d) as [d' [e|]] eqn:Ht.
  { exists o. split; [done|]. split; [apply recorded_nil|]. right. subst keys. destruct (decide _); done. }
  simpl. assert (∀ m', (∀ a', JMap.get a' m' = if decide (a = a') then value else JMap.get a' (stringMap o)) →
    recorded o (mk (element o) (started o) m') [a]) as Hrec.
  { intros m' Hm'. split_and!; [done..|]. intros a'. simpl. rewrite Hm'. destruct (decide (a = a')) as [->|Hne].
    - rewrite decide_True; [done|]. rewrite list_elem_of_singleton. eauto.
    - rewrite decide_False; [done|]. rewrite list_elem_of_singleton. naive_solver. }
  destruct value as [v|] eqn:Hv; simpl; eexists; (split; [done|]); (split; [|by left]); apply Hrec; intros a'.
  - by rewrite JMap.get_set.
  - by rewrite JMap.get_delete.
Qed.

Lemma differing_cons o o' a l : recorded o o' [a] → differing o (a :: l) = differing o [a] ++ differing o' l.
Proof.
  intros (He & _ & Hm). unfold differing. rewrite JSet.of_list_cons. change (JSet.of_list [a]) with [a].
  rewrite He, !filter_cons.
  assert (filter (λ a0, is_Some (key_of a0) ∧ JMap.get a0 (stringMap o) ≠ getAttribute (document b) (element o) a0)
            (JSet.delete a (JSet.of_list l)) =
          filter (λ a0, is_Some (key_of a0) ∧ JMap.get a0 (stringMap o') ≠ getAttribute (document b) (element o) a0)
            (JSet.of_list l)) as ->.
  { unfold JSet.delete. rewrite list_filter_filter. apply list_filter_iff. intros x. rewrite Hm.
    destruct (decide (x = a)) as [->|Hx].
    - split; [by intros [_ Ha]|]. intros [Hk Ha]. exfalso. rewrite decide_True in Ha; [done|]. split; [by left|done].
    - rewrite decide_False by (by intros [?%list_elem_of_singleton _]). tauto. }
  by destruct (decide _).
Qed.

Lemma differing_keys_cons o o' a l :
  recorded o o' [a] → differing_keys o (a :: l) = differing_keys o [a] ++ differing_keys o' l.
Proof. intros Hr. unfold differing_keys. by rewrite (differing_cons o o'), fmap_app. Qed.

(** A batch: [l1] are the attributes that were refreshed, [l2] those that an
    exception cut off, the one that the delegate threw at first. *)
Lemma refreshes_quiet o d l :
  ∃ o' l1 l2,
    Act.each (refreshAttribute delegate) l (o, (b, d)) =
      ((o', (b, (tells (differing_keys o l) d).1)), (tells (differing_keys o l) d).2) ∧
    l = l1 ++ l2 ∧ recorded o o' l1 ∧ (tells (differing_keys o l1) d).2 = None ∧
    match (tells (differing_keys o l) d).2 with
    | None => l2 = []
    | Some e => ∃ a rest, l2 = a :: rest ∧
        (told (default "" (key_of a)) (tells (differing_keys o l1) d).1).2 = Some e
    end.
Proof.
  revert o d. induction l as [|a l IH]; intros o d.
  { exists o, [], []. split_and!; [done..|apply recorded_nil|done|done]. }
  simpl. unfold Act.seq. destruct (refreshAttribute_quiet o d a) as (o1 & -> & Hr1 & Hd).
  destruct (tells (differing_keys o [a]) d) as [d1 [e|]] eqn:Ht; simpl in Hr1, Hd |- *.
  - destruct Hd as [|Hd]; [done|]. exists o1, [], (a :: l). unfold differing_keys in Ht. rewrite Hd in Ht. simpl in Ht.
    assert (told (default "" (key_of a)) d = (d1, Some e)) as Htold' by by destruct (told _ d) as [? [?|]]; simplify_eq.
    assert (∃ rest, differing_keys o (a :: l) = default "" (key_of a) :: rest) as [rest Hrest].
    { unfold differing_keys, differing. rewrite JSet.of_list_cons, filter_cons.
      unfold differing in Hd. change (JSet.of_list [a]) with [a] in Hd. rewrite filter_cons in Hd.
      destruct (decide _); [by eexists|done]. }
    rewrite Hrest. simpl. rewrite Htold'. simpl. split_and!; [done..| | |].
    + destruct Hr1 as (? & ? & ?). done.
    + done.
    + exists a, l. split; [done|]. by rewrite Htold'.
  - destruct (IH o1 d1) as (o' & l1 & l2 & -> & -> & Hr2 & Hn & Hl2). exists o', (a :: l1), l2.
    assert (∀ l', tells (differing_keys o (a :: l')) d = tells (differing_keys o1 l') d1) as Hcons.
    { intros l'. by rewrite (differing_keys_cons o o1 a), tells_app, Ht. }
    change (a :: l1 ++ l2) with (a :: (l1 ++ l2)). rewrite !Hcons.
    split_and!; [done..|by eapply recorded_cons|done|done].
Qed.
End quiet.

(** ** What the delegate's calls add up to

A relation between the browser and the delegate's state before and after a
statement, with its exception, that composes and that the observer's own steps
and the delegate's calls are in, holds of the observer's operations. *)

Section runs.
Context {doc : Type} `{Dom doc} {D : Type} (delegate : StringMapDelegate doc D).
Context (R : browser doc * D → browser doc * D → option string → Prop).
Context (HR_refl : ∀ x, R x x None) (HR_trans : ∀ x y z r, R x y None → R y z r → R x z r).
Context (HR_observer : ∀ f x, R x (on_observer f x.1, x.2) None).

Definition within (c : Act.t (browser doc * D)) : Prop := ∀ x, R x (c x).1 (c x).2.

Context (Hadded : ∀ f k a, sd_stringMapKeyAdded delegate = Some f → within (f k a)).
Context (Hchanged : ∀ f v k, sd_stringMapValueChanged delegate = Some f → within (f v k)).
Context (Hremoved : ∀ f k a, sd_stringMapKeyRemoved delegate = Some f → within (f k a)).

Definition runs (c : Act.t (state (doc := doc) (D := D))) s : Prop :=
  R s.2 (c s).1.2 (c s).2 ∧ started (c s).1.1 = started s.1.
Implicit Types (s : state (doc := doc) (D := D)).

Lemma runs_seq c c' s : runs c s → (∀ s', runs c' s') → runs (c ;; c') s.
Proof.
  unfold runs, Act.seq. intros [Hc Hs] Hc'. destruct (c s) as [s1 [e|]]; simpl in *; [done|].
  destruct (Hc' s1) as [Hr Hs']. split; [by eapply HR_trans|congruence].
Qed.

Lemma runs_each {A} (f : A → Act.t state) l s : (∀ x s', runs (f x) s') → runs (Act.each f l) s.
Proof. intros Hf. revert s. induction l as [|x l IH]; intros s; simpl; [by split; [apply HR_refl|]|]. by apply runs_seq. Qed.

Lemma runs_when (b : bool) c s : runs c s → runs (when b do_ c)%act s.
Proof. intros Hc. destruct b; [done|]. by split; [apply HR_refl|]. Qed.

Lemma runs_call f s : within f → runs (call f) s.
Proof. intros Hf. unfold runs, call. specialize (Hf s.2). by destruct (f s.2). Qed.

Lemma refreshAttribute_runs a s : runs (refreshAttribute delegate a) s.
Proof.
  unfold runs, refreshAttribute. destruct (sd_getStringMapKeyForAttribute delegate a) as [key|]; [|by split; [apply HR_refl|]].
  apply runs_seq; [|intros s1; apply runs_seq; [|intros s2]].
  - destruct (negb _); [|by split; [apply HR_refl|]]. unfold stringMapKeyAdded.
    destruct (sd_stringMapKeyAdded delegate) eqn:Hf; [by eapply runs_call, Hadded|by split; [apply HR_refl|]].
  - destruct (bool_decide _); [|by split; [apply HR_refl|]]. unfold stringMapValueChanged.
    destruct (sd_stringMapValueChanged delegate) eqn:Hf; [by eapply runs_call, Hchanged|by split; [apply HR_refl|]].
  - destruct (getAttribute _ _ _); [by split; [apply HR_refl|]|]. apply runs_seq; [by split; [apply HR_refl|]|]. intros s3.
    unfold stringMapKeyRemoved.
    destruct (sd_stringMapKeyRemoved delegate) eqn:Hf; [by eapply runs_call, Hremoved|by split; [apply HR_refl|]].
Qed.

Lemma start_runs s : R s.2 (start delegate s).1.2 (start delegate s).2 ∧ started (start delegate s).1.1 = true.
Proof.
  unfold start. destruct (started s.1) eqn:Hs; [by split; [apply HR_refl|]|]. unfold Act.seq, set_started, on_mutationObserver, Act.update.
  simpl. set (s1 := (mk _ true _, _)). assert (runs (refresh delegate) s1) as [Hr Hst].
  { unfold runs, refresh. change (started s1.1) with true. cbv iota. apply runs_each. intros. apply refreshAttribute_runs. }
  split; [|by rewrite Hst]. eapply HR_trans; [apply (HR_observer mo_observe)|exact Hr].
Qed.

Lemma processMutations_runs ms s : runs (processMutations delegate ms) s.
Proof.
  unfold runs, processMutations. apply runs_when. apply runs_each. intros m s'.
  unfold processMutation. destruct (attributeName m); [|by split; [apply HR_refl|]].
  case_decide; [by split; [apply HR_refl|]|apply refreshAttribute_runs].
Qed.

Lemma deliver_runs s : R s.2 (deliver delegate s).1.2 (deliver delegate s).2.
Proof.
  eapply HR_trans; [apply (HR_observer mo_takeRecords)|].
  apply (processMutations_runs (records_of s) (s.1, (on_observer mo_takeRecords s.2.1, s.2.2))).
Qed.
End runs.

(** ** Delegates that differ by what they keep *)

Section follows.
Context {doc : Type} `{Dom doc} {D E : Type} (p : D → E).
Context (delegate : StringMapDelegate doc D) (delegate' : StringMapDelegate doc E).

(** A statement does what another does to the part [p] of the state. *)
Definition follows {S T : Type} (f : S → T) (c : Act.t S) (c' : Act.t T) : Prop :=
  ∀ s, c' (f s) = (f (c s).1, (c s).2).
Definition part (x : browser doc * D) : browser doc * E := (x.1, p x.2).
Definition part_of (s : state) : state := (s.1, part s.2).

Definition follow_option {A B} (o : option (A → B → Act.t (browser doc * D)))
    (o' : option (A → B → Act.t (browser doc * E))) : Prop :=
  match o, o' with
  | Some f, Some f' => ∀ a b, follows part (f a b) (f' a b)
  | None, None => True
  | _, _ => False
  end.

Context (Hkey : ∀ a, sd_getStringMapKeyForAttribute delegate' a = sd_getStringMapKeyForAttribute delegate a).
Context (Hadded : follow_option (sd_stringMapKeyAdded delegate) (sd_stringMapKeyAdded delegate')).
Context (Hchanged : follow_option (sd_stringMapValueChanged delegate) (sd_stringMapValueChanged delegate')).
Context (Hremoved : follow_option (sd_stringMapKeyRemoved delegate) (sd_stringMapKeyRemoved delegate')).

Lemma follows_seq {S T} (f : S → T) a a' b b' s :
  a' (f s) = (f (a s).1, (a s).2) → follows f b b' →
  (a' ;; b') (f s) = (f ((a ;; b) s).1, ((a ;; b) s).2).
Proof.
  intros Ha Hb. unfold Act.seq. rewrite Ha. destruct (a s) as [s1 [e|]]; simpl; [done|apply Hb].
Qed.

Lemma follows_each {S T A} (f : S → T) (g : A → Act.t S) (g' : A → Act.t T) l :
  (∀ x, follows f (g x) (g' x)) → follows f (Act.each g l) (Act.each g' l).
Proof. intros Hg. induction l as [|x l IH]; [by intros s|]. intros s. apply follows_seq; [apply Hg|apply IH]. Qed.

Lemma follows_call c c' : follows part c c' → follows part_of (call c) (call c').
Proof. intros Hc s. unfold call, part_of. simpl. rewrite Hc. by destruct (c s.2). Qed.

Lemma follows_when {S T} (f : S → T) (b : bool) c c' :
  follows f c c' → follows f (when b do_ c)%act (when b do_ c')%act.
Proof. intros Hc s. by destruct b; [apply Hc|]. Qed.

Lemma follows_option {A B} (o : option (A → B → _)) o' a b :
  follow_option o o' →
  follows part_of (match o with Some f => call (f a b) | None => Act.skip end)
    (match o' with Some f => call (f a b) | None => Act.skip end).
Proof. intros Ho. destruct o, o'; try done. by apply follows_call. Qed.

Lemma refreshAttribute_follows a :
  follows part_of (refreshAttribute delegate a) (refreshAttribute delegate' a).
Proof.
  intros s. unfold refreshAttribute. rewrite Hkey.
  destruct (sd_getStringMapKeyForAttribute delegate a) as [key|]; [|done].
  apply (follows_seq part_of); [by apply follows_when, follows_option|]. intros s1.
  change (getAttribute _ (element (part_of s1).1) a) with (getAttribute (document_of s1) (element s1.1) a).
  cbv zeta. apply (follows_seq part_of); [by apply follows_when, follows_option|].
  destruct (getAttribute _ _ _); [done|]. intros s2. apply (follows_seq part_of); [done|]. by apply follows_option.
Qed.

Lemma start_follows : follows part_of (start delegate) (start delegate').
Proof.
  intros s. unfold start. apply follows_when. intros s0. apply (follows_seq part_of); [done|]. intros s1.
  apply (follows_seq part_of); [done|]. intros s2. unfold refresh. apply follows_when. apply follows_each. apply refreshAttribute_follows.
Qed.

Lemma processMutations_follows ms : follows part_of (processMutations delegate ms) (processMutations delegate' ms).
Proof.
  intros s. unfold processMutations. apply follows_when, follows_each. intros m s1. unfold processMutation.
  destruct (attributeName m); [|done]. case_decide; [done|]. apply refreshAttribute_follows.
Qed.

Lemma deliver_follows : follows part_of (deliver delegate) (deliver delegate').
Proof.
  intros s. apply (processMutations_follows (records_of s) (s.1, (on_observer mo_takeRecords s.2.1, s.2.2))).
Qed.
End follows.

End StringMapObserver.
