(* ===== verification/Values.v ===== *)
(** The values of a controller: typed data attributes with change callbacks.

    Models [src/gui/web/assets/scripts/stimulus.js], the value properties
    ([ValuePropertiesBlessing] and its readers and writers) and the class
    [ValueObserver].  [JSON_parse] is the language's [JSON.parse], a parameter
    as in [Page.Browser]; the round trips assume that it reads the texts that
    [JSON.stringify] writes, which [JsonText.parse] does. *)

From S2P Require Import Prelude JsCore JsString Dom Observers Scopes Names Json JsonText Numbers StringMap.

#[local] Open Scope string_scope.
#[local] Open Scope list_scope.

(** ** Value definitions *)

(** The constants that declare a type, and any other value with its text. *)
Inductive typeConstant := CArray | CBoolean | CNumber | CObject | CString | COther (text : string).

Inductive value_type := TArray | TBoolean | TNumber | TObject | TString.

#[export] Instance value_type_eq_dec : EqDecision value_type.
Proof. solve_decision. Defined.

Inductive value :=
  | VUndefined
  | VNull
  | VBoolean (b : bool)
  | VNumber (n : number)
  | VString (s : string)
  | VArray (l : list json)
  | VObject (o : list (string * json)).

Record value_descriptor := mk_descriptor {
  vd_type : value_type;
  vd_key : string;
  vd_name : string;
}.

#[export] Instance value_descriptor_eq_dec : EqDecision value_descriptor.
Proof. solve_decision. Defined.

Definition parseValueTypeConstant (c : typeConstant) : value_type + string :=
  match c with
  | CArray => inl TArray
  | CBoolean => inl TBoolean
  | CNumber => inl TNumber
  | CObject => inl TObject
  | CString => inl TString
  | COther text => inr ("Error: Unknown value type constant " +:+ Str.quoted text)
  end.

Definition valueDescriptorForTokenAndType (token : string) (type : value_type) : value_descriptor :=
  let key := dasherize token +:+ "-value" in mk_descriptor type key (camelize key).

Definition parseValueDefinitionPair (pair : string * typeConstant) : value_descriptor + string :=
  match parseValueTypeConstant pair.2 with
  | inl type => inl (valueDescriptorForTokenAndType pair.1 type)
  | inr error => inr error
  end.

Definition defaultValuesByType (type : value_type) : value :=
  match type with
  | TArray => VArray []
  | TBoolean => VBoolean false
  | TNumber => VNumber (Decimal 0 0)
  | TObject => VObject []
  | TString => VString ""
  end.

Definition defaultValue (d : value_descriptor) : value := defaultValuesByType (vd_type d).

(** ** Readers and writers *)

(** [JSON.stringify(value)] *)
Definition writeJSON (v : value) : string :=
  match v with
  | VUndefined => "undefined"
  | VNull => "null"
  | VBoolean b => Json.stringify (JBool b)
  | VNumber (Decimal m e) => Number.toString (Decimal m e)
  | VNumber _ => "null"
  | VString s => Json.stringify (JStr s)
  | VArray l => Json.stringify (JArr l)
  | VObject o => Json.stringify (JObj o)
  end.

(** ["" + value] *)
Definition writeString (v : value) : string :=
  match v with
  | VUndefined => "undefined"
  | VNull => "null"
  | VBoolean b => Json.to_string (JBool b)
  | VNumber n => Number.toString n
  | VString s => s
  | VArray l => Json.to_string (JArr l)
  | VObject o => Json.to_string (JObj o)
  end.

(** [writers[type] || writers.default] *)
Definition writers (type : value_type) : value → string :=
  match type with TArray | TObject => writeJSON | _ => writeString end.

Section values.
Context {doc : Type} `{Dom doc} (JSON_parse : string → json + string).
Implicit Types (dom : doc) (sc : scope) (d : value_descriptor).

Definition readers (type : value_type) (text : string) : value + string :=
  match type with
  | TArray =>
    match JSON_parse text with
    | inl (JArr l) => inl (VArray l)
    | inl _ => inr "TypeError: Expected array"
    | inr error => inr error
    end
  | TBoolean => inl (VBoolean (negb (bool_decide (text = "0") || bool_decide (text = "false"))))
  | TNumber => inl (VNumber (Number.parseFloat text))
  | TObject =>
    match JSON_parse text with
    | inl (JObj o) => inl (VObject o)
    | inl _ => inr "TypeError: Expected object"
    | inr error => inr error
    end
  | TString => inl (VString text)
  end.

(** ** The properties of a value: its getter, its setter and [has…] *)

Definition get_value dom sc d : value + string :=
  match DataMap.get dom sc (vd_key d) with
  | Some text => readers (vd_type d) text
  | None => inl (defaultValue d)
  end.

Definition set_value dom sc d (v : value) : doc :=
  match v with
  | VUndefined => (DataMap.delete dom sc (vd_key d)).1
  | v => (DataMap.set dom sc (vd_key d) (writers (vd_type d) v)).1
  end.

Definition has_value dom sc d : bool := DataMap.has dom sc (vd_key d).

(** A loop over the pairs that stops at the first malformed one. *)
Definition reduce_pairs {A} (f : A → value_descriptor → A) (init : A) (pairs : list (string * typeConstant))
    : A + string :=
  foldl (λ result pair,
    match result, parseValueDefinitionPair pair with
    | inl x, inl d => inl (f x d)
    | inl _, inr error => inr error
    | inr error, _ => inr error
    end) (inl init) pairs.

(** [valueDescriptorMap], by the names of the attributes. *)
Definition valueDescriptorMap sc (pairs : list (string * typeConstant))
    : list (string * value_descriptor) + string :=
  reduce_pairs (λ m d, Obj.set (DataMap.getAttributeNameForKey sc (vd_key d)) d m) [] pairs.

(** What a property of a blessed class gets: a value, whether the value has an
    attribute, or the map above. *)
Inductive value_property :=
  | GetValue (d : value_descriptor)
  | HasValue (d : value_descriptor)
  | GetValueDescriptorMap.

#[export] Instance value_property_eq_dec : EqDecision value_property.
Proof. solve_decision. Defined.

Definition propertiesForValueDefinition (d : value_descriptor) : list (string * value_property) :=
  Obj.set ("has" +:+ capitalize (vd_name d)) (HasValue d) [(vd_name d, GetValue d)].

(** [Object.assign(target, source)] *)
Definition object_assign {V} (target source : list (string * V)) : list (string * V) :=
  foldl (λ o kv, Obj.set kv.1 kv.2 o) target source.

Definition ValuePropertiesBlessing (pairs : list (string * typeConstant))
    : list (string * value_property) + string :=
  reduce_pairs (λ properties d, object_assign properties (propertiesForValueDefinition d))
    [("valueDescriptorMap", GetValueDescriptorMap)] pairs.

(** ** [ValueObserver] *)

(** What the observer uses of a controller: its methods, and the properties
    that its class defines or inherits itself, which take the place of the
    blessed ones. *)
Record receiver (D : Type) := mk_receiver {
  rc_method : string → option (value → Act.t (browser doc * D));
  rc_property : string → option (browser doc * D → value + string);
}.
Arguments mk_receiver {D}.
Arguments rc_method {D}.
Arguments rc_property {D}.

Section value_observer.
Context {D : Type} (sc : scope) (rc : receiver D).
Context (map : list (string * value_descriptor)) (properties : list (string * value_property)).

(** [Object.keys(valueDescriptorMap).map(key => valueDescriptorMap[key])] *)
Definition valueDescriptors : list value_descriptor := omap (λ k, JMap.get k map) (Obj.keys map).

(** The names that every object inherits: the function of that name, whose
    own [name] the observer would take for a value's. *)
Definition inherited (attributeName : string) : option string :=
  if decide (attributeName = "constructor") then Some "Object"
  else if decide (attributeName ∈ ["hasOwnProperty"; "isPrototypeOf"; "propertyIsEnumerable"; "toLocaleString";
      "toString"; "valueOf"; "__defineGetter__"; "__defineSetter__"; "__lookupGetter__"; "__lookupSetter__"])
  then Some attributeName
  else None.

(** [valueDescriptorMap[attributeName].name] if the name is [in] the map. *)
Definition getStringMapKeyForAttribute (attributeName : string) : option string :=
  match JMap.get attributeName map with
  | Some d => Some (vd_name d)
  | None => inherited attributeName
  end.

(** [this.receiver[name]]; no value is named [valueDescriptorMap]. *)
Definition receiver_value (name : string) (x : browser doc * D) : value + string :=
  match rc_property rc name with
  | Some f => f x
  | None =>
    match JMap.get name properties with
    | Some (GetValue d) => get_value (document x.1) sc d
    | Some (HasValue d) => inl (VBoolean (has_value (document x.1) sc d))
    | Some GetValueDescriptorMap | None => inl VUndefined
    end
  end.

Definition invokeChangedCallbackForValue (name : string) : Act.t (browser doc * D) := λ x,
  match rc_method rc (name +:+ "Changed") with
  | Some method =>
    match receiver_value name x with
    | inl v => method v x
    | inr error => Act.throw error x
    end
  | None => Act.skip x
  end.

Definition is_undefined (v : value) : bool := match v with VUndefined | VNull => true | _ => false end.

Definition invokeChangedCallbacksForDefaultValues : Act.t (browser doc * D) :=
  Act.each (λ d, λ x,
    (when (negb (is_undefined (defaultValue d)) && negb (has_value (document x.1) sc d)) do_
       invokeChangedCallbackForValue (vd_name d))%act x) valueDescriptors.

Definition delegate : StringMapDelegate doc D := {|
  sd_getStringMapKeyForAttribute := getStringMapKeyForAttribute;
  sd_stringMapKeyAdded := None;
  sd_stringMapValueChanged := Some (λ attributeValue name, invokeChangedCallbackForValue name);
  sd_stringMapKeyRemoved := None;
|}.

Definition start : Act.t (StringMapObserver.state (doc := doc) (D := D)) := StringMapObserver.start delegate.
Definition stop : Act.t (StringMapObserver.state (doc := doc) (D := D)) := StringMapObserver.stop.

(** [new ValueObserver(context, receiver)] *)
Definition new_observer : Act.t (browser doc * D) := invokeChangedCallbacksForDefaultValues.
Definition stringMapObserver : StringMapObserver.t := StringMapObserver.new (sc_element sc).

End value_observer.
End values.
Arguments mk_receiver {doc D}.
Arguments rc_method {doc D}.
Arguments rc_property {doc D}.

(** ** Definitions and their types *)

Definition has_type (type : value_type) (v : value) : bool :=
  match type, v with
  | TArray, VArray _ | TBoolean, VBoolean _ | TNumber, VNumber _
  | TObject, VObject _ | TString, VString _ => true
  | _, _ => false
  end.

Lemma default_typed type : has_type type (defaultValuesByType type) = true.
Proof. by destruct type. Qed.

(** The keys of values have no capitals. *)
Lemma parsed_key pair d :
  parseValueDefinitionPair pair = inl d →
  vd_key d = dasherize pair.1 +:+ "-value" ∧ Str.all (λ c, negb (Str.is_upper c)) (vd_key d) = true.
Proof.
  unfold parseValueDefinitionPair. destruct (parseValueTypeConstant pair.2); [|done]. intros [= <-].
  split; [done|]. simpl. by rewrite Str.all_app, dasherize_not_upper.
Qed.

Definition lower_key d : Prop := Str.all (λ c, negb (Str.is_upper c)) (vd_key d) = true.

Lemma dasherize_fixed s : Str.all (λ c, negb (Str.is_upper c)) s = true → dasherize s = s.
Proof.
  induction s as [|c s IH]; [done|]. simpl. rewrite andb_true_iff, negb_true_iff. intros [-> Hs]. by rewrite IH.
Qed.

Lemma value_attribute sc d :
  lower_key d → DataMap.getAttributeNameForKey sc (vd_key d) = "data-" +:+ sc_identifier sc +:+ "-" +:+ vd_key d.
Proof. intros Hd. unfold DataMap.getAttributeNameForKey. by rewrite dasherize_fixed. Qed.

Lemma value_attribute_inj sc d d' :
  lower_key d → lower_key d' →
  lower_name (DataMap.getAttributeNameForKey sc (vd_key d)) =
    lower_name (DataMap.getAttributeNameForKey sc (vd_key d')) → vd_key d = vd_key d'.
Proof.
  intros Hd Hd'. rewrite !value_attribute, !lower_name_app by done.
  intros Heq%app_inj_l%app_inj_l%app_inj_l. by rewrite !lower_name_fixed in Heq.
Qed.

Section properties.
Context {doc : Type} `{DomLaws doc} (JSON_parse : string → json + string).
Implicit Types (dom : doc) (sc : scope) (d : value_descriptor).

(** C19: the types of values are respected: whatever text the document holds,
    a getter returns a value of the declared type, and without the attribute
    the default, of that type too; an exception comes only from the text of
    an array or an object. *)
Theorem value_typed dom sc d :
  match get_value JSON_parse dom sc d with
  | inl v => has_type (vd_type d) v = true ∧ (has_value dom sc d = false → v = defaultValue d)
  | inr _ => has_value dom sc d = true ∧ (vd_type d = TArray ∨ vd_type d = TObject)
  end.
Proof.
  unfold get_value, has_value, DataMap.has, hasAttribute, DataMap.get.
  destruct (getAttribute _ _ _) as [text|].
  - assert (bool_decide (is_Some (Some text)) = true) as -> by by apply bool_decide_eq_true_2.
    destruct (vd_type d); simpl; try done.
    + destruct (JSON_parse text) as [[]|]; naive_solver.
    + destruct (JSON_parse text) as [[]|]; naive_solver.
  - by rewrite default_typed.
Qed.

(** The values that a text determines: numbers in canonical form, and arrays
    and objects whose properties are in the order of the language. *)
Definition determined (v : value) : Prop :=
  match v with
  | VNumber n => Number.canonical n
  | VArray l => JsonText.ordered (JArr l)
  | VObject o => JsonText.ordered (JObj o)
  | _ => True
  end.

Section roundtrip.
Context (HJ : ∀ j, JsonText.ordered j → JSON_parse (Json.stringify j) = inl j).

Lemma write_read type v :
  has_type type v = true → determined v → readers JSON_parse type (writers type v) = inl v.
Proof.
  destruct type, v as [| |b|n|s|l|o]; try done; intros _ Hv; unfold writers, writeJSON, writeString, readers.
  - by rewrite HJ.
  - by destruct b.
  - simpl. by rewrite Number.parseFloat_toString.
  - by rewrite HJ.
Qed.

Lemma get_value_attr dom sc d o e a :
  get_value JSON_parse (set_attr dom e a o) sc d =
    if decide (e = sc_element sc ∧ a = lower_name (DataMap.getAttributeNameForKey sc (vd_key d))) then
      match o with Some text => readers JSON_parse (vd_type d) text | None => inl (defaultValue d) end
    else get_value JSON_parse dom sc d.
Proof. unfold get_value, DataMap.get, getAttribute. rewrite attr_set_attr. by case_decide. Qed.

(** C28: a value is kept: what a setter stores its getter returns, an undefined
    value restores the default, [has…] says which of the two it is, and the
    values of other keys are left alone. *)
Theorem value_roundtrip dom sc pair d v :
  parseValueDefinitionPair pair = inl d → has_type (vd_type d) v = true → determined v →
  let stored := set_value dom sc d v in
  let cleared := set_value dom sc d VUndefined in
  get_value JSON_parse stored sc d = inl v ∧ has_value stored sc d = true ∧
  get_value JSON_parse cleared sc d = inl (defaultValue d) ∧ has_value cleared sc d = false ∧
  ∀ pair' d', parseValueDefinitionPair pair' = inl d' → vd_key d' ≠ vd_key d →
    get_value JSON_parse stored sc d' = get_value JSON_parse dom sc d' ∧
    get_value JSON_parse cleared sc d' = get_value JSON_parse dom sc d'.
Proof.
  intros Hd Ht Hv. simpl. apply parsed_key in Hd as [_ Hd].
  assert (set_value dom sc d v =
    set_attr dom (sc_element sc) (lower_name (DataMap.getAttributeNameForKey sc (vd_key d)))
      (Some (writers (vd_type d) v))) as Hst by by destruct v; [by destruct (vd_type d)|..].
  unfold has_value at 1, DataMap.has, hasAttribute, getAttribute. rewrite Hst, attr_set_attr.
  rewrite get_value_attr, decide_True, decide_True by done. rewrite write_read by done.
  split; [done|]. split; [by apply bool_decide_eq_true_2|].
  unfold set_value, DataMap.delete. fold (has_value dom sc d). split.
  { destruct (has_value dom sc d) eqn:Hh; cbn [fst].
    - unfold removeAttribute. by rewrite get_value_attr, decide_True.
    - pose proof (value_typed dom sc d) as Hty. destruct (get_value _ _ _ _).
      + by rewrite (proj2 Hty).
      + destruct Hty; congruence. }
  split.
  { destruct (has_value dom sc d) eqn:Hh; cbn [fst]; [|done].
    unfold has_value, DataMap.has, hasAttribute, getAttribute, removeAttribute.
    rewrite attr_set_attr, decide_True by done. by apply bool_decide_eq_false_2; intros [? ?]. }
  intros pair' d' [_ Hd']%parsed_key Hne.
  assert (∀ o, get_value JSON_parse (set_attr dom (sc_element sc)
    (lower_name (DataMap.getAttributeNameForKey sc (vd_key d))) o) sc d' = get_value JSON_parse dom sc d') as Hother.
  { intros o. rewrite get_value_attr, decide_False; [done|]. intros [_ Heq]. apply Hne. symmetry.
    by eapply value_attribute_inj. }
  split; [apply Hother|]. destruct (has_value dom sc d); cbn [fst]; [|done]. apply Hother.
Qed.
End roundtrip.
End properties.

(** ** The observer of a controller's values *)

Lemma reduce_pairs_ind {A} (f : A → value_descriptor → A) (P : A → Prop) init pairs x :
  P init →
  (∀ y pair d, pair ∈ pairs → parseValueDefinitionPair pair = inl d → P y → P (f y d)) →
  reduce_pairs f init pairs = inl x → P x.
Proof.
  intros Hi Hf. unfold reduce_pairs. revert init Hi. induction pairs as [|pair pairs IH]; intros init Hi; simpl.
  { by intros [= <-]. }
  destruct (parseValueDefinitionPair pair) as [d|e] eqn:Hd.
  - apply IH; [|by eapply Hf; [left|..]]. intros. eapply Hf; [by right|done|done].
  - clear. induction pairs as [|p pairs IH]; simpl; [done|]. by destruct (parseValueDefinitionPair p).
Qed.

Lemma map_entries sc pairs m a d :
  valueDescriptorMap sc pairs = inl m → JMap.get a m = Some d →
  a = DataMap.getAttributeNameForKey sc (vd_key d) ∧ lower_key d.
Proof.
  intros Hm. revert a d.
  refine (reduce_pairs_ind _ (λ m, ∀ a d, JMap.get a m = Some d → _ ∧ _) [] pairs m _ _ Hm); [done|].
  intros y pair d _ Hd IH a d'. rewrite Obj.obj_get_set. case_decide as Ha; [|apply IH].
  intros [= <-]. subst a. split; [done|]. by apply parsed_key in Hd as [_ Hd].
Qed.

Section observing.
Context {doc : Type} `{DomLaws doc} (JSON_parse : string → json + string) {D : Type}.
Context (sc : scope) (pairs : list (string * typeConstant)) (rc : receiver (doc := doc) D).
Context (m : list (string * value_descriptor)) (properties : list (string * value_property)).
Context (Hm : valueDescriptorMap sc pairs = inl m).

#[local] Abbreviation delegate := (delegate JSON_parse sc rc m properties).

(** The methods of a controller may change the document, but do not operate
    the observer. *)
Definition methods_report : Prop :=
  ∀ name method v, rc_method rc name = Some method → StringMapObserver.reports (sc_element sc) (method v).

Lemma invoke_reports name :
  methods_report →
  StringMapObserver.reports (sc_element sc) (invokeChangedCallbackForValue JSON_parse sc rc properties name).
Proof.
  intros Hr x. unfold invokeChangedCallbackForValue.
  destruct (rc_method rc _) as [method|] eqn:Hmethod; [|apply StringMapObserver.evolves_refl].
  destruct (receiver_value _ _ _ _ _ _) as [v|e]; [|apply StringMapObserver.evolves_refl]. by eapply Hr.
Qed.

(** Constructing the observer only runs changed callbacks. *)
Lemma new_observer_evolves x :
  methods_report →
  StringMapObserver.evolves (sc_element sc) x.1 (new_observer JSON_parse sc rc m properties x).1.1.
Proof.
  intros Hr. unfold new_observer, invokeChangedCallbacksForDefaultValues.
  apply (Act.each_rel _ (λ x y : browser doc * D, StringMapObserver.evolves (sc_element sc) x.1 y.1)).
  - intros y. apply StringMapObserver.evolves_refl.
  - intros y1 y2 y3. apply StringMapObserver.evolves_trans.
  - intros d y _. destruct (_ && _); [by apply invoke_reports|apply StringMapObserver.evolves_refl].
Qed.

Lemma delegate_reports : methods_report → StringMapObserver.Reports delegate (sc_element sc).
Proof. intros Hr. split; [done| |done]. intros f v k [= <-]. by apply invoke_reports. Qed.

(** The recorded values of a session. *)
Lemma values_recorded s lost a d :
  methods_report → StringMapObserver.session delegate (sc_element sc) s lost →
  StringMapObserver.started s.1 = true →
  JMap.get a m = Some d → lower_name a = a → a ∉ lost →
  ¬ StringMapObserver.named a (StringMapObserver.records_of s) →
  JMap.get a (StringMapObserver.stringMap s.1) = DataMap.get (StringMapObserver.document_of s) sc (vd_key d).
Proof.
  intros Hr Hs Hst Ha Hl Hlost Hn.
  pose proof (StringMapObserver.session_sync _ _ (delegate_reports Hr) _ _ Hs) as [_ _ _ Hv].
  destruct (map_entries _ _ _ _ _ Hm Ha) as [Heq _].
  destruct (Hv a Hst) as [Hget|[?|?]]; [|by rewrite Hget, Heq|done|done].
  split_and!; [|done|by subst a]. simpl. unfold getStringMapKeyForAttribute. rewrite Ha. eauto.
Qed.

(** An identifier with a capital letter keeps its values from being
    observed: the map is keyed by names with the capital, and no attribute of
    an HTML document has one, so that no attribute is a value's.  The getters
    are not concerned, since the document lower-cases the names it looks up. *)
Lemma capitals_unobserved a :
  Str.all (λ c, negb (Str.is_upper c)) (sc_identifier sc) = false → lower_name a = a →
  getStringMapKeyForAttribute m a = inherited a ∧
  (inherited a = None → ∀ s, StringMapObserver.refreshAttribute delegate a s = (s, None)).
Proof.
  intros Hid Ha. assert (JMap.get a m = None) as Hnone.
  { destruct (JMap.get a m) as [d|] eqn:Hg; [|done]. destruct (map_entries _ _ _ _ _ Hm Hg) as [Heq Hd].
    rewrite Heq, value_attribute, !lower_name_app in Ha by done. apply app_inj_l in Ha.
    assert (∀ i t t', String.length t = String.length t' → lower_name i +:+ t' = i +:+ t →
      Str.all (λ c, negb (Str.is_upper c)) i = true) as Hfix.
    { clear. induction i as [|c i IH]; intros t t' Hl; [done|]. simpl. rewrite !Str.app_cons.
      intros [= Hc Hi]. rewrite (IH t t') by done. rewrite andb_true_r, negb_true_iff. destruct (Str.is_upper c) eqn:Hu; [|done]. by rewrite <-Hc, lower_lower in Hu. }
    rewrite (Hfix _ ("-" +:+ vd_key d) (lower_name "-" +:+ lower_name (vd_key d))) in Hid; [done| |done].
    by rewrite (lower_name_fixed (vd_key d)). }
  unfold getStringMapKeyForAttribute. rewrite Hnone. split; [done|]. intros Hi s.
  unfold StringMapObserver.refreshAttribute. simpl. unfold getStringMapKeyForAttribute. by rewrite Hnone, Hi.
Qed.
End observing.

(** ** The changed callbacks of a controller

The callbacks of a controller that leave the document alone: they may change
the controller, throw, or be missing. *)

Section callbacks.
Context {doc : Type} `{DomLaws doc} (JSON_parse : string → json + string) {D : Type}.
Context (sc : scope) (rc : receiver (doc := doc) D).
Context (m : list (string * value_descriptor)) (properties : list (string * value_property)).
Implicit Types (b : browser doc) (d : D).

#[local] Abbreviation delegate := (delegate JSON_parse sc rc m properties).
#[local] Abbreviation receiver_value := (receiver_value JSON_parse sc rc properties).

Definition leave_document : Prop :=
  ∀ name method v b d, rc_method rc name = Some method → (method v (b, d)).1.1 = b.

(** The changed callback of a value, if the controller has it, with the value
    of its property; an exception of either is the result. *)
Definition told b (name : string) d : D * option string :=
  match rc_method rc (name +:+ "Changed") with
  | None => (d, None)
  | Some callback =>
    match receiver_value name (b, d) with
    | inr error => (d, Some error)
    | inl v => ((callback v (b, d)).1.2, (callback v (b, d)).2)
    end
  end.

(** The callbacks of a list of values, until one throws. *)
Abbreviation told_all b := (StringMapObserver.tells (told b)).

(** The values of the attributes among [names] whose text is not the recorded
    one; each once, in order. *)
Definition changed_values b (o : StringMapObserver.t) (names : list string) : list string :=
  (λ a, default "" (getStringMapKeyForAttribute m a)) <$>
    filter (λ a, is_Some (getStringMapKeyForAttribute m a) ∧
                 JMap.get a (StringMapObserver.stringMap o) ≠ getAttribute (document b) (StringMapObserver.element o) a)
           (JSet.of_list names).

(** The names that the observer went through: [reached] are those whose text is
    recorded now, the rest those that the exception cut off, if there is one. *)
Definition gone_through b o d (names : list string) (o' : StringMapObserver.t) (r : option string) : Prop :=
  ∃ reached rest, names = reached ++ rest ∧
    (∀ a, JMap.get a (StringMapObserver.stringMap o') =
       if decide (a ∈ reached ∧ is_Some (getStringMapKeyForAttribute m a))
       then getAttribute (document b) (StringMapObserver.element o) a
       else JMap.get a (StringMapObserver.stringMap o)) ∧
    (told_all b (changed_values b o reached) d).2 = None ∧
    match r with
    | None => rest = []
    | Some e => ∃ a later, rest = a :: later ∧
        (told b (default "" (getStringMapKeyForAttribute m a)) (told_all b (changed_values b o reached) d).1).2 = Some e
    end.

Lemma invoke_told b name d :
  leave_document →
  invokeChangedCallbackForValue JSON_parse sc rc properties name (b, d) = ((b, (told b name d).1), (told b name d).2).
Proof.
  intros Hr. unfold invokeChangedCallbackForValue, told.
  destruct (rc_method rc (name +:+ "Changed")) as [callback|] eqn:Hc; [|done].
  destruct (receiver_value name (b, d)) as [v|e]; [|done].
  pose proof (Hr _ _ v b d Hc) as Hb. destruct (callback v (b, d)) as [[b' d'] r]. simpl in *. by subst b'.
Qed.

Lemma defaults_told b ds d :
  leave_document →
  Act.each (λ vd, λ x : browser doc * D,
    (when (negb (is_undefined (defaultValue vd)) && negb (has_value (document x.1) sc vd)) do_
       invokeChangedCallbackForValue JSON_parse sc rc properties (vd_name vd))%act x) ds (b, d) =
  let result := told_all b (vd_name <$> filter (λ vd, has_value (document b) sc vd = false) ds) d in
  ((b, result.1), result.2).
Proof.
  intros Hr. cbv zeta. revert d. induction ds as [|vd ds IH]; intros d; [done|]. simpl.
  assert (is_undefined (defaultValue vd) = false) as -> by by destruct vd as [[] ? ?].
  unfold Act.seq at 1. rewrite filter_cons. simpl.
  destruct (has_value (document b) sc vd); simpl; [apply IH|].
  rewrite invoke_told by done. simpl.
  destruct (told b (vd_name vd) d) as [d' [e|]]; [done|]. simpl. apply IH.
Qed.

Lemma refreshes_told b o d names :
  leave_document →
  let result := told_all b (changed_values b o names) d in
  ∃ o', Act.each (StringMapObserver.refreshAttribute delegate) names (o, (b, d)) = ((o', (b, result.1)), result.2) ∧
    gone_through b o d names o' result.2.
Proof.
  intros Hr. edestruct (StringMapObserver.refreshes_quiet delegate b
    (λ _ name, invokeChangedCallbackForValue JSON_parse sc rc properties name) (told b) eq_refl eq_refl eq_refl)
    as (o' & l1 & l2 & Hrun & Hl & (_ & _ & Hm) & Hn & Hl2); [intros _ name d'; by apply invoke_told|].
  exists o'. split; [exact Hrun|]. exists l1, l2. split; [exact Hl|]. split; [exact Hm|]. by split.
Qed.

(** C20: a controller is told its values, as long as its callbacks leave the
    document alone: constructing its observer calls the changed callback of
    every value without an attribute, with what its property gets, in the order
    of their declaration; starting it calls that of every value with an
    attribute, in the order of the attributes; and from then on a delivery of
    records calls that of every value among them whose text differs from the
    recorded one, once, and records the current texts.  A callback or a getter
    that throws ends the operation with that exception: the later callbacks
    are not called, and the later texts not recorded.  The attribute of a
    value is the one that the map of descriptors names; for an identifier with
    capitals that is no attribute's name ([capitals_unobserved]). *)
Theorem values_told b d :
  leave_document →
  let o := stringMapObserver sc in
  let b' := on_observer mo_observe b in
  let defaults := told_all b (vd_name <$> filter (λ vd, has_value (document b) sc vd = false) (valueDescriptors m)) d in
  let names := JSet.of_list (attributes (document b) (sc_element sc)) in
  let present := told_all b' (changed_values b' o names) d in
  new_observer JSON_parse sc rc m properties (b, d) = ((b, defaults.1), defaults.2) ∧
  (∃ o', start JSON_parse sc rc m properties (o, (b, d)) = ((o', (b', present.1)), present.2) ∧
     gone_through b' o d names o' present.2) ∧
  ∀ o1 ms, StringMapObserver.started o1 = true →
  let names := omap StringMapObserver.refreshed ms in
  let result := told_all b (changed_values b o1 names) d in
  ∃ o2, StringMapObserver.processMutations delegate ms (o1, (b, d)) = ((o2, (b, result.1)), result.2) ∧
    gone_through b o1 d names o2 result.2.
Proof.
  intros Hr o b' defaults names present. split; [by apply defaults_told|]. split.
  { destruct (refreshes_told b' (StringMapObserver.mk (sc_element sc) true []) d names Hr) as (o' & Hrun & Hgone).
    exists o'. split; [|exact Hgone]. unfold start. rewrite StringMapObserver.start_eq by done.
    unfold StringMapObserver.refresh. simpl.
    unfold StringMapObserver.knownAttributeNames, StringMapObserver.currentAttributeNames,
      StringMapObserver.recordedAttributeNames. simpl. rewrite app_nil_r. exact Hrun. }
  intros o1 ms Hst names1. simpl. unfold StringMapObserver.processMutations. simpl. rewrite Hst.
  destruct (refreshes_told b o1 d names1 Hr) as (o2 & Hrun & Hgone).
  exists o2. split; [|exact Hgone]. rewrite <-Hrun. subst names1. clear. generalize (o1, (b, d)).
  induction ms as [|mu ms IH]; intros s; [done|].
  simpl. unfold Act.seq. rewrite StringMapObserver.processMutation_refreshed.
  destruct (StringMapObserver.refreshed mu); simpl; [|apply IH]. unfold Act.seq.
  destruct (StringMapObserver.refreshAttribute _ _ _) as [s' [e|]]; [done|]. apply IH.
Qed.
End callbacks.

(** A controller whose changed callbacks record their arguments, and throw
    at a name of [throwing]. *)
Definition recording {doc} (throwing : list string) : receiver (doc := doc) (list (string * value)) :=
  mk_receiver
    (λ name, Some (λ v x, ((x.1, x.2 ++ [(name, v)]), if decide (name ∈ throwing) then Some name else None)))
    (λ _, None).

(** ** A concrete page: a controller with two values *)

Definition read_json (s : string) : json + string :=
  match JsonText.parse s with Some j => inl j | None => inr "SyntaxError" end.

Lemma read_json_stringify j : JsonText.ordered j → read_json (Json.stringify j) = inl j.
Proof. intros Hj. unfold read_json. by rewrite JsonText.parse_stringify. Qed.

Definition value_pairs : list (string * typeConstant) := [("peerCount", CNumber); ("names", CArray)].
Definition value_scope : scope := mk_scope 0 1 "catalog".
Definition value_page : PageDom.t :=
  PageDom.mk [(0, 1)] [] [((1, "data-catalog-peer-count-value"), "12"); ((1, "id"), "x")] eq_refl.
Definition value_browser : browser PageDom.t := mk_browser value_page mo_new.

Definition value_map : list (string * value_descriptor) :=
  match valueDescriptorMap value_scope value_pairs with inl m => m | inr _ => [] end.
Definition value_properties : list (string * value_property) :=
  match ValuePropertiesBlessing value_pairs with inl p => p | inr _ => [] end.

Lemma value_roundtrip_witness :
  let d := mk_descriptor TArray "names-value" "namesValue" in
  let v := VArray [JStr "a"; JObj [("k", JNum (-3))]] in
  get_value read_json (set_value value_page value_scope d v) value_scope d = inl v.
Proof.
  apply (value_roundtrip read_json read_json_stringify value_page value_scope ("names", CArray)
    (mk_descriptor TArray "names-value" "namesValue") (VArray [JStr "a"; JObj [("k", JNum (-3))]]));
    [reflexivity|reflexivity|vm_compute; tauto].
Defined.

Lemma values_told_witness :
  let start rc := start read_json value_scope rc value_map value_properties
    (stringMapObserver value_scope, (value_browser, [("namesValueChanged", VArray [])])) in
  new_observer read_json value_scope (recording []) value_map value_properties (value_browser, []) =
    ((value_browser, [("namesValueChanged", VArray [])]), None) ∧
  (∃ o', start (recording []) =
    ((o', (on_observer mo_observe value_browser,
           [("namesValueChanged", VArray []); ("peerCountValueChanged", VNumber (Decimal 12 0))])), None)) ∧
  ∃ o', start (recording ["peerCountValueChanged"]) =
    ((o', (on_observer mo_observe value_browser,
           [("namesValueChanged", VArray []); ("peerCountValueChanged", VNumber (Decimal 12 0))])),
     Some "peerCountValueChanged") ∧ StringMapObserver.stringMap o' = [].
Proof.
  assert (∀ throwing, leave_document (doc := PageDom.t) (recording throwing)) as Hr by (by intros throwing name method v b d [= <-]).
  destruct (values_told read_json value_scope (recording []) value_map value_properties value_browser [] (Hr [])) as (Hnew & _).
  destruct (values_told read_json value_scope (recording []) value_map value_properties value_browser
    [("namesValueChanged", VArray [])] (Hr [])) as (_ & (o1 & Hstart & _) & _).
  destruct (values_told read_json value_scope (recording ["peerCountValueChanged"]) value_map value_properties value_browser
    [("namesValueChanged", VArray [])] (Hr _)) as (_ & (o2 & Hthrow & _) & _).
  split; [rewrite Hnew; vm_compute; reflexivity|]. split; [exists o1; revert Hstart; vm_compute; tauto|].
  exists o2. split; [revert Hthrow; vm_compute; tauto|].
  transitivity (StringMapObserver.stringMap (start read_json value_scope (recording ["peerCountValueChanged"]) value_map
    value_properties (stringMapObserver value_scope, (value_browser, [("namesValueChanged", VArray [])]))).1.1).
  - by rewrite Hthrow.
  - vm_compute. reflexivity.
Defined.

(** A value of [peerInfo] that the page changes: its callback is never called,
    and its getter has the new value. *)
Definition capital_scope : scope := mk_scope 0 1 "peerInfo".
Definition capital_page : PageDom.t :=
  PageDom.mk [(0, 1)] [] [((1, "data-peerinfo-names-value"), "[1]")] eq_refl.

Lemma capitals_unobserved_witness :
  let m := match valueDescriptorMap capital_scope value_pairs with inl m => m | inr _ => [] end in
  get_value read_json capital_page capital_scope (mk_descriptor TArray "names-value" "namesValue") =
    inl (VArray [JNum 1]) ∧
  ∀ s, StringMapObserver.refreshAttribute
         (delegate read_json capital_scope (recording (doc := PageDom.t) []) m value_properties)
         "data-peerinfo-names-value" s = (s, None).
Proof.
  split; [vm_compute; reflexivity|].
  apply (capitals_unobserved read_json capital_scope value_pairs (recording []) _ value_properties eq_refl
    "data-peerinfo-names-value"); reflexivity.
Defined.
