(* ===== verification/Inherit.v ===== *)
(** The generated helpers for spreading arrays and for inheritance, and the two
    ways to extend a class.

    Models [src/gui/web/assets/scripts/stimulus.js]: [__spreadArrays],
    [__extends], [getOwnKeys], both branches of [extend] with their test, and the
    construction of instances; and [viz.js]: [createClass], [classCallCheck],
    [_extends]; over a heap of objects with prototypes.  [Blessings] works with
    classes that have been extended and with appended lists; here is what
    justifies it, and that a browser without [Reflect] does not get another
    class. *)

From S2P Require Import Prelude JsCore JsString Json.

#[local] Open Scope string_scope.
#[local] Open Scope list_scope.
#[local] Open Scope nat_scope.

(** ** [__spreadArrays] *)

Section spread.
Context {A : Type}.

(** [for (var a = arguments[i], j = 0; …; j++, k++) r[k] = a[j]]; the slots of a
    new array are empty. *)
Fixpoint copy_array (a : list A) (k : nat) (r : list (option A)) : nat * list (option A) :=
  match a with
  | [] => (k, r)
  | x :: a => copy_array a (S k) (<[k := Some x]> r)
  end.

Definition spreadArrays (arguments : list (list A)) : list (option A) :=
  let s := foldl (λ s a, s + length a) 0 arguments in
  (foldl (λ '(k, r) a, copy_array a k r) (0, replicate s None) arguments).2.

Lemma copy_array_spec (a : list A) (pre rest : list (option A)) :
  length a ≤ length rest →
  copy_array a (length pre) (pre ++ rest) = (length pre + length a, (pre ++ (Some <$> a)) ++ drop (length a) rest).
Proof.
  revert pre rest. induction a as [|x a IH]; intros pre rest Hl; simpl in *.
  - by rewrite Nat.add_0_r, app_nil_r.
  - destruct rest as [|y rest]; simpl in *; [lia|].
    assert (<[length pre := Some x]> (pre ++ y :: rest) = (pre ++ [Some x]) ++ rest) as ->.
    { rewrite <-(Nat.add_0_r (length pre)), insert_app_r. simpl. by rewrite <-(assoc_L (++)). }
    assert (S (length pre) = length (pre ++ [Some x])) as -> by (rewrite length_app; simpl; lia).
    rewrite IH by lia. rewrite length_app. simpl. rewrite <-!(assoc_L (++)). f_equal. lia.
Qed.

Lemma sum_lengths (arguments : list (list A)) n :
  foldl (λ s a, s + length a) n arguments = n + length (concat arguments).
Proof.
  revert n. induction arguments as [|a arguments IH]; intros n; simpl; [lia|]. rewrite IH, length_app. lia.
Qed.

(** The helper appends its arguments, and leaves no slot empty. *)
Lemma spreadArrays_concat (arguments : list (list A)) : spreadArrays arguments = Some <$> concat arguments.
Proof.
  unfold spreadArrays. rewrite sum_lengths. simpl.
  assert (∀ pre n, length (concat arguments) = n →
    foldl (λ '(k, r) a, copy_array a k r) (length pre, pre ++ replicate n None) arguments =
    (length pre + n, pre ++ (Some <$> concat arguments))) as Hall; [|exact (f_equal snd (Hall [] _ eq_refl))].
  induction arguments as [|a arguments IH]; intros pre n Hn; simpl in *.
  - subst n. by rewrite Nat.add_0_r.
  - rewrite length_app in Hn. rewrite copy_array_spec by (rewrite length_replicate; lia).
    rewrite drop_replicate. assert (length pre + length a = length (pre ++ (Some <$> a))) as ->.
    { by rewrite length_app, length_fmap. }
    rewrite (IH _ (n - length a)) by lia. rewrite fmap_app, <-(assoc_L (++)), length_app, length_fmap. f_equal. lia.
Qed.
End spread.

(** [getOwnKeys], in a browser with or without symbols. *)
Definition getOwnKeys {K : Type} (getOwnPropertySymbols : bool) (names symbols : list K) : list (option K) :=
  if getOwnPropertySymbols then spreadArrays [names; symbols] else Some <$> names.

Lemma getOwnKeys_keys {K} has_symbols (names symbols : list K) :
  getOwnKeys has_symbols names symbols = Some <$> names ++ (if has_symbols then symbols else []).
Proof. destruct has_symbols; [|by rewrite app_nil_r]. unfold getOwnKeys. by rewrite spreadArrays_concat; simpl; rewrite app_nil_r. Qed.

(** ** Objects *)

Inductive value := VObject (o : nat) | VData (code : string).

Record property := mk_property { p_enumerable : bool; p_value : value }.

Record object := mk_object { o_proto : option nat; o_own : list (string * property) }.

Abbreviation heap := (list object).

Definition proto (h : heap) (o : nat) : option nat := h !! o ≫= o_proto.
Definition own (h : heap) (o : nat) : list (string * property) := default [] (o_own <$> h !! o).

(** The prototype of an object is older, and no object has two properties of a
    name. *)
Definition heap_wf (h : heap) : Prop := (∀ o p, proto h o = Some p → p < o) ∧ ∀ o, JMap.wf (own h o).

(** [o[key]], through the prototypes. *)
Fixpoint lookup_go (fuel : nat) (h : heap) (o : nat) (key : string) : option value :=
  match fuel with
  | 0 => None
  | S fuel =>
    match JMap.get key (own h o) with
    | Some p => Some (p_value p)
    | None => match proto h o with Some p => lookup_go fuel h p key | None => None end
    end
  end.
Definition lookup (h : heap) (o : nat) (key : string) : option value := lookup_go (S o) h o key.

Definition set_own (key : string) (p : property) (h : heap) (o : nat) : heap :=
  alter (λ x, mk_object (o_proto x) (Obj.set key p (o_own x))) o h.
Definition set_proto (p : option nat) (h : heap) (o : nat) : heap := alter (λ x, mk_object p (o_own x)) o h.

(** [f.prototype], if it is an object. *)
Definition prototype_of (h : heap) (f : nat) : option nat :=
  match lookup h f "prototype" with Some (VObject p) => Some p | _ => None end.

(** [instance instanceof Constructor], for a prototype that is an object. *)
Fixpoint in_chain (fuel : nat) (h : heap) (o p : nat) : bool :=
  match fuel with
  | 0 => false
  | S fuel => match proto h o with Some q => bool_decide (q = p) || in_chain fuel h q p | None => false end
  end.
Definition instanceof (h : heap) (instance Constructor : nat) : bool :=
  match prototype_of h Constructor with Some p => in_chain (S instance) h instance p | None => false end.

Section extends.
(** The prototypes of functions and of objects. *)
Context (Function_prototype Object_prototype : nat).

(** A function declaration: the function and its [prototype]. *)
Definition new_function (h : heap) : heap * nat :=
  let f := length h in
  (h ++ [mk_object (Some Function_prototype) [("prototype", mk_property false (VObject (S f)))];
         mk_object (Some Object_prototype) [("constructor", mk_property false (VObject f))]], f).

(** What the browser has: [Object.setPrototypeOf], or the accessor
    [__proto__], or neither. *)
Inductive inheritance := SetPrototypeOf | Proto | Copy.

(** [for (var p in b) if (b.hasOwnProperty(p)) d[p] = b[p];] *)
Definition copy_statics (h : heap) (d b : nat) : heap :=
  foldl (λ h kp, if p_enumerable kp.2 then set_own kp.1 (mk_property true (p_value kp.2)) h d else h) h (own h b).

(** [extendStatics(d, b)], for a [b] that may be [null]. *)
Definition extendStatics (i : inheritance) (h : heap) (d : nat) (b : option nat) : heap :=
  match i, b with
  | SetPrototypeOf, _ | Proto, _ => set_proto b h d
  | Copy, Some b => copy_statics h d b
  | Copy, None => h
  end.

(** [__extends(d, b)]: [new __] has the prototype of [b], if that is an object,
    and its own [constructor]: the property of [b]'s prototype is one of a class
    declaration, which can be assigned.  The function [__] itself is not
    kept. *)
Definition extends (i : inheritance) (h : heap) (d : nat) (b : option nat) : heap :=
  let h := extendStatics i h d b in
  let p := length h in
  let h := h ++ [match b with
                 | None => mk_object None []
                 | Some b => mk_object (Some (default Object_prototype (prototype_of h b))) [("constructor", mk_property true (VObject d))]
                 end] in
  set_own "prototype" (mk_property false (VObject p)) h d.

(** ** [extend] *)

(** [Object.create(constructor.prototype, { constructor: { value: extended } })] *)
Definition extendWithReflect (h : heap) (c : nat) : heap * nat :=
  let '(h, extended) := new_function h in
  let p := length h in
  let h := h ++ [mk_object (prototype_of h c) [("constructor", mk_property false (VObject extended))]] in
  let h := set_own "prototype" (mk_property false (VObject p)) h extended in
  (set_proto (Some c) h extended, extended).

Definition extendWithoutReflect (i : inheritance) (h : heap) (c : nat) : heap * nat :=
  let '(h, extended) := new_function h in
  (extends i h extended (Some c), extended).

(** [testReflectExtension()] throws in a browser without [Reflect]. *)
Definition extend (has_reflect : bool) (i : inheritance) (h : heap) (c : nat) : heap * nat :=
  if has_reflect then extendWithReflect h c else extendWithoutReflect i h c.

(** ** Lookups *)

Lemma proto_old h o p : heap_wf h → proto h o = Some p → p < o.
Proof. intros [Hw _]. apply Hw. Qed.

Lemma lookup_go_more h o key m n : heap_wf h → o < m → o < n → lookup_go m h o key = lookup_go n h o key.
Proof.
  intros Hw. revert m n. induction o as [o IH] using lt_wf_ind. intros [|m] [|n] Hm Hn; [lia..|]. simpl.
  destruct (JMap.get key (own h o)); [done|]. destruct (proto h o) as [p|] eqn:Hp; [|done].
  pose proof (proto_old h o p Hw Hp). apply IH; lia.
Qed.

Lemma lookup_unfold h o key :
  heap_wf h →
  lookup h o key =
  match JMap.get key (own h o) with
  | Some p => Some (p_value p)
  | None => match proto h o with Some p => lookup h p key | None => None end
  end.
Proof.
  intros Hw. unfold lookup at 1. simpl. destruct (JMap.get key (own h o)); [done|].
  destruct (proto h o) as [p|] eqn:Hp; [|done]. pose proof (proto_old h o p Hw Hp). by apply lookup_go_more; [|lia..].
Qed.

(** New objects change nothing for the others. *)
Lemma lookup_app h l o key : heap_wf h → o < length h → lookup (h ++ l) o key = lookup h o key.
Proof.
  intros Hw. unfold lookup. generalize (S o) as n. intros n. revert o. induction n as [|n IH]; intros o Ho; [done|]. simpl.
  assert (own (h ++ l) o = own h o ∧ proto (h ++ l) o = proto h o) as [-> ->].
  { unfold own, proto. by rewrite lookup_app_l by done. }
  destruct (JMap.get key (own h o)); [done|]. destruct (proto h o) as [p|] eqn:Hp; [|done].
  pose proof (proto_old h o p Hw Hp). apply IH; lia.
Qed.

Lemma heap_wf_snoc h x :
  heap_wf h → (∀ p, o_proto x = Some p → p < length h) → JMap.wf (o_own x) → heap_wf (h ++ [x]).
Proof.
  intros [Hp Ho] Hx Hown. split; intros o.
  - intros p. unfold proto. destruct (decide (o < length h)) as [Hlt|Hlt]; [rewrite lookup_app_l by done; apply Hp|].
    rewrite lookup_app_r by lia. destruct (o - length h) as [|k] eqn:Hk; simpl; [|done]. intros H%Hx. lia.
  - unfold own. destruct (decide (o < length h)) as [Hlt|Hlt]; [rewrite lookup_app_l by done; apply Ho|].
    rewrite lookup_app_r by lia. destruct (o - length h) as [|k]; simpl; [done|apply NoDup_nil_2].
Qed.

Lemma own_wf_one (x : string * property) : JMap.wf [x].
Proof. apply NoDup_singleton. Qed.

Lemma proto_set_own key p h t o : proto (set_own key p h t) o = proto h o.
Proof.
  unfold proto, set_own. destruct (decide (o = t)) as [->|Ho]; [|by rewrite list_lookup_alter_ne].
  rewrite list_lookup_alter_eq. by destruct (h !! t).
Qed.

Lemma own_set_own key p h t o :
  t < length h → own (set_own key p h t) o = if decide (o = t) then Obj.set key p (own h o) else own h o.
Proof.
  intros Ht. unfold own, set_own. case_decide as Ho; subst; [|by rewrite list_lookup_alter_ne].
  rewrite list_lookup_alter_eq. destruct (lookup_lt_is_Some_2 h t Ht) as [x ->]. done.
Qed.

(** ** The extended class *)

(** What [extend] adds for a class whose prototype is [p]: the function, [d],
    the object that its [prototype] was at first, and its prototype. *)
Definition extended_objects (d : object) (enumerable : bool) (n p : nat) : heap :=
  [d; mk_object (Some Object_prototype) [("constructor", mk_property false (VObject n))];
   mk_object (Some p) [("constructor", mk_property enumerable (VObject n))]].

(** [d[p] = b[p]], on the own properties of [d]. *)
Definition copied (own_d own_b : list (string * property)) : list (string * property) :=
  foldl (λ o kp, if p_enumerable kp.2 then Obj.set kp.1 (mk_property true (p_value kp.2)) o else o) own_d own_b.

(** The function that [extend] makes of [c]. *)
Definition extended_function (has_reflect : bool) (i : inheritance) (h : heap) (c : nat) : object :=
  let prototype := ("prototype", mk_property false (VObject (2 + length h))) in
  match has_reflect, i with
  | false, Copy =>
    mk_object (Some Function_prototype)
      (Obj.set "prototype" prototype.2 (copied [("prototype", mk_property false (VObject (S (length h))))] (own h c)))
  | _, _ => mk_object (Some c) [prototype]
  end.

Lemma alter_new (h l : heap) g x n : n = length h → alter g n (h ++ x :: l) = h ++ g x :: l.
Proof. intros ->. induction h as [|y h IH]; simpl; [done|]. f_equal. exact IH. Qed.

Lemma prototype_of_app h l c : heap_wf h → c < length h → prototype_of (h ++ l) c = prototype_of h c.
Proof. intros Hw Hc. unfold prototype_of. by rewrite lookup_app. Qed.

Lemma copy_statics_new h d l c :
  c < length h →
  copy_statics (h ++ d :: l) (length h) c = h ++ mk_object (o_proto d) (copied (o_own d) (own h c)) :: l.
Proof.
  intros Hc. unfold copy_statics, copied.
  assert (own (h ++ d :: l) c = own h c) as -> by (unfold own; by rewrite lookup_app_l by done).
  generalize (own h c) as s. intros s. revert d. induction s as [|[k p] s IH]; intros d; simpl; [by destruct d|].
  destruct (p_enumerable p); [|apply IH]. unfold set_own at 2. rewrite (alter_new h) by done. by rewrite IH.
Qed.

Lemma extendStatics_new i h d l c :
  c < length h →
  extendStatics i (h ++ d :: l) (length h) (Some c) =
  h ++ match i with
       | Copy => mk_object (o_proto d) (copied (o_own d) (own h c))
       | _ => mk_object (Some c) (o_own d)
       end :: l.
Proof.
  intros Hc. destruct i; simpl; [unfold set_proto; by rewrite (alter_new h) by done..|]. by apply copy_statics_new.
Qed.

Lemma extend_heap has_reflect i h c p :
  heap_wf h → c < length h → prototype_of h c = Some p →
  extend has_reflect i h c =
  (h ++ extended_objects (extended_function has_reflect i h c) (negb has_reflect) (length h) p, length h).
Proof.
  intros Hw Hc Hp.
  destruct has_reflect; unfold extend, extendWithReflect, extendWithoutReflect, new_function, extends; simpl; f_equal.
  - rewrite prototype_of_app, Hp by done. unfold set_own, set_proto. rewrite <-(assoc_L (++)). simpl.
    rewrite !(alter_new h) by done. unfold extended_objects. rewrite length_app. simpl.
    by rewrite (Nat.add_comm (length h)).
  - rewrite extendStatics_new, prototype_of_app, Hp by done. unfold set_own. rewrite <-(assoc_L (++)). simpl.
    rewrite (alter_new h) by done. unfold extended_objects. rewrite length_app. simpl.
    rewrite (Nat.add_comm (length h)). by destruct i.
Qed.

Lemma get_copied own_d own_b key :
  JMap.wf own_b →
  JMap.get key (copied own_d own_b) =
  match JMap.get key own_b with
  | Some p => if p_enumerable p then Some (mk_property true (p_value p)) else JMap.get key own_d
  | None => JMap.get key own_d
  end.
Proof.
  unfold copied, JMap.wf. revert own_d. induction own_b as [|[k p] own_b IH]; intros own_d Hnd; [done|].
  simpl in *. apply NoDup_cons in Hnd as [Hk Hnd]. rewrite IH by done.
  assert (JMap.get k own_b = None) as Hno by by apply JMap.get_None.
  destruct (decide (key = k)) as [->|Hne].
  - rewrite Hno. destruct (p_enumerable p); [|done]. by rewrite Obj.obj_get_set, decide_True.
  - destruct (p_enumerable p); [|done]. by rewrite Obj.obj_get_set, decide_False.
Qed.

Lemma copied_wf own_d own_b : JMap.wf own_d → JMap.wf (copied own_d own_b).
Proof.
  unfold copied. revert own_d. induction own_b as [|[k p] own_b IH]; intros own_d Hd; simpl; [done|]. apply IH.
  destruct (p_enumerable p); [|done]. by apply Obj.obj_NoDup_set.
Qed.

(** What an extended class has as statics: what its class has, or, in a browser
    that cannot set prototypes, the properties that were copied. *)
Definition inherited_static (has_reflect : bool) (i : inheritance) (h : heap) (c : nat) (key : string) : option value :=
  match has_reflect, i with
  | false, Copy =>
    match JMap.get key (own h c) with
    | Some (mk_property true v) => Some v
    | _ => lookup h Function_prototype key
    end
  | _, _ => lookup h c key
  end.

(** What [extend] promises of the extended class [e] of a class with statics
    [static] and prototype [p]: [h] are the objects before and [h'] after. *)
Record extends_class (h : heap) (static : string → option value) (p : nat) (h' : heap) (e : nat) : Prop := {
  ec_old o key : o < length h → lookup h' o key = lookup h o key;
  ec_static key : key ≠ "prototype" → lookup h' e key = static key;
  ec_prototype : ∃ q, prototype_of h' e = Some q ∧ length h ≤ q ∧ lookup h' q "constructor" = Some (VObject e) ∧
    ∀ key, key ≠ "constructor" → lookup h' q key = lookup h p key;
  ec_new : length h ≤ e;
  ec_wf : heap_wf h' }.

Section extended.
Context (has_reflect : bool) (i : inheritance) (h : heap) (c p : nat).
Context (Hw : heap_wf h) (Hc : c < length h) (Hp : prototype_of h c = Some p) (Hlen : p < length h).
Context (HF : Function_prototype < length h) (HO : Object_prototype < length h).

Local Notation d := (extended_function has_reflect i h c).
Local Notation h' := (h ++ extended_objects d (negb has_reflect) (length h) p).

Lemma extended_get key :
  p_value <$> JMap.get key (o_own d) =
  if decide (key = "prototype") then Some (VObject (2 + length h))
  else match has_reflect, i, JMap.get key (own h c) with
       | false, Copy, Some (mk_property true v) => Some v
       | _, _, _ => None
       end.
Proof.
  assert (p_value <$> JMap.get key [("prototype", mk_property false (VObject (2 + length h)))] =
    if decide (key = "prototype") then Some (VObject (2 + length h)) else None) as Hone by by simpl; case_decide.
  destruct has_reflect, i; try exact Hone.
  unfold extended_function. simpl. rewrite Obj.obj_get_set. destruct (decide (key = "prototype")) as [->|Hne].
  { by rewrite decide_True. }
  rewrite (decide_False (P := "prototype" = key)) by done. rewrite get_copied by apply Hw. simpl.
  rewrite (decide_False (P := key = "prototype")) by done.
  by destruct (JMap.get key (own h c)) as [[[] v]|].
Qed.

Lemma extended_wf : heap_wf h'.
Proof.
  assert (∀ q, o_proto d = Some q → q < length h) as Hd by (destruct has_reflect, i; simpl; intros; simplify_eq; lia).
  assert (h' = ((h ++ [d]) ++ [mk_object (Some Object_prototype) [("constructor", mk_property false (VObject (length h)))]])
    ++ [mk_object (Some p) [("constructor", mk_property (negb has_reflect) (VObject (length h)))]]) as ->
    by by rewrite <-!(assoc_L (++)).
  repeat apply heap_wf_snoc; rewrite ?length_app; simpl; try apply own_wf_one; try (intros; simplify_eq; lia); try done.
  destruct has_reflect, i; try apply own_wf_one. apply Obj.obj_NoDup_set, copied_wf, own_wf_one.
Qed.

Lemma extended_new k x :
  extended_objects d (negb has_reflect) (length h) p !! k = Some x →
  ∀ key, lookup h' (length h + k) key =
    match JMap.get key (o_own x) with
    | Some v => Some (p_value v)
    | None => match o_proto x with Some q => lookup h' q key | None => None end
    end.
Proof.
  intros Hx key. rewrite lookup_unfold by apply extended_wf. unfold proto, own.
  rewrite lookup_app_r by lia. replace (length h + k - length h) with k by lia. by rewrite Hx.
Qed.

Lemma extended_static key :
  lookup h' (length h) key =
  if decide (key = "prototype") then Some (VObject (2 + length h)) else inherited_static has_reflect i h c key.
Proof.
  pose proof (extended_new 0 _ eq_refl key) as He. rewrite Nat.add_0_r in He. rewrite He. clear He.
  pose proof (extended_get key) as Hg.
  assert (∀ q, o_proto d = Some q → lookup h' q key = lookup h q key) as Hd.
  { intros q Hq. apply lookup_app; [done|]. destruct has_reflect, i; simplify_eq/=; done. }
  destruct (JMap.get key (o_own d)) as [v|]; simpl in Hg; case_decide; simplify_eq/=.
  - by rewrite Hg.
  - destruct has_reflect, i; try done. simpl in *. destruct (JMap.get key (own h c)) as [[[] w]|]; by simplify_eq.
  - destruct has_reflect, i; simpl in *; rewrite ?Hd by done; try done.
    by destruct (JMap.get key (own h c)) as [[[] w]|].
Qed.

Lemma extended_class : extends_class h (inherited_static has_reflect i h c) p h' (length h).
Proof.
  split; [..|done|apply extended_wf].
  - intros o key Ho. by apply lookup_app.
  - intros key Hk. by rewrite extended_static, decide_False.
  - exists (2 + length h). pose proof (extended_new 2 _ eq_refl) as Hq.
    rewrite (Nat.add_comm (length h)) in Hq. split_and!; [|lia|..].
    + unfold prototype_of. by rewrite extended_static, decide_True.
    + by rewrite Hq.
    + intros key Hk. rewrite Hq. simpl. rewrite decide_False by done. by apply lookup_app.
Qed.
End extended.

(** Where prototypes can be set, the objects of the two branches of [extend] are
    read alike. *)
Lemma lookup_extended b b' d h p o key :
  lookup (h ++ extended_objects d b (length h) p) o key = lookup (h ++ extended_objects d b' (length h) p) o key.
Proof.
  unfold lookup. generalize (S o) as n. intros n. revert o. induction n as [|n IH]; intros o; [done|]. simpl.
  assert (proto (h ++ extended_objects d b (length h) p) o = proto (h ++ extended_objects d b' (length h) p) o ∧
    p_value <$> JMap.get key (own (h ++ extended_objects d b (length h) p) o) =
    p_value <$> JMap.get key (own (h ++ extended_objects d b' (length h) p) o)) as [-> Hown].
  { unfold proto, own. destruct (decide (o < length h)) as [Ho|Ho].
    - by rewrite !lookup_app_l by done.
    - rewrite !lookup_app_r by lia. destruct (o - length h) as [|[|[|k]]]; simpl; try done. by case_decide. }
  destruct (JMap.get key (own (h ++ extended_objects d b _ _) o)),
    (JMap.get key (own (h ++ extended_objects d b' _ _) o)); simplify_eq/=; [congruence|].
  by destruct (proto (h ++ extended_objects d b' _ _) o).
Qed.


(** ** The instances of an extended class *)

(** A class is a function, or a class declaration, whose constructor cannot be
    applied.  [body] is what its constructor does to a new object; it may throw. *)
Inductive constructor_kind := ClassDeclaration | FunctionDeclaration.

Section construct.
Context (kind : nat → constructor_kind) (body : nat → heap → nat → string + heap).

Definition run_body (c : nat) (h : heap) (this : nat) : string + (heap * nat) :=
  match body c h this with inl e => inl e | inr h => inr (h, this) end.

(** A new object for [new newTarget]. *)
Definition create (h : heap) (newTarget : nat) : heap * nat :=
  (h ++ [mk_object (Some (default Object_prototype (prototype_of h newTarget))) []], length h).

(** [Reflect.construct(constructor, arguments, newTarget)] *)
Definition Reflect_construct (h : heap) (c : nat) (newTarget : option value) : string + (heap * nat) :=
  match newTarget with
  | Some (VObject t) => let '(h, this) := create h t in run_body c h this
  | _ => inl "newTarget is not a constructor"
  end.

(** The body of the [extended] of each branch; [this] is [undefined] in a call
    without [new]. *)
Definition extended_reflect (h : heap) (extended c : nat) (this : option nat) : string + (heap * nat) :=
  let newTarget := match this with
                   | Some o => if instanceof h o extended then lookup h o "constructor" else None
                   | None => None
                   end in
  Reflect_construct h c newTarget.

Definition extended_apply (h : heap) (c this : nat) : string + (heap * nat) :=
  match kind c with
  | ClassDeclaration => inl "a class constructor cannot be invoked without new"
  | FunctionDeclaration => run_body c h this
  end.

(** [new extended] *)
Definition new_extended (has_reflect : bool) (h : heap) (extended c : nat) : string + (heap * nat) :=
  let '(h, this) := create h extended in
  if has_reflect then extended_reflect h extended c (Some this) else extended_apply h c this.
End construct.

(** [testReflectExtension()]: the body of [a] calls the method [a] of its
    instance, which is one of [b]'s. *)
Definition test_body (_ : nat) (h : heap) (this : nat) : string + heap :=
  match lookup h this "a" with Some _ => inr h | None => inl "this.a is undefined" end.

Definition testReflectExtension (has_reflect : bool) (h : heap) : string + (heap * nat) :=
  if has_reflect then
    let '(h, a) := new_function h in
    let '(h, b) := extendWithReflect h a in
    match prototype_of h b with
    | Some p => new_extended (λ _, FunctionDeclaration) test_body true
                  (set_own "a" (mk_property true (VData "function() {}")) h p) b a
    | None => inl "b.prototype is undefined"
    end
  else inl "Reflect is not defined".

Lemma lookup_bound h o key v : lookup h o key = Some v → o < length h.
Proof.
  intros Hv. destruct (decide (o < length h)) as [|Ho]; [done|].
  unfold lookup in Hv. simpl in Hv. unfold own, proto in Hv. by rewrite lookup_ge_None_2 in Hv by lia.
Qed.

(** A new object has what its prototype has, and is an instance of its class. *)
Lemma created h t q :
  heap_wf h → prototype_of h t = Some q → q < length h →
  let h' := (create h t).1 in
  heap_wf h' ∧ prototype_of h' t = Some q ∧ instanceof h' (length h) t = true ∧
  ∀ key, lookup h' (length h) key = lookup h q key.
Proof.
  intros Hw Hq Hlen. simpl. rewrite Hq. simpl. set (h' := h ++ _).
  assert (own h' (length h) = [] ∧ proto h' (length h) = Some q) as [Hown Hproto].
  { unfold own, proto, h'. by rewrite lookup_app_r, Nat.sub_diag by lia. }
  assert (heap_wf h') as Hw' by (apply heap_wf_snoc; [done|by intros ? [= <-]|apply NoDup_nil_2]).
  assert (prototype_of h' t = Some q) as Hq'.
  { unfold h'. rewrite prototype_of_app; [done..|]. unfold prototype_of in Hq.
    destruct (lookup h t "prototype") eqn:Ht; [|done]. by apply lookup_bound in Ht. }
  split_and!; [done..| |].
  - unfold instanceof. rewrite Hq'. simpl. by rewrite Hproto, bool_decide_true.
  - intros key. rewrite lookup_unfold, Hown, Hproto by done. by apply lookup_app.
Qed.

(** [new] of a class [e] that [extend] made of [c], by the constructor that its
    prototype [q] names. *)
Lemma new_constructor kind body has_reflect h e q c :
  heap_wf h → prototype_of h e = Some q → lookup h q "constructor" = Some (VObject e) →
  ∃ h1, h `prefix_of` h1 ∧ heap_wf h1 ∧ prototype_of h1 e = Some q ∧
  new_extended kind body has_reflect h e c =
  if negb has_reflect && (match kind c with ClassDeclaration => true | _ => false end)
  then inl "a class constructor cannot be invoked without new"
  else run_body body c (create h1 e).1 (length h1).
Proof.
  intros Hw Hq Hconstructor. pose proof (lookup_bound _ _ _ _ Hconstructor) as Hlen.
  destruct (created h e q Hw Hq Hlen) as (Hw1 & Hq1 & Hinst & Hlook).
  unfold new_extended. destruct has_reflect; simpl.
  - exists (create h e).1. split_and!; [by apply prefix_app_r|done..|].
    unfold extended_reflect. simpl in *. by rewrite Hinst, Hlook, Hconstructor.
  - exists h. split_and!; [done..|]. unfold extended_apply. by destruct (kind c).
Qed.

(** [new] of an extended class runs the constructor of the class, once, on a new
    object that has what the prototype of the extended class has: in every
    browser, but for class declarations where there is no [Reflect]. *)
Lemma new_extended_instance kind body has_reflect h static p h' e c :
  extends_class h static p h' e →
  ∃ h1 q, prototype_of h' e = Some q ∧ (∀ key, lookup h1 (length h1 - 1) key = lookup h' q key) ∧
  new_extended kind body has_reflect h' e c =
  if negb has_reflect && (match kind c with ClassDeclaration => true | _ => false end)
  then inl "a class constructor cannot be invoked without new"
  else run_body body c h1 (length h1 - 1).
Proof.
  intros [_ _ (q & Hq & _ & Hconstructor & _) _ Hw].
  destruct (new_constructor kind body has_reflect h' e q c Hw Hq Hconstructor) as (h1 & [l ->] & Hw1 & Hq1 & ->).
  pose proof (lookup_bound _ _ _ _ Hconstructor) as Hlen.
  destruct (created (h' ++ l) e q Hw1 Hq1 ltac:(rewrite length_app; lia)) as (_ & _ & _ & Hlook).
  exists (create (h' ++ l) e).1, q.
  assert (length (create (h' ++ l) e).1 - 1 = length (h' ++ l)) as -> by (simpl; rewrite (length_app (h' ++ l)); simpl; lia).
  split_and!; [done| |done]. intros key. rewrite Hlook. by apply lookup_app.
Qed.

Lemma lookup_set_own_ne h k v t o key : t < length h → key ≠ k → lookup (set_own k v h t) o key = lookup h o key.
Proof.
  intros Ht Hk. unfold lookup. generalize (S o) as n. intros n. revert o. induction n as [|n IH]; intros o; [done|].
  simpl. rewrite own_set_own, proto_set_own by done.
  assert (JMap.get key (if decide (o = t) then Obj.set k v (own h o) else own h o) = JMap.get key (own h o)) as ->.
  { case_decide; [|done]. by rewrite Obj.obj_get_set, decide_False by congruence. }
  destruct (JMap.get key (own h o)); [done|]. by destruct (proto h o).
Qed.

Lemma set_own_wf k v h t : t < length h → heap_wf h → heap_wf (set_own k v h t).
Proof.
  intros Ht [Hp Ho]. split; intros o.
  - intros p. rewrite proto_set_own. apply Hp.
  - rewrite own_set_own by done. case_decide; [|apply Ho]. apply Obj.obj_NoDup_set, Ho.
Qed.

(** The test succeeds exactly in the browsers that have [Reflect]; [extend] has
    the branch that it chooses. *)
Lemma testReflectExtension_reflect has_reflect h :
  heap_wf h → Function_prototype < length h → Object_prototype < length h →
  (∃ r, testReflectExtension has_reflect h = inr r) ↔ has_reflect = true.
Proof.
  intros Hw HF HO. split; [by destruct has_reflect; intros [? ?]|intros ->].
  unfold testReflectExtension, new_function. set (a := length h).
  set (h1 := h ++ _).
  assert (length h1 = S (S a)) as Hlen by (unfold h1; rewrite length_app; simpl; lia).
  assert (heap_wf h1) as Hw1.
  { unfold h1. rewrite (cons_middle _ h), (assoc_L (++)).
    repeat apply heap_wf_snoc; rewrite ?length_app; simpl; try apply own_wf_one; try done; intros; simplify_eq; lia. }
  assert (prototype_of h1 a = Some (S a)) as Hp.
  { unfold prototype_of, lookup. simpl. unfold own, h1, a. by rewrite lookup_app_r, Nat.sub_diag by lia. }
  pose proof (extended_class true Copy h1 a (S a) Hw1 ltac:(lia) Hp ltac:(lia) ltac:(lia) ltac:(lia)) as Hb.
  pose proof (extend_heap true Copy h1 a (S a) Hw1 ltac:(lia) Hp) as Hext. simpl in Hext, Hb. rewrite Hext.
  set (h2 := h1 ++ _) in *. set (b := length h1) in *.
  destruct Hb as [_ _ (q & Hq & _ & Hconstructor & _) _ Hw2]. rewrite Hq.
  pose proof (lookup_bound _ _ _ _ Hconstructor) as Hqlen.
  set (h3 := set_own _ _ h2 q).
  assert (heap_wf h3) as Hw3 by by apply set_own_wf.
  assert (prototype_of h3 b = Some q) as Hq3 by (unfold prototype_of, h3; by rewrite lookup_set_own_ne).
  destruct (new_constructor (λ _, FunctionDeclaration) test_body true h3 b q a Hw3 Hq3)
    as (h4 & [l ->] & Hw4 & Hq4 & ->); [unfold h3; by rewrite lookup_set_own_ne|].
  assert (q < length h3) as Hqlen3 by (unfold h3, set_own; by rewrite length_alter).
  destruct (created (h3 ++ l) b q Hw4 Hq4 ltac:(rewrite length_app; lia)) as (_ & _ & _ & Hlook).
  assert (lookup h3 q "a" = Some (VData "function() {}")) as Ha.
  { rewrite lookup_unfold by done. unfold h3. by rewrite own_set_own, decide_True, Obj.obj_get_set by done. }
  unfold run_body, test_body. simpl. rewrite Hlook, lookup_app, Ha by done. eauto.
Qed.
End extends.

(** ** Classes of the renderer

    The helpers of [src/gui/web/assets/scripts/viz.js]: [createClass],
    [classCallCheck] and [_extends]. *)

(** A descriptor with a [value]; [descriptor.enumerable || false]. *)
Record descriptor := mk_descriptor { d_key : string; d_enumerable : option bool; d_value : value }.

Definition defineProperties (h : heap) (target : nat) (props : list descriptor) : heap :=
  foldl (λ h d, set_own (d_key d) (mk_property (default false (d_enumerable d)) (d_value d)) h target) h props.

Definition createClass (h : heap) (Constructor : nat) (protoProps staticProps : option (list descriptor)) : heap :=
  let h := match protoProps, prototype_of h Constructor with
           | Some props, Some p => defineProperties h p props
           | _, _ => h
           end in
  match staticProps with Some props => defineProperties h Constructor props | None => h end.

(** [classCallCheck(instance, Constructor)]; a call without [new] has
    [undefined] as [this]. *)
Definition classCallCheck (h : heap) (instance : option nat) (Constructor : nat) : string + unit :=
  if match instance with Some o => instanceof h o Constructor | None => false end then inr tt
  else inl "Cannot call a class as a function".

(** [_extends(target, ...sources)], on the objects' own properties. *)
Definition _extends (target : list (string * property)) (sources : list (list (string * property))) :
    list (string * property) :=
  foldl copied target sources.

(** The last source that has a property decides. *)
Lemma get_extends target sources key :
  Forall JMap.wf sources →
  p_value <$> JMap.get key (_extends target sources) =
  foldl (λ v s, match JMap.get key s with Some (mk_property true w) => Some w | _ => v end)
    (p_value <$> JMap.get key target) sources.
Proof.
  unfold _extends. intros Hs. revert target. induction Hs as [|s sources Hw Hs IH]; intros target; [done|]. simpl.
  rewrite IH, get_copied by done. f_equal. by destruct (JMap.get key s) as [[[] v]|].
Qed.

Lemma defineProperties_spec h t props :
  t < length h → NoDup (d_key <$> props) →
  let h' := defineProperties h t props in
  length h' = length h ∧ (∀ o, proto h' o = proto h o) ∧ (∀ o, o ≠ t → own h' o = own h o) ∧
  (∀ d, d ∈ props → JMap.get (d_key d) (own h' t) = Some (mk_property (default false (d_enumerable d)) (d_value d))) ∧
  (∀ key, key ∉ d_key <$> props → JMap.get key (own h' t) = JMap.get key (own h t)).
Proof.
  simpl. unfold defineProperties. revert h. induction props as [|d props IH]; intros h Ht Hnd; simpl.
  { split_and!; [done..| |done]. set_solver. }
  apply NoDup_cons in Hnd as [Hd Hnd].
  set (h1 := set_own _ _ h t).
  assert (length h1 = length h) as Hlen by apply length_alter.
  destruct (IH h1 ltac:(lia) Hnd) as (Hl & Hproto & Hown & Hin & Hout).
  split_and!.
  - by rewrite Hl.
  - intros o. by rewrite Hproto; unfold h1; rewrite proto_set_own.
  - intros o Ho. rewrite Hown by done. unfold h1. by rewrite own_set_own, decide_False.
  - intros d' [->|Hd']%elem_of_cons; [|by apply Hin].
    rewrite Hout by done. unfold h1. by rewrite own_set_own, decide_True, Obj.obj_get_set, decide_True.
  - intros key [Hk Hk']%not_elem_of_cons. rewrite Hout by done. unfold h1.
    by rewrite own_set_own, decide_True, Obj.obj_get_set, decide_False by congruence.
Qed.

(** The methods that [createClass] defines can be called on the instances, which
    pass the check of the constructor; a call of the class without [new] does
    not. *)
Lemma class_methods h c p methods :
  c < length h → p < length h → c ≠ p → NoDup (d_key <$> methods) →
  JMap.get "prototype" (own h c) = Some (mk_property false (VObject p)) →
  let h' := createClass h c (Some methods) None in
  let o := length h' in
  let h'' := h' ++ [mk_object (prototype_of h' c) []] in
  (∀ d, d ∈ methods → lookup h'' o (d_key d) = Some (d_value d)) ∧
  classCallCheck h'' (Some o) c = inr tt ∧ classCallCheck h'' None c = inl "Cannot call a class as a function".
Proof.
  intros Hc Hp Hcp Hnd Hpc. unfold createClass.
  assert (∀ h', own h' c = own h c → prototype_of h' c = Some p) as Hproto.
  { intros h' Hown. unfold prototype_of, lookup. simpl. by rewrite Hown, Hpc. }
  rewrite Hproto by done. destruct (defineProperties_spec h p methods Hp Hnd) as (Hlen & _ & Hown & Hin & _).
  set (h' := defineProperties h p methods) in *. simpl. rewrite (Hproto h') by by apply Hown.
  set (h'' := h' ++ _).
  assert (∀ o, o < length h' → own h'' o = own h' o) as Hold.
  { intros o Ho. unfold own, h''. by rewrite lookup_app_l. }
  assert (own h'' (length h') = [] ∧ proto h'' (length h') = Some p) as [Hnew Hnewp].
  { unfold own, proto, h''. by rewrite lookup_app_r, Nat.sub_diag by lia. }
  split_and!; [| |done].
  - intros d Hd. unfold lookup. simpl. rewrite Hnew, Hnewp. simpl.
    destruct (length h') as [|n] eqn:Hn; [lia|]. simpl. by rewrite Hold, (Hin d Hd) by lia.
  - unfold classCallCheck, instanceof. rewrite (Hproto h'') by (rewrite Hold by lia; by apply Hown).
    simpl. rewrite Hnewp. by rewrite bool_decide_true.
Qed.

(** [class Base { static targets = …; send() {…} }] and a class that extends
    it. *)
Definition sample_heap : heap :=
  let method v := mk_property false (VData v) in
  [mk_object None [];
   mk_object (Some 0) [("call", method "call")];
   mk_object (Some 1) [("prototype", mk_property false (VObject 3)); ("targets", mk_property true (VData "targets"))];
   mk_object (Some 0) [("constructor", mk_property false (VObject 2)); ("send", method "send")];
   mk_object (Some 2) [("prototype", mk_property false (VObject 5)); ("values", mk_property true (VData "values"))];
   mk_object (Some 3) [("constructor", mk_property false (VObject 4)); ("update", method "update")]].

Lemma sample_heap_wf : heap_wf sample_heap.
Proof.
  split.
  - intros [|[|[|[|[|[|o]]]]]] p; vm_compute; intros; simplify_eq; lia.
  - intros [|[|[|[|[|[|o]]]]]]; [apply (bool_decide_unpack _); by vm_compute..|]. apply NoDup_nil_2.
Qed.

