(* ===== verification/Blessings.v ===== *)
(** Blessed classes: the class that an application makes of a registered
    controller class, with the properties of its targets, values and classes.

    Models [src/gui/web/assets/scripts/stimulus.js], the functions
    [readInheritableStatic…], [bless], [shadow] and [extend], and the blessings
    of [Controller].  Classes are objects of a heap, the prototype of an object
    being created before it; a property is what a class defines itself, a
    method or an accessor, known by its code, or what a blessing adds. *)

From S2P Require Import Prelude JsCore JsString Dom Scopes Names Json Targets Values.
From Stdlib Require Import Ascii.
From stdpp Require Import pretty.

#[local] Open Scope string_scope.
#[local] Open Scope list_scope.

(** ** Classes *)

Inductive blessing := ClassPropertiesBlessing | TargetPropertiesBlessing | ValuePropertiesBlessing.

#[export] Instance blessing_eq_dec : EqDecision blessing.
Proof. solve_decision. Defined.

(** What a static property of a class holds. *)
Inductive static :=
  | SFalsy
  | SBlessings (l : list blessing)
  | SStrings (l : list string)
  | SPairs (o : list (string * typeConstant)).

Inductive getter :=
  | OwnGetter (code : string)
  | GetClass (key : string)
  | HasClass (key : string)
  | GetTarget (name : string)
  | GetTargets (name : string)
  | HasTarget (name : string)
  | ValueGetter (p : value_property).

Inductive setter := OwnSetter (code : string) | SetValue (d : value_descriptor).

Record accessor := mk_accessor { ac_get : option getter; ac_set : option setter }.

Inductive descriptor := DValue (code : string) | DAccessor (a : accessor).

#[export] Instance getter_eq_dec : EqDecision getter.
Proof. solve_decision. Defined.
#[export] Instance setter_eq_dec : EqDecision setter.
Proof. solve_decision. Defined.
#[export] Instance accessor_eq_dec : EqDecision accessor.
Proof. solve_decision. Defined.
#[export] Instance property_eq_dec : EqDecision descriptor.
Proof. solve_decision. Defined.

Record class_object := mk_class {
  (** [Object.getPrototypeOf(constructor)] *)
  co_parent : option nat;
  co_statics : list (string * static);
  (** The own properties of [constructor.prototype]. *)
  co_prototype : list (string * descriptor);
}.

Abbreviation heap := (list class_object).

Definition parent (h : heap) (c : nat) : option nat := h !! c ≫= co_parent.

(** Prototypes form no cycle: an object's is older. *)
Definition heap_wf (h : heap) : Prop := ∀ c p, parent h c = Some p → (p < c)%nat.

(** The class and those above it, nearest first. *)
Fixpoint chain_go (fuel : nat) (h : heap) (c : nat) : list nat :=
  match fuel with
  | 0 => []
  | S fuel => c :: match parent h c with Some p => chain_go fuel h p | None => [] end
  end.
Definition chain (h : heap) (c : nat) : list nat := chain_go (S c) h c.

(** [constructor[propertyName]] *)
Definition static_of (h : heap) (propertyName : string) (c : nat) : option static :=
  head (omap (λ c, h !! c ≫= λ o, JMap.get propertyName (co_statics o)) (chain h c)).

(** [prototype[key]], through the prototypes. *)
Definition lookup_property (h : heap) (c : nat) (key : string) : option descriptor :=
  head (omap (λ c, h !! c ≫= λ o, JMap.get key (co_prototype o)) (chain h c)).

(** *** Inheritable static properties *)

(** [while (constructor) …]; [None] if the fuel runs out. *)
Fixpoint ancestors_loop (fuel : nat) (h : heap) (constructor : option nat) (ancestors : list nat)
    : option (list nat) :=
  match constructor with
  | None => Some (reverse ancestors)
  | Some c =>
    match fuel with
    | 0 => None
    | S fuel => ancestors_loop fuel h (parent h c) (ancestors ++ [c])
    end
  end.

Definition getAncestorsForConstructor (h : heap) (c : nat) : list nat :=
  default [] (ancestors_loop (S c) h (Some c) []).

(** The elements of an array property, and the properties of an object, or of
    an array by its indexes. *)
Definition static_blessings (s : static) : list blessing := match s with SBlessings l => l | _ => [] end.
Definition static_strings (s : static) : list string := match s with SStrings l => l | _ => [] end.
Definition static_pairs (s : static) : list (string * typeConstant) :=
  match s with
  | SPairs o => o
  | SStrings l => imap (λ i s, (pretty i, COther s)) l
  | SBlessings l => imap (λ i _, (pretty i, COther "function")) l
  | SFalsy => []
  end.

Definition getOwnStaticArrayValues {A} (elements : static → list A) (h : heap) (propertyName : string) (c : nat)
    : list A :=
  match static_of h propertyName c with Some s => elements s | None => [] end.

Definition getOwnStaticObjectPairs (h : heap) (propertyName : string) (c : nat) : list (string * typeConstant) :=
  match static_of h propertyName c with Some s => static_pairs s | None => [] end.

Definition readInheritableStaticArrayValues {A} `{EqDecision A} (elements : static → list A)
    (h : heap) (c : nat) (propertyName : string) : list A :=
  foldl (λ values c, foldl (λ values x, JSet.add x values) values (getOwnStaticArrayValues elements h propertyName c))
    [] (getAncestorsForConstructor h c).

Definition readInheritableStaticObjectPairs (h : heap) (c : nat) (propertyName : string)
    : list (string * typeConstant) :=
  foldl (λ pairs c, pairs ++ getOwnStaticObjectPairs h propertyName c) [] (getAncestorsForConstructor h c).

(** ** The blessings *)

Definition getter_only (g : getter) : accessor := mk_accessor (Some g) None.

Definition propertiesForClassDefinition (key : string) : list (string * accessor) :=
  let name := key +:+ "Class" in
  Obj.set ("has" +:+ capitalize name) (getter_only (HasClass key)) [(name, getter_only (GetClass key))].

Definition propertiesForTargetDefinition (name : string) : list (string * accessor) :=
  Obj.set ("has" +:+ capitalize name +:+ "Target") (getter_only (HasTarget name))
    (Obj.set (name +:+ "Targets") (getter_only (GetTargets name))
       [(name +:+ "Target", getter_only (GetTarget name))]).

Definition accessor_of_value (p : value_property) : accessor :=
  mk_accessor (Some (ValueGetter p)) (match p with GetValue d => Some (SetValue d) | _ => None end).

Definition class_properties (h : heap) (c : nat) : list (string * accessor) :=
  foldl (λ properties key, object_assign properties (propertiesForClassDefinition key)) []
    (readInheritableStaticArrayValues static_strings h c "classes").

Definition target_properties (h : heap) (c : nat) : list (string * accessor) :=
  foldl (λ properties name, object_assign properties (propertiesForTargetDefinition name)) []
    (readInheritableStaticArrayValues static_strings h c "targets").

Definition value_properties_of (h : heap) (c : nat) : list (string * accessor) + string :=
  match Values.ValuePropertiesBlessing (readInheritableStaticObjectPairs h c "values") with
  | inl properties => inl ((λ kp, (kp.1, accessor_of_value kp.2)) <$> properties)
  | inr error => inr error
  end.

(** [blessing(constructor)] *)
Definition apply_blessing (h : heap) (c : nat) (b : blessing) : list (string * accessor) + string :=
  match b with
  | ClassPropertiesBlessing => inl (class_properties h c)
  | TargetPropertiesBlessing => inl (target_properties h c)
  | ValuePropertiesBlessing => value_properties_of h c
  end.

(** [Object.assign(descriptor, properties[key])] *)
Definition merge (old new : accessor) : accessor :=
  mk_accessor (match ac_get new with Some g => Some g | None => ac_get old end)
              (match ac_set new with Some s => Some s | None => ac_set old end).

Definition bless_property (blessed : list (string * accessor)) (kp : string * accessor) : list (string * accessor) :=
  Obj.set kp.1 (merge (default (mk_accessor None None) (JMap.get kp.1 blessed)) kp.2) blessed.

Definition getBlessedProperties (h : heap) (c : nat) : list (string * accessor) + string :=
  foldl (λ blessed b,
    match blessed with
    | inl blessed =>
      match apply_blessing h c b with
      | inl properties => inl (foldl bless_property blessed properties)
      | inr error => inr error
      end
    | inr error => inr error
    end) (inl []) (readInheritableStaticArrayValues static_blessings h c "blessings").

(** What the properties of a class attribute give: its value, or the exception
    that it is missing, and whether it is there. *)
Definition get_class {doc : Type} {HD : Dom.Dom doc} (dom : doc) (sc : scope) (key : string) : option string + string :=
  if ClassMap.has dom sc key then inl (ClassMap.get dom sc key)
  else inr ("Error: Missing attribute " +:+ Str.quoted (ClassMap.getAttributeName sc key)).

Definition get_has_class {doc : Type} {HD : Dom.Dom doc} (dom : doc) (sc : scope) (key : string) : bool := ClassMap.has dom sc key.

(** ** The shadow of a class *)

(** The descriptor to define on the shadow, if the class does not define the
    key as a value. *)
Definition getShadowedDescriptor (prototype : list (string * descriptor)) (properties : list (string * accessor))
    (key : string) : option accessor :=
  match JMap.get key prototype with
  | Some (DValue _) => None
  | Some (DAccessor own) =>
    (λ a, mk_accessor (match ac_get own with Some g => Some g | None => ac_get a end)
                      (match ac_set own with Some s => Some s | None => ac_set a end)) <$> JMap.get key properties
  | None => JMap.get key properties
  end.

Definition getShadowProperties (prototype : list (string * descriptor)) (properties : list (string * accessor))
    : list (string * accessor) :=
  foldl (λ shadow key,
    match getShadowedDescriptor prototype properties key with
    | Some a => Obj.set key a shadow
    | None => shadow
    end) [] (Obj.keys properties).

(** The class [extended] and its prototype object, before any property is
    defined. *)
Definition extend (h : heap) (c : nat) : heap * nat :=
  (h ++ [mk_class (Some c) [] [("constructor", DValue "extended")]], length h).

(** [Object.defineProperties(constructor.prototype, properties)] *)
Definition defineProperties (h : heap) (c : nat) (properties : list (string * accessor)) : heap :=
  alter (λ o, mk_class (co_parent o) (co_statics o)
                (foldl (λ ps kp, Obj.set kp.1 (DAccessor kp.2) ps) (co_prototype o) properties)) c h.

Definition prototype_of (h : heap) (c : nat) : list (string * descriptor) :=
  match h !! c with Some o => co_prototype o | None => [] end.

Definition shadow (h : heap) (c : nat) (properties : list (string * accessor)) : heap * nat :=
  let '(h', s) := extend h c in
  (defineProperties h' s (getShadowProperties (prototype_of h' c) properties), s).

Definition bless (h : heap) (c : nat) : heap * nat + string :=
  match getBlessedProperties h c with
  | inl properties => inl (shadow h c properties)
  | inr error => inr error
  end.

(** [blessDefinition] *)
Definition blessDefinition (h : heap) (identifier : string) (c : nat) : heap * (string * nat) + string :=
  match bless h c with inl (h, s) => inl (h, (identifier, s)) | inr error => inr error end.

(** ** Ancestors *)

Lemma chain_go_fuel h c fuel fuel' :
  heap_wf h → (c < fuel)%nat → (c < fuel')%nat → chain_go fuel h c = chain_go fuel' h c.
Proof.
  intros Hw. revert c fuel'. induction fuel as [|fuel IH]; intros c fuel' Hf Hf'; [lia|].
  destruct fuel' as [|fuel']; [lia|]. simpl. f_equal. destruct (parent h c) as [p|] eqn:Hp; [|done].
  pose proof (Hw _ _ Hp). apply IH; lia.
Qed.

Lemma chain_cons h c :
  heap_wf h → chain h c = c :: match parent h c with Some p => chain h p | None => [] end.
Proof.
  intros Hw. unfold chain at 1. simpl. f_equal. destruct (parent h c) as [p|] eqn:Hp; [|done].
  pose proof (Hw _ _ Hp). apply chain_go_fuel; [done|lia..].
Qed.

Lemma ancestors_loop_chain h c fuel acc :
  heap_wf h → (c < fuel)%nat → ancestors_loop fuel h (Some c) acc = Some (reverse (acc ++ chain h c)).
Proof.
  intros Hw. revert c acc. induction fuel as [|fuel IH]; intros c acc Hf; [lia|].
  rewrite chain_cons by done. simpl. destruct (parent h c) as [p|] eqn:Hp.
  - pose proof (Hw _ _ Hp). rewrite IH by lia. by rewrite <-(assoc_L (++)).
  - by destruct fuel.
Qed.

Lemma getAncestors_chain h c : heap_wf h → getAncestorsForConstructor h c = reverse (chain h c).
Proof. intros Hw. unfold getAncestorsForConstructor. by rewrite ancestors_loop_chain by (done || lia). Qed.

Lemma chain_le h c x : heap_wf h → x ∈ chain h c → (x ≤ c)%nat.
Proof.
  intros Hw. revert x. induction c as [c IH] using lt_wf_ind. intros x.
  rewrite chain_cons, elem_of_cons by done. intros [->|Hx]; [done|].
  destruct (parent h c) as [p|] eqn:Hp; [|by apply not_elem_of_nil in Hx].
  specialize (IH p (Hw _ _ Hp) x Hx). pose proof (Hw _ _ Hp). lia.
Qed.

Lemma chain_trans h c c' x : heap_wf h → c' ∈ chain h c → x ∈ chain h c' → x ∈ chain h c.
Proof.
  intros Hw. induction c as [c IH] using lt_wf_ind. intros Hc' Hx.
  rewrite chain_cons, elem_of_cons in Hc' by done. destruct Hc' as [->|Hc']; [done|].
  rewrite chain_cons by done. right. destruct (parent h c) as [p|] eqn:Hp; [|by apply not_elem_of_nil in Hc'].
  by eapply (IH p (Hw _ _ Hp)).
Qed.

(** Each class of a list is the parent of the next. *)
Inductive lineage (h : heap) : list nat → Prop :=
  | lineage_root c : parent h c = None → lineage h [c]
  | lineage_snoc l p c : lineage h (l ++ [p]) → parent h c = Some p → lineage h (l ++ [p; c]).

Lemma chain_lineage h c : heap_wf h → ∃ l, reverse (chain h c) = l ++ [c] ∧ lineage h (l ++ [c]).
Proof.
  intros Hw. induction c as [c IH] using lt_wf_ind.
  rewrite chain_cons, reverse_cons by done. destruct (parent h c) as [p|] eqn:Hp.
  - destruct (IH p (Hw _ _ Hp)) as (l & Hl & Hlin). exists (reverse (chain h p)). split; [done|].
    rewrite Hl, <-(assoc_L (++)). by apply lineage_snoc.
  - exists []. split; [done|]. by apply lineage_root.
Qed.

(** C38: the search for the ancestors of a class ends: with one round per object
    of the heap up to the class the loop stops, and returns the classes from
    the root down to the class, each the prototype of the next. *)
Theorem ancestors_terminate h c fuel :
  heap_wf h → (c < fuel)%nat →
  ∃ l, ancestors_loop fuel h (Some c) [] = Some (l ++ [c]) ∧ lineage h (l ++ [c]).
Proof.
  intros Hw Hf. rewrite ancestors_loop_chain, app_nil_l by done.
  destruct (chain_lineage h c Hw) as (l & -> & ?). by exists l.
Qed.

(** *** Inherited arrays *)

Lemma elem_of_adds {A} `{EqDecision A} (own : nat → list A) values cs x :
  x ∈ foldl (λ values c, foldl (λ values x, JSet.add x values) values (own c)) values cs ↔
  x ∈ values ∨ ∃ c, c ∈ cs ∧ x ∈ own c.
Proof.
  revert values. induction cs as [|c cs IH]; intros values; simpl.
  { split; [auto|]. intros [?|(c & ?%not_elem_of_nil & _)]; done. }
  rewrite IH. assert (∀ l values, x ∈ foldl (λ values x, JSet.add x values) values l ↔ x ∈ values ∨ x ∈ l) as ->.
  { clear. induction l as [|y l IH]; intros values; simpl; [set_solver|]. rewrite IH, JSet.elem_of_add. set_solver. }
  setoid_rewrite elem_of_cons. naive_solver.
Qed.

Lemma NoDup_adds {A} `{EqDecision A} (own : nat → list A) values cs :
  NoDup values → NoDup (foldl (λ values c, foldl (λ values x, JSet.add x values) values (own c)) values cs).
Proof.
  revert values. induction cs as [|c cs IH]; intros values Hn; simpl; [done|]. apply IH. clear -Hn.
  revert values Hn. induction (own c) as [|x l IH]; intros values Hn; simpl; [done|]. by apply IH, JSet.NoDup_add.
Qed.

Definition own_static (h : heap) (propertyName : string) (c : nat) : option static :=
  h !! c ≫= λ o, JMap.get propertyName (co_statics o).

Lemma static_of_cons h k c :
  heap_wf h → static_of h k c =
    match own_static h k c with
    | Some s => Some s
    | None => parent h c ≫= static_of h k
    end.
Proof.
  intros Hw. unfold static_of at 1. rewrite chain_cons by done. simpl. fold (own_static h k c).
  destruct (own_static h k c); [done|]. by destruct (parent h c).
Qed.

(** The elements found through a class are those of a class above it. *)
Lemma static_of_own h k c s :
  heap_wf h → static_of h k c = Some s → ∃ c', c' ∈ chain h c ∧ own_static h k c' = Some s.
Proof.
  intros Hw. induction c as [c IH] using lt_wf_ind.
  rewrite static_of_cons by done. rewrite chain_cons by done. destruct (own_static h k c) eqn:Ho.
  - intros [= <-]. exists c. split; [left|done].
  - destruct (parent h c) as [p|] eqn:Hp; [|done]. simpl. intros Hs.
    destruct (IH p (Hw _ _ Hp) Hs) as (c' & ? & ?). exists c'. split; [by right|done].
Qed.

Lemma inherited_elements {A} `{EqDecision A} (elements : static → list A) h c k :
  heap_wf h →
  NoDup (readInheritableStaticArrayValues elements h c k) ∧
  ∀ x, x ∈ readInheritableStaticArrayValues elements h c k ↔
    ∃ c' s, c' ∈ chain h c ∧ own_static h k c' = Some s ∧ x ∈ elements s.
Proof.
  intros Hw. unfold readInheritableStaticArrayValues. split; [apply NoDup_adds, NoDup_nil_2|]. intros x.
  rewrite elem_of_adds, getAncestors_chain by done. setoid_rewrite elem_of_reverse.
  unfold getOwnStaticArrayValues. split.
  - intros [?%not_elem_of_nil|(c' & Hc' & Hx)]; [done|].
    destruct (static_of h k c') as [s|] eqn:Hs; [|by apply not_elem_of_nil in Hx].
    destruct (static_of_own _ _ _ _ Hw Hs) as (c2 & Hc2 & Ho). exists c2, s. split; [|done].
    by eapply chain_trans.
  - intros (c' & s & Hc' & Ho & Hx). right. exists c'. split; [done|].
    by rewrite static_of_cons, Ho.
Qed.

(** ** The properties of a blessed class *)

(** Writing a list of properties over an object. *)
Lemma get_assigns {A V} (f : A → V) (props : list (string * A)) base key :
  NoDup (Obj.keys props) →
  JMap.get key (foldl (λ o kp, Obj.set kp.1 (f kp.2) o) base props) =
    match JMap.get key props with Some a => Some (f a) | None => JMap.get key base end.
Proof.
  revert base. induction props as [|[k a] props IH]; intros base; [done|]. unfold Obj.keys. simpl.
  rewrite NoDup_cons. intros [Hk Hn]. rewrite IH by done. rewrite Obj.obj_get_set. simpl.
  destruct (decide (key = k)) as [->|Hne].
  - rewrite decide_True by done. destruct (JMap.get k props) eqn:Hg; [|done]. destruct Hk.
    apply (JMap.get_is_Some k props). by rewrite Hg.
  - by rewrite decide_False.
Qed.

Lemma get_object_assign {V} (target source : list (string * V)) key :
  NoDup (Obj.keys source) →
  JMap.get key (object_assign target source) =
    match JMap.get key source with Some v => Some v | None => JMap.get key target end.
Proof. apply (get_assigns id). Qed.

Lemma NoDup_folds {A V} (f : list (string * V) → A → list (string * V)) (l : list A) base :
  (∀ o x, NoDup (Obj.keys o) → NoDup (Obj.keys (f o x))) →
  NoDup (Obj.keys base) → NoDup (Obj.keys (foldl f base l)).
Proof. intros Hf. revert base. induction l as [|x l IH]; intros base Hb; simpl; [done|]. by apply IH, Hf. Qed.

Lemma shadow_keys prototype properties : NoDup (Obj.keys (getShadowProperties prototype properties)).
Proof.
  apply NoDup_folds; [|apply NoDup_nil_2]. intros o k Ho. destruct (getShadowedDescriptor _ _ _); [|done].
  by apply Obj.obj_NoDup_set.
Qed.

Lemma get_shadow prototype properties key :
  JMap.get key (getShadowProperties prototype properties) = getShadowedDescriptor prototype properties key.
Proof.
  unfold getShadowProperties.
  assert (∀ ks base, JMap.get key (foldl (λ shadow key,
      match getShadowedDescriptor prototype properties key with
      | Some a => Obj.set key a shadow | None => shadow end) base ks) =
    if decide (key ∈ ks) then match getShadowedDescriptor prototype properties key with
      | Some a => Some a | None => JMap.get key base end else JMap.get key base) as ->.
  { induction ks as [|k ks IH]; intros base; simpl.
    { done. }
    rewrite IH. destruct (decide (key = k)) as [->|Hne].
    - rewrite (decide_True (P := k ∈ k :: ks)) by left.
      destruct (getShadowedDescriptor _ _ k) eqn:Hd; [|by case_decide].
      rewrite Obj.obj_get_set, (decide_True (P := k = k)) by done. by destruct (decide (k ∈ ks)).
    - assert (∀ base', JMap.get key base' = JMap.get key base →
        (if decide (key ∈ ks) then match getShadowedDescriptor prototype properties key with
           | Some a => Some a | None => JMap.get key base' end else JMap.get key base') =
        (if decide (key ∈ k :: ks) then match getShadowedDescriptor prototype properties key with
           | Some a => Some a | None => JMap.get key base end else JMap.get key base)) as Heq.
      { intros base' ->. by apply decide_ext; rewrite elem_of_cons; naive_solver. }
      apply Heq. destruct (getShadowedDescriptor _ _ k); [|done]. by rewrite Obj.obj_get_set, decide_False. }
  case_decide as Hk; [by destruct (getShadowedDescriptor _ _ _)|]. simpl.
  assert (JMap.get key properties = None) as Hnone.
  { destruct (JMap.get key properties) eqn:Hg; [|done]. destruct Hk. apply (JMap.get_is_Some key properties). by rewrite Hg. }
  unfold getShadowedDescriptor. rewrite Hnone. destruct (JMap.get key prototype) as [[]|]; done.
Qed.

Lemma parent_app h o c : (c < length h)%nat → parent (h ++ [o]) c = parent h c.
Proof. intros Hc. unfold parent. by rewrite lookup_app_l. Qed.

Lemma chain_app h o c : heap_wf h → (c < length h)%nat → chain (h ++ [o]) c = chain h c.
Proof.
  intros Hw. unfold chain. generalize (S c) as fuel. intros fuel. revert c.
  induction fuel as [|fuel IH]; intros c Hc; simpl; [done|]. f_equal. rewrite parent_app by done.
  destruct (parent h c) as [p|] eqn:Hp; [|done]. pose proof (Hw _ _ Hp). apply IH. lia.
Qed.

Lemma heap_wf_app h o :
  heap_wf h → (∀ p, co_parent o = Some p → (p < length h)%nat) → heap_wf (h ++ [o]).
Proof.
  intros Hw Ho c p. unfold parent. destruct (decide (c < length h)) as [Hc|Hc].
  - rewrite lookup_app_l by done. apply Hw.
  - rewrite lookup_app_r by lia. destruct (c - length h) eqn:Hd; simpl; [|done].
    intros Hp%Ho. lia.
Qed.

(** What the shadow of a class has under a key. *)
Definition shadowed (own : option descriptor) (blessed : option accessor) (inherited : option descriptor)
    : option descriptor :=
  match own, blessed with
  | Some (DValue code), _ => Some (DValue code)
  | Some (DAccessor a), Some b =>
    Some (DAccessor (mk_accessor (match ac_get a with Some g => Some g | None => ac_get b end)
                                 (match ac_set a with Some s => Some s | None => ac_set b end)))
  | Some (DAccessor a), None => Some (DAccessor a)
  | None, Some b => Some (DAccessor b)
  | None, None => inherited
  end.

Lemma own_property h c key :
  heap_wf h → lookup_property h c key =
    match JMap.get key (prototype_of h c) with
    | Some d => Some d
    | None => parent h c ≫= λ p, lookup_property h p key
    end.
Proof.
  intros Hw. unfold lookup_property at 1. rewrite chain_cons by done. unfold prototype_of. simpl.
  destruct (h !! c) as [o|] eqn:Hc; simpl; [|by unfold parent; rewrite Hc].
  destruct (JMap.get key (co_prototype o)); [done|]. by destruct (parent h c).
Qed.

Lemma shadow_lookup h c properties key :
  heap_wf h → (c < length h)%nat → key ≠ "constructor" →
  let h' := (shadow h c properties).1 in
  (∀ c', (c' < length h)%nat → h' !! c' = h !! c') ∧ parent h' (length h) = Some c ∧ heap_wf h' ∧
  lookup_property h' (length h) key =
    shadowed (JMap.get key (prototype_of h c)) (JMap.get key properties) (lookup_property h c key).
Proof.
  intros Hw Hc Hkey. simpl. unfold shadow, extend, defineProperties. simpl.
  set (props := getShadowProperties _ _). set (new := mk_class (Some c) _ _).
  assert (prototype_of (h ++ [new]) c = prototype_of h c) as Hproto.
  { unfold prototype_of. by rewrite lookup_app_l. }
  pose proof (alter_app_r (λ o, mk_class (co_parent o) (co_statics o)
     (foldl (λ ps kp, Obj.set kp.1 (DAccessor kp.2) ps) (co_prototype o) props)) h [new] 0) as Halter.
  rewrite Nat.add_0_r in Halter. rewrite Halter. simpl.
  set (new' := mk_class (Some c) _ _).
  assert (heap_wf (h ++ [new'])) as Hw'.
  { apply heap_wf_app; [done|]. by intros p [= <-]. }
  assert (parent (h ++ [new']) (length h) = Some c) as Hparent.
  { unfold parent. by rewrite lookup_app_r, Nat.sub_diag by lia. }
  split; [intros c' Hc'; by rewrite lookup_app_l|]. split; [done|]. split; [done|].
  rewrite own_property, Hparent by done. unfold prototype_of at 1.
  rewrite lookup_app_r, Nat.sub_diag by lia. simpl.
  rewrite (get_assigns DAccessor) by apply shadow_keys. unfold props. rewrite get_shadow. simpl. rewrite decide_False by done.
  assert (lookup_property (h ++ [new']) c key = lookup_property h c key) as ->.
  { unfold lookup_property. rewrite chain_app by done. f_equal. apply list_omap_ext.
    apply Forall_Forall2_diag, Forall_forall. intros x Hx%chain_le; [|done]. by rewrite lookup_app_l by lia. }
  fold new. rewrite Hproto. unfold getShadowedDescriptor.
  pose proof (own_property h c key Hw) as Hown.
  destruct (JMap.get key (prototype_of h c)) as [[code|a]|]; simpl; [done| |];
    by destruct (JMap.get key properties).
Qed.

(** C27: a blessed class has what its class has and what the blessings add: a
    method or value that the class defines itself wins over a blessing, an
    accessor that it defines itself is completed by the blessing, and every
    other key has the blessed accessor, or else what the class inherits; the
    classes there were are unchanged. *)
Theorem bless_lookup h c key :
  heap_wf h → (c < length h)%nat → key ≠ "constructor" →
  match getBlessedProperties h c with
  | inl properties =>
    ∃ h' s, bless h c = inl (h', s) ∧ parent h' s = Some c ∧
      (∀ c', (c' < length h)%nat → h' !! c' = h !! c') ∧
      lookup_property h' s key =
        shadowed (JMap.get key (prototype_of h c)) (JMap.get key properties) (lookup_property h c key)
  | inr error => bless h c = inr error
  end.
Proof.
  intros Hw Hc Hkey. unfold bless. destruct (getBlessedProperties h c) as [properties|error]; [|done].
  destruct (shadow_lookup h c properties key Hw Hc Hkey) as (Hold & Hp & _ & Hl).
  exists (shadow h c properties).1, (length h). split_and!; [|done..]. by destruct (shadow h c properties) eqn:Hs;
    unfold shadow in Hs; simpl in *; injection Hs as <- <-.
Qed.

(** ** The properties of targets *)

(** The last two characters of a key tell the blessing that makes it. *)
Definition last_two (s : string) : list Ascii.ascii := take 2 (reverse (String.list_ascii_of_string s)).

Lemma list_ascii_app s t :
  String.list_ascii_of_string (s +:+ t) = String.list_ascii_of_string s ++ String.list_ascii_of_string t.
Proof. induction s as [|c s IH]; [done|]. rewrite Str.app_cons. simpl. by rewrite IH. Qed.

Lemma last_two_app s t : (2 ≤ length (String.list_ascii_of_string t))%nat → last_two (s +:+ t) = last_two t.
Proof. intros Ht. unfold last_two. rewrite list_ascii_app, reverse_app, take_app_le; [done|]. by rewrite length_reverse. Qed.

Lemma app_inj_r s s' t : s +:+ t = s' +:+ t → s = s'.
Proof.
  intros Heq%(f_equal String.list_ascii_of_string). rewrite !list_ascii_app in Heq. simplify_list_eq.
  rewrite <-(String.string_of_list_ascii_of_string s), H. apply String.string_of_list_ascii_of_string.
Qed.

Lemma camelize_cons c d s :
  camelize (String c (String d s)) =
    if is_separator c && (Str.is_lower d || Str.is_digit d) then String (Str.upper d) (camelize s)
    else String c (camelize (String d s)).
Proof. done. Qed.

Lemma camelize_value n s :
  (String.length s ≤ n)%nat → camelize (s +:+ "-value") = camelize s +:+ "Value".
Proof.
  revert s. induction n as [|n IH]; intros [|c [|d s]] Hn; simpl in Hn; try lia; try done.
  - rewrite Str.app_cons, Str.app_nil_l. rewrite camelize_cons. by rewrite andb_false_r.
  - rewrite !Str.app_cons, !camelize_cons. destruct (is_separator c && _); rewrite ?Str.app_cons; f_equal.
    + apply IH. lia.
    + apply (IH (String d s)). simpl. lia.
Qed.

Lemma value_name pair d : parseValueDefinitionPair pair = inl d → ∃ s, vd_name d = s +:+ "Value".
Proof.
  unfold parseValueDefinitionPair. destruct (parseValueTypeConstant pair.2); [|done]. intros [= <-].
  unfold valueDescriptorForTokenAndType. cbn [vd_name]. erewrite camelize_value by done. eauto.
Qed.

Definition ends_in (ends : list (list Ascii.ascii)) {V} (o : list (string * V)) : Prop :=
  Forall (λ k, last_two k ∈ ends) (Obj.keys o).

Lemma ends_set {V} ends k (v : V) o : last_two k ∈ ends → ends_in ends o → ends_in ends (Obj.set k v o).
Proof.
  unfold ends_in. rewrite !Forall_forall. intros Hk Ho x. rewrite Obj.obj_keys_set. intros [->|?]; auto.
Qed.

Lemma ends_assign {V} ends (o o' : list (string * V)) : ends_in ends o' → ends_in ends o → ends_in ends (object_assign o o').
Proof.
  unfold object_assign. revert o. induction o' as [|[k v] o' IH]; intros o Ho'; simpl; [done|].
  inversion Ho' as [|? ? Hk Ho2]. intros Ho. apply IH; [done|]. by apply ends_set.
Qed.

Lemma ends_folds {A V} ends (f : list (string * V) → A → list (string * V)) l base :
  (∀ o x, ends_in ends o → ends_in ends (f o x)) → ends_in ends base → ends_in ends (foldl f base l).
Proof. intros Hf. revert base. induction l as [|x l IH]; intros base Hb; simpl; [done|]. by apply IH, Hf. Qed.

Lemma ends_absent {V} ends k (o : list (string * V)) : ends_in ends o → last_two k ∉ ends → JMap.get k o = None.
Proof.
  intros Ho Hk. destruct (JMap.get k o) eqn:Hg; [|done]. destruct Hk. unfold ends_in in Ho. rewrite Forall_forall in Ho.
  apply Ho. apply (JMap.get_is_Some k o). by rewrite Hg.
Qed.

Lemma last_two_capitalize s t :
  (3 ≤ length (String.list_ascii_of_string t))%nat → last_two (capitalize (s +:+ t)) = last_two t.
Proof.
  intros Ht. destruct s as [|c s].
  - rewrite Str.app_nil_l. destruct t as [|d t]; [done|]. simpl in Ht |- *.
    change (String (Str.upper d) t) with (String (Str.upper d) "" +:+ t).
    change (String d t) with (String d "" +:+ t). by rewrite !last_two_app by lia.
  - rewrite Str.app_cons. simpl. rewrite <-Str.app_cons. apply last_two_app. lia.
Qed.

Lemma capitalize_length s t :
  (2 ≤ length (String.list_ascii_of_string t) →
   2 ≤ length (String.list_ascii_of_string (capitalize (s +:+ t))))%nat.
Proof.
  intros Ht. destruct s as [|c s]; [by destruct t|]. rewrite Str.app_cons. simpl.
  rewrite list_ascii_app, length_app. lia.
Qed.

Lemma class_ends h c : ends_in [["s"; "s"]%char] (class_properties h c).
Proof.
  apply ends_folds; [|apply Forall_nil_2]. intros o key Ho. apply ends_assign; [|done].
  unfold propertiesForClassDefinition. apply ends_set; [|apply Forall_singleton; simpl].
  - rewrite last_two_app, last_two_capitalize by (simpl; lia || apply capitalize_length; simpl; lia). by left.
  - rewrite last_two_app by (simpl; lia). by left.
Qed.

Lemma value_ends h c p :
  value_properties_of h c = inl p → ends_in [["e"; "u"]; ["p"; "a"]]%char p.
Proof.
  unfold value_properties_of. destruct (Values.ValuePropertiesBlessing _) as [vp|] eqn:Hvp; [|done]. intros [= <-].
  assert (ends_in [["e"; "u"]; ["p"; "a"]]%char vp) as He.
  { refine (reduce_pairs_ind _ (ends_in _) _ _ _ _ _ Hvp).
    - apply Forall_singleton. right. by left.
    - intros o pair d _ Hd Ho. apply ends_assign; [|done]. apply value_name in Hd as [n Hn].
      unfold propertiesForValueDefinition. apply ends_set; [|apply Forall_singleton; simpl].
      + rewrite Hn, last_two_app, last_two_capitalize by (simpl; lia || apply capitalize_length; simpl; lia). by left.
      + rewrite Hn, last_two_app by (simpl; lia). by left. }
  unfold ends_in, Obj.keys in *. by rewrite <-list_fmap_compose.
Qed.

(** *** Blessed keys come from one blessing *)

Lemma get_bless_properties props blessed key :
  NoDup (Obj.keys props) →
  JMap.get key (foldl bless_property blessed props) =
    match JMap.get key props with
    | Some a => Some (merge (default (mk_accessor None None) (JMap.get key blessed)) a)
    | None => JMap.get key blessed
    end.
Proof.
  revert blessed. induction props as [|[k a] props IH]; intros blessed; [done|]. unfold Obj.keys. simpl.
  rewrite NoDup_cons. intros [Hk Hn]. rewrite IH by done. unfold bless_property. simpl. rewrite Obj.obj_get_set.
  destruct (decide (key = k)) as [->|Hne].
  - rewrite decide_True by done. destruct (JMap.get k props) eqn:Hg; [|done]. destruct Hk.
    apply (JMap.get_is_Some k props). by rewrite Hg.
  - by rewrite decide_False.
Qed.

Lemma NoDup_object_assign {V} (o o' : list (string * V)) : NoDup (Obj.keys o) → NoDup (Obj.keys (object_assign o o')).
Proof. apply NoDup_folds. intros. by apply Obj.obj_NoDup_set. Qed.

Lemma target_keys h c : NoDup (Obj.keys (target_properties h c)).
Proof. apply NoDup_folds; [|apply NoDup_nil_2]. intros. by apply NoDup_object_assign. Qed.

Lemma NoDup_target_definition name : NoDup (Obj.keys (propertiesForTargetDefinition name)).
Proof. unfold propertiesForTargetDefinition. apply Obj.obj_NoDup_set, Obj.obj_NoDup_set, NoDup_singleton. Qed.

(** The blessings other than that of targets say nothing of a key in [Target]. *)
Lemma other_blessing h c b props key :
  b ≠ TargetPropertiesBlessing → apply_blessing h c b = inl props → last_two key = ["t"; "e"]%char →
  ∀ blessed, JMap.get key (foldl bless_property blessed props) = JMap.get key blessed.
Proof.
  intros Hb Hp Hkey. assert (JMap.get key props = None) as Hnone.
  { destruct b; simpl in Hp; [|done|].
    - injection Hp as <-. eapply ends_absent; [apply class_ends|]. rewrite Hkey. set_solver.
    - eapply ends_absent; [by eapply value_ends|]. rewrite Hkey. set_solver. }
  clear Hp. induction props as [|[k a] props IH]; intros blessed; [done|]. simpl in Hnone |- *.
  destruct (decide (key = k)); [done|]. rewrite IH by done. unfold bless_property. simpl.
  by rewrite Obj.obj_get_set, decide_False.
Qed.

Lemma get_target_key h c key properties :
  NoDup (readInheritableStaticArrayValues static_blessings h c "blessings") →
  last_two key = ["t"; "e"]%char → getBlessedProperties h c = inl properties →
  TargetPropertiesBlessing ∈ readInheritableStaticArrayValues static_blessings h c "blessings" →
  JMap.get key properties = merge (mk_accessor None None) <$> JMap.get key (target_properties h c).
Proof.
  intros Hnd Hkey. unfold getBlessedProperties.
  assert (∀ blessed bs, NoDup bs →
    foldl (λ blessed b, match blessed with
      | inl blessed => match apply_blessing h c b with
          | inl properties => inl (foldl bless_property blessed properties) | inr error => inr error end
      | inr error => inr error end) (inl blessed) bs = inl properties →
    JMap.get key blessed = None ∨ TargetPropertiesBlessing ∉ bs →
    JMap.get key properties =
      if decide (TargetPropertiesBlessing ∈ bs)
      then merge (mk_accessor None None) <$> JMap.get key (target_properties h c) else JMap.get key blessed) as Hfold.
  { intros blessed bs. revert blessed. induction bs as [|b bs IH]; intros blessed Hn Hrun Hfresh.
    { simpl in Hrun. by injection Hrun as <-. }
    apply NoDup_cons in Hn as [Hb Hn]. simpl in Hrun.
    destruct (apply_blessing h c b) as [props|e] eqn:Hp.
    2:{ exfalso. clear -Hrun. revert Hrun. by induction bs. }
    destruct (decide (b = TargetPropertiesBlessing)) as [->|Hne].
    - destruct Hfresh as [Hfresh|[]]; [|by left]. rewrite (decide_True (P := _ ∈ _ :: _)) by left.
      rewrite (IH _ Hn Hrun), decide_False by auto. simpl in Hp. injection Hp as <-.
      rewrite get_bless_properties by apply target_keys. rewrite Hfresh. by destruct (JMap.get key (target_properties h c)).
    - rewrite (IH _ Hn Hrun), (other_blessing h c b props key Hne Hp Hkey).
      + apply decide_ext. rewrite elem_of_cons. naive_solver.
      + rewrite (other_blessing h c b props key Hne Hp Hkey). rewrite elem_of_cons in Hfresh. naive_solver. }
  intros Hrun Hin. rewrite (Hfold [] _ Hnd Hrun) by by left. by rewrite decide_True.
Qed.

Lemma target_key_eq name name' : name' +:+ "Target" = name +:+ "Target" ↔ name' = name.
Proof. split; [apply app_inj_r|by intros ->]. Qed.

Lemma get_target_properties h c name :
  name ∈ readInheritableStaticArrayValues static_strings h c "targets" →
  (∀ name', name' ∈ readInheritableStaticArrayValues static_strings h c "targets" →
     "has" +:+ capitalize name' ≠ name) →
  JMap.get (name +:+ "Target") (target_properties h c) = Some (getter_only (GetTarget name)).
Proof.
  unfold target_properties. set (names := readInheritableStaticArrayValues _ _ _ _). intros Hin Hno.
  assert (∀ base, JMap.get (name +:+ "Target")
      (foldl (λ properties name, object_assign properties (propertiesForTargetDefinition name)) base names) =
    if decide (name ∈ names) then Some (getter_only (GetTarget name)) else JMap.get (name +:+ "Target") base) as ->;
    [|by rewrite decide_True].
  clear Hin. induction names as [|name' names IH]; intros base; [done|]. simpl foldl.
  rewrite IH by (intros; apply Hno; by right).
  destruct (decide (name ∈ names)) as [Hin|Hin]; [by rewrite decide_True by by right|].
  assert (name' +:+ "Targets" ≠ name +:+ "Target") as Hts.
  { intros Heq%(f_equal last_two). by rewrite !last_two_app in Heq by (simpl; lia). }
  assert ("has" +:+ capitalize name' +:+ "Target" ≠ name +:+ "Target") as Hhas.
  { rewrite <-Str.app_assoc. intros Heq%app_inj_r. by eapply Hno; [left|]. }
  rewrite get_object_assign by apply NoDup_target_definition.
  unfold propertiesForTargetDefinition. rewrite !Obj.obj_get_set. rewrite !decide_False by done. simpl.
  destruct (decide (name = name')) as [->|Hne].
  - by rewrite !decide_True by (done || left).
  - rewrite decide_False by (rewrite target_key_eq; congruence).
    by rewrite decide_False by (rewrite elem_of_cons; naive_solver).
Qed.

(** The blessing of targets: a class that inherits from [Controller] and is
    registered gets, for every target name that it or a class above it lists,
    a property that finds the target of that name, unless the class defines
    the property itself or another target's [has…Target] takes its name. *)
Lemma targets_blessed h c h' s name :
  heap_wf h → (c < length h)%nat → bless h c = inl (h', s) →
  (∃ c' bs, c' ∈ chain h c ∧ own_static h "blessings" c' = Some (SBlessings bs) ∧ TargetPropertiesBlessing ∈ bs) →
  (∃ c' names, c' ∈ chain h c ∧ own_static h "targets" c' = Some (SStrings names) ∧ name ∈ names) →
  (∀ c' names name', c' ∈ chain h c → own_static h "targets" c' = Some (SStrings names) → name' ∈ names →
     "has" +:+ capitalize name' ≠ name) →
  JMap.get (name +:+ "Target") (prototype_of h c) = None →
  lookup_property h' s (name +:+ "Target") = Some (DAccessor (getter_only (GetTarget name))).
Proof.
  intros Hw Hc Hb (cb & bs & Hcb & Hob & Hbs) (cn & names & Hcn & Hon & Hn) Hno Hown.
  destruct (inherited_elements static_blessings h c "blessings" Hw) as [Hnd Hel].
  destruct (inherited_elements static_strings h c "targets" Hw) as [_ Hel'].
  assert (name +:+ "Target" ≠ "constructor") as Hkey.
  { intros Heq%(f_equal last_two). by rewrite last_two_app in Heq by (simpl; lia). }
  unfold bless in Hb. destruct (getBlessedProperties h c) as [properties|] eqn:Hp; [|done].
  destruct (shadow_lookup h c properties (name +:+ "Target") Hw Hc Hkey) as (_ & _ & _ & Hl).
  assert (h' = (shadow h c properties).1 ∧ s = length h) as [-> ->].
  { change (inl ((shadow h c properties).1, length h) = inl (B := string) (h', s)) in Hb. by injection Hb. }
  rewrite Hl, Hown, (get_target_key h c _ properties Hnd).
  - rewrite get_target_properties; [done| |].
    + apply Hel'. by exists cn, (SStrings names).
    + intros name' Hin. apply Hel' in Hin as (c' & s' & Hc' & Ho' & Hin).
      destruct s' as [| |names'|]; try by apply not_elem_of_nil in Hin. by eapply Hno.
  - by rewrite last_two_app by (simpl; lia).
  - done.
  - apply Hel. by exists cb, (SBlessings bs).
Qed.
