(* ===== verification/Regex.v ===== *)
(** Regular expressions as the language matches them: by backtracking, with
    lazy and greedy repetitions and capturing groups.

    The patterns of the framework have no repetition of a group, so a
    repetition is one of a class of characters. *)

From S2P Require Import Prelude JsCore JsString.
From Stdlib Require Import Ascii.

#[local] Open Scope string_scope.

Module Regex.

Inductive regex :=
  (** a literal *)
  | Lit (l : string)
  (** [r1 r2] *)
  | Seq (r1 r2 : regex)
  (** [r1|r2] *)
  | Alt (r1 r2 : regex)
  (** [r?] *)
  | Opt (r : regex)
  (** [p+?] and [p+], for a class [p] of characters *)
  | LazyPlus (p : ascii → bool)
  | GreedyPlus (p : ascii → bool)
  (** the capturing group with the number [n] *)
  | Group (n : nat) (r : regex).

(** The texts of the groups that took part. *)
Definition captures : Type := list (nat * string).

(** The rest after the literal. *)
Fixpoint after_literal (l s : string) : option string :=
  match l, s with
  | "", _ => Some s
  | String a l, String b s => if decide (a = b) then after_literal l s else None
  | String _ _, "" => None
  end.

Section repetition.
Context {A : Type} (p : ascii → bool) (k : string → option A).

Fixpoint lazy_plus (s : string) : option A :=
  match s with
  | "" => None
  | String c s =>
    if p c then match k s with Some x => Some x | None => lazy_plus s end else None
  end.

Fixpoint greedy_plus (s : string) : option A :=
  match s with
  | "" => None
  | String c s =>
    if p c then match greedy_plus s with Some x => Some x | None => k s end else None
  end.
End repetition.

(** The text that was consumed between two rests. *)
Definition consumed (s s' : string) : string := String.substring 0 (String.length s - String.length s') s.

(** The first match of [r] at the start of [s] for which the rest of the
    pattern, [k], matches too. *)
Fixpoint run (r : regex) (s : string) (c : captures) (k : string → captures → option captures)
    : option captures :=
  match r with
  | Lit l => match after_literal l s with Some s => k s c | None => None end
  | Seq r1 r2 => run r1 s c (λ s c, run r2 s c k)
  | Alt r1 r2 => match run r1 s c k with Some x => Some x | None => run r2 s c k end
  | Opt r => match run r s c k with Some x => Some x | None => k s c end
  | LazyPlus p => lazy_plus p (λ s, k s c) s
  | GreedyPlus p => greedy_plus p (λ s, k s c) s
  | Group n r => run r s c (λ s' c, k s' (JMap.set n (consumed s s') c))
  end.

(** [s.match(/^r$/)] *)
Definition exec (r : regex) (s : string) : option captures :=
  run r s [] (λ s c, if Str.non_empty s then None else Some c).

(** [.] *)
Definition dot (c : ascii) : bool :=
  negb (bool_decide (N_of_ascii c = 10%N) || bool_decide (N_of_ascii c = 13%N)).

(** ** How the repetitions match *)

Lemma after_literal_app l s : after_literal l (l +:+ s) = Some s.
Proof. induction l as [|a l IH]; [done|]. rewrite Str.app_cons. simpl. by rewrite decide_True. Qed.

Lemma after_literal_Some l s s' : after_literal l s = Some s' → s = l +:+ s'.
Proof.
  revert s. induction l as [|a l IH]; intros s; simpl; [by intros [= ->]|].
  destruct s as [|b s]; [done|]. case_decide; [|done]. subst. intros ->%IH. by rewrite Str.app_cons.
Qed.

Lemma string_app_length s t : String.length (s +:+ t) = (String.length s + String.length t)%nat.
Proof. induction s as [|c s IH]; [done|]. rewrite Str.app_cons. simpl. by rewrite IH. Qed.

Lemma consumed_app s t : consumed (s +:+ t) t = s.
Proof.
  unfold consumed. rewrite string_app_length, Nat.add_sub.
  induction s as [|c s IH]; [by destruct t|]. rewrite Str.app_cons. simpl. by rewrite IH.
Qed.

Lemma consumed_all s : consumed s "" = s.
Proof. rewrite <-(Str.app_nil_r s) at 1. apply consumed_app. Qed.

Lemma consumed_app_app s t u : consumed (s +:+ t +:+ u) u = s +:+ t.
Proof. by rewrite <-Str.app_assoc, consumed_app. Qed.

(** A lazy repetition stops at the first point where the rest matches. *)
Lemma lazy_plus_first {A} p (k : string → option A) x y a :
  x ≠ "" → Str.all p x = true → k y = Some a →
  (∀ c x', Str.all p (String c x') = true → (∃ x0, x0 ≠ "" ∧ x = x0 +:+ String c x') → k (String c x' +:+ y) = None) →
  lazy_plus p k (x +:+ y) = Some a.
Proof.
  induction x as [|c x IH]; [done|]. intros _ Hp Hk Hno. rewrite Str.app_cons. simpl in Hp |- *.
  apply andb_true_iff in Hp as [-> Hp]. destruct x as [|c' x].
  - rewrite Str.app_nil_l. by rewrite Hk.
  - rewrite Hno; [|done|by exists (String c "")]. apply IH; try done.
    intros c0 x' Hx' (x0 & Hx0 & Heq). apply Hno; [done|]. exists (String c x0). split; [done|].
    by rewrite Str.app_cons, <-Heq.
Qed.

Lemma lazy_plus_none {A} p (k : string → option A) s :
  (∀ x c s', s = x +:+ String c s' → k s' = None) → lazy_plus p k s = None.
Proof.
  induction s as [|c s IH]; [done|]. intros Hk. simpl. destruct (p c); [|done].
  rewrite (Hk "" c s) by done. apply IH. intros x c' s' ->. by apply (Hk (String c x) c' s').
Qed.

(** A greedy repetition of a class takes the whole text if that is a match. *)
Lemma greedy_plus_all {A} p (k : string → option A) x a :
  x ≠ "" → Str.all p x = true → k "" = Some a → greedy_plus p k x = Some a.
Proof.
  induction x as [|c x IH]; [done|]. intros _ Hp Hk. simpl in Hp |- *.
  apply andb_true_iff in Hp as [-> Hp]. destruct x as [|c' x]; [done|]. by rewrite IH.
Qed.

(** *** What a match captures *)

(** The pattern matches no empty text. *)
Fixpoint nonempty (r : regex) : bool :=
  match r with
  | Lit l => Str.non_empty l
  | Seq r1 r2 => nonempty r1 || nonempty r2
  | Alt r1 r2 => nonempty r1 && nonempty r2
  | Opt _ => false
  | LazyPlus _ | GreedyPlus _ => true
  | Group _ r => nonempty r
  end.

(** No group of the pattern matches an empty text. *)
Fixpoint groups_nonempty (r : regex) : bool :=
  match r with
  | Lit _ | LazyPlus _ | GreedyPlus _ => true
  | Seq r1 r2 | Alt r1 r2 => groups_nonempty r1 && groups_nonempty r2
  | Opt r => groups_nonempty r
  | Group _ r => nonempty r && groups_nonempty r
  end.

(** The group takes part in every match of the pattern. *)
Fixpoint mandatory (n : nat) (r : regex) : bool :=
  match r with
  | Lit _ | LazyPlus _ | GreedyPlus _ | Opt _ => false
  | Seq r1 r2 => mandatory n r1 || mandatory n r2
  | Alt r1 r2 => mandatory n r1 && mandatory n r2
  | Group m r => bool_decide (n = m) || mandatory n r
  end.

Definition captures_nonempty (c : captures) : Prop := ∀ n w, JMap.get n c = Some w → w ≠ "".

(** What a match of [r] does to the text and the captures. *)
Record matched (r : regex) (s : string) (c : captures) (s' : string) (c' : captures) : Prop := {
  matched_text : ∃ x, s = x +:+ s' ∧ (nonempty r = true → x ≠ "");
  matched_groups : groups_nonempty r = true → captures_nonempty c → captures_nonempty c';
  matched_keep n : is_Some (JMap.get n c) → is_Some (JMap.get n c');
  matched_mandatory n : mandatory n r = true → is_Some (JMap.get n c');
}.

Lemma lazy_plus_Some {A} p (k : string → option A) s a :
  lazy_plus p k s = Some a → ∃ x s', x ≠ "" ∧ s = x +:+ s' ∧ k s' = Some a.
Proof.
  induction s as [|c s IH]; simpl; [done|]. destruct (p c); [|done].
  destruct (k s) eqn:Hk; [intros [= ->]; by exists (String c ""), s|].
  intros (x & s' & ? & -> & ?)%IH. by exists (String c x), s'.
Qed.

Lemma greedy_plus_Some {A} p (k : string → option A) s a :
  greedy_plus p k s = Some a → ∃ x s', x ≠ "" ∧ s = x +:+ s' ∧ k s' = Some a.
Proof.
  induction s as [|c s IH]; simpl; [done|]. destruct (p c); [|done].
  destruct (greedy_plus p k s) eqn:Hg.
  - intros [= ->]. destruct (IH eq_refl) as (x & s' & ? & -> & ?). by exists (String c x), s'.
  - intros Hk. by exists (String c ""), s.
Qed.

Lemma matched_plus r x s' c :
  groups_nonempty r = true → (∀ n, mandatory n r = false) → x ≠ "" → matched r (x +:+ s') c s' c.
Proof. intros Hr Hm ?. split; [by exists x|done|done|]. intros n. by rewrite Hm. Qed.

Lemma run_matched r s c k a : run r s c k = Some a → ∃ s' c', matched r s c s' c' ∧ k s' c' = Some a.
Proof.
  revert s c k. induction r as [l|r1 IH1 r2 IH2|r1 IH1 r2 IH2|r IH|p|p|n r IH]; intros s c k; simpl.
  - destruct (after_literal l s) as [s'|] eqn:Hl; [|done]. intros Hk. exists s', c. split; [|done].
    apply after_literal_Some in Hl as ->. split; [|done..]. exists l. split; [done|]. by destruct l.
  - intros (s1 & c1 & [(x & -> & Hx) Hg Hkeep Hm] & Hk)%IH1.
    apply IH2 in Hk as (s2 & c2 & [(y & -> & Hy) Hg' Hkeep' Hm'] & Hk). exists s2, c2. split; [|done].
    split; simpl.
    + exists (x +:+ y). split; [by rewrite Str.app_assoc|].
      intros Hn [-> ->]%Str.app_eq_nil. apply orb_true_iff in Hn as [?|?]; [by apply Hx|by apply Hy].
    + intros [??]%andb_true_iff ?. auto.
    + auto.
    + intros n [?|?]%orb_true_iff; auto.
  - destruct (run r1 s c k) eqn:H1.
    + intros [= ->]. destruct (IH1 _ _ _ H1) as (s' & c' & [(x & ? & Hx) Hg Hkeep Hm] & Hk).
      exists s', c'. split; [|done]. split; [exists x; split; [done|]| |done|];
        intros; simpl in *; rewrite ?andb_true_iff in *; naive_solver.
    + intros (s' & c' & [(x & ? & Hx) Hg Hkeep Hm] & Hk)%IH2.
      exists s', c'. split; [|done]. split; [exists x; split; [done|]| |done|];
        intros; simpl in *; rewrite ?andb_true_iff in *; naive_solver.
  - destruct (run r s c k) eqn:H1.
    + intros [= ->]. destruct (IH _ _ _ H1) as (s' & c' & [(x & ? & Hx) Hg Hkeep Hm] & Hk).
      exists s', c'. split; [|done]. by split; [exists x|..].
    + intros Hk. exists s, c. split; [|done]. split; [by exists ""|done..].
  - intros (x & s' & Hx & -> & Hk)%lazy_plus_Some. exists s', c. split; [by apply matched_plus|done].
  - intros (x & s' & Hx & -> & Hk)%greedy_plus_Some. exists s', c. split; [by apply matched_plus|done].
  - intros (s' & c' & [(x & -> & Hx) Hg Hkeep Hm] & Hk)%IH. rewrite consumed_app in Hk.
    eexists s', _. split; [|done]. split; simpl.
    + by exists x.
    + intros [Hn Hr]%andb_true_iff Hc m w. rewrite JMap.get_set. case_decide; [|by apply Hg].
      intros [= <-]. by apply Hx.
    + intros m Hm'. rewrite JMap.get_set. case_decide; [by eexists|auto].
    + intros m Hm'. rewrite JMap.get_set. destruct (decide (n = m)) as [|Hne]; [by eexists|].
      rewrite bool_decide_eq_false_2 in Hm' by congruence. auto.
Qed.

Lemma exec_captures r s c :
  groups_nonempty r = true → exec r s = Some c →
  captures_nonempty c ∧ ∀ n, mandatory n r = true → is_Some (JMap.get n c).
Proof.
  intros Hr (s' & c' & [_ Hg _ Hm] & Hk)%run_matched. destruct (Str.non_empty s'); [done|].
  injection Hk as <-. split; [|done]. apply Hg; [done|]. by intros n w.
Qed.

(** Text without white space has no line terminator. *)
Lemma dot_not_ws c : negb (Str.is_ws c) = true → dot c = true.
Proof.
  unfold dot, Str.is_ws. intros Hc. apply negb_true_iff in Hc. apply negb_true_iff.
  apply orb_false_iff in Hc as [[Hc _]%orb_false_iff _].
  apply bool_decide_eq_false in Hc. apply orb_false_iff.
  split; apply bool_decide_eq_false; lia.
Qed.
End Regex.
