(* ===== verification/Actions.v ===== *)
(** Actions: the descriptors [event@target->identifier#method:options] of an
    element's action attribute, and the objects that they are parsed to.

    Models [src/gui/web/assets/scripts/stimulus.js], from
    [descriptorPattern] to [getDefaultEventNameForElement]. *)

From S2P Require Import Prelude JsCore JsString Dom Tokens Json Regex.
From Stdlib Require Import Ascii.

#[local] Open Scope string_scope.
#[local] Open Scope list_scope.
Import Regex.

(** ** Descriptors *)

Definition not_colon (c : ascii) : bool := negb (bool_decide (c = ":"%char)).

(** [/^((.+?)(@(window|document))?->)?(.+?)(#([^:]+?))(:(.+))?$/] *)
Definition arrow_part : regex :=
  Seq (Opt (Group 3 (Seq (Lit "@") (Group 4 (Alt (Lit "window") (Lit "document")))))) (Lit "->").
Definition event_part : regex := Seq (Group 2 (LazyPlus dot)) arrow_part.
Definition method_part : regex :=
  Seq (Group 6 (Seq (Lit "#") (Group 7 (LazyPlus not_colon))))
      (Opt (Group 8 (Seq (Lit ":") (Group 9 (GreedyPlus dot))))).
Definition descriptorPattern : regex :=
  Seq (Opt (Group 1 event_part)) (Seq (Group 5 (LazyPlus dot)) method_part).

(** The two event targets that a descriptor can name. *)
Inductive global_target := Window | Document.

#[export] Instance global_target_eq_dec : EqDecision global_target.
Proof. solve_decision. Defined.

Definition parseEventTarget (eventTargetName : option string) : option global_target :=
  if decide (eventTargetName = Some "window") then Some Window
  else if decide (eventTargetName = Some "document") then Some Document
  else None.

Definition options : Type := list (string * bool).

(** [token.replace(/^!/, "")] and [/^!/.test(token)] *)
Definition strip_bang (token : string) : string :=
  match token with String c rest => if decide (c = "!"%char) then rest else token | "" => "" end.
Definition has_bang (token : string) : bool :=
  match token with String c _ => bool_decide (c = "!"%char) | "" => false end.

Definition parseEventOptions (eventOptions : string) : options :=
  foldl (λ options token, Obj.assign (strip_bang token) (negb (has_bang token)) options) []
    (Str.split_on ":" eventOptions).

Record descriptor := mk_descriptor {
  d_eventTarget : option global_target;
  d_eventName : option string;
  d_eventOptions : options;
  d_identifier : option string;
  d_methodName : option string;
}.

Definition parseActionDescriptorString (descriptorString : string) : descriptor :=
  let source := Str.trim descriptorString in
  let matches := default [] (exec descriptorPattern source) in
  mk_descriptor (parseEventTarget (JMap.get 4 matches)) (JMap.get 2 matches)
    (match JMap.get 9 matches with
     | Some eventOptions => if Str.non_empty eventOptions then parseEventOptions eventOptions else []
     | None => []
     end)
    (JMap.get 5 matches) (JMap.get 7 matches).

(** ** Actions *)

(** The tag names of the elements, which the default event depends on. *)
Class Tagged (doc : Type) := tagName : doc → elem → string.

(** An event target: the window, the document, or an element. *)
Inductive event_target := Global (g : global_target) | ElementTarget (e : elem).

#[export] Instance event_target_eq_dec : EqDecision event_target.
Proof. solve_decision. Defined.

(** An action object; [a_id] is its identity. *)
Record action := mk_action {
  a_id : nat;
  a_element : elem;
  a_index : nat;
  a_eventTarget : event_target;
  a_eventName : string;
  a_eventOptions : options;
  a_identifier : string;
  a_methodName : string;
}.

#[export] Instance action_eq_dec : EqDecision action.
Proof. solve_decision. Defined.

Definition stringifyEventTarget (eventTarget : event_target) : option string :=
  match eventTarget with
  | Global Window => Some "window"
  | Global Document => Some "document"
  | ElementTarget _ => None
  end.

(** [v || w], for a string or [undefined]. *)
Definition or_else {E} (v : option string) (w : string + E) : string + E :=
  match v with
  | Some s => if Str.non_empty s then inl s else w
  | None => w
  end.

Section actions.
Context {doc : Type} `{Dom doc} `{Tagged doc}.

Definition getDefaultEventNameForElement (d : doc) (element : elem) : option string :=
  let name := lower_name (tagName d element) in
  if decide (name = "a") then Some "click"
  else if decide (name = "button") then Some "click"
  else if decide (name = "form") then Some "submit"
  else if decide (name = "input") then
    Some (if decide (getAttribute d element "type" = Some "submit") then "click" else "input")
  else if decide (name = "select") then Some "change"
  else if decide (name = "textarea") then Some "input"
  else None.

(** [new Action(element, index, descriptor)] *)
Definition new_action (d : doc) (id : nat) (element : elem) (index : nat) (desc : descriptor) : action + string :=
  let eventTarget := match d_eventTarget desc with Some g => Global g | None => ElementTarget element end in
  match or_else (d_eventName desc) (or_else (getDefaultEventNameForElement d element) (inr "missing event name")) with
  | inr e => inr e
  | inl eventName =>
    match or_else (d_identifier desc) (inr "missing identifier") with
    | inr e => inr e
    | inl identifier =>
      match or_else (d_methodName desc) (inr "missing method name") with
      | inr e => inr e
      | inl methodName =>
        inl (mk_action id element index eventTarget eventName (d_eventOptions desc) identifier methodName)
      end
    end
  end.

Definition forToken (d : doc) (id : nat) (tok : token) : action + string :=
  new_action d id (tok_element tok) (tok_index tok) (parseActionDescriptorString (tok_content tok)).
End actions.

Definition eventTargetName (a : action) : option string := stringifyEventTarget (a_eventTarget a).

Definition toString (a : action) : string :=
  let eventNameSuffix := match eventTargetName a with Some n => "@" +:+ n | None => "" end in
  a_eventName a +:+ eventNameSuffix +:+ "->" +:+ a_identifier a +:+ "#" +:+ a_methodName a.

(** ** Parsing what was printed *)

(** The parts of a descriptor, and its text. *)
Record parts := mk_parts {
  p_event : option (string * option global_target);
  p_identifier : string;
  p_method : string;
  p_options : list (string * bool);
}.

Definition global_name (g : global_target) : string :=
  match g with Window => "window" | Document => "document" end.
Definition suffix (g : option global_target) : string :=
  match g with Some g => "@" +:+ global_name g | None => "" end.
Definition print_option (kv : string * bool) : string := (if kv.2 then "" else "!") +:+ kv.1.
Definition print_options (kvs : list (string * bool)) : string :=
  match kvs with [] => "" | _ => ":" +:+ Str.join ":" (map print_option kvs) end.
Definition print_event (ev : option (string * option global_target)) : string :=
  match ev with Some (name, g) => name +:+ suffix g +:+ "->" | None => "" end.
Definition print_tail (p : parts) : string :=
  p_identifier p +:+ "#" +:+ p_method p +:+ print_options (p_options p).
Definition print (p : parts) : string := print_event (p_event p) +:+ print_tail p.

(** The texts that can stand for the parts: words, without the separators
    that follow them. *)
Definition option_ok (kv : string * bool) : Prop :=
  Str.word kv.1 ∧ Str.free ":" kv.1 ∧ (kv.2 = true → has_bang kv.1 = false).

Record parts_ok (p : parts) : Prop := {
  ok_event : match p_event p with
             | Some (name, _) => Str.word name ∧ Str.free "@" name ∧ Str.free ">" name
             | None => Str.free ">" (print_tail p)
             end;
  ok_identifier : Str.word (p_identifier p) ∧ Str.free "#" (p_identifier p);
  ok_method : Str.word (p_method p) ∧ Str.free ":" (p_method p);
  ok_options : Forall option_ok (p_options p);
}.

(** The descriptor that the parts stand for. *)
Definition parsed (p : parts) : descriptor :=
  mk_descriptor (ev ← p_event p; ev.2) (fst <$> p_event p)
    (foldl (λ o kv, Obj.assign kv.1 kv.2 o) [] (p_options p))
    (Some (p_identifier p)) (Some (p_method p)).

Lemma word_dot w : Str.word w → w ≠ "" ∧ Str.all dot w = true.
Proof. intros [Hw Ha]. split; [done|]. apply (Str.all_impl _ _ _ dot_not_ws Ha). Qed.

(** The end of the pattern. *)
Definition fin (s : string) (c : captures) : option captures :=
  if Str.non_empty s then None else Some c.

Definition option_captures (opts : list (string * bool)) (c : captures) : captures :=
  match opts with
  | [] => c
  | _ => JMap.set 8 (print_options opts) (JMap.set 9 (Str.join ":" (map print_option opts)) c)
  end.

Lemma options_word opts :
  opts ≠ [] → Forall option_ok opts → Str.word (Str.join ":" (map print_option opts)).
Proof.
  intros Hne Ho. induction Ho as [|[k b] opts [[Hk Ha] _] Ho IH]; [done|]. simpl in *.
  assert (Str.word (print_option (k, b))) as [Hn Hp].
  { unfold print_option. simpl. destruct b; [by rewrite Str.app_nil_l|].
    split; [done|]. rewrite Str.all_app. by rewrite Ha. }
  destruct opts as [|o opts]; [done|]. destruct IH as [_ IH]; [done|]. split.
  - intros Heq%Str.app_eq_nil. tauto.
  - simpl in IH |- *. by rewrite !Str.all_app, Hp, IH.
Qed.

Lemma run_method m opts c :
  Str.word m → Str.free ":" m → Forall option_ok opts →
  run method_part ("#" +:+ m +:+ print_options opts) c fin =
    Some (option_captures opts (JMap.set 6 ("#" +:+ m) (JMap.set 7 m c))).
Proof.
  intros [Hm _] Hf Ho. unfold method_part. cbn [run]. rewrite after_literal_app.
  apply lazy_plus_first; [done|done| |].
  - rewrite <-Str.app_assoc, !consumed_app. unfold option_captures, print_options.
    destruct opts as [|o opts]; [done|]. rewrite after_literal_app.
    destruct (word_dot _ (options_word (o :: opts) (λ H, nil_cons (eq_sym H)) Ho)) as [Hne Hd].
    erewrite greedy_plus_all; [done|done|done|].
    cbn [fin Str.non_empty].
    by rewrite !consumed_all.
  - intros c0 x' Hx' _. rewrite Str.app_cons. cbn [after_literal].
    apply andb_true_iff in Hx' as [Hc0 _]. unfold not_colon in Hc0.
    apply negb_true_iff, bool_decide_eq_false in Hc0. by rewrite decide_False by congruence.
Qed.

Definition tail_captures (p : parts) (c : captures) : captures :=
  option_captures (p_options p)
    (JMap.set 6 ("#" +:+ p_method p) (JMap.set 7 (p_method p) (JMap.set 5 (p_identifier p) c))).

Lemma after_literal_ne a l b s : a ≠ b → after_literal (String a l) (String b s) = None.
Proof. intros. simpl. by rewrite decide_False. Qed.

Lemma run_tail p c :
  parts_ok p →
  run (Seq (Group 5 (LazyPlus dot)) method_part) (print_tail p) c fin = Some (tail_captures p c).
Proof.
  intros [_ [Hi Hh] [Hm Hc] Ho]. destruct (word_dot _ Hi) as [Hne Hd]. unfold print_tail. cbn [run].
  apply lazy_plus_first; [done|done| |].
  - rewrite consumed_app. by apply run_method.
  - intros c0 x' _ (x0 & _ & Heq). rewrite Heq in Hh.
    apply Str.free_app in Hh as [_ [Hc0 _]%Str.free_cons]. rewrite Str.app_cons.
    unfold method_part. cbn [run]. by rewrite after_literal_ne by congruence.
Qed.

(** The part before the arrow. *)
Lemma literal_free c0 c s : Str.free c s → c0 ≠ c → after_literal (String c0 (String c "")) s = None.
Proof.
  destruct s as [|a [|b s]]; [done|simpl; by case_decide|].
  intros [_ [Hb _]%Str.free_cons]%Str.free_cons _. simpl. case_decide; [|done].
  by rewrite decide_False by congruence.
Qed.

Definition target_captures (g : option global_target) (c : captures) : captures :=
  match g with
  | Some g => JMap.set 3 ("@" +:+ global_name g) (JMap.set 4 (global_name g) c)
  | None => c
  end.

Lemma run_target g tail c k a :
  k tail (target_captures g c) = Some a →
  run arrow_part (suffix g +:+ "->" +:+ tail) c k = Some a.
Proof.
  intros Hk. unfold arrow_part. cbn [run]. destruct g as [g|]; cbn [suffix].
  - rewrite Str.app_assoc, after_literal_app. destruct g; cbn [global_name] in *.
    + rewrite (after_literal_app "window"), (after_literal_app "->"), consumed_app_app, consumed_app.
      unfold target_captures in Hk. cbn [global_name] in Hk. by rewrite Hk.
    + assert (∀ s, after_literal "window" ("document" +:+ s) = None) as -> by done.
      rewrite (after_literal_app "document"), (after_literal_app "->"), consumed_app_app, consumed_app.
      unfold target_captures in Hk. cbn [global_name] in Hk. by rewrite Hk.
  - rewrite Str.app_nil_l. assert (∀ s, after_literal "@" ("->" +:+ s) = None) as -> by done.
    by rewrite (after_literal_app "->").
Qed.

(** There is no arrow before the end of a name. *)
Lemma run_target_none g tail c k a x :
  Str.free "@" (String a x) → Str.free ">" (String a x) →
  run arrow_part (String a x +:+ suffix g +:+ "->" +:+ tail) c k = None.
Proof.
  intros [Ha _]%Str.free_cons Hgt. unfold arrow_part. cbn [run]. rewrite Str.app_cons, after_literal_ne by congruence.
  assert (after_literal "->" (String a (x +:+ suffix g +:+ "->" +:+ tail)) = None) as ->; [|done].
  apply Str.free_cons in Hgt as [_ Hgt]. simpl. case_decide; [|done].
  destruct x as [|b x]; [by destruct g as [[]|]|].
  apply Str.free_cons in Hgt as [Hb _]. rewrite Str.app_cons. by rewrite decide_False by congruence.
Qed.

Definition event_captures (name : string) (g : option global_target) : captures :=
  JMap.set 1 (name +:+ suffix g +:+ "->") (target_captures g (JMap.set 2 name [])).

Lemma run_event name g tail k a :
  Str.word name → Str.free "@" name → Str.free ">" name →
  k tail (event_captures name g) = Some a →
  run (Group 1 event_part) (print_event (Some (name, g)) +:+ tail) [] k = Some a.
Proof.
  intros Hw Hat Hgt Hk. destruct (word_dot _ Hw) as [Hne Hd]. unfold print_event, event_part.
  rewrite !Str.app_assoc. cbn [run]. apply lazy_plus_first; [done|done| |].
  - rewrite consumed_app. apply run_target. rewrite <-!Str.app_assoc, consumed_app, Str.app_assoc. done.
  - intros c0 x' _ (x0 & _ & ->). apply Str.free_app in Hat as [_ Hat], Hgt as [_ Hgt].
    by apply run_target_none.
Qed.

Lemma run_event_none tail k : Str.free ">" tail → run (Group 1 event_part) tail [] k = None.
Proof.
  intros Hf. unfold event_part, arrow_part. cbn [run]. apply lazy_plus_none. intros x c s' ->.
  apply Str.free_app in Hf as [_ [_ Hf]%Str.free_cons].
  assert (∀ s, Str.free ">" s → after_literal "->" s = None) as Harrow.
  { intros s ?. by apply literal_free. }
  rewrite Harrow by done. destruct (after_literal "@" s') as [s1|] eqn:Hs1; [|done].
  pose proof (after_literal_Some _ _ _ Hs1) as ->. apply Str.free_app in Hf as [_ Hf].
  assert (∀ l s, after_literal l s1 = Some s → Str.free ">" s) as Hlit.
  { intros l s ->%after_literal_Some. by apply Str.free_app in Hf as [_ ?]. }
  destruct (after_literal "window" s1) as [s2|] eqn:H2.
  - rewrite Harrow by by eapply Hlit. destruct (after_literal "document" s1) as [s3|] eqn:H3; [|done].
    by rewrite Harrow by by eapply Hlit.
  - destruct (after_literal "document" s1) as [s3|] eqn:H3; [|done].
    by rewrite Harrow by by eapply Hlit.
Qed.

Lemma exec_print p :
  parts_ok p →
  exec descriptorPattern (print p) =
    Some (tail_captures p (match p_event p with Some (name, g) => event_captures name g | None => [] end)).
Proof.
  intros Hp. pose proof (λ c, run_tail p c Hp) as Ht. destruct Hp as [He _ _ _].
  assert (∀ r s, run (Seq (Opt (Group 1 event_part)) r) s [] fin =
    match run (Group 1 event_part) s [] (λ s c, run r s c fin) with
    | Some x => Some x | None => run r s [] fin end) as Hopt by done.
  unfold exec, print. fold fin. unfold descriptorPattern. rewrite Hopt. clear Hopt.
  destruct (p_event p) as [[name g]|].
  - destruct He as (Hw & Hat & Hgt). by erewrite run_event.
  - unfold print_event. rewrite Str.app_nil_l, run_event_none by done. apply Ht.
Qed.

(** Every word of the text is kept by [trim]. *)
Lemma trim_word s : Str.word s → Str.trim s = s.
Proof.
  intros [Hs Ha]. unfold Str.trim.
  assert (Str.trimStart s = s) as ->.
  { destruct s as [|c s]; [done|]. simpl in Ha |- *. apply andb_true_iff in Ha as [Hc _].
    apply negb_true_iff in Hc. by rewrite Hc. }
  clear Hs. induction s as [|c s IH]; [done|]. simpl in Ha |- *. apply andb_true_iff in Ha as [Hc Ha].
  rewrite IH by done. apply negb_true_iff in Hc. rewrite Hc. by destruct s.
Qed.

Lemma word_app s t : Str.word s → Str.all (λ c, negb (Str.is_ws c)) t = true → Str.word (s +:+ t).
Proof.
  intros [Hs Ha] Ht. split; [by intros [? ?]%Str.app_eq_nil|]. by rewrite Str.all_app, Ha, Ht.
Qed.

Lemma print_word p : parts_ok p → Str.word (print p).
Proof.
  intros [He [[Hi1 Hi2] _] [[_ Hm] _] Ho].
  assert (Str.word (print_tail p)) as Ht.
  { unfold print_tail. apply word_app; [done|]. rewrite !Str.all_app. cbn [Str.all]. rewrite Hm. simpl.
    unfold print_options. destruct (p_options p) as [|o os]; [done|].
    destruct (options_word (o :: os) (λ H, nil_cons (eq_sym H)) Ho) as [_ Hw].
    rewrite Str.all_app, Hw. done. }
  unfold print. destruct (p_event p) as [[name g]|]; simpl; [|by rewrite Str.app_nil_l].
  destruct He as (Hw & _ & _). rewrite Str.app_assoc. apply word_app; [done|].
  destruct Ht as [_ Ht]. rewrite !Str.all_app, Ht. by destruct g as [[]|].
Qed.

Lemma strip_print_option k b :
  (b = true → has_bang k = false) →
  strip_bang (print_option (k, b)) = k ∧ negb (has_bang (print_option (k, b))) = b.
Proof.
  intros Hk. destruct b; simpl; [|done]. specialize (Hk eq_refl).
  destruct k as [|c k]; [done|]. simpl in *. apply bool_decide_eq_false in Hk.
  by rewrite decide_False, bool_decide_eq_false_2.
Qed.

Lemma parse_options opts :
  opts ≠ [] → Forall option_ok opts →
  parseEventOptions (Str.join ":" (map print_option opts)) = foldl (λ o kv, Obj.assign kv.1 kv.2 o) [] opts.
Proof.
  intros Hne Ho. unfold parseEventOptions. rewrite Str.split_on_join.
  2:{ by destruct opts. }
  2:{ apply Forall_fmap, (Forall_impl _ _ _ Ho). intros [k b] (_ & Hf & _). simpl.
      unfold print_option. destruct b; simpl; [by rewrite Str.app_nil_l|]. by apply Str.free_app. }
  clear Hne. generalize (@nil (string * bool)) as acc.
  induction Ho as [|[k b] opts (_ & _ & Hb) Ho IH]; intros acc; [done|]. simpl.
  destruct (strip_print_option k b Hb) as [-> ->]. apply IH.
Qed.

Lemma get_tail_captures p c n :
  n ≠ 5 → n ≠ 6 → n ≠ 7 → n ≠ 8 → n ≠ 9 → JMap.get n (tail_captures p c) = JMap.get n c.
Proof.
  intros. unfold tail_captures, option_captures.
  destruct (p_options p); rewrite !JMap.get_set_ne by congruence; done.
Qed.

Lemma get_tail_parts p c :
  JMap.get 5 (tail_captures p c) = Some (p_identifier p) ∧
  JMap.get 7 (tail_captures p c) = Some (p_method p) ∧
  JMap.get 9 (tail_captures p c) =
    match p_options p with
    | [] => JMap.get 9 c
    | _ => Some (Str.join ":" (map print_option (p_options p)))
    end.
Proof. unfold tail_captures, option_captures. destruct (p_options p); rewrite !JMap.get_set; done. Qed.

(** ** Properties *)

Lemma descriptor_parse p : parts_ok p → parseActionDescriptorString (print p) = parsed p.
Proof.
  intros Hp. unfold parseActionDescriptorString. rewrite trim_word by by apply print_word.
  rewrite exec_print by done. cbn [default id].
  set (c := match p_event p with Some _ => _ | None => _ end).
  destruct (get_tail_parts p c) as (-> & -> & ->). rewrite !get_tail_captures by done.
  unfold parsed. f_equal.
  - unfold c. destruct (p_event p) as [[name [[]|]]|]; done.
  - unfold c. destruct (p_event p) as [[name [[]|]]|]; done.
  - destruct Hp as [_ _ _ Ho]. destruct (p_options p) as [|o os] eqn:Hos.
    { unfold c. by destruct (p_event p) as [[name [[]|]]|]. }
    destruct (options_word (o :: os) (λ H, nil_cons (eq_sym H)) Ho) as [Hne _].
    rewrite <-parse_options by done. by destruct (Str.join _ _).
Qed.

(** C26: a descriptor that was printed from its parts is parsed to those parts:
    the event, the window or document that it is listened to on, the
    identifier, the method, and the options, of which the last setting of each
    key counts; an event, target or options that are absent stay absent. *)
Theorem descriptor_roundtrip p :
  parts_ok p → parseActionDescriptorString (print p) = parsed p.
Proof.
  apply descriptor_parse.
Qed.

Lemma descriptor_roundtrip_witness :
  parseActionDescriptorString "keydown@window->search#first:once:!passive" =
    mk_descriptor (Some Window) (Some "keydown") [("once", true); ("passive", false)] (Some "search") (Some "first").
Proof.
  apply (descriptor_roundtrip
    (mk_parts (Some ("keydown", Some Window)) "search" "first" [("once", true); ("passive", false)])).
  assert (∀ w, Str.non_empty w = true → Str.all (λ c, negb (Str.is_ws c)) w = true → Str.word w) as Hw.
  { intros w Hn Ha. split; [|done]. by intros ->. }
  assert (∀ k b, Str.non_empty k = true → Str.all (λ c, negb (Str.is_ws c)) k = true →
    Str.free ":" k → has_bang k = false → option_ok (k, b)) as Ho.
  { intros k b ????. split_and!; [by apply Hw|done|done]. }
  split; cbn [p_event p_identifier p_method p_options];
    [|split|split|apply Forall_cons; split; [|apply Forall_singleton]]; try apply Ho; try split_and!;
    try apply Hw; reflexivity.
Defined.

(** What [new Action] makes of the values of a descriptor. *)
Lemma or_else_word {E} w (r : string + E) : Str.word w → or_else (Some w) r = inl w.
Proof. intros [Hw _]. unfold or_else. by destruct w. Qed.

(** An action is recovered from the text that [toString] gives it: the
    token with that text on the same element and at the same index is parsed
    to the action, without its options, which the text does not have. *)
Lemma action_roundtrip {doc} `{Dom doc, Tagged doc} (d : doc) (a : action) tok :
  Str.word (a_eventName a) → Str.free "@" (a_eventName a) → Str.free ">" (a_eventName a) →
  Str.word (a_identifier a) → Str.free "#" (a_identifier a) →
  Str.word (a_methodName a) → Str.free ":" (a_methodName a) →
  (∀ e, a_eventTarget a = ElementTarget e → e = a_element a) →
  tok_content tok = toString a → tok_element tok = a_element a → tok_index tok = a_index a →
  forToken d (a_id a) tok =
    inl (mk_action (a_id a) (a_element a) (a_index a) (a_eventTarget a) (a_eventName a) []
           (a_identifier a) (a_methodName a)).
Proof.
  intros Hn Hat Hgt Hi Hh Hm Hc Ht Hcont He Hx.
  set (g := match a_eventTarget a with Global g => Some g | ElementTarget _ => None end).
  set (p := mk_parts (Some (a_eventName a, g)) (a_identifier a) (a_methodName a) []).
  assert (tok_content tok = print p) as Hp.
  { rewrite Hcont. unfold toString, print, print_event, print_tail, eventTargetName, print_options. simpl.
    rewrite Str.app_nil_r, !Str.app_assoc. unfold g. by destruct (a_eventTarget a) as [[]|]. }
  unfold forToken. rewrite Hp, descriptor_parse by (by split). unfold new_action, parsed. cbn -[or_else].
  rewrite !or_else_word, He, Hx by done. f_equal. f_equal. unfold g.
  destruct (a_eventTarget a) as [|e] eqn:Hta; [done|]. by rewrite (Ht e).
Qed.

Lemma action_roundtrip_witness :
  forToken (doc := PageDom.t) (H0 := λ _ _, "DIV") (PageDom.mk [(0, 0)] [] [] eq_refl) 3
    (mk_token 7 0 "data-action" "click@document->guide#close" 1) =
  inl (mk_action 3 0 1 (Global Document) "click" [] "guide" "close").
Proof.
  apply (action_roundtrip (doc := PageDom.t) (H0 := λ _ _, "DIV") (PageDom.mk [(0, 0)] [] [] eq_refl)
    (mk_action 3 0 1 (Global Document) "click" [("once", true)] "guide" "close")
    (mk_token 7 0 "data-action" "click@document->guide#close" 1)); (reflexivity || (split; [discriminate|reflexivity]) || discriminate).
Defined.

(** A descriptor that matches the pattern has an identifier and a method. *)
Lemma descriptor_match s :
  let desc := parseActionDescriptorString s in
  (∀ name, d_eventName desc = Some name → name ≠ "") ∧
  ((∃ i m, d_identifier desc = Some i ∧ d_methodName desc = Some m ∧ i ≠ "" ∧ m ≠ "") ∨
   (d_identifier desc = None ∧ d_eventName desc = None ∧ exec descriptorPattern (Str.trim s) = None)).
Proof.
  unfold parseActionDescriptorString. destruct (exec descriptorPattern (Str.trim s)) as [c|] eqn:Hc; simpl.
  - apply exec_captures in Hc as [Hne Hm]; [|done]. split; [intros name; apply Hne|]. left.
    destruct (Hm 5) as [i Hi]; [done|]. destruct (Hm 7) as [m Hm']; [done|].
    exists i, m. split_and!; [done|done|by eapply Hne|by eapply Hne].
  - split; [done|]. by right.
Qed.

Lemma forToken_spec {doc} `{Dom doc, Tagged doc} (d : doc) id tok :
  let desc := parseActionDescriptorString (tok_content tok) in
  match forToken d id tok with
  | inl a =>
      a_id a = id ∧ a_element a = tok_element tok ∧ a_index a = tok_index tok ∧
      a_eventName a ≠ "" ∧ a_identifier a ≠ "" ∧ a_methodName a ≠ "" ∧
      d_identifier desc = Some (a_identifier a) ∧ d_methodName desc = Some (a_methodName a) ∧
      match d_eventName desc with
      | Some name => a_eventName a = name
      | None => getDefaultEventNameForElement d (tok_element tok) = Some (a_eventName a)
      end
  | inr e =>
      if decide (d_eventName desc = None ∧ getDefaultEventNameForElement d (tok_element tok) = None)
      then e = "missing event name"
      else e = "missing identifier" ∧ exec descriptorPattern (Str.trim (tok_content tok)) = None
  end.
Proof.
  intros desc. destruct (descriptor_match (tok_content tok)) as [Hn Hm]. fold desc in Hn, Hm.
  unfold forToken, new_action. fold desc.
  set (target := match d_eventTarget desc with Some _ => _ | None => _ end). clearbody target.
  assert (∀ name, getDefaultEventNameForElement d (tok_element tok) = Some name → name ≠ "") as Hd.
  { intros name. unfold getDefaultEventNameForElement. repeat case_decide; by intros [= <-]. }
  assert (∀ (s : string) (r : string + string), s ≠ "" → or_else (Some s) r = inl s) as Hor by by intros [].
  assert (∀ r : string + string, or_else None r = r) as Hnone by done.
  destruct (d_eventName desc) as [name|] eqn:Hname.
  - rewrite Hor by auto. destruct Hm as [(i & m & -> & -> & Hi & Hm')|(_ & ? & _)]; [|done].
    rewrite !Hor by done. simpl. split_and!; auto.
  - rewrite Hnone. destruct (getDefaultEventNameForElement d (tok_element tok)) as [name|] eqn:Hdef.
    + rewrite Hor by auto. destruct Hm as [(i & m & -> & -> & Hi & Hm')|(-> & _ & ?)].
      * rewrite !Hor by done. simpl. split_and!; auto.
      * rewrite Hnone, decide_False by naive_solver. done.
    + rewrite Hnone. by rewrite decide_True.
Qed.

(** C31: an action is made exactly if its descriptor matches the pattern and an
    event name is known: it then has the identifier and method of the
    descriptor, which are not empty, and its event name, or without one the
    default event of the element's tag.  Otherwise the event name or, after
    it, the identifier is reported as missing; the method never is. *)
Theorem action_complete {doc} `{Dom doc, Tagged doc} (d : doc) id tok :
  let desc := parseActionDescriptorString (tok_content tok) in
  match forToken d id tok with
  | inl a =>
      a_id a = id ∧ a_element a = tok_element tok ∧ a_index a = tok_index tok ∧
      a_eventName a ≠ "" ∧ a_identifier a ≠ "" ∧ a_methodName a ≠ "" ∧
      d_identifier desc = Some (a_identifier a) ∧ d_methodName desc = Some (a_methodName a) ∧
      match d_eventName desc with
      | Some name => a_eventName a = name
      | None => getDefaultEventNameForElement d (tok_element tok) = Some (a_eventName a)
      end
  | inr e =>
      if decide (d_eventName desc = None ∧ getDefaultEventNameForElement d (tok_element tok) = None)
      then e = "missing event name"
      else e = "missing identifier" ∧ exec descriptorPattern (Str.trim (tok_content tok)) = None
  end.
Proof. apply forToken_spec. Qed.
