(* ===== verification/Dispatcher.v ===== *)
(** Event dispatch: bindings of actions to contexts, the event listeners that
    call them, and the dispatcher that shares one listener among the bindings
    of an event target, an event name and options.

    Models [src/gui/web/assets/scripts/stimulus.js], the classes [Binding],
    [EventListener] and [Dispatcher].  The browser is given listener objects;
    a listener stays in the maps of the dispatcher for ever, so its target and
    cache key identify it, and [registered] is the browser's list of them. *)

From S2P Require Import Prelude JsCore JsString Dom Json Scopes Names Router Targets Regex Actions.
From Stdlib Require Import Ascii.

#[local] Open Scope string_scope.
#[local] Open Scope list_scope.

(** A binding object; [b_id] is its identity. *)
Record binding := mk_binding { b_id : nat; b_context : context; b_action : action }.

#[export] Instance binding_eq_dec : EqDecision binding.
Proof. solve_decision. Defined.

(** An event: where it happened, and its property
    [immediatePropagationStopped] once a listener has extended it. *)
Record event := mk_event {
  ev_target : event_target;
  immediatePropagationStopped : option bool;
}.

Definition extendEvent (ev : event) : event :=
  match immediatePropagationStopped ev with
  | Some _ => ev
  | None => mk_event (ev_target ev) (Some false)
  end.

Definition stopped (ev : event) : bool := default false (immediatePropagationStopped ev).

(** What the methods of the controllers do: a method of a context, if there is
    one of the name, acts on the world; it may call
    [stopImmediatePropagation], and it may throw.  [logger_error] is
    [application.handleError]. *)
Record Controllers (W : Type) := {
  method : context → string → option (event → W → W * bool * option string);
  logger_error : W → string → string → W;
}.
Arguments method {W}.
Arguments logger_error {W}.

Module Binding.
Section binding.
Context {doc W : Type} `{Dom doc} (controllers : Controllers W).
Implicit Types (d : doc) (b : binding) (w : W) (ev : event).

Definition index b : nat := a_index (b_action b).
Definition eventTarget b : event_target := a_eventTarget (b_action b).
Definition eventName b : string := a_eventName (b_action b).
Definition eventOptions b : options := a_eventOptions (b_action b).
Definition scope b : scope := cx_scope (b_context b).
Definition element b : elem := cx_element (b_context b).
Definition methodName b : string := a_methodName (b_action b).

Definition willBeInvokedByEvent d b ev : bool :=
  if decide (ElementTarget (element b) = ev_target ev) then true
  else match ev_target ev with
       | ElementTarget e =>
         if contains d (element b) e then Scope.containsElement d (scope b) e
         else Scope.containsElement d (scope b) (a_element (b_action b))
       | Global _ => Scope.containsElement d (scope b) (a_element (b_action b))
       end.

(** [this.context.handleError(error, 'invoking action ...', detail)] *)
Definition handleError b w (error : string) : W :=
  logger_error controllers w ("Error invoking action " +:+ Str.quoted (toString (b_action b))) error.

Definition invokeWithEvent b (s : W * event) : W * event :=
  let '(w, ev) := s in
  match method controllers (b_context b) (methodName b) with
  | Some m =>
    let '(w, stop, thrown) := m ev w in
    let ev := if stop then mk_event (ev_target ev) (Some true) else ev in
    (match thrown with Some error => handleError b w error | None => w end, ev)
  | None =>
    (handleError b w ("Action " +:+ Str.quoted (toString (b_action b)) +:+
       " references undefined method " +:+ Str.quoted (methodName b)), ev)
  end.

Definition handleEvent d b (s : W * event) : W * event :=
  if willBeInvokedByEvent d b s.2 then invokeWithEvent b s else s.
End binding.
End Binding.

Module EventListener.

Record t := mk {
  eventTarget : event_target;
  eventName : string;
  eventOptions : options;
  unorderedBindings : list binding;
}.

Definition new (eventTarget : event_target) (eventName : string) (eventOptions : options) : t :=
  mk eventTarget eventName eventOptions [].

Definition bindingConnected (l : t) (b : binding) : t :=
  mk (eventTarget l) (eventName l) (eventOptions l) (JSet.add b (unorderedBindings l)).
Definition bindingDisconnected (l : t) (b : binding) : t :=
  mk (eventTarget l) (eventName l) (eventOptions l) (JSet.delete b (unorderedBindings l)).

Definition bindings (l : t) : list binding := JArray.sort (JArray.below Binding.index) (unorderedBindings l).

Section handle.
Context {doc W : Type} `{Dom doc} (controllers : Controllers W).

(** The loop over the bindings, with its [break]. *)
Fixpoint handle (d : doc) (bs : list binding) (s : W * event) : W * event :=
  match bs with
  | [] => s
  | b :: bs => if stopped s.2 then s else handle d bs (Binding.handleEvent controllers d b s)
  end.

Definition handleEvent (d : doc) (l : t) (s : W * event) : W * event :=
  handle d (bindings l) (s.1, extendEvent s.2).
End handle.
End EventListener.

(** ** [Dispatcher] *)

Module Dispatcher.

(** A listener object, as the browser keeps it. *)
Definition listener_id : Type := event_target * string.

Record t := mk {
  eventListenerMaps : list (event_target * list (string * EventListener.t));
  started : bool;
  registered : list listener_id;
}.

Definition new : t := mk [] false [].

(** [eventListener.connect()] and [eventListener.disconnect()] *)
Definition connect (d : t) (i : listener_id) : t :=
  mk (eventListenerMaps d) (started d) (JSet.add i (registered d)).
Definition disconnect (d : t) (i : listener_id) : t :=
  mk (eventListenerMaps d) (started d) (JSet.delete i (registered d)).

Definition eventListeners (d : t) : list (listener_id * EventListener.t) :=
  foldl (λ listeners tm, listeners ++ ((λ kl : string * EventListener.t, ((tm.1, kl.1), kl.2)) <$> tm.2))
    [] (eventListenerMaps d).

Definition set_started (d : t) (b : bool) : t := mk (eventListenerMaps d) b (registered d).

Definition start (d : t) : t :=
  if started d then d
  else let d := set_started d true in foldl (λ d il, connect d il.1) d (eventListeners d).
Definition stop (d : t) : t :=
  if started d then let d := set_started d false in foldl (λ d il, disconnect d il.1) d (eventListeners d)
  else d.

(** The order of [Array.prototype.sort()] on strings. *)
Definition string_before (s s' : string) : bool :=
  match String.compare s s' with Lt => true | _ => false end.

Definition cacheKey (eventName : string) (eventOptions : options) : string :=
  Str.join ":"
    (eventName ::
     map (λ key, (if default false (JMap.get key eventOptions) then "" else "!") +:+ key)
         (JArray.sort string_before (Obj.keys eventOptions))).

Definition set_map (d : t) (eventTarget : event_target) (m : list (string * EventListener.t)) : t :=
  mk (JMap.set eventTarget m (eventListenerMaps d)) (started d) (registered d).

Definition fetchEventListenerMapForEventTarget (d : t) (eventTarget : event_target)
    : t * list (string * EventListener.t) :=
  match JMap.get eventTarget (eventListenerMaps d) with
  | Some eventListenerMap => (d, eventListenerMap)
  | None => (set_map d eventTarget [], [])
  end.

Definition createEventListener (d : t) (eventTarget : event_target) (eventName : string)
    (eventOptions : options) : t * EventListener.t :=
  let eventListener := EventListener.new eventTarget eventName eventOptions in
  (if started d then connect d (eventTarget, cacheKey eventName eventOptions) else d, eventListener).

Definition fetchEventListener (d : t) (eventTarget : event_target) (eventName : string)
    (eventOptions : options) : t * EventListener.t :=
  let '(d, eventListenerMap) := fetchEventListenerMapForEventTarget d eventTarget in
  let key := cacheKey eventName eventOptions in
  match JMap.get key eventListenerMap with
  | Some eventListener => (d, eventListener)
  | None =>
    let '(d, eventListener) := createEventListener d eventTarget eventName eventOptions in
    (set_map d eventTarget (JMap.set key eventListener eventListenerMap), eventListener)
  end.

Definition fetchEventListenerForBinding (d : t) (b : binding) : t * EventListener.t :=
  fetchEventListener d (Binding.eventTarget b) (Binding.eventName b) (Binding.eventOptions b).

(** The listener that a binding is fetched is stored back after its update. *)
Definition key_of (b : binding) : string := cacheKey (Binding.eventName b) (Binding.eventOptions b).
Definition update (d : t) (b : binding) (l : EventListener.t) : t :=
  let m := default [] (JMap.get (Binding.eventTarget b) (eventListenerMaps d)) in
  set_map d (Binding.eventTarget b) (JMap.set (key_of b) l m).

Definition bindingConnected (d : t) (b : binding) : t :=
  let '(d, l) := fetchEventListenerForBinding d b in
  update d b (EventListener.bindingConnected l b).
Definition bindingDisconnected (d : t) (b : binding) : t :=
  let '(d, l) := fetchEventListenerForBinding d b in
  update d b (EventListener.bindingDisconnected l b).

(** *** The listeners of a dispatcher *)

Definition listener (d : t) (i : listener_id) : option EventListener.t :=
  m ← JMap.get i.1 (eventListenerMaps d); JMap.get i.2 m.

Definition id_of (b : binding) : listener_id := (Binding.eventTarget b, key_of b).

(** The bindings that the listener of an identity calls. *)
Definition attached (d : t) (i : listener_id) : list binding :=
  match listener d i with Some l => EventListener.unorderedBindings l | None => [] end.

Definition maps_wf (d : t) : Prop :=
  JMap.wf (eventListenerMaps d) ∧ ∀ tg m, JMap.get tg (eventListenerMaps d) = Some m → JMap.wf m.

Lemma elem_of_eventListeners d i l :
  maps_wf d → (i, l) ∈ eventListeners d ↔ listener d i = Some l.
Proof.
  intros [Hwf Hm]. unfold eventListeners, listener.
  assert (∀ acc, (i, l) ∈ foldl (λ listeners tm, listeners ++
      ((λ kl : string * EventListener.t, ((tm.1, kl.1), kl.2)) <$> tm.2)) acc (eventListenerMaps d) ↔
    (i, l) ∈ acc ∨ ∃ m, (i.1, m) ∈ eventListenerMaps d ∧ (i.2, l) ∈ m) as ->.
  { generalize (eventListenerMaps d). intros ms. induction ms as [|[tg m] ms IH]; intros acc; simpl.
    - split; [tauto|]. intros [?|(m & []%not_elem_of_nil & _)]. done.
    - rewrite IH, elem_of_app, list_elem_of_fmap. setoid_rewrite elem_of_cons. destruct i as [tg' k]. simpl. split.
      + intros [[?|([k' l'] & Heq & Hin)]|(m' & ? & ?)]; [tauto| |eauto 10]. simplify_eq/=. eauto 10.
      + intros [?|(m' & [[= -> ->]|?] & Hin)]; [tauto| |eauto 10]. left. right. by exists (k, l). }
  split.
  - intros [?%not_elem_of_nil|(m & Hin & Hl)]; [done|].
    rewrite (JMap.elem_get_Some _ _ _ Hwf Hin). simpl. apply JMap.elem_get_Some; [|done].
    by eapply Hm, JMap.elem_get_Some.
  - intros Hl. right. destruct (JMap.get i.1 _) as [m|] eqn:Hg; [|done]. exists m.
    split; by apply JMap.get_Some_elem.
Qed.

Lemma get_default (tg : event_target) k d :
  JMap.get k (default [] (JMap.get tg (eventListenerMaps d))) = listener d (tg, k).
Proof. unfold listener. simpl. by destruct (JMap.get tg _). Qed.

(** What a change of one listener does. *)
Record sets (d d' : t) (i : listener_id) (l : EventListener.t) : Prop := {
  sets_wf : maps_wf d → maps_wf d';
  sets_listener i' : listener d' i' = if decide (i' = i) then Some l else listener d i';
  sets_started : started d' = started d;
}.

Lemma set_map_sets d tg k l :
  sets d (set_map d tg (JMap.set k l (default [] (JMap.get tg (eventListenerMaps d))))) (tg, k) l.
Proof.
  split; [| |done].
  - intros [Hw Hm]. split; simpl; [by apply JMap.wf_set|]. intros tg' m. rewrite JMap.get_set.
    case_decide; [|apply Hm]. intros [= <-]. apply JMap.wf_set.
    destruct (JMap.get tg _) eqn:Hg; simpl; [by eapply Hm|apply JMap.map_wf_nil].
  - intros [tg' k']. unfold listener at 1. simpl. rewrite JMap.get_set. destruct (decide (tg = tg')) as [<-|].
    + simpl. rewrite JMap.get_set, get_default. repeat case_decide; naive_solver.
    + rewrite decide_False by naive_solver. done.
Qed.

Lemma update_sets d b l : sets d (update d b l) (id_of b) l ∧ registered (update d b l) = registered d.
Proof. split; [apply set_map_sets|done]. Qed.

Lemma fetch_sets d tg n o :
  let i := (tg, cacheKey n o) in
  let r := fetchEventListener d tg n o in
  r.2 = default (EventListener.new tg n o) (listener d i) ∧ sets d r.1 i r.2 ∧
  registered r.1 = if decide (started d = true ∧ listener d i = None) then JSet.add i (registered d) else registered d.
Proof.
  intros i. unfold fetchEventListener, fetchEventListenerMapForEventTarget.
  pose proof (get_default tg (cacheKey n o) d) as Hg.
  destruct (JMap.get tg (eventListenerMaps d)) as [m|] eqn:Hm; cbn [default id] in Hg; fold i in Hg.
  - rewrite Hg. destruct (listener d i) as [l|] eqn:Hl; simpl.
    + split_and!; [done| |by rewrite decide_False by naive_solver]. split; [done| |done].
      intros i'. by case_decide; [subst|].
    + pose proof (set_map_sets d tg (cacheKey n o) (EventListener.new tg n o)) as [Hw Hs _].
      rewrite Hm in Hw, Hs. simpl in Hw, Hs.
      split_and!; [done| |by destruct (started d)].
      destruct (started d); split; done.
  - simpl in Hg. rewrite <-Hg. simpl.
    pose proof (set_map_sets d tg (cacheKey n o) (EventListener.new tg n o)) as [Hw Hs _].
    rewrite Hm in Hw, Hs. simpl in Hw, Hs.
    assert (∀ d0, eventListenerMaps d0 = JMap.set tg [] (eventListenerMaps d) → started d0 = started d →
      sets d (set_map d0 tg [(cacheKey n o, EventListener.new tg n o)]) i (EventListener.new tg n o)) as Hsets.
    { intros d0 Hd0 Hst0.
      assert (eventListenerMaps (set_map d0 tg [(cacheKey n o, EventListener.new tg n o)]) =
              eventListenerMaps (set_map d tg [(cacheKey n o, EventListener.new tg n o)])) as Heq.
      { simpl. by rewrite Hd0, JMap.set_set. }
      split; [|intros i'|done].
      - unfold maps_wf. rewrite Heq. exact Hw.
      - unfold listener at 1. rewrite Heq. apply Hs. }
    destruct (started d) eqn:Hst; simpl.
    + split_and!; [done|by apply Hsets|done].
    + split_and!; [done|by apply Hsets|done].
Qed.

(** *** What a dispatcher promises

[Serves bs d] says that the bindings [bs] are connected: the listener of a
target and a key calls those of them with that target and key, its own target,
name and options have that key and satisfy [P], and the browser has all
listeners if the dispatcher is started, and none otherwise. *)
Section serves.
Context (P : string → options → Prop).

Record Serves (bs : list binding) (d : t) : Prop := {
  serves_wf : maps_wf d;
  serves_listener i l :
    listener d i = Some l →
    EventListener.eventTarget l = i.1 ∧ cacheKey (EventListener.eventName l) (EventListener.eventOptions l) = i.2 ∧
    P (EventListener.eventName l) (EventListener.eventOptions l);
  serves_attached i b : b ∈ attached d i ↔ b ∈ bs ∧ id_of b = i;
  serves_nodup i : NoDup (attached d i);
  serves_registered i : i ∈ registered d ↔ started d = true ∧ is_Some (listener d i);
  serves_registered_nodup : NoDup (registered d);
}.

Lemma serves_new : Serves [] new.
Proof.
  split; [| |intros i b|intros i| |constructor]; unfold attached, listener; simpl; try done.
  - split; [constructor|done].
  - pose proof (not_elem_of_nil b). tauto.
  - constructor.
  - intros i. split; [by intros ?%not_elem_of_nil|by intros [? _]].
Qed.

Lemma serves_ext bs bs' d : (∀ b, b ∈ bs ↔ b ∈ bs') → Serves bs d → Serves bs' d.
Proof. intros Hb []. split; try done. intros i b. by rewrite <-Hb. Qed.

(** Both operations on a binding replace the listener that they fetch. *)
Lemma replace_serves bs bs' d b (f : EventListener.t → binding → EventListener.t) :
  (∀ l, EventListener.eventTarget (f l b) = EventListener.eventTarget l ∧
        EventListener.eventName (f l b) = EventListener.eventName l ∧
        EventListener.eventOptions (f l b) = EventListener.eventOptions l) →
  (∀ l, NoDup (EventListener.unorderedBindings l) → NoDup (EventListener.unorderedBindings (f l b))) →
  (∀ l b', (b' ∈ EventListener.unorderedBindings l ↔ b' ∈ bs ∧ id_of b' = id_of b) →
           b' ∈ EventListener.unorderedBindings (f l b) ↔ b' ∈ bs' ∧ id_of b' = id_of b) →
  (∀ b', id_of b' ≠ id_of b → b' ∈ bs ↔ b' ∈ bs') →
  P (Binding.eventName b) (Binding.eventOptions b) → Serves bs d →
  Serves bs' (let '(d, l) := fetchEventListenerForBinding d b in update d b (f l b)).
Proof.
  intros Hf Hn Hb Hbs HP [Hw Hl Ha Hna Hr Hnr].
  destruct (fetch_sets d (Binding.eventTarget b) (Binding.eventName b) (Binding.eventOptions b)) as (Hl0 & Hs & Hreg).
  fold (fetchEventListenerForBinding d b) in Hl0, Hs, Hreg.
  change (Binding.eventTarget b, cacheKey (Binding.eventName b) (Binding.eventOptions b)) with (id_of b) in *.
  destruct (fetchEventListenerForBinding d b) as [d1 l0]. simpl in Hl0, Hs, Hreg.
  destruct (update_sets d1 b (f l0 b)) as [Hs' Hreg'].
  assert (∀ i', listener (update d1 b (f l0 b)) i' = if decide (i' = id_of b) then Some (f l0 b) else listener d i') as Hlis.
  { intros i'. rewrite (sets_listener _ _ _ _ Hs'). destruct (decide (i' = id_of b)); [done|].
    rewrite (sets_listener _ _ _ _ Hs). by rewrite decide_False. }
  assert (EventListener.eventTarget l0 = (id_of b).1 ∧
          cacheKey (EventListener.eventName l0) (EventListener.eventOptions l0) = (id_of b).2 ∧
          P (EventListener.eventName l0) (EventListener.eventOptions l0) ∧
          NoDup (EventListener.unorderedBindings l0) ∧
          ∀ b', b' ∈ EventListener.unorderedBindings l0 ↔ b' ∈ bs ∧ id_of b' = id_of b) as (Ht0 & Hk0 & HP0 & Hn0 & Hb0).
  { subst l0. pose proof (Ha (id_of b)) as Ha0. pose proof (Hna (id_of b)) as Hn0. unfold attached in Ha0, Hn0.
    destruct (listener d (id_of b)) as [l|] eqn:Hli; simpl; [apply Hl in Hli as (-> & -> & ?)|]; by split_and!. }
  split.
  - by apply (sets_wf _ _ _ _ Hs'), (sets_wf _ _ _ _ Hs).
  - intros i l. rewrite Hlis. destruct (decide (i = id_of b)) as [Hi|Hi]; [|apply Hl]. intros [= <-]. subst i.
    destruct (Hf l0) as (-> & -> & ->). done.
  - intros i b'. unfold attached. rewrite Hlis. destruct (decide (i = id_of b)) as [Hi|Hi].
    + subst i. apply Hb, Hb0.
    + pose proof (Ha i b') as Ha'. unfold attached in Ha'. rewrite Ha'.
      split; intros [? <-]; (split; [|done]); by apply Hbs.
  - intros i. unfold attached. rewrite Hlis. destruct (decide (i = id_of b)); [by apply Hn|apply Hna].
  - intros i. rewrite Hreg', Hreg, (sets_started _ _ _ _ Hs'), (sets_started _ _ _ _ Hs), Hlis.
    destruct (decide (started d = true ∧ listener d (id_of b) = None)) as [[Hst Hnone]|Hnot].
    + rewrite JSet.elem_of_add, Hr. destruct (decide (i = id_of b)); naive_solver.
    + rewrite Hr. destruct (decide (i = id_of b)); [|done]. subst i. split; [naive_solver|]. intros [Hst _]. split; [done|].
      destruct (listener d (id_of b)); [done|tauto].
  - rewrite Hreg', Hreg. destruct (decide (_ ∧ _)); [by apply JSet.NoDup_add|done].
Qed.

Lemma connected_serves bs d b :
  P (Binding.eventName b) (Binding.eventOptions b) → Serves bs d → Serves (JSet.add b bs) (bindingConnected d b).
Proof.
  apply (replace_serves bs (JSet.add b bs) d b EventListener.bindingConnected); simpl; [done| | |].
  - intros l. by apply JSet.NoDup_add.
  - intros l b' Hb'. rewrite !JSet.elem_of_add, Hb'. split; [intros [->|[??]]|intros [[->|?] ?]]; auto.
  - intros b' Hne. rewrite JSet.elem_of_add. split; [auto|]. by intros [->|?].
Qed.

Lemma disconnected_serves bs d b :
  P (Binding.eventName b) (Binding.eventOptions b) → Serves bs d → Serves (JSet.delete b bs) (bindingDisconnected d b).
Proof.
  apply (replace_serves bs (JSet.delete b bs) d b EventListener.bindingDisconnected); simpl; [done| | |].
  - intros l. by apply JSet.NoDup_delete.
  - intros l b' Hb'. rewrite !JSet.elem_of_delete, Hb'. tauto.
  - intros b' Hne. rewrite JSet.elem_of_delete. split; [|tauto]. intros ?. split; [|done]. by intros ->.
Qed.

Lemma connect_listeners d (ils : list (listener_id * EventListener.t)) :
  let d' := foldl (λ d il, connect d il.1) d ils in
  eventListenerMaps d' = eventListenerMaps d ∧ started d' = started d ∧
  (∀ i, i ∈ registered d' ↔ i ∈ registered d ∨ i ∈ ils.*1) ∧
  (NoDup (registered d) → NoDup (registered d')).
Proof.
  revert d. induction ils as [|[i l] ils IH]; intros d; simpl.
  - split_and!; [done..| |done]. intros i. pose proof (not_elem_of_nil i). tauto.
  - destruct (IH (connect d i)) as (-> & -> & Hr & Hn). split_and!; [done..| |].
    + intros i'. rewrite Hr. simpl. rewrite JSet.elem_of_add, elem_of_cons. tauto.
    + intros ?. apply Hn. simpl. by apply JSet.NoDup_add.
Qed.

Lemma disconnect_listeners d (ils : list (listener_id * EventListener.t)) :
  let d' := foldl (λ d il, disconnect d il.1) d ils in
  eventListenerMaps d' = eventListenerMaps d ∧ started d' = started d ∧
  (∀ i, i ∈ registered d' ↔ i ∈ registered d ∧ i ∉ ils.*1) ∧
  (NoDup (registered d) → NoDup (registered d')).
Proof.
  revert d. induction ils as [|[i l] ils IH]; intros d; simpl.
  - split_and!; [done..| |done]. intros i. pose proof (not_elem_of_nil i). tauto.
  - destruct (IH (disconnect d i)) as (-> & -> & Hr & Hn). split_and!; [done..| |].
    + intros i'. rewrite Hr. simpl. rewrite JSet.elem_of_delete, not_elem_of_cons. tauto.
    + intros ?. apply Hn. simpl. by apply JSet.NoDup_delete.
Qed.

Lemma listeners_ids d i : maps_wf d → i ∈ (eventListeners d).*1 ↔ is_Some (listener d i).
Proof.
  intros Hw. rewrite list_elem_of_fmap. split.
  - intros ([i' l] & -> & Hin). apply elem_of_eventListeners in Hin; [|done]. eauto.
  - intros [l Hl]. exists (i, l). split; [done|]. by apply elem_of_eventListeners.
Qed.

Lemma start_serves bs d : Serves bs d → Serves bs (start d) ∧ started (start d) = true.
Proof.
  intros Hd. unfold start. destruct (started d) eqn:Hst; [done|]. destruct Hd as [Hw Hl Ha Hna Hr Hnr].
  destruct (connect_listeners (set_started d true) (eventListeners (set_started d true))) as (Hm & Hs & Hreg & Hn).
  set (d' := foldl _ _ _) in *. clearbody d'. rewrite Hs. split; [|done].
  assert (∀ i, listener d' i = listener d i) as Hlis by (intros; unfold listener; by rewrite Hm).
  split.
  - unfold maps_wf. by rewrite Hm.
  - intros i l. rewrite Hlis. apply Hl.
  - intros i. unfold attached. rewrite Hlis. apply Ha.
  - intros i. unfold attached. rewrite Hlis. apply Hna.
  - intros i. rewrite Hs, Hreg, Hlis, listeners_ids by done. simpl. rewrite Hr, Hst.
    split; [intros [[? _]|?]; done|]. intros [_ ?]. by right.
  - by apply Hn.
Qed.

Lemma stop_serves bs d : Serves bs d → Serves bs (stop d) ∧ started (stop d) = false.
Proof.
  intros Hd. unfold stop. destruct (started d) eqn:Hst; [|done]. destruct Hd as [Hw Hl Ha Hna Hr Hnr].
  destruct (disconnect_listeners (set_started d false) (eventListeners (set_started d false))) as (Hm & Hs & Hreg & Hn).
  set (d' := foldl _ _ _) in *. clearbody d'. rewrite Hs. split; [|done].
  assert (∀ i, listener d' i = listener d i) as Hlis by (intros; unfold listener; by rewrite Hm).
  split.
  - unfold maps_wf. by rewrite Hm.
  - intros i l. rewrite Hlis. apply Hl.
  - intros i. unfold attached. rewrite Hlis. apply Ha.
  - intros i. unfold attached. rewrite Hlis. apply Hna.
  - intros i. rewrite Hs, Hreg, Hlis, listeners_ids by done. simpl. rewrite Hr.
    change (listener (set_started d false) i) with (listener d i).
    split; [intros [[_ ?] ?]; done|by intros [? _]].
  - by apply Hn.
Qed.

(** *** Sequences of operations *)

Inductive op := Start | Stop | Connect (b : binding) | Disconnect (b : binding).

Definition apply_op (d : t) (o : op) : t :=
  match o with
  | Start => start d
  | Stop => stop d
  | Connect b => bindingConnected d b
  | Disconnect b => bindingDisconnected d b
  end.
Definition run (os : list op) : t := foldl apply_op new os.

(** The bindings that are connected after the operations, and whether the
    last [start] or [stop] was a [start]. *)
Definition bindings_after (bs : list binding) (o : op) : list binding :=
  match o with Connect b => JSet.add b bs | Disconnect b => JSet.delete b bs | _ => bs end.
Definition connected_bindings (os : list op) : list binding := foldl bindings_after [] os.
Definition is_started (os : list op) : bool :=
  foldl (λ s o, match o with Start => true | Stop => false | _ => s end) false os.

Definition op_ok (o : op) : Prop :=
  match o with
  | Connect b | Disconnect b => P (Binding.eventName b) (Binding.eventOptions b)
  | _ => True
  end.

Lemma connected_listener d b l :
  listener d (id_of b) = Some l →
  ∀ i, listener (bindingConnected d b) i =
         if decide (i = id_of b) then Some (EventListener.bindingConnected l b) else listener d i.
Proof.
  intros Hl i. unfold bindingConnected.
  destruct (fetch_sets d (Binding.eventTarget b) (Binding.eventName b) (Binding.eventOptions b)) as (Hl0 & Hs & _).
  fold (fetchEventListenerForBinding d b) in Hl0, Hs.
  change (Binding.eventTarget b, cacheKey (Binding.eventName b) (Binding.eventOptions b)) with (id_of b) in *.
  rewrite Hl in Hl0. destruct (fetchEventListenerForBinding d b) as [d1 l0]. simpl in Hl0, Hs. subst l0.
  destruct (update_sets d1 b (EventListener.bindingConnected l b)) as [Hs' _].
  rewrite (sets_listener _ _ _ _ Hs'), (sets_listener _ _ _ _ Hs). by destruct (decide (i = id_of b)).
Qed.

Lemma replace_started d b l : started (update (fetchEventListenerForBinding d b).1 b l) = started d.
Proof.
  destruct (fetch_sets d (Binding.eventTarget b) (Binding.eventName b) (Binding.eventOptions b)) as (_ & Hs & _).
  apply (sets_started _ _ _ _ Hs).
Qed.

Lemma run_serves os :
  Forall op_ok os → Serves (connected_bindings os) (run os) ∧ started (run os) = is_started os.
Proof.
  unfold connected_bindings, run, is_started. induction os as [|o os IH] using rev_ind.
  { intros _. split; [apply serves_new|done]. }
  rewrite Forall_app, Forall_singleton, !foldl_app. intros [Hos Ho]. destruct (IH Hos) as [Hs Hst].
  destruct o as [| |b|b]; simpl in Ho |- *.
  - by apply start_serves.
  - by apply stop_serves.
  - split; [by apply connected_serves|]. rewrite <-Hst. unfold bindingConnected.
    pose proof (replace_started (foldl apply_op new os) b) as Hr.
    destruct (fetchEventListenerForBinding _ b) as [d1 l]. apply Hr.
  - split; [by apply disconnected_serves|]. rewrite <-Hst. unfold bindingDisconnected.
    pose proof (replace_started (foldl apply_op new os) b) as Hr.
    destruct (fetchEventListenerForBinding _ b) as [d1 l]. apply Hr.
Qed.

Lemma connected_ok os b :
  Forall op_ok os → b ∈ connected_bindings os → P (Binding.eventName b) (Binding.eventOptions b).
Proof.
  unfold connected_bindings. induction os as [|o os IH] using rev_ind; [by intros _ ?%not_elem_of_nil|].
  rewrite Forall_app, Forall_singleton, foldl_app. intros [Hos Ho]. destruct o as [| |b'|b']; simpl in Ho |- *; [by apply IH..| |].
  - intros [->|Hb]%JSet.elem_of_add; [done|by apply IH].
  - intros [_ Hb]%JSet.elem_of_delete. by apply IH.
Qed.
End serves.

Lemma serves_weaken (P P' : string → options → Prop) bs d :
  (∀ n o, P n o → P' n o) → Serves P bs d → Serves P' bs d.
Proof. intros HP []. split; try done. naive_solver. Qed.

(** *** The cache key *)

(** Names and options without the separators of the key. *)
Definition key_ok (name : string) (o : options) : Prop :=
  Str.free ":" name ∧ NoDup (Obj.keys o) ∧
  ∀ k, k ∈ Obj.keys o → Str.free ":" k ∧ has_bang k = false.

Lemma free_option o k : Str.free ":" k → Str.free ":" ((if default false (JMap.get k o) then "" else "!") +:+ k).
Proof. intros Hk. apply Str.free_app. split; [|done]. by destruct (default false _). Qed.

Lemma cacheKey_split name o :
  key_ok name o →
  Str.split_on ":" (cacheKey name o) =
    name :: map (λ key, (if default false (JMap.get key o) then "" else "!") +:+ key)
              (JArray.sort string_before (Obj.keys o)).
Proof.
  intros (Hn & _ & Hk). unfold cacheKey. apply Str.split_on_join; [done|].
  constructor; [done|]. apply Forall_fmap, Forall_forall. intros k Hin.
  apply JArray.elem_of_sort, Hk in Hin as [? _]. by apply free_option.
Qed.

(** The key determines the name and the options. *)
Lemma cacheKey_inj name o name' o' :
  key_ok name o → key_ok name' o' → cacheKey name o = cacheKey name' o' →
  name = name' ∧ ∀ k, JMap.get k o = JMap.get k o'.
Proof.
  intros Hok Hok' Heq%(f_equal (Str.split_on ":")). rewrite !cacheKey_split in Heq by done.
  injection Heq as -> Hmap. split; [done|].
  destruct Hok as (_ & Hn & Hk), Hok' as (_ & Hn' & Hk').
  set (part := λ (o : options) key, (if default false (JMap.get key o) then "" else "!") +:+ key) in *.
  assert (∀ o k, k ∈ Obj.keys o → ∃ b, JMap.get k o = Some b ∧ part o k = (if b then "" else "!") +:+ k) as Hpart.
  { intros o0 k Hin. apply JMap.get_is_Some in Hin as [b Hb]. exists b. unfold part. by rewrite Hb. }
  assert (∀ o o', (∀ k, k ∈ Obj.keys o → has_bang k = false) → (∀ k, k ∈ Obj.keys o' → has_bang k = false) →
    map (part o) (JArray.sort string_before (Obj.keys o)) = map (part o') (JArray.sort string_before (Obj.keys o')) →
    ∀ k b, JMap.get k o = Some b → JMap.get k o' = Some b) as Hall.
  { clear -Hpart. intros o o' Hb Hb' Hmap k b Hg.
    assert (k ∈ Obj.keys o) as Hin by (apply JMap.get_is_Some; eauto).
    destruct (Hpart o k Hin) as (b0 & Hg0 & Hp). rewrite Hg in Hg0. injection Hg0 as <-.
    assert (part o k ∈ map (part o) (JArray.sort string_before (Obj.keys o))) as Hm.
    { by apply list_elem_of_fmap_2, JArray.elem_of_sort. }
    rewrite Hmap in Hm. apply list_elem_of_fmap in Hm as (k' & Heq & Hin').
    apply JArray.elem_of_sort in Hin'. destruct (Hpart o' k' Hin') as (b' & Hg' & Hp').
    rewrite Hp, Hp' in Heq. pose proof (Hb k Hin) as Hk. pose proof (Hb' k' Hin') as Hk'.
    destruct b, b'; rewrite ?Str.app_nil_l in Heq.
    - by subst.
    - subst k. done.
    - subst k'. done.
    - apply app_inj_l in Heq. by subst. }
  intros k. destruct (JMap.get k o) as [b|] eqn:Hg.
  - symmetry. apply (Hall o o'); [naive_solver..|done].
  - destruct (JMap.get k o') as [b|] eqn:Hg'; [|done].
    rewrite (Hall o' o) with (b := b) in Hg; [done|naive_solver..|done].
Qed.
End Dispatcher.

(** ** Properties *)

(** C11: after any sequence of starts, stops, connections and disconnections,
    the listener of an event target and a cache key calls exactly the connected
    bindings with that target and key, each once; and the browser has exactly
    the dispatcher's listeners, each once, if the dispatcher was last started,
    and none of them if it was stopped or never started. *)
Theorem dispatcher_serves os :
  let d := Dispatcher.run os in
  (∀ i b, b ∈ Dispatcher.attached d i ↔ b ∈ Dispatcher.connected_bindings os ∧ Dispatcher.id_of b = i) ∧
  (∀ i, NoDup (Dispatcher.attached d i)) ∧
  (∀ i, i ∈ Dispatcher.registered d ↔
        Dispatcher.is_started os = true ∧ is_Some (Dispatcher.listener d i)) ∧
  NoDup (Dispatcher.registered d).
Proof.
  intros d. destruct (Dispatcher.run_serves (λ _ _, True) os) as [[Hw Hl Ha Hna Hr Hnr] Hst].
  { apply Forall_forall. by intros []. }
  split_and!; [done|done| |done]. intros i. unfold d. by rewrite Hr, Hst.
Qed.

(** If no event name or option holds a colon, the listener that calls a
    binding listens on the binding's target for the binding's event with the
    binding's options. *)
Lemma dispatcher_listens os b :
  Forall (Dispatcher.op_ok Dispatcher.key_ok) os → b ∈ Dispatcher.connected_bindings os →
  ∃ l, Dispatcher.listener (Dispatcher.run os) (Dispatcher.id_of b) = Some l ∧
       b ∈ EventListener.bindings l ∧
       EventListener.eventTarget l = Binding.eventTarget b ∧
       EventListener.eventName l = Binding.eventName b ∧
       (∀ k, JMap.get k (EventListener.eventOptions l) = JMap.get k (Binding.eventOptions b)) ∧
       (Dispatcher.is_started os = true → Dispatcher.id_of b ∈ Dispatcher.registered (Dispatcher.run os)).
Proof.
  intros Hos Hb. destruct (Dispatcher.run_serves _ os Hos) as [[Hw Hl Ha Hna Hr Hnr] Hst].
  assert (Dispatcher.key_ok (Binding.eventName b) (Binding.eventOptions b)) as Hbk
    by exact (Dispatcher.connected_ok Dispatcher.key_ok os b Hos Hb).
  pose proof (proj2 (Ha (Dispatcher.id_of b) b) (conj Hb eq_refl)) as Hin.
  unfold Dispatcher.attached in Hin.
  destruct (Dispatcher.listener (Dispatcher.run os) (Dispatcher.id_of b)) as [l|] eqn:Hli;
    [|by apply not_elem_of_nil in Hin].
  exists l. destruct (Hl _ _ Hli) as (Ht & Hk & Hlk).
  destruct (Dispatcher.cacheKey_inj _ _ _ _ Hlk Hbk Hk) as [Hn Ho].
  split_and!; [done|by apply JArray.elem_of_sort|done..|].
  intros Hs. apply Hr. rewrite Hst, Hli. eauto.
Qed.

(** An event name that holds a colon can be taken for another one: after a
    binding of the event [n] with the option [k], a binding of the event
    [n:k] on the same target is attached to the listener of the first, and
    nothing listens for its event. *)
Lemma colon_collision b1 b2 n k :
  Binding.eventTarget b1 = Binding.eventTarget b2 →
  Binding.eventName b1 = n → Binding.eventOptions b1 = [(k, true)] →
  Binding.eventName b2 = n +:+ ":" +:+ k → Binding.eventOptions b2 = [] →
  let d := Dispatcher.run [Dispatcher.Start; Dispatcher.Connect b1; Dispatcher.Connect b2] in
  b2 ∈ Dispatcher.attached d (Dispatcher.id_of b1) ∧
  ∀ i l, Dispatcher.listener d i = Some l → EventListener.eventName l = n.
Proof.
  intros Ht Hn1 Ho1 Hn2 Ho2 d.
  assert (Dispatcher.id_of b2 = Dispatcher.id_of b1) as Hid.
  { unfold Dispatcher.id_of, Dispatcher.key_of. rewrite Ht, Hn1, Ho1, Hn2, Ho2. f_equal.
    unfold Dispatcher.cacheKey. simpl. rewrite decide_True by done. simpl. done. }
  destruct (Dispatcher.run_serves (λ n' _, n' = n ∨ n' = n +:+ ":" +:+ k)
    [Dispatcher.Start; Dispatcher.Connect b1; Dispatcher.Connect b2]) as [[_ _ Ha _ _ _] _].
  { rewrite !Forall_cons. simpl. split_and!; [done|by left|by right|by constructor]. }
  split.
  { apply Ha. split; [|done]. unfold Dispatcher.connected_bindings. simpl. apply JSet.elem_of_add. by left. }
  destruct (Dispatcher.run_serves (λ n' _, n' = n) [Dispatcher.Start; Dispatcher.Connect b1]) as [[_ Hl1 Ha1 _ _ _] _].
  { rewrite !Forall_cons. simpl. split_and!; [done|done|by constructor]. }
  set (d1 := Dispatcher.run [Dispatcher.Start; Dispatcher.Connect b1]) in *.
  assert (b1 ∈ Dispatcher.attached d1 (Dispatcher.id_of b2)) as Hb1.
  { rewrite Hid. apply Ha1. split; [|done]. unfold Dispatcher.connected_bindings. simpl. by left. }
  unfold Dispatcher.attached in Hb1.
  destruct (Dispatcher.listener d1 (Dispatcher.id_of b2)) as [l1|] eqn:Hli; [|by apply not_elem_of_nil in Hb1].
  intros i l. change d with (Dispatcher.bindingConnected d1 b2).
  rewrite (Dispatcher.connected_listener _ _ _ Hli). case_decide; [|by intros (_ & _ & ?)%Hl1].
  intros [= <-]. by apply Hl1 in Hli as (_ & _ & ?).
Qed.

Section events.
Context {doc W : Type} `{Dom doc} (controllers : Controllers W).
Implicit Types (d : doc) (b : binding) (s : W * event).

#[local] Abbreviation invoke := (λ s b, Binding.invokeWithEvent controllers b s).

Lemma invoke_target b s : ev_target (Binding.invokeWithEvent controllers b s).2 = ev_target s.2.
Proof.
  destruct s as [w ev]. unfold Binding.invokeWithEvent.
  destruct (method controllers _ _) as [m|]; [|done]. destruct (m ev w) as [[w' stop] thrown]. by destruct stop.
Qed.

Lemma will_target d b ev ev' :
  ev_target ev = ev_target ev' → Binding.willBeInvokedByEvent d b ev = Binding.willBeInvokedByEvent d b ev'.
Proof. unfold Binding.willBeInvokedByEvent. by intros ->. Qed.

Lemma handle_spec d bs s :
  ∃ run rest,
    filter (λ b, Binding.willBeInvokedByEvent d b s.2 = true) bs = run ++ rest ∧
    EventListener.handle controllers d bs s = foldl invoke s run ∧
    (rest ≠ [] → stopped (foldl invoke s run).2 = true) ∧
    (∀ run1 b run2, run = run1 ++ b :: run2 → stopped (foldl invoke s run1).2 = false).
Proof.
  revert s. induction bs as [|b bs IH]; intros s.
  { exists [], []. split_and!; [done..|]. by intros []. }
  simpl. destruct (stopped s.2) eqn:Hs.
  { exists [], (filter (λ b, Binding.willBeInvokedByEvent d b s.2 = true) (b :: bs)).
    split_and!; [done..|]. by intros []. }
  unfold Binding.handleEvent. rewrite filter_cons. destruct (Binding.willBeInvokedByEvent d b s.2) eqn:Hw.
  - destruct (IH (invoke s b)) as (run & rest & Hf & Hh & Hstop & Hno).
    assert (filter (λ b, Binding.willBeInvokedByEvent d b s.2 = true) bs = run ++ rest) as Hf'.
    { rewrite <-Hf. apply list_filter_iff. intros b'. by rewrite (will_target d b' s.2 (invoke s b).2) by by rewrite invoke_target. }
    exists (b :: run), rest. rewrite decide_True by done. rewrite Hf'. split_and!; [done..|].
    intros [|b1 run1] b2 run2 Heq; simplify_eq/=; [done|]. by eapply Hno.
  - destruct (IH s) as (run & rest & Hf & Hh & Hstop & Hno). exists run, rest.
    rewrite decide_False by done. by split_and!.
Qed.

(** What becomes of an event and of the world when a binding is invoked: its
    method returns or throws, and then the exception is reported, with the
    action in the message; or the controller has no such method, which is
    reported as well.  A method that stops the propagation, even if it throws
    later, leaves the event stopped. *)
Definition after_call (ev : event) (stop : bool) : event :=
  if stop then mk_event (ev_target ev) (Some true) else ev.
Definition error_message b : string := "Error invoking action " +:+ Str.quoted (toString (b_action b)).

Inductive invocation b : W * event → W * event → Prop :=
  | returns m w ev w' stop :
    method controllers (b_context b) (a_methodName (b_action b)) = Some m → m ev w = (w', stop, None) →
    invocation b (w, ev) (w', after_call ev stop)
  | throws m w ev w' stop error :
    method controllers (b_context b) (a_methodName (b_action b)) = Some m → m ev w = (w', stop, Some error) →
    invocation b (w, ev) (logger_error controllers w' (error_message b) error, after_call ev stop)
  | undefined_method w ev :
    method controllers (b_context b) (a_methodName (b_action b)) = None →
    invocation b (w, ev)
      (logger_error controllers w (error_message b)
         ("Action " +:+ Str.quoted (toString (b_action b)) +:+ " references undefined method " +:+
          Str.quoted (a_methodName (b_action b))), ev).

(** The invocations of a list of bindings, none after the event is stopped. *)
Inductive invocations : list binding → W * event → W * event → Prop :=
  | invocations_nil s : invocations [] s s
  | invocations_cons b bs s s1 s2 :
    stopped s.2 = false → invocation b s s1 → invocations bs s1 s2 → invocations (b :: bs) s s2.

Lemma invoke_invocation b s : invocation b s (Binding.invokeWithEvent controllers b s).
Proof.
  destruct s as [w ev]. unfold Binding.invokeWithEvent.
  destruct (method controllers (b_context b) (Binding.methodName b)) as [m|] eqn:Hm.
  - destruct (m ev w) as [[w' stop] [error|]] eqn:Hc; [by eapply throws|by eapply returns].
  - by apply undefined_method.
Qed.

Lemma fold_invocations bs s :
  (∀ bs1 b bs2, bs = bs1 ++ b :: bs2 → stopped (foldl invoke s bs1).2 = false) →
  invocations bs s (foldl invoke s bs).
Proof.
  revert s. induction bs as [|b bs IH]; intros s Hs; [constructor|]. simpl.
  eapply invocations_cons; [exact (Hs [] b bs eq_refl)|apply invoke_invocation|].
  apply IH. intros bs1 b' bs2 ->. exact (Hs (b :: bs1) b' bs2 eq_refl).
Qed.

(** C14: a listener handles an event by invoking its bindings in the order of
    their places in the action attributes, bindings of equal place in the
    order they were connected; it invokes those whose scope the event concerns,
    up to the first that stops the propagation and no further.  A method that
    throws, or that is missing, is reported and does not keep the later ones
    from being invoked. *)
Theorem actions_in_order d l w ev :
  let bs := EventListener.bindings l in
  (bs ≡ₚ EventListener.unorderedBindings l ∧
   JArray.ascending (JArray.below Binding.index) bs ∧
   ∀ n, filter (λ b, Binding.index b = n) bs = filter (λ b, Binding.index b = n) (EventListener.unorderedBindings l)) ∧
  ∃ run rest,
    filter (λ b, Binding.willBeInvokedByEvent d b ev = true) bs = run ++ rest ∧
    let s' := EventListener.handleEvent controllers d l (w, ev) in
    invocations run (w, extendEvent ev) s' ∧ (rest ≠ [] → stopped s'.2 = true).
Proof.
  split.
  - unfold EventListener.bindings. split; [apply JArray.sort_perm|apply JArray.sort_by_spec].
  - unfold EventListener.handleEvent. simpl.
    destruct (handle_spec d (EventListener.bindings l) (w, extendEvent ev)) as (run & rest & Hf & -> & Hstop & Hno).
    exists run, rest. split_and!; [|by apply fold_invocations|done]. rewrite <-Hf. apply list_filter_iff. intros b.
    rewrite (will_target d b ev (extendEvent ev)); [done|]. unfold extendEvent. by destruct (immediatePropagationStopped ev).
Qed.
End events.

(** *** Witnesses *)

Definition demo_binding (id : nat) (name : string) (o : options) : binding :=
  mk_binding id (mk_context 0 0 (mk_scope 0 1 "c")) (mk_action id 2 id (Global Window) name o "c" "m").

Lemma dispatcher_listens_witness :
  ∃ l, Dispatcher.listener (Dispatcher.run [Dispatcher.Connect (demo_binding 0 "click" [("once", true)]);
                              Dispatcher.Start; Dispatcher.Connect (demo_binding 1 "click" [("once", true)])])
         (Global Window, "click:once") = Some l ∧ EventListener.eventName l = "click".
Proof.
  assert (Dispatcher.key_ok "click" [("once", true)]) as Hok.
  { split_and!; [done|apply NoDup_singleton|]. by intros k ->%list_elem_of_singleton. }
  destruct (dispatcher_listens
    [Dispatcher.Connect (demo_binding 0 "click" [("once", true)]); Dispatcher.Start;
     Dispatcher.Connect (demo_binding 1 "click" [("once", true)])]
    (demo_binding 0 "click" [("once", true)])) as (l & Hl & _ & _ & Hn & _).
  - apply Forall_cons; split; [exact Hok|]. apply Forall_cons; split; [exact I|].
    apply Forall_cons; split; [exact Hok|]. by apply Forall_nil.
  - vm_compute. left.
  - exists l. split; [exact Hl|exact Hn].
Defined.

Lemma colon_collision_witness :
  demo_binding 1 "turbo:load" [] ∈ Dispatcher.attached
    (Dispatcher.run [Dispatcher.Start; Dispatcher.Connect (demo_binding 0 "turbo" [("load", true)]);
                     Dispatcher.Connect (demo_binding 1 "turbo:load" [])])
    (Dispatcher.id_of (demo_binding 0 "turbo" [("load", true)])).
Proof.
  apply (colon_collision (demo_binding 0 "turbo" [("load", true)]) (demo_binding 1 "turbo:load" []) "turbo" "load");
    reflexivity.
Defined.
