(* ===== verification/Events.v ===== *)
(** The dispatch of an event by the browser to the listeners that the dispatcher
    has registered.

    The listeners are those of [Dispatcher], of which [registered] is the
    browser's list; [src/gui/web/assets/scripts/stimulus.js] registers them with
    [EventListener.connect] and handles the event in
    [EventListener.handleEvent].  What the browser does, the phases of an event
    along the path of its target and the removal of a listener with the option
    [once], follows the standard of the document; the methods of the controllers
    stop an event with [stopImmediatePropagation] only. *)

From S2P Require Import Prelude JsCore JsString Dom Scopes Router Regex Actions Dispatcher.

#[local] Open Scope string_scope.
#[local] Open Scope list_scope.

Section events.
Context {doc : Type} `{Dom doc}.
Implicit Types (dom : doc) (d : Dispatcher.t).

(** Where an event goes: from its target up to the window. *)
Definition event_path dom (target : event_target) : list event_target :=
  match target with
  | ElementTarget e =>
    (ElementTarget <$> ancestors dom e) ++ if isConnected dom e then [Global Document; Global Window] else []
  | Global Document => [Global Document; Global Window]
  | Global Window => [Global Window]
  end.

(** The nodes in the order in which their listeners are called, with whether
    these are the capturing ones. *)
Definition phases dom (target : event_target) (bubbles : bool) : list (event_target * bool) :=
  let path := event_path dom target in
  ((λ node, (node, true)) <$> reverse path) ++ ((λ node, (node, false)) <$> if bubbles then path else take 1 path).

Definition has_option (option : string) (l : EventListener.t) : bool :=
  default false (JMap.get option (EventListener.eventOptions l)).

(** The registered listeners of a phase for an event of a name. *)
Definition listens d (eventName : string) (phase : event_target * bool) (i : Dispatcher.listener_id) : bool :=
  bool_decide (i.1 = phase.1) &&
  match Dispatcher.listener d i with
  | Some l => bool_decide (EventListener.eventName l = eventName) && Bool.eqb (has_option "capture" l) phase.2
  | None => false
  end.
Definition listeners d eventName phase : list Dispatcher.listener_id :=
  filter (λ i, listens d eventName phase i = true) (Dispatcher.registered d).

Context {W : Type} (controllers : Controllers W).
Implicit Types (s : Dispatcher.t * (W * event)).

(** A listener is called, unless the event was stopped; the browser drops one
    with the option [once] first. *)
Definition call_listener dom s (i : Dispatcher.listener_id) : Dispatcher.t * (W * event) :=
  let '(d, (w, ev)) := s in
  if stopped ev then s
  else match Dispatcher.listener d i with
       | Some l => (if has_option "once" l then Dispatcher.disconnect d i else d,
                    EventListener.handleEvent controllers dom l (w, ev))
       | None => s
       end.

Definition call_phase dom eventName s (phase : event_target * bool) : Dispatcher.t * (W * event) :=
  foldl (call_listener dom) s (listeners s.1 eventName phase).

(** An event of a name happens at a target. *)
Definition fire dom (eventName : string) (bubbles : bool) (target : event_target) d (w : W) : Dispatcher.t * W :=
  let '(d, (w, _)) := foldl (call_phase dom eventName) (d, (w, mk_event target None)) (phases dom target bubbles) in
  (d, w).

(** *** The bindings that an event concerns *)

Definition invoked_by dom (target : event_target) d (i : Dispatcher.listener_id) : list binding :=
  match Dispatcher.listener d i with
  | Some l => filter (λ b, Binding.willBeInvokedByEvent dom b (mk_event target None) = true) (EventListener.bindings l)
  | None => []
  end.
Definition phase_bindings dom eventName target d phase : list binding :=
  listeners d eventName phase ≫= invoked_by dom target d.
Definition event_bindings dom eventName (bubbles : bool) target d : list binding :=
  phases dom target bubbles ≫= phase_bindings dom eventName target d.

(** Phases in which nothing listens. *)
Lemma phases_silent dom eventName target d phs :
  (∀ ph, ph ∈ phs → listeners d eventName ph = []) → phs ≫= phase_bindings dom eventName target d = [].
Proof.
  induction phs as [|ph phs IH]; [done|]. intros Hno. rewrite bind_cons. unfold phase_bindings at 1.
  rewrite (Hno ph) by left. apply IH. intros ph' ?. apply Hno. by right.
Qed.

Lemma no_listeners d eventName phase :
  (∀ i l, Dispatcher.listener d i = Some l → eventName = EventListener.eventName l → i.1 = phase.1 → False) →
  listeners d eventName phase = [].
Proof.
  intros Hno. apply elem_of_nil_inv. intros i [Hl _]%list_elem_of_filter. revert Hl. unfold listens.
  destruct (Dispatcher.listener d i) as [l|] eqn:Hi; [|by rewrite andb_false_r].
  intros [Hp%bool_decide_eq_true [Hn%bool_decide_eq_true _]%andb_true_iff]%andb_true_iff. by eapply Hno.
Qed.

(** *** An event that no method stops *)

Definition never_stops : Prop :=
  ∀ cx name m ev w, method controllers cx name = Some m → (m ev w).1.2 = false.
Definition without_once d : Prop := ∀ i l, Dispatcher.listener d i = Some l → has_option "once" l = false.

Definition invoke (target : event_target) (w : W) (b : binding) : W :=
  (Binding.invokeWithEvent controllers b (w, mk_event target (Some false))).1.

Context (Hstop : never_stops).

Lemma invoke_event b w target :
  Binding.invokeWithEvent controllers b (w, mk_event target (Some false)) =
    (invoke target w b, mk_event target (Some false)).
Proof.
  unfold invoke, Binding.invokeWithEvent. destruct (method controllers (b_context b) _) as [m|] eqn:Hm; [|done].
  pose proof (Hstop _ _ _ (mk_event target (Some false)) w Hm) as Hs.
  by destruct (m (mk_event target (Some false)) w) as [[w' []] thrown].
Qed.

Lemma handle_bindings dom target bs w :
  EventListener.handle controllers dom bs (w, mk_event target (Some false)) =
    (foldl (invoke target) w (filter (λ b, Binding.willBeInvokedByEvent dom b (mk_event target None) = true) bs),
     mk_event target (Some false)).
Proof.
  revert w. induction bs as [|b bs IH]; intros w; [done|]. rewrite filter_cons. simpl.
  unfold Binding.handleEvent. simpl.
  change (Binding.willBeInvokedByEvent dom b (mk_event target (Some false)))
    with (Binding.willBeInvokedByEvent dom b (mk_event target None)).
  destruct (Binding.willBeInvokedByEvent dom b (mk_event target None)); simpl.
  - exact (eq_trans (f_equal (EventListener.handle controllers dom bs) (invoke_event b w target)) (IH _)).
  - apply IH.
Qed.

(** The event before and after it has been extended. *)
Definition running (target : event_target) (ev : event) : Prop :=
  ev = mk_event target None ∨ ev = mk_event target (Some false).

Lemma call_listener_bindings dom target d w ev i :
  without_once d → running target ev →
  ∃ ev', running target ev' ∧
    call_listener dom (d, (w, ev)) i = (d, (foldl (invoke target) w (invoked_by dom target d i), ev')).
Proof.
  intros Ho He. unfold call_listener, invoked_by.
  assert (stopped ev = false) as -> by by destruct He as [->| ->].
  destruct (Dispatcher.listener d i) as [l|] eqn:Hl; [|by eexists]. rewrite (Ho i l Hl).
  exists (mk_event target (Some false)). split; [by right|]. unfold EventListener.handleEvent.
  assert (extendEvent ev = mk_event target (Some false)) as He' by by destruct He as [->| ->].
  simpl. by rewrite He', handle_bindings.
Qed.

Lemma call_listeners_bindings dom target d w ev is_ :
  without_once d → running target ev →
  ∃ ev', running target ev' ∧
    foldl (call_listener dom) (d, (w, ev)) is_ =
      (d, (foldl (invoke target) w (is_ ≫= invoked_by dom target d), ev')).
Proof.
  intros Ho. revert w ev. induction is_ as [|i is_ IH]; intros w ev He; cbn [foldl]; [by exists ev|].
  destruct (call_listener_bindings dom target d w ev i Ho He) as (ev1 & He1 & ->).
  rewrite bind_cons, foldl_app. by apply IH.
Qed.

Lemma fire_bindings dom eventName bubbles target d w :
  without_once d →
  fire dom eventName bubbles target d w =
    (d, foldl (invoke target) w (event_bindings dom eventName bubbles target d)).
Proof.
  intros Ho. unfold fire, event_bindings.
  assert (∀ phs w ev, running target ev → ∃ ev', running target ev' ∧
    foldl (call_phase dom eventName) (d, (w, ev)) phs =
      (d, (foldl (invoke target) w (phs ≫= phase_bindings dom eventName target d), ev'))) as Hph.
  { induction phs as [|ph phs IH]; intros w1 ev He; cbn [foldl]; [by exists ev|].
    destruct (call_listeners_bindings dom target d w1 ev (listeners d eventName ph) Ho He) as (ev1 & He1 & Heq).
    unfold call_phase at 2. cbn [fst]. rewrite Heq, bind_cons, foldl_app. by apply IH. }
  destruct (Hph (phases dom target bubbles) w (mk_event target None)) as (ev' & _ & ->); [by left|done].
Qed.
End events.

(** *** Which bindings an event invokes *)

Section delivery.
Context {doc : Type} `{Dom doc}.
Implicit Types (dom : doc) (d : Dispatcher.t).

(** The bindings of the phase's node for the event, whose listeners capture or
    not as the phase does. *)
Definition concerns dom (name : string) (target : event_target) (b : binding) : Prop :=
  Binding.eventName b = name ∧ Binding.willBeInvokedByEvent dom b (mk_event target None) = true.

Context (bs : list binding) (d : Dispatcher.t) (Hd : Dispatcher.Serves Dispatcher.key_ok bs d).
Context (Hbs : ∀ b, b ∈ bs → Dispatcher.key_ok (Binding.eventName b) (Binding.eventOptions b)).
Context (Hst : Dispatcher.started d = true).

Definition captures (b : binding) : bool := default false (JMap.get "capture" (Binding.eventOptions b)).

(** The listener of a binding, as the browser has it. *)
Lemma binding_listener b :
  b ∈ bs → ∃ l, Dispatcher.listener d (Dispatcher.id_of b) = Some l ∧ b ∈ EventListener.unorderedBindings l.
Proof.
  intros Hb. pose proof (proj2 (Dispatcher.serves_attached _ _ _ Hd (Dispatcher.id_of b) b) (conj Hb eq_refl)) as Ha.
  unfold Dispatcher.attached in Ha.
  destruct (Dispatcher.listener d (Dispatcher.id_of b)) as [l|]; [by exists l|by apply not_elem_of_nil in Ha].
Qed.

Lemma listener_binding i l b :
  Dispatcher.listener d i = Some l → b ∈ EventListener.unorderedBindings l →
  b ∈ bs ∧ i = Dispatcher.id_of b ∧ EventListener.eventName l = Binding.eventName b ∧ has_option "capture" l = captures b.
Proof.
  intros Hl Hb. assert (b ∈ Dispatcher.attached d i) as Ha by (unfold Dispatcher.attached; by rewrite Hl).
  apply (Dispatcher.serves_attached _ _ _ Hd) in Ha as [Hin <-].
  destruct (Dispatcher.serves_listener _ _ _ Hd _ _ Hl) as (_ & Hk & Hok).
  destruct (Dispatcher.cacheKey_inj _ _ _ _ Hok (Hbs _ Hin) Hk) as [Hn Ho].
  split_and!; [done|done|done|]. unfold has_option, captures. by rewrite Ho.
Qed.

Lemma elem_of_phase dom name target ph b :
  b ∈ phase_bindings dom name target d ph ↔
  b ∈ bs ∧ concerns dom name target b ∧ Binding.eventTarget b = ph.1 ∧ captures b = ph.2.
Proof.
  unfold phase_bindings. rewrite list_elem_of_bind. split.
  - intros (i & Hb & [Hi Hr]%list_elem_of_filter). unfold invoked_by, listens in *.
    destruct (Dispatcher.listener d i) as [l|] eqn:Hl; [|by apply not_elem_of_nil in Hb].
    apply list_elem_of_filter in Hb as [Hw Hb]. apply JArray.elem_of_sort in Hb.
    apply andb_true_iff in Hi as [Ht%bool_decide_eq_true [Hn%bool_decide_eq_true Hc%eqb_prop]%andb_true_iff].
    destruct (listener_binding i l b Hl Hb) as (Hin & -> & Hn' & Hc'). split; [done|]. unfold concerns.
    split_and!; [congruence|done|by rewrite <-Ht|congruence].
  - intros (Hb & [Hn Hw] & Ht & Hc). destruct (binding_listener b Hb) as (l & Hl & Hin).
    destruct (listener_binding _ _ _ Hl Hin) as (_ & _ & Hn' & Hc'). exists (Dispatcher.id_of b). split.
    + unfold invoked_by. rewrite Hl. apply list_elem_of_filter. split; [done|by apply JArray.elem_of_sort].
    + apply list_elem_of_filter. split.
      * unfold listens. rewrite Hl. rewrite !bool_decide_eq_true_2 by (try done; congruence).
        by rewrite Hc', Hc, Bool.eqb_reflx.
      * apply (Dispatcher.serves_registered _ _ _ Hd). by rewrite Hst, Hl.
Qed.

Lemma phase_nodup dom name target ph : NoDup (phase_bindings dom name target d ph).
Proof.
  apply NoDup_bind.
  - intros i j b _ _ Hi Hj. unfold invoked_by in *.
    destruct (Dispatcher.listener d i) as [l|] eqn:Hl; [|by apply not_elem_of_nil in Hi].
    destruct (Dispatcher.listener d j) as [l'|] eqn:Hl'; [|by apply not_elem_of_nil in Hj].
    apply list_elem_of_filter in Hi as [_ Hi], Hj as [_ Hj]. apply JArray.elem_of_sort in Hi, Hj.
    destruct (listener_binding _ _ _ Hl Hi) as (_ & -> & _). by destruct (listener_binding _ _ _ Hl' Hj) as (_ & -> & _).
  - intros i _. unfold invoked_by. pose proof (Dispatcher.serves_nodup _ _ _ Hd i) as Hn. unfold Dispatcher.attached in Hn.
    destruct (Dispatcher.listener d i) as [l|]; [|constructor]. apply NoDup_filter. unfold EventListener.bindings.
    by rewrite JArray.sort_perm.
  - apply NoDup_filter, (Dispatcher.serves_registered_nodup _ _ _ Hd).
Qed.

Lemma phases_nodup dom target : NoDup (event_path dom target) → NoDup (phases dom target true).
Proof.
  intros Hn. unfold phases. apply NoDup_app. split_and!.
  - apply NoDup_fmap; [by intros ?? [= ->]|by rewrite reverse_Permutation].
  - intros ph (n & -> & _)%list_elem_of_fmap (n' & [= Hn'] & _)%list_elem_of_fmap.
  - apply NoDup_fmap; [by intros ?? [= ->]|done].
Qed.

Lemma elem_of_phases dom target n c : (n, c) ∈ phases dom target true ↔ n ∈ event_path dom target.
Proof.
  unfold phases. rewrite elem_of_app, !list_elem_of_fmap. setoid_rewrite elem_of_reverse. destruct c; naive_solver.
Qed.

Lemma elem_of_event_bindings dom name target b :
  b ∈ event_bindings dom name true target d ↔
  b ∈ bs ∧ concerns dom name target b ∧ Binding.eventTarget b ∈ event_path dom target.
Proof.
  unfold event_bindings. rewrite list_elem_of_bind. setoid_rewrite elem_of_phase. split.
  - intros (ph & (? & ? & Ht & Hc) & Hph). split_and!; [done..|]. destruct ph as [n c]. simpl in Ht. subst n.
    by apply elem_of_phases in Hph.
  - intros (? & ? & Hp). exists (Binding.eventTarget b, captures b). by rewrite elem_of_phases.
Qed.

Lemma event_bindings_nodup dom name target :
  NoDup (event_path dom target) → NoDup (event_bindings dom name true target d).
Proof.
  intros Hn. apply NoDup_bind; [|by intros; apply phase_nodup|by apply phases_nodup].
  intros [n c] [n' c'] b _ _ (_ & _ & Ht & Hc)%elem_of_phase (_ & _ & Ht' & Hc')%elem_of_phase. by simplify_eq/=.
Qed.
End delivery.

(** *** The option [once]

    The browser drops a listener with the option [once] when it calls it, and
    the dispatcher keeps it: a binding that is connected afterwards, with the
    same target, event and options, is attached to a listener that nothing
    calls. *)

Section once.
Context {doc W : Type} `{Dom doc} (controllers : Controllers W).

Lemma once_lost dom d w ev i l b :
  Dispatcher.listener d i = Some l → has_option "once" l = true → stopped ev = false → Dispatcher.id_of b = i →
  let d' := Dispatcher.bindingConnected (call_listener controllers dom (d, (w, ev)) i).1 b in
  b ∈ Dispatcher.attached d' i ∧ i ∉ Dispatcher.registered d'.
Proof.
  intros Hl Ho Hs Hb. unfold call_listener. rewrite Hs, Hl, Ho. cbn [fst].
  assert (Dispatcher.listener (Dispatcher.disconnect d i) i = Some l) as Hl' by exact Hl. split.
  - unfold Dispatcher.attached. rewrite <-Hb in Hl' |- *. rewrite (Dispatcher.connected_listener _ _ _ Hl'), decide_True by done.
    simpl. apply JSet.elem_of_add. by left.
  - unfold Dispatcher.bindingConnected.
    destruct (Dispatcher.fetch_sets (Dispatcher.disconnect d i) (Binding.eventTarget b) (Binding.eventName b)
                (Binding.eventOptions b)) as (_ & _ & Hreg).
    fold (Dispatcher.fetchEventListenerForBinding (Dispatcher.disconnect d i) b) in Hreg.
    destruct (Dispatcher.fetchEventListenerForBinding (Dispatcher.disconnect d i) b) as [d1 l1].
    destruct (Dispatcher.update_sets d1 b (EventListener.bindingConnected l1 b)) as [_ ->]. cbn [fst] in Hreg. rewrite Hreg.
    rewrite decide_False; [simpl; by intros [? _]%JSet.elem_of_delete|].
    change (Binding.eventTarget b, Dispatcher.cacheKey (Binding.eventName b) (Binding.eventOptions b)) with (Dispatcher.id_of b).
    rewrite Hb, Hl'. by intros [].
Qed.
End once.

(** Event names and options without a colon, and without the option [once]. *)
Definition plain (name : string) (o : options) : Prop :=
  Dispatcher.key_ok name o ∧ default false (JMap.get "once" o) = false.


(** *** Witness *)

(** A page with a controller [c] on the element 2, and a button 3 in it with an
    action on itself, one on the window and one for another event. *)
Definition bound_page : PageDom.t := PageDom.mk [(0, 1); (1, 2); (2, 3)] [] [((2, "data-controller"), "c")] eq_refl.

Definition bound_action (k : nat) (target : event_target) (name : string) : binding :=
  mk_binding k (mk_context 0 0 (mk_scope 0 2 "c")) (mk_action k 3 k target name [] "c" "m").

Definition bound_ops : list Dispatcher.op :=
  [Dispatcher.Connect (bound_action 0 (ElementTarget 3) "click"); Dispatcher.Start;
   Dispatcher.Connect (bound_action 1 (Global Window) "click");
   Dispatcher.Connect (bound_action 2 (Global Window) "keydown")].

Definition counting : Controllers nat :=
  {| method _ _ := Some (λ _ n, (S n, false, None)); logger_error n _ _ := n |}.

