(* ===== verification/Bindings.v ===== *)
(** The bindings of a context: its observer of the action attributes below its
    element, which connects a binding to the dispatcher for every action that
    names the context's controller.

    Models [src/gui/web/assets/scripts/stimulus.js], the class
    [BindingObserver].  An action is made once for each token, so the token's
    identity is the action's. *)

From S2P Require Import Prelude JsCore JsString Dom Multimaps Observers Tokens ValueList ValueStack.
From S2P Require Import Scopes Router App Regex Actions Dispatcher.

#[local] Open Scope string_scope.
#[local] Open Scope list_scope.

(** What the observer calls: the dispatcher's operations on bindings. *)
Class BindingDelegate (D : Type) := {
  bd_bindingConnected : D → binding → D;
  bd_bindingDisconnected : D → binding → D;
}.

(** What it promises for the bindings of a context: [Conn bs d] says that they
    are [bs]. *)
Class BindingLaws (D : Type) `{BindingDelegate D} (context : context) (Conn : list binding → D → Prop) := {
  binding_perm bs bs' d : bs ≡ₚ bs' → Conn bs d → Conn bs' d;
  binding_connect bs d b :
    Conn bs d → b ∉ bs → b_context b = context → Conn (b :: bs) (bd_bindingConnected d b);
  binding_disconnect bs d b :
    Conn (b :: bs) d → b ∉ bs → b_context b = context → Conn bs (bd_bindingDisconnected d b);
}.

#[export] Instance dispatcher_delegate : BindingDelegate Dispatcher.t := {|
  bd_bindingConnected := Dispatcher.bindingConnected;
  bd_bindingDisconnected := Dispatcher.bindingDisconnected;
|}.

(** The bindings of a context in a dispatcher that also serves those of other
    contexts. *)
Definition bound (context : context) (others bs : list binding) (d : Dispatcher.t) : Prop :=
  (∀ b, b ∈ others → b_context b ≠ context) ∧ Dispatcher.Serves (λ _ _, True) (bs ++ others) d.

#[export] Instance dispatcher_binding_laws context others :
  BindingLaws Dispatcher.t context (bound context others).
Proof.
  split.
  - intros bs bs' d Hp [Ho Hs]. split; [done|]. eapply Dispatcher.serves_ext, Hs.
    intros b. by rewrite Hp.
  - intros bs d b [Ho Hs] Hb Hc. split; [done|].
    eapply Dispatcher.serves_ext, Dispatcher.connected_serves, Hs; [|done].
    intros b'. rewrite JSet.elem_of_add. set_solver.
  - intros bs d b [Ho Hs] Hb Hc. split; [done|].
    eapply Dispatcher.serves_ext, Dispatcher.disconnected_serves, Hs; [|done].
    intros b'. rewrite JSet.elem_of_delete. simpl. rewrite elem_of_cons. split; [tauto|].
    intros Hin. split; [|tauto]. intros ->. apply elem_of_app in Hin as [|Hin]; [done|]. by apply Ho in Hin.
Qed.

Module BindingObserver.

Record core := mk_core {
  bindingsByAction : list (action * binding);
  next_binding : nat;
}.

Definition new_core : core := mk_core [] 0.

Section binding_observer.
Context {doc : Type} `{Dom doc} `{Tagged doc} {D : Type} `{BindingDelegate D}.
(** The context of the observer, and the identifier of its module. *)
Context (context : context) (identifier : string).
Implicit Types (dom : doc) (c : core) (d : D) (s : core * D).

Definition element : elem := cx_element context.
Definition bindings c : list binding := JMap.values (bindingsByAction c).

Definition connectAction s (a : action) : core * D :=
  let '(c, d) := s in
  let b := mk_binding (next_binding c) context a in
  (mk_core (JMap.set a b (bindingsByAction c)) (S (next_binding c)), bd_bindingConnected d b).

Definition disconnectAction s (a : action) : core * D :=
  let '(c, d) := s in
  match JMap.get a (bindingsByAction c) with
  | Some b =>
    (mk_core (JMap.delete a (bindingsByAction c)) (next_binding c), bd_bindingDisconnected d b)
  | None => (c, d)
  end.

Definition disconnectAllActions s : core * D :=
  let '(c, d) := s in
  let d := foldl bd_bindingDisconnected d (bindings c) in
  (mk_core [] (next_binding c), d).

Definition parseValueForToken dom s (tok : token) : core * D * (option action + string) :=
  match forToken dom (tok_id tok) tok with
  | inl a => (s, inl (if decide (a_identifier a = identifier) then Some a else None))
  | inr error => (s, inr error)
  end.

Definition elementMatchedValue (dom : doc) s (_ : elem) (a : action) : core * D := connectAction s a.
Definition elementUnmatchedValue (dom : doc) s (_ : elem) (a : action) : core * D := disconnectAction s a.

(** The observer as the delegate of its [ValueListObserver]. *)
Definition value_delegate : ValueDelegate doc (core * D) action := {|
  vd_parseValueForToken := parseValueForToken;
  vd_elementMatchedValue := elementMatchedValue;
  vd_elementUnmatchedValue := elementUnmatchedValue;
|}.

(** The whole observer: its [valueListObserver], if there is one, and its
    bindings. *)
Definition t : Type := option (TokenListObserver.t * ValueListObserver.core action) * (core * D).

Definition new d : t := (None, (new_core, d)).

Definition start dom (o : t) : t :=
  match o with
  | (None, s) =>
    let '(tl, (vl, s)) := ValueStack.start value_delegate dom (ValueStack.new element App.actionAttribute s) in
    (Some (tl, vl), s)
  | (Some _, _) => o
  end.

Definition stop (o : t) : t :=
  match o with
  | (Some (tl, vl), s) =>
    let '(_, (_, s)) := ValueStack.stop value_delegate (tl, (vl, s)) in
    (None, disconnectAllActions s)
  | (None, _) => o
  end.

(** The mutation records the browser delivers to the observer. *)
Definition processMutations dom (ms : list mutation) (o : t) : t :=
  match o with
  | (Some (tl, vl), s) =>
    let '(tl, (vl, s)) := ValueStack.processMutations value_delegate dom ms (tl, (vl, s)) in
    (Some (tl, vl), s)
  | (None, _) => o
  end.

(** *** The bindings are those of the live actions *)

Context {Conn : list binding → D → Prop} {BL : BindingLaws D context Conn}.

Record Vals (tvs : list (token * action)) s : Prop := {
  vals_keys : JMap.keys (bindingsByAction s.1) ≡ₚ tvs.*2;
  vals_binding a b : JMap.get a (bindingsByAction s.1) = Some b → b_action b = a ∧ b_context b = context;
  vals_ids tok a : (tok, a) ∈ tvs → a_id a = tok_id tok;
  vals_nodup : NoDup (tok_id <$> tvs.*1);
  vals_conn : Conn (bindings s.1) s.2;
}.

(** What an action is parsed from. *)
Definition Parsed (s : core * D) (tok : token) (a : action) : Prop :=
  ∃ dom, forToken dom (tok_id tok) tok = inl a ∧ a_identifier a = identifier.

Definition Result (tok : token) (r : parse_result action) : Prop :=
  ∃ dom, r = match forToken dom (tok_id tok) tok with
             | inl a => ParsedValue (if decide (a_identifier a = identifier) then Some a else None)
             | inr error => ParseError error
             end.

Lemma parsed_id s tok a : Parsed s tok a → a_id a = tok_id tok.
Proof.
  intros (dom & Hf & _). unfold forToken, new_action in Hf.
  destruct (or_else (d_eventName _) _); [|done]. destruct (or_else (d_identifier _) _); [|done].
  destruct (or_else (d_methodName _) _); [|done]. by injection Hf as <-.
Qed.

Lemma elem_of_ids (tvs : list (token * action)) tok a : (tok, a) ∈ tvs → tok_id tok ∈ tok_id <$> tvs.*1.
Proof.
  intros Hin. apply list_elem_of_fmap. exists tok. split; [done|]. apply list_elem_of_fmap. by exists (tok, a).
Qed.

Lemma vals_wf tvs s : Vals tvs s → JMap.wf (bindingsByAction s.1).
Proof.
  intros [Hk _ Hi Hn _]. unfold JMap.wf. rewrite Hk. clear Hk.
  induction tvs as [|[tok a] tvs IH]; [constructor|]. simpl in *.
  apply NoDup_cons in Hn as [Hfresh Hn]. apply NoDup_cons. split.
  - intros ([tok' a'] & -> & Hin)%list_elem_of_fmap. simpl in *. apply Hfresh.
    rewrite <-(Hi tok a') by by left. rewrite (Hi tok' a') by by right.
    by eapply elem_of_ids.
  - apply IH; [|done]. intros tok' a' ?. apply Hi. by right.
Qed.

Lemma vals_absent tvs s tok a :
  Vals tvs s → Parsed s tok a → tok_id tok ∉ tok_id <$> tvs.*1 → JMap.get a (bindingsByAction s.1) = None.
Proof.
  intros [Hk _ Hi _ _] Hp%parsed_id Hfresh. apply JMap.get_None. rewrite Hk.
  intros ([tok' a'] & -> & Hin)%list_elem_of_fmap. simpl in *. apply Hfresh.
  rewrite <-Hp, (Hi tok' a') by done. by eapply elem_of_ids.
Qed.

Lemma vals_connect tvs s tok a :
  Vals tvs s → Parsed s tok a → tok_id tok ∉ tok_id <$> tvs.*1 → Vals ((tok, a) :: tvs) (connectAction s a).
Proof.
  intros Hv Hp Hfresh. pose proof (vals_absent _ _ _ _ Hv Hp Hfresh) as Hnone.
  pose proof (vals_wf _ _ Hv) as Hwf. destruct Hv as [Hk Hb Hi Hn Hc]. destruct s as [c d]. simpl in *. split; simpl.
  - rewrite JMap.set_absent by done. unfold JMap.keys in *. rewrite fmap_app, Hk. apply (Permutation_app_comm _ [a]).
  - intros a' b. rewrite JMap.get_set. case_decide; [|apply Hb]. subst. by intros [= <-].
  - intros tok' a' [[= -> ->]|Hin]%elem_of_cons; [by eapply parsed_id|by apply Hi].
  - by apply NoDup_cons.
  - unfold bindings, JMap.values in *. simpl. rewrite JMap.set_absent by done. rewrite fmap_app.
    eapply (binding_perm (mk_binding (next_binding c) context a :: (bindingsByAction c).*2)).
    { apply (Permutation_app_comm [_]). }
    apply binding_connect; [done| |done]. intros ([a' b] & Heq & Hin)%list_elem_of_fmap. simpl in Heq. subst b.
    assert (JMap.get a' (bindingsByAction c) = Some (mk_binding (next_binding c) context a)) as Hg.
    { by apply JMap.elem_get_Some. }
    apply Hb in Hg as [<- _]. simpl in *. apply JMap.get_None in Hnone. apply Hnone.
    by apply (list_elem_of_fmap_2 fst) in Hin.
Qed.

Lemma vals_disconnect tvs s tok a :
  Vals ((tok, a) :: tvs) s → Vals tvs (disconnectAction s a).
Proof.
  intros Hv. pose proof (vals_wf _ _ Hv) as Hwf. destruct Hv as [Hk Hb Hi Hn Hc].
  destruct s as [c d]. simpl in *. apply NoDup_cons in Hn as [_ Hn].
  assert (is_Some (JMap.get a (bindingsByAction c))) as [b Hg].
  { apply JMap.get_is_Some. rewrite Hk. by left. }
  rewrite Hg. pose proof (JMap.delete_perm _ _ _ Hwf Hg) as Hp.
  assert (JMap.keys (JMap.delete a (bindingsByAction c)) ≡ₚ tvs.*2) as Hk'.
  { apply (fmap_Permutation fst) in Hp. unfold JMap.keys in *. rewrite Hp in Hk.
    by apply Permutation_cons_inv in Hk. }
  split; simpl; [done| | |done|].
  - intros a' b'. rewrite JMap.get_delete. case_decide; [done|apply Hb].
  - intros tok' a' ?. apply Hi. by right.
  - destruct (Hb a b Hg) as [Hba Hbc]. unfold bindings, JMap.values in *. simpl.
    apply binding_disconnect; [|..|done].
    + eapply binding_perm; [|done]. apply (fmap_Permutation snd) in Hp. exact Hp.
    + intros ([a' b'] & Heq & Hin)%list_elem_of_fmap. simpl in Heq. subst b'.
      assert (JMap.get a' (JMap.delete a (bindingsByAction c)) = Some b) as Hg'.
      { apply JMap.elem_get_Some; [|done]. by apply JMap.wf_delete. }
      rewrite JMap.get_delete in Hg'. case_decide as Ha; [done|]. apply Hb in Hg' as [Ha' _]. congruence.
Qed.

Lemma parseToken_result dom s tok :
  ValueListObserver.parseToken value_delegate dom s tok =
    (s, match forToken dom (tok_id tok) tok with
        | inl a => ParsedValue (if decide (a_identifier a = identifier) then Some a else None)
        | inr error => ParseError error
        end).
Proof.
  unfold ValueListObserver.parseToken. simpl. unfold parseValueForToken.
  by destruct (forToken dom (tok_id tok) tok).
Qed.

Lemma binding_value_laws : ValueListObserver.ValueLaws value_delegate Vals Parsed Result.
Proof.
  split.
  - intros dom s tok. rewrite parseToken_result. by exists dom.
  - intros tvs tvs' s Hp [Hk Hb Hi Hn Hc]. split; [by rewrite Hk, Hp|done| | |done].
    + intros tok a. rewrite <-Hp. apply Hi.
    + by rewrite <-Hp.
  - intros dom tvs s tok Hv. by rewrite parseToken_result.
  - intros dom tvs s tok a. apply vals_connect.
  - intros dom tvs s tok a Hv _ _. by eapply vals_disconnect.
  - intros dom s tok a. rewrite parseToken_result. simpl. destruct (forToken dom _ tok) as [a'|] eqn:Hf; [|done].
    case_decide; [|done]. intros [= <-]. by exists dom.
  - intros dom s tok tok' a. by rewrite parseToken_result.
  - done.
  - done.
Qed.

(** *** The observer in step with the document *)

#[local] Abbreviation in_sync :=
  (ValueStack.in_sync value_delegate App.actionAttribute (Vals := Vals) (Parsed := Parsed) (Result := Result)).

(** The observer follows the document, or is not started. *)
Definition tracks (od : option doc) (o : t) : Prop :=
  match od, o with
  | Some dom, (Some (tl, vl), s) =>
    in_sync dom (tl, (vl, s)) ∧ ValueStack.root_of (tl, (vl, s)) = element
  | None, (None, s) => Vals [] s
  | _, _ => False
  end.

Definition reported : doc → doc → list mutation → Prop := λ dom dom' ms,
  ValueStack.reported value_delegate App.actionAttribute dom dom' element ms.

(** What an observer has been through; the index is the document as of the
    last records that were delivered, while it is started. *)
Inductive session (d : D) : option doc → t → Prop :=
  | session_new : session d None (new d)
  | session_start dom o : session d None o → session d (Some dom) (start dom o)
  | session_mutations dom dom' ms o :
    session d (Some dom) o → reported dom dom' ms → session d (Some dom') (processMutations dom' ms o)
  | session_stop dom o : session d (Some dom) o → session d None (stop o).

Lemma stop_state (a : ValueStack.t action (core * D)) : (ValueStack.stop value_delegate a).2 = a.2.
Proof.
  destruct a as [[[an eo] tl] d]. unfold ValueStack.stop, TokenListObserver.stop, AttributeObserver.stop. simpl.
  unfold ElementObserver.stop. by destruct (ElementObserver.started eo).
Qed.

Lemma vals_nodup_bindings tvs s : Vals tvs s → NoDup (bindings s.1).
Proof.
  intros Hv. pose proof (vals_wf _ _ Hv) as Hwf. unfold bindings, JMap.values.
  apply (NoDup_fmap_1 b_action). rewrite <-list_fmap_compose.
  rewrite (list_fmap_ext _ fst); [exact Hwf|]. intros i [a b] Hin%list_elem_of_lookup_2. simpl.
  by apply (vals_binding _ _ Hv), JMap.elem_get_Some.
Qed.

Lemma bindings_context tvs s b : Vals tvs s → b ∈ bindings s.1 → b_context b = context.
Proof.
  intros Hv ([a b'] & -> & Hin)%list_elem_of_fmap.
  by apply (vals_binding _ _ Hv a), JMap.elem_get_Some; [eapply vals_wf|].
Qed.

Lemma vals_disconnect_all tvs s : Vals tvs s → Vals [] (disconnectAllActions s).
Proof.
  intros Hv. pose proof (vals_nodup_bindings _ _ Hv) as Hn.
  assert (∀ b, b ∈ bindings s.1 → b_context b = context) as Hctx by (intros b; by apply bindings_context with tvs).
  destruct Hv as [_ _ _ _ Hc]. destruct s as [c d]. unfold disconnectAllActions. cbn [fst snd] in *.
  split; simpl; [done|done|by intros tok a ?%not_elem_of_nil|constructor|].
  unfold bindings at 1. simpl. revert d Hc.
  induction (bindings c) as [|b bs IH]; intros d Hc; simpl; [done|]. apply NoDup_cons in Hn as [Hb Hn].
  apply IH; [done| |].
  - intros b' ?. apply Hctx. by right.
  - apply binding_disconnect; [done|done|]. apply Hctx. by left.
Qed.

Context {LD : DomLaws doc}.

Lemma tracks_new d : Conn [] d → tracks None (new d).
Proof. intros Hc. split; simpl; [done|done|by intros tok a ?%not_elem_of_nil|constructor|done]. Qed.

Lemma tracks_start dom o : tracks None o → tracks (Some dom) (start dom o).
Proof.
  destruct o as [[[tl vl]|] s]; [done|]. intros Hv. cbn [tracks start] in *.
  destruct (ValueStack.start_sync value_delegate App.actionAttribute binding_value_laws dom element
    (ValueStack.new element App.actionAttribute s)) as [Hs Hr]; [done|].
  revert Hs Hr. by destruct (ValueStack.start _ _ _) as [tl [vl s']].
Qed.

Lemma tracks_mutations dom dom' ms o :
  tracks (Some dom) o → reported dom dom' ms → tracks (Some dom') (processMutations dom' ms o).
Proof.
  destruct o as [[[tl vl]|] s]; [|done]. intros [Hs Hroot] Hr. cbn [tracks processMutations] in *.
  destruct (ValueStack.mutations_sync value_delegate App.actionAttribute binding_value_laws dom dom' ms
    (tl, (vl, s))) as [Hs' Hr']; [done|by rewrite Hroot|].
  revert Hs' Hr'. destruct (ValueStack.processMutations _ _ _ _) as [tl' [vl' s']].
  intros Hs' Hr'. split; [exact Hs'|]. by etransitivity.
Qed.

Lemma tracks_stop dom o : tracks (Some dom) o → tracks None (stop o).
Proof.
  destruct o as [[[tl vl]|] s]; [|done]. intros [Hs _]. cbn [tracks stop] in *.
  pose proof (stop_state (tl, (vl, s))) as Hst.
  destruct (ValueStack.stop _ _) as [tl' [vl' s']]. simpl in *. simplify_eq.
  eapply vals_disconnect_all, (ValueStack.sync_vals _ _ _ _ Hs).
Qed.

Lemma binding_session_tracks d od o : Conn [] d → session d od o → tracks od o.
Proof.
  intros Hc. induction 1 as [|dom o _ IH|dom dom' ms o _ IH Hr|dom o _ IH].
  - by apply tracks_new.
  - by apply tracks_start.
  - by apply tracks_mutations with dom.
  - by apply tracks_stop with dom.
Qed.

(** The word at a place of the action attribute of an element, within the
    element of the context. *)
Definition word_at dom (e : elem) (i : nat) : option string :=
  ValueStack.words_of App.actionAttribute dom element e !! i.

Definition bindings_of (o : t) : list binding := bindings o.2.1.
Definition state_of (o : t) : D := o.2.2.

Lemma elem_of_bindings dom tl vl s b :
  in_sync dom (tl, (vl, s)) →
  b ∈ bindings s.1 ↔ JMap.get (b_action b) (bindingsByAction s.1) = Some b.
Proof.
  intros Hs. pose proof (ValueStack.sync_vals _ _ _ _ Hs) as Hv. simpl in Hv.
  unfold bindings, JMap.values. rewrite list_elem_of_fmap. split.
  - intros ([a b'] & -> & Hin). simpl. apply JMap.elem_get_Some in Hin as Hg; [|by eapply vals_wf].
    destruct (vals_binding _ _ Hv _ _ Hg) as [<- _]. done.
  - intros Hg. exists (b_action b, b). split; [done|]. by apply JMap.get_Some_elem.
Qed.

(** Every binding comes from a token of the element of its action. *)
Lemma binding_token dom tl vl s b :
  in_sync dom (tl, (vl, s)) → b ∈ bindings s.1 →
  ∃ tok, (tok, b_action b) ∈ ValueStack.live_values (tl, (vl, s)) ∧
         tok ∈ ValueStack.tokens (tl, (vl, s)) (tok_element tok) ∧ Parsed s tok (b_action b).
Proof.
  intros Hs Hb%(elem_of_bindings dom tl vl); [|done].
  pose proof (ValueStack.sync_vals _ _ _ _ Hs) as Hv. simpl in Hv.
  assert (b_action b ∈ (ValueStack.live_values (tl, (vl, s))).*2) as Hin.
  { rewrite <-(vals_keys _ _ Hv). apply JMap.get_is_Some. eauto. }
  apply list_elem_of_fmap in Hin as ([tok a] & Ha & Hin). simpl in Ha. subst a. exists tok.
  split; [done|]. split; [by apply (ValueStack.elem_of_live_values _ _ _ _ _ _ Hs) in Hin as [? _]|].
  by apply (ValueStack.sync_parsed _ _ _ _ _ _ Hs) in Hin.
Qed.

Lemma forToken_fields dom tok a :
  forToken dom (tok_id tok) tok = inl a → a_id a = tok_id tok ∧ a_element a = tok_element tok ∧ a_index a = tok_index tok.
Proof.
  intros Hf. pose proof (forToken_spec dom (tok_id tok) tok) as Hspec. rewrite Hf in Hspec.
  simpl in Hspec. tauto.
Qed.

(** What a started observer has bound. *)
Lemma sync_bindings dom tl vl s :
  in_sync dom (tl, (vl, s)) → ValueStack.root_of (tl, (vl, s)) = element →
  (∀ b, b ∈ bindings s.1 →
     b_context b = context ∧
     ∃ w dom' tok, word_at dom (a_element (b_action b)) (a_index (b_action b)) = Some w ∧
       tok_element tok = a_element (b_action b) ∧ tok_index tok = a_index (b_action b) ∧ tok_content tok = w ∧
       forToken dom' (tok_id tok) tok = inl (b_action b) ∧ a_identifier (b_action b) = identifier) ∧
  (∀ b b', b ∈ bindings s.1 → b' ∈ bindings s.1 →
     a_element (b_action b) = a_element (b_action b') → a_index (b_action b) = a_index (b_action b') → b = b') ∧
  (∀ e i w, word_at dom e i = Some w →
     d_identifier (parseActionDescriptorString w) = Some identifier →
     d_eventName (parseActionDescriptorString w) ≠ None ∨
       (∀ dom', getDefaultEventNameForElement dom' e ≠ None) →
     ∃ b, b ∈ bindings s.1 ∧ a_element (b_action b) = e ∧ a_index (b_action b) = i).
Proof.
  intros Hs Hroot. pose proof (ValueStack.sync_vals _ _ _ _ Hs) as Hv. simpl in Hv. split_and!.
  - intros b Hb. split; [by eapply bindings_context|].
    destruct (binding_token _ _ _ _ _ Hs Hb) as (tok & _ & Hin & dom' & Hf & Hid).
    destruct (forToken_fields _ _ _ Hf) as (_ & He & Hi). exists (tok_content tok), dom', tok.
    rewrite He, Hi. split_and!; try done. unfold word_at. rewrite <-Hroot.
    apply (ValueStack.sync_token _ _ binding_value_laws _ _ _ _ _ Hs). by exists tok.
  - intros b b' Hb Hb' He Hi.
    destruct (binding_token _ _ _ _ _ Hs Hb) as (tok & Hl & Hin & dom1 & Hf & _).
    destruct (binding_token _ _ _ _ _ Hs Hb') as (tok' & Hl' & Hin' & dom1' & Hf' & _).
    destruct (forToken_fields _ _ _ Hf) as (Hx & He1 & Hi1).
    destruct (forToken_fields _ _ _ Hf') as (Hx' & He1' & Hi1').
    assert (tok = tok') as <-.
    { apply (ValueStack.sync_token_unique _ _ _ _ (tok_element tok) _ _ Hs); [done| |congruence].
      by rewrite <-He1, He, He1'. }
    apply (elem_of_bindings _ _ _ _ _ Hs) in Hb, Hb'.
    apply (ValueStack.elem_of_live_values _ _ _ _ _ _ Hs) in Hl as (_ & r & Hr & Hrv).
    apply (ValueStack.elem_of_live_values _ _ _ _ _ _ Hs) in Hl' as (_ & r' & Hr' & Hrv'). congruence.
  - intros e i w Hw Hid Hev. unfold word_at in Hw. rewrite <-Hroot in Hw.
    apply (ValueStack.sync_token _ _ binding_value_laws _ _ _ _ _ Hs) in Hw as (tok & Hin & Hi & Hc).
    destruct (ValueStack.token_element _ _ _ _ _ _ Hs Hin) as [He _].
    assert (tok ∈ ValueStack.tokens (tl, (vl, s)) (tok_element tok)) as Hin' by by rewrite He.
    destruct (ValueStack.token_parsed _ _ _ _ _ Hs Hin') as (r & Hr & dom' & Hres).
    pose proof (forToken_spec dom' (tok_id tok) tok) as Hspec. rewrite Hc in Hspec. cbv zeta in Hspec.
    destruct (forToken dom' (tok_id tok) tok) as [a|err] eqn:Hf.
    + destruct Hspec as (_ & Hae & Hai & _ & _ & _ & Hdi & _).
      assert (a_identifier a = identifier) as Hida by congruence. rewrite decide_True in Hres by done.
      assert ((tok, a) ∈ ValueStack.live_values (tl, (vl, s))) as Hl.
      { apply (ValueStack.elem_of_live_values _ _ _ _ _ _ Hs). split; [done|]. exists r. by rewrite Hres in *. }
      apply (list_elem_of_fmap_2 snd) in Hl. rewrite <-(vals_keys _ _ Hv) in Hl.
      apply JMap.get_is_Some in Hl as [b Hb]. destruct (vals_binding _ _ Hv _ _ Hb) as [Hba _]. simpl in *.
      exists b. rewrite Hba, Hae, Hai, He, Hi. split; [|done].
      apply (elem_of_bindings _ _ _ _ _ Hs). by rewrite Hba.
    + exfalso. case_decide as Hd.
      * destruct Hd as [Hnone Hdef]. destruct Hev as [?|Hev]; [done|]. rewrite He in Hdef. by apply (Hev dom').
      * destruct Hspec as [_ Hnone]. unfold parseActionDescriptorString in Hid. rewrite Hnone in Hid. done.
Qed.
End binding_observer.
End BindingObserver.

(** The bindings of a context that follows a document: every one comes from the
    word at its action's place, no place has two, and every word that names the
    identifier, and has an event, has one. *)
Definition bindings_match {doc} `{Dom doc, Tagged doc} (context : context) (identifier : string) (dom : doc)
    (bs : list binding) : Prop :=
  (∀ b, b ∈ bs →
     b_context b = context ∧
     ∃ w dom' tok,
       BindingObserver.word_at context dom (a_element (b_action b)) (a_index (b_action b)) = Some w ∧
       tok_element tok = a_element (b_action b) ∧ tok_index tok = a_index (b_action b) ∧ tok_content tok = w ∧
       forToken dom' (tok_id tok) tok = inl (b_action b) ∧ a_identifier (b_action b) = identifier) ∧
  (∀ b b', b ∈ bs → b' ∈ bs →
     a_element (b_action b) = a_element (b_action b') → a_index (b_action b) = a_index (b_action b') → b = b') ∧
  (∀ e i w, BindingObserver.word_at context dom e i = Some w →
     d_identifier (parseActionDescriptorString w) = Some identifier →
     d_eventName (parseActionDescriptorString w) ≠ None ∨
       (∀ dom', getDefaultEventNameForElement dom' e ≠ None) →
     ∃ b, b ∈ bs ∧ a_element (b_action b) = e ∧ a_index (b_action b) = i).

Lemma context_bound {doc} `{DomLaws doc, Tagged doc} (context : context) identifier others d od o :
  (∀ b, b ∈ others → b_context b ≠ context) → Dispatcher.Serves (λ _ _, True) others d →
  BindingObserver.session context identifier d od o →
  (∀ i b, b ∈ Dispatcher.attached (BindingObserver.state_of o) i ↔
          (b ∈ BindingObserver.bindings_of o ∨ b ∈ others) ∧ Dispatcher.id_of b = i) ∧
  match od with
  | Some dom => bindings_match context identifier dom (BindingObserver.bindings_of o)
  | None => BindingObserver.bindings_of o = []
  end.
Proof.
  intros Ho Hd Hs.
  pose proof (BindingObserver.binding_session_tracks context identifier (Conn := bound context others) d od o) as Ht.
  specialize (Ht (conj Ho Hd) Hs). unfold BindingObserver.tracks in Ht. destruct od as [dom|].
  - destruct o as [[[tl vl]|] s]; [|done]. destruct Ht as [Hin Hroot].
    pose proof (ValueStack.sync_vals _ _ _ _ Hin) as Hv. cbn in Hv. split.
    + intros i b. unfold BindingObserver.state_of, BindingObserver.bindings_of. cbn [snd].
      destruct (BindingObserver.vals_conn _ _ _ Hv) as [_ Hserves].
      rewrite (Dispatcher.serves_attached _ _ _ Hserves). by rewrite elem_of_app.
    + by apply (BindingObserver.sync_bindings context identifier (Conn := bound context others) dom tl vl s).
  - destruct o as [[[tl vl]|] s]; [done|]. destruct Ht as [Hk _ _ _ Hc].
    assert (BindingObserver.bindings_of (None, s) = []) as Hnil.
    { unfold BindingObserver.bindings_of, BindingObserver.bindings, JMap.values. cbn [snd fst].
      apply Permutation_nil_r in Hk. unfold JMap.keys in Hk. by apply fmap_nil_inv in Hk as ->. }
    split; [|done]. intros i b. destruct Hc as [_ Hserves].
    rewrite (Dispatcher.serves_attached _ _ _ Hserves), elem_of_app. done.
Qed.

(** ** Properties *)

(** C4: while a context's observer is started, the context is bound for
    exactly the words of the action attributes, at and below its element as the
    document has them, that name its identifier: every binding comes from such
    a word, the one at its action's place; no place has two; and every word
    with an event name, or on an element that has a default one, has its
    binding.  Once stopped it has none.  The dispatcher calls these bindings
    and those of the other contexts, each from the listener of its target and
    key. *)
Theorem context_bindings {doc} `{DomLaws doc, Tagged doc} (context : context) identifier others d od o :
  (∀ b, b ∈ others → b_context b ≠ context) → Dispatcher.Serves (λ _ _, True) others d →
  BindingObserver.session context identifier d od o →
  (∀ i b, b ∈ Dispatcher.attached (BindingObserver.state_of o) i ↔
          (b ∈ BindingObserver.bindings_of o ∨ b ∈ others) ∧ Dispatcher.id_of b = i) ∧
  match od with
  | Some dom =>
    (∀ b, b ∈ BindingObserver.bindings_of o →
       b_context b = context ∧
       ∃ w dom' tok,
         BindingObserver.word_at context dom (a_element (b_action b)) (a_index (b_action b)) = Some w ∧
         tok_element tok = a_element (b_action b) ∧ tok_index tok = a_index (b_action b) ∧ tok_content tok = w ∧
         forToken dom' (tok_id tok) tok = inl (b_action b) ∧ a_identifier (b_action b) = identifier) ∧
    (∀ b b', b ∈ BindingObserver.bindings_of o → b' ∈ BindingObserver.bindings_of o →
       a_element (b_action b) = a_element (b_action b') → a_index (b_action b) = a_index (b_action b') → b = b') ∧
    (∀ e i w, BindingObserver.word_at context dom e i = Some w →
       d_identifier (parseActionDescriptorString w) = Some identifier →
       d_eventName (parseActionDescriptorString w) ≠ None ∨
         (∀ dom', getDefaultEventNameForElement dom' e ≠ None) →
       ∃ b, b ∈ BindingObserver.bindings_of o ∧ a_element (b_action b) = e ∧ a_index (b_action b) = i)
  | None => BindingObserver.bindings_of o = []
  end.
Proof. intros Ho Hd Hs. exact (context_bound context identifier others d od o Ho Hd Hs). Qed.

(** *** A page with actions: below the element 1 of the controller [c], the
    button 2 has two actions of it and one of another controller. *)

Definition action_page : PageDom.t := PageDom.mk [(0, 0); (1, 1); (2, 2)] []
  [((2, "data-action"), "c#go  keydown@window->c#stop x#go")] eq_refl.

#[local] Instance action_page_tags : Tagged PageDom.t := λ _ e, if decide (e = 2) then "BUTTON" else "DIV".

Definition page_context : context := mk_context 0 0 (mk_scope 0 1 "c").
Definition page_observer : BindingObserver.t (D := Dispatcher.t) :=
  BindingObserver.start page_context "c" action_page (BindingObserver.new Dispatcher.new).

Example page_bindings :
  (λ b, toString (b_action b)) <$> BindingObserver.bindings_of page_observer = ["click->c#go"; "keydown@window->c#stop"].
Proof. vm_compute. reflexivity. Qed.

Lemma context_bindings_witness :
  ∃ b, b ∈ BindingObserver.bindings_of page_observer ∧ a_element (b_action b) = 2 ∧ a_index (b_action b) = 1.
Proof.
  destruct (context_bindings page_context "c" [] Dispatcher.new (Some action_page) page_observer) as (_ & _ & _ & Hw).
  - intros b Hb. by apply not_elem_of_nil in Hb.
  - apply Dispatcher.serves_new.
  - apply BindingObserver.session_start, BindingObserver.session_new.
  - apply (Hw 2 1 "keydown@window->c#stop"); [vm_compute; reflexivity..|]. left. vm_compute. discriminate.
Defined.
