(* ===== verification/Contexts.v ===== *)
(** A context: a controller on an element, with the observer of its actions and
    the observer of its values.

    Models [src/gui/web/assets/scripts/stimulus.js], the class [Context].  The
    state is what the two observers keep, the dispatcher, what the browser
    holds for the values' observer, and the world of the controllers' methods,
    which may change the document and may throw.  [Router] knows contexts by
    their operations only ([ContextOps]); here are the operations themselves. *)

From S2P Require Import Prelude JsCore JsString Dom Observers Tokens ValueList ValueStack StringMap.
From S2P Require Import Scopes Router Names Json Numbers Values App Regex Actions Dispatcher Bindings.

#[local] Open Scope string_scope.
#[local] Open Scope list_scope.
#[local] Open Scope act_scope.

Module Context.

(** The methods of a controller that its context calls, its changed callbacks
    and properties, and the application's [handleError]. *)
Record controller (doc U : Type) := mk_controller {
  ct_initialize : Act.t (browser doc * U);
  ct_connect : Act.t (browser doc * U);
  ct_disconnect : Act.t (browser doc * U);
  ct_receiver : receiver (doc := doc) U;
  ct_handleError : string → string → U → U;
}.
Arguments mk_controller {doc U}.
Arguments ct_initialize {doc U}.
Arguments ct_connect {doc U}.
Arguments ct_disconnect {doc U}.
Arguments ct_receiver {doc U}.
Arguments ct_handleError {doc U}.

(** The class's values, as its blessing defines them. *)
Record definition := mk_definition {
  valueDescriptorMap : list (string * value_descriptor);
  properties : list (string * value_property);
}.

Section context.
Context {doc : Type} `{Dom doc} `{Tagged doc} {U : Type} (JSON_parse : string → json + string).
Context (context : context) (identifier : string) (def : definition) (controller : controller doc U).

Record t := mk {
  bindingObserver : BindingObserver.t (D := Dispatcher.t);
  valueObserver : StringMapObserver.t;
}.

Definition world : Type := browser doc * U.
Definition state : Type := t * world.
Implicit Types (s : state).

Definition element : elem := cx_element context.
Definition scope_ : scope := cx_scope context.
Definition document_of s : doc := document s.2.1.

(** A statement of the controller or the values' observer. *)
Definition on_world (a : Act.t world) : Act.t state := λ s, let '(w, r) := a s.2 in ((s.1, w), r).
Definition on_values (a : Act.t (StringMapObserver.state (doc := doc) (D := U))) : Act.t state := λ s,
  let '((vo, w), r) := a (valueObserver s.1, s.2) in ((mk (bindingObserver s.1) vo, w), r).
Definition on_bindings (f : BindingObserver.t → BindingObserver.t) : Act.t state :=
  Act.update (λ s, (mk (f (bindingObserver s.1)) (valueObserver s.1), s.2)).

Definition handleError (error message : string) (w : world) : world :=
  (w.1, ct_handleError controller error ("Error " +:+ message) w.2).

(** [try { method() } catch (error) { this.handleError(error, message) }] *)
Definition guarded (method : Act.t world) (message : string) : Act.t state :=
  on_world (Act.update (Act.attempt method (λ error, handleError error message))).

#[local] Abbreviation value_delegate :=
  (Values.delegate JSON_parse scope_ (ct_receiver controller) (valueDescriptorMap def) (properties def)).

(** [new Context(module, scope)], in a dispatcher. *)
Definition initial (d : Dispatcher.t) (w : world) : state :=
  (mk (BindingObserver.new d) (stringMapObserver scope_), w).
Definition construct : Act.t state :=
  on_world (new_observer JSON_parse scope_ (ct_receiver controller) (valueDescriptorMap def) (properties def)) ;;
  guarded (ct_initialize controller) "initializing controller".

Definition connect : Act.t state := λ s,
  (on_bindings (BindingObserver.start context identifier (document_of s)) ;;
   on_values (Values.start JSON_parse scope_ (ct_receiver controller) (valueDescriptorMap def) (properties def)) ;;
   guarded (ct_connect controller) "connecting controller") s.

Definition disconnect : Act.t state :=
  guarded (ct_disconnect controller) "disconnecting controller" ;;
  on_values Values.stop ;;
  on_bindings (BindingObserver.stop context identifier).

(** The browser delivers records to one of the observers. *)
Definition deliver_bindings (ms : list mutation) : Act.t state := λ s,
  on_bindings (BindingObserver.processMutations context identifier (document_of s) ms) s.
Definition deliver_values : Act.t state := on_values (StringMapObserver.deliver value_delegate).

End context.

(** ** What a context has been through *)

Section session.
Context {doc : Type} `{DomLaws doc} `{Tagged doc} {U : Type} (JSON_parse : string → json + string).
Context (context : context) (identifier : string) (def : definition) (controller : controller doc U).
Implicit Types (s : state (doc := doc) (U := U)).

#[local] Abbreviation el := (cx_element context).
#[local] Abbreviation reports := (StringMapObserver.reports (doc := doc) (D := U) el).
#[local] Abbreviation evolves := (StringMapObserver.evolves (doc := doc) el).
#[local] Abbreviation value_delegate :=
  (Values.delegate JSON_parse (cx_scope context) (ct_receiver controller) (valueDescriptorMap def) (properties def)).

(** The controller's methods may do anything but operate the observers. *)
Record Methods : Prop := {
  initialize_reports : reports (ct_initialize controller);
  connect_reports : reports (ct_connect controller);
  disconnect_reports : reports (ct_disconnect controller);
  callbacks_report : methods_report (cx_scope context) (ct_receiver controller);
}.

(** The index is the document that the bindings follow while the context is
    connected; [lost] are the attributes whose refresh an exception cut off. *)
Inductive session (d : Dispatcher.t) : option doc → list string → state → Prop :=
  | session_construct dom u s :
    construct JSON_parse context def controller (initial context d (mk_browser dom mo_new, u)) = (s, None) →
    session d None [] s
  | session_change od lost s b u :
    session d od lost s → evolves s.2.1 b → session d od lost (s.1, (b, u))
  | session_connect lost s s' r :
    session d None lost s → connect JSON_parse context identifier def controller s = (s', r) →
    session d (Some (document_of s))
      (if r is Some _ then StringMapObserver.knownAttributeNames (valueObserver s.1, s.2) else []) s'
  | session_disconnect dom lost s :
    session d (Some dom) lost s →
    session d None [] (disconnect context identifier controller s).1
  | session_bindings dom lost s ms :
    session d (Some dom) lost s →
    BindingObserver.reported context identifier dom (document_of s) ms →
    session d (Some (document_of s)) lost (deliver_bindings context identifier ms s).1
  | session_values od lost s s' r :
    session d od lost s → deliver_values JSON_parse context def controller s = (s', r) →
    session d od
      (if r is Some _ then lost ++ omap StringMapObserver.attributeName (mo_records (observer s.2.1))
       else filter (λ a, a ∉ omap StringMapObserver.attributeName (mo_records (observer s.2.1))) lost) s'.

Context (HM : Methods).

Lemma guarded_frame method message s :
  reports method → let s' := (guarded controller method message s).1 in
  s'.1 = s.1 ∧ evolves s.2.1 s'.2.1 ∧ (guarded controller method message s).2 = None.
Proof.
  intros Hr. unfold guarded, on_world, Act.update, Act.attempt. specialize (Hr s.2).
  destruct (method s.2) as [w [e|]]; simpl in *; done.
Qed.

(** The values' part of a context. *)
Lemma on_values_eq a s :
  on_values a s = let '((vo, w), r) := a (valueObserver s.1, s.2) in ((mk (bindingObserver s.1) vo, w), r).
Proof. done. Qed.

(** A context's session is one of each of its observers. *)
Definition projects (d : Dispatcher.t) (od : option doc) (lost : list string) (s : state) : Prop :=
  BindingObserver.session context identifier d od (bindingObserver s.1) ∧
  StringMapObserver.session value_delegate el (valueObserver s.1, s.2) lost ∧
  StringMapObserver.started (valueObserver s.1) = bool_decide (is_Some od).

Lemma project_construct d dom u s :
  construct JSON_parse context def controller (initial context d (mk_browser dom mo_new, u)) = (s, None) →
  projects d None [] s.
Proof.
  intros Hc. unfold construct in Hc. apply Act.seq_completes in Hc as (s1 & Hnew & Hinit).
  assert (s1.1 = mk (BindingObserver.new d) (stringMapObserver (cx_scope context)) ∧
          evolves (mk_browser dom mo_new) s1.2.1) as [Hs1 Hev1].
  { unfold on_world in Hnew. destruct (new_observer _ _ _ _ _ _) as [w r] eqn:Hn. injection Hnew as <- ->.
    split; [done|]. pose proof (new_observer_evolves JSON_parse (cx_scope context) (ct_receiver controller)
      (valueDescriptorMap def) (properties def) (mk_browser dom mo_new, u) (callbacks_report HM)) as He.
    unfold initial, scope_ in Hn. simpl in Hn. by rewrite Hn in He. }
  destruct (guarded_frame (ct_initialize controller) "initializing controller" s1 (initialize_reports HM))
    as (Hs2 & Hev2 & _). rewrite Hinit in Hs2, Hev2. simpl in Hs2, Hev2. unfold projects. rewrite Hs2, Hs1.
  split; [apply BindingObserver.session_new|]. split; [|done].
  destruct s as [o [b u']]. simpl in *.
  apply (StringMapObserver.session_change _ _ (StringMapObserver.new el, (mk_browser dom mo_new, u)) []);
    [apply StringMapObserver.session_new|]. by eapply StringMapObserver.evolves_trans.
Qed.

Lemma project_connect d lost s s' r :
  projects d None lost s → connect JSON_parse context identifier def controller s = (s', r) →
  projects d (Some (document_of s))
    (if r is Some _ then StringMapObserver.knownAttributeNames (valueObserver s.1, s.2) else []) s'.
Proof.
  intros (HB & HV & Hst) Hc. unfold connect, Act.seq in Hc. simpl in Hc. rewrite on_values_eq in Hc. simpl in Hc.
  destruct (Values.start _ _ _ _ _ _) as [[vo w] r1] eqn:Hvs.
  assert (StringMapObserver.started (valueObserver s.1) = false) as Hst' by exact Hst.
  pose proof (StringMapObserver.session_start _ _ (valueObserver s.1, s.2) _ _ _ HV Hst' Hvs) as HV'.
  destruct (StringMapObserver.observer_start_sync _ _ (delegate_reports _ _ _ _ _ (callbacks_report HM)) _
    (valueObserver s.1, s.2) _ _ Hst' Hvs
    (StringMapObserver.session_sync _ _ (delegate_reports _ _ _ _ _ (callbacks_report HM)) _ _ HV)) as [_ Hst2].
  destruct r1 as [e|].
  - injection Hc as <- <-. split_and!; [by apply BindingObserver.session_start|done|done].
  - set (s1 := (mk _ vo, w)) in Hc.
    destruct (guarded_frame (ct_connect controller) "connecting controller" s1 (connect_reports HM))
      as (Hs1 & Hev & Hr). rewrite Hc in Hs1, Hev, Hr. simpl in Hs1, Hev, Hr. subst r. unfold projects. rewrite Hs1.
    split; [by apply BindingObserver.session_start|]. split; [|done]. destruct s' as [o [b u]].
    by apply (StringMapObserver.session_change _ _ (vo, w)).
Qed.

Lemma session_project d od lost s : session d od lost s → projects d od lost s.
Proof.
  induction 1 as [dom u s Hc|od lost s b u _ (HB & HV & Hst) Hev|lost s s' r _ IH Hc
                 |dom lost s _ (HB & HV & Hst)|dom lost s ms _ (HB & HV & Hst) Hr|od lost s s' r _ (HB & HV & Hst) Hd].
  - by eapply project_construct.
  - split; [done|]. split; [|done]. by apply (StringMapObserver.session_change _ _ (valueObserver s.1, s.2)).
  - by eapply project_connect.
  - unfold disconnect, Act.seq.
    destruct (guarded_frame (ct_disconnect controller) "disconnecting controller" s (disconnect_reports HM))
      as (Hs1 & Hev & Hr). destruct (guarded controller _ _ s) as [s1 r1]. simpl in Hs1, Hev, Hr. subst r1.
    assert (StringMapObserver.session value_delegate el (valueObserver s1.1, s1.2) lost) as HV1.
    { rewrite Hs1. destruct s1 as [o [b u]]. by apply (StringMapObserver.session_change _ _ (valueObserver s.1, s.2)). }
    pose proof (StringMapObserver.stop_sync _ _ _ _ (StringMapObserver.session_sync _ _
      (delegate_reports _ _ _ _ _ (callbacks_report HM)) _ _ HV1)) as (_ & Hr & Hst').
    pose proof (StringMapObserver.session_stop _ _ _ _ HV1) as HV2.
    rewrite on_values_eq. unfold Values.stop.
    destruct (StringMapObserver.stop (valueObserver s1.1, s1.2)) as [[vo w] r1]. simpl in Hr, Hst', HV2. subst r1.
    simpl. split_and!; [|done|done]. rewrite Hs1. by apply (BindingObserver.session_stop _ _ _ dom).
  - split_and!; [by apply (BindingObserver.session_mutations _ _ _ dom)|done|done].
  - unfold deliver_values in Hd. rewrite on_values_eq in Hd.
    destruct (StringMapObserver.deliver _ _) as [[vo w] r1] eqn:Hdel. injection Hd as <- <-.
    pose proof (StringMapObserver.session_deliver _ _ _ _ _ _ HV Hdel) as HV'.
    destruct (StringMapObserver.deliver_sync _ _ (delegate_reports _ _ _ _ _ (callbacks_report HM)) _ _ _ _ Hdel
      (StringMapObserver.session_sync _ _ (delegate_reports _ _ _ _ _ (callbacks_report HM)) _ _ HV)) as [_ Hst2].
    split_and!; [done|done|]. simpl in *. by rewrite Hst2.
Qed.
End session.

(** ** Properties *)

Section properties.
Context {doc : Type} `{DomLaws doc} `{Tagged doc} {U : Type} (JSON_parse : string → json + string).
Context (context : context) (identifier : string) (def : definition) (controller : controller doc U).
Implicit Types (s : state (doc := doc) (U := U)).

(** C5: a context keeps up with the document: through every session of its
    construction, connections and disconnections, changes of the document and
    deliveries to either observer, in which its controller's methods may change
    the document and throw, the dispatcher calls its bindings and those of the
    other contexts.  While connected, these are those of the action words
    naming it, and the recorded text of each value whose attribute's name has no
    capitals is that of its attribute, unless a record of it is to be delivered
    or an exception cut its delivery off; while disconnected it has no binding,
    observes nothing and waits for no record. *)
Theorem context_in_step pairs others d od lost s :
  Methods context controller → Values.valueDescriptorMap (cx_scope context) pairs = inl (valueDescriptorMap def) →
  (∀ b, b ∈ others → b_context b ≠ context) → Dispatcher.Serves (λ _ _, True) others d →
  session JSON_parse context identifier def controller d od lost s →
  let bindings := BindingObserver.bindings_of (bindingObserver s.1) in
  let stringMap := StringMapObserver.stringMap (valueObserver s.1) in
  (∀ i b, b ∈ Dispatcher.attached (BindingObserver.state_of (bindingObserver s.1)) i ↔
          (b ∈ bindings ∨ b ∈ others) ∧ Dispatcher.id_of b = i) ∧
  match od with
  | Some dom =>
    bindings_match context identifier dom bindings ∧
    ∀ a v, JMap.get a (valueDescriptorMap def) = Some v → lower_name a = a → a ∉ lost →
      ¬ StringMapObserver.named a (mo_records (observer s.2.1)) →
      JMap.get a stringMap = DataMap.get (document_of s) (cx_scope context) (vd_key v)
  | None =>
    bindings = [] ∧ StringMapObserver.started (valueObserver s.1) = false ∧ mo_observing (observer s.2.1) = false
  end.
Proof.
  intros HM Hdef Ho Hd Hs.
  destruct (session_project JSON_parse context identifier def controller HM d od lost s Hs) as (HB & HV & Hst).
  destruct (context_bound context identifier others d od _ Ho Hd HB) as [Hat Hb].
  split; [exact Hat|]. destruct od as [dom|].
  - split; [exact Hb|]. intros a v Hget Hl Hlost Hn.
    by apply (values_recorded JSON_parse (cx_scope context) pairs (ct_receiver controller) (valueDescriptorMap def)
      (properties def) Hdef (valueObserver s.1, s.2) lost a v (callbacks_report _ _ HM) HV).
  - split; [exact Hb|]. split; [done|].
    pose proof (StringMapObserver.session_sync _ _ (delegate_reports _ _ _ _ _ (callbacks_report _ _ HM)) _ _ HV)
      as [_ _ Hobs _]. simpl in Hobs. by rewrite Hobs.
Qed.

End properties.

(** ** The exceptions of a controller

A controller that also writes down which of its methods were called and threw,
and what was reported to the application. *)

Inductive happening :=
  | Called (method : string)
  | Threw (method error : string)
  | Reported (error message : string).

Section logged.
Context {doc U : Type}.

Definition logged_method (name : string) (method : Act.t (browser doc * U))
    : Act.t (browser doc * (U * list happening)) := λ x,
  let '((b, u), r) := method (x.1, x.2.1) in
  ((b, (u, x.2.2 ++ Called name :: (if r is Some e then [Threw name e] else []))), r).

Definition logged_receiver (rc : receiver (doc := doc) U) : receiver (doc := doc) (U * list happening) :=
  mk_receiver (λ name, option_map (λ method v, logged_method name (method v)) (rc_method rc name))
    (λ name, option_map (λ f x, f (StringMapObserver.part fst x)) (rc_property rc name)).

Definition logged (c : controller doc U) : controller doc (U * list happening) :=
  mk_controller (logged_method "initialize" (ct_initialize c)) (logged_method "connect" (ct_connect c))
    (logged_method "disconnect" (ct_disconnect c)) (logged_receiver (ct_receiver c))
    (λ error message u, (ct_handleError c error message u.1, u.2 ++ [Reported error message])).

(** The changed callbacks that were called, and the exception that escaped: the
    last callback's, or that of reading a value. *)
Definition escaping (l l' : list happening) (r : option string) : Prop :=
  ∃ values, let callbacks := (λ v, Called (v +:+ "Changed")) <$> values in
  match r with
  | None => l' = l ++ callbacks
  | Some e => l' = l ++ callbacks ∨
      ∃ v, l' = l ++ callbacks ++ [Called (v +:+ "Changed"); Threw (v +:+ "Changed") e]
  end.

(** A method was called; if it threw, that was reported, once. *)
Definition reporting (method message : string) (l l' : list happening) : Prop :=
  l' = l ++ [Called method] ∨ ∃ e, l' = l ++ [Called method; Threw method e; Reported e message].

(** Both in turn; after an exception of the values the method is not called. *)
Definition telling (method message : string) (l l' : list happening) (r : option string) : Prop :=
  ∃ l1, escaping l l1 r ∧ if r is Some _ then l' = l1 else reporting method message l1 l'.

Lemma escaping_refl l : escaping l l None.
Proof. exists []. simpl. by rewrite app_nil_r. Qed.

Lemma escaping_trans l1 l2 l3 r : escaping l1 l2 None → escaping l2 l3 r → escaping l1 l3 r.
Proof.
  intros (vs & ->) (vs' & Hr). exists (vs ++ vs'). rewrite fmap_app. destruct r as [e|].
  - destruct Hr as [->|(v & ->)]; [left|right; exists v]; by rewrite <-!(assoc_L (++)).
  - rewrite Hr. by rewrite <-(assoc_L (++)).
Qed.
End logged.

Section exceptions.
Context {doc : Type} `{Dom doc} `{Tagged doc} {U : Type} (JSON_parse : string → json + string).
Context (context : context) (identifier : string) (def : definition) (c : controller doc U).

#[local] Abbreviation sc := (cx_scope context).
#[local] Abbreviation rc := (ct_receiver c).
#[local] Abbreviation lrc := (logged_receiver (ct_receiver c)).
#[local] Abbreviation map := (valueDescriptorMap def).
#[local] Abbreviation props := (properties def).
#[local] Abbreviation L := (U * list happening)%type.

#[local] Abbreviation forget := (StringMapObserver.part (doc := doc) (D := U * list happening) (E := U) fst).

Definition log_of (s : state (doc := doc) (U := L)) : list happening := s.2.2.2.
Definition unlogged (s : state (doc := doc) (U := L)) : state (doc := doc) (U := U) :=
  (s.1, forget s.2).

Definition log_escaping (x y : browser doc * L) (r : option string) : Prop := escaping x.2.2 y.2.2 r.

(** Writing down changes nothing else. *)
Lemma logged_method_follows name method :
  StringMapObserver.follows forget (logged_method name method) method.
Proof.
  intros [b [u l]]. unfold logged_method, StringMapObserver.part. simpl. by destruct (method (b, u)) as [[b' u'] r].
Qed.

Lemma receiver_value_logged name x :
  receiver_value JSON_parse sc rc props name (forget x) =
  receiver_value JSON_parse sc lrc props name x.
Proof. unfold receiver_value. simpl. by destruct (rc_property rc name). Qed.

Lemma callback_follows name :
  StringMapObserver.follows forget
    (invokeChangedCallbackForValue JSON_parse sc lrc props name)
    (invokeChangedCallbackForValue JSON_parse sc rc props name).
Proof.
  intros x. unfold invokeChangedCallbackForValue. rewrite receiver_value_logged. simpl.
  destruct (rc_method rc _) as [method|]; [|done]. simpl.
  destruct (receiver_value _ _ _ _ _ _) as [v|e]; [|done]. apply logged_method_follows.
Qed.

Lemma callback_escaping name :
  StringMapObserver.within log_escaping (invokeChangedCallbackForValue JSON_parse sc lrc props name).
Proof.
  intros x. unfold invokeChangedCallbackForValue. simpl.
  destruct (rc_method rc _) as [method|]; simpl; [|apply escaping_refl].
  destruct (receiver_value _ _ _ _ _ _) as [v|e]; unfold log_escaping; simpl.
  - unfold logged_method. destruct (method v (x.1, x.2.1)) as [[b u] [e|]]; simpl.
    + exists []. right. by exists name.
    + by exists [name].
  - exists []. left. by rewrite app_nil_r.
Qed.

#[local] Abbreviation value_delegate r := (Values.delegate JSON_parse sc r map props).

Lemma log_escaping_trans x y z r : log_escaping x y None → log_escaping y z r → log_escaping x z r.
Proof. apply escaping_trans. Qed.

Lemma delegate_escaping :
  (∀ f v k, sd_stringMapValueChanged (value_delegate lrc) = Some f → StringMapObserver.within log_escaping (f v k)).
Proof. intros f v k [= <-]. apply callback_escaping. Qed.

Lemma observer_escaping f (x : browser doc * L) : log_escaping x (on_observer f x.1, x.2) None.
Proof. apply escaping_refl. Qed.

Lemma start_escaping s :
  log_escaping s.2 (Values.start JSON_parse sc lrc map props s).1.2 (Values.start JSON_parse sc lrc map props s).2 ∧
  StringMapObserver.started (Values.start JSON_parse sc lrc map props s).1.1 = true.
Proof.
  apply (StringMapObserver.start_runs (value_delegate lrc) log_escaping); try done;
    [intros x; apply escaping_refl|apply log_escaping_trans|apply observer_escaping|apply delegate_escaping].
Qed.

Lemma start_logged s :
  Values.start JSON_parse sc rc map props (StringMapObserver.part_of fst s) =
  (StringMapObserver.part_of fst (Values.start JSON_parse sc lrc map props s).1, (Values.start JSON_parse sc lrc map props s).2).
Proof. apply StringMapObserver.start_follows; try done. intros v k. apply callback_follows. Qed.

Lemma defaults_escaping x :
  log_escaping x (new_observer JSON_parse sc lrc map props x).1 (new_observer JSON_parse sc lrc map props x).2.
Proof.
  unfold new_observer, invokeChangedCallbacksForDefaultValues. generalize (valueDescriptors map). intros ds. revert x.
  induction ds as [|d ds IH]; intros x; simpl; [apply escaping_refl|]. unfold Act.seq.
  assert (log_escaping x ((when negb (is_undefined (defaultValue d)) && negb (has_value (document x.1) sc d) do_
    invokeChangedCallbackForValue JSON_parse sc lrc props (vd_name d)) x).1
    ((when negb (is_undefined (defaultValue d)) && negb (has_value (document x.1) sc d) do_
    invokeChangedCallbackForValue JSON_parse sc lrc props (vd_name d)) x).2) as Hd.
  { destruct (_ && _); [apply callback_escaping|apply escaping_refl]. }
  destruct (_ x) as [x1 [e|]]; simpl in *; [done|]. eapply log_escaping_trans; [done|apply IH].
Qed.

Lemma defaults_logged x :
  new_observer JSON_parse sc rc map props (forget x) =
  (forget (new_observer JSON_parse sc lrc map props x).1, (new_observer JSON_parse sc lrc map props x).2).
Proof.
  apply StringMapObserver.follows_each. intros d y. apply StringMapObserver.follows_when. apply callback_follows.
Qed.

(** A guarded method. *)
Lemma guarded_logged name method message s :
  guarded c method message (unlogged s) =
    (unlogged (guarded (logged c) (logged_method name method) message s).1, None) ∧
  (guarded (logged c) (logged_method name method) message s).2 = None ∧
  (guarded (logged c) (logged_method name method) message s).1.1 = s.1 ∧
  reporting name ("Error " +:+ message) (log_of s) (log_of (guarded (logged c) (logged_method name method) message s).1).
Proof.
  destruct s as [o [b [u l]]].
  unfold guarded, on_world, Act.update, Act.attempt, logged_method, unlogged, StringMapObserver.part, log_of. simpl.
  destruct (method (b, u)) as [[b' u'] [e|]]; simpl; (split_and!; [done..|]).
  - right. exists e. by rewrite <-(assoc_L (++)).
  - by left.
Qed.

(** The four operations. *)
Lemma construct_logged s :
  let s' := construct JSON_parse context def (logged c) s in
  construct JSON_parse context def c (unlogged s) = (unlogged s'.1, s'.2) ∧
  telling "initialize" "Error initializing controller" (log_of s) (log_of s'.1) s'.2 ∧ s'.1.1 = s.1.
Proof.
  cbv zeta. unfold construct, Act.seq, on_world, scope_. unfold unlogged at 1. cbn [fst snd ct_receiver logged].
  rewrite defaults_logged. pose proof (defaults_escaping s.2) as Hd.
  destruct (new_observer JSON_parse sc lrc map props s.2) as [w [e|]]; cbn [fst snd] in *.
  - split_and!; [done|by exists (log_of (s.1, w))|done].
  - destruct (guarded_logged "initialize" (ct_initialize c) "initializing controller" (s.1, w)) as (Hu & Hr & Hf & Hl).
    change ((unlogged s).1, forget w) with (unlogged (s.1, w)). rewrite Hu. cbn [ct_initialize logged] in *.
    destruct (guarded (logged c) _ _ _) as [s1 r1]. simpl in *. subst r1.
    split_and!; [done|by exists (log_of (s.1, w))|done].
Qed.

Lemma connect_logged s :
  let s' := connect JSON_parse context identifier def (logged c) s in
  connect JSON_parse context identifier def c (unlogged s) = (unlogged s'.1, s'.2) ∧
  telling "connect" "Error connecting controller" (log_of s) (log_of s'.1) s'.2 ∧
  bindingObserver s'.1.1 = BindingObserver.start context identifier (document_of s) (bindingObserver s.1) ∧
  StringMapObserver.started (valueObserver s'.1.1) = true.
Proof.
  cbv zeta. unfold connect, Act.seq. cbn [on_bindings Act.update fst snd]. rewrite !on_values_eq.
  cbn [fst snd valueObserver bindingObserver ct_receiver logged]. unfold scope_.
  change (valueObserver (unlogged s).1, (unlogged s).2) with
    (StringMapObserver.part_of fst (valueObserver s.1, s.2)). rewrite start_logged.
  pose proof (start_escaping (valueObserver s.1, s.2)) as [Hd Hst].
  unfold Values.start in *. destruct (StringMapObserver.start _ _) as [[vo w] [e|]]; cbn [fst snd] in *.
  - split_and!; [done|by exists (log_of (s.1, w))|done|done].
  - set (s1 := (mk _ vo, w)).
    destruct (guarded_logged "connect" (ct_connect c) "connecting controller" s1) as (Hu & Hr & Hf & Hl).
    unfold StringMapObserver.part_of. cbn [fst snd]. change (mk _ vo, forget w) with (unlogged s1). rewrite Hu.
    cbn [ct_connect logged] in *. destruct (guarded (logged c) _ _ _) as [s2 r2]. simpl in *. subst r2.
    rewrite Hf. split_and!; [done|by exists (log_of (s.1, w))|done|done].
Qed.

Lemma disconnect_logged s :
  let s' := disconnect context identifier (logged c) s in
  disconnect context identifier c (unlogged s) = (unlogged s'.1, None) ∧ s'.2 = None ∧
  reporting "disconnect" "Error disconnecting controller" (log_of s) (log_of s'.1) ∧
  bindingObserver s'.1.1 = BindingObserver.stop context identifier (bindingObserver s.1) ∧
  StringMapObserver.started (valueObserver s'.1.1) = false.
Proof.
  cbv zeta. unfold disconnect, Act.seq.
  destruct (guarded_logged "disconnect" (ct_disconnect c) "disconnecting controller" s) as (Hu & Hr & Hf & Hl).
  rewrite Hu. cbn [ct_disconnect logged] in *. destruct (guarded (logged c) _ _ _) as [s1 r1]. simpl in Hr, Hf, Hl. subst r1.
  rewrite !on_values_eq. unfold Values.stop, StringMapObserver.stop. rewrite <-Hf. simpl.
  destruct (StringMapObserver.started (valueObserver s1.1)) eqn:Hst; simpl; done.
Qed.

Lemma deliver_logged s :
  let s' := deliver_values JSON_parse context def (logged c) s in
  deliver_values JSON_parse context def c (unlogged s) = (unlogged s'.1, s'.2) ∧
  escaping (log_of s) (log_of s'.1) s'.2.
Proof.
  cbv zeta. unfold deliver_values. rewrite !on_values_eq. unfold scope_. cbn [ct_receiver logged].
  change (valueObserver (unlogged s).1, (unlogged s).2) with
    (StringMapObserver.part_of fst (valueObserver s.1, s.2)).
  rewrite (StringMapObserver.deliver_follows fst (value_delegate lrc) (value_delegate rc));
    [|done|done|intros v k; apply callback_follows|done].
  assert (log_escaping s.2 (StringMapObserver.deliver (value_delegate lrc) (valueObserver s.1, s.2)).1.2
    (StringMapObserver.deliver (value_delegate lrc) (valueObserver s.1, s.2)).2) as Hd.
  { apply (StringMapObserver.deliver_runs (value_delegate lrc) log_escaping); try done;
      [intros x; apply escaping_refl|apply log_escaping_trans|apply observer_escaping|apply delegate_escaping]. }
  destruct (StringMapObserver.deliver _ _) as [[vo w] r]. by split.
Qed.

(** C17: which exceptions leave a context, of any controller: those of
    [initialize], [connect] and [disconnect] are reported to the application,
    once and with their message, and do not escape, so that a disconnection
    always stops both observers; those of the values, of a changed callback or
    a getter, escape and are not reported: from the construction, before the
    controller is initialised, from the connection, whose bindings are made and
    whose observer is started but whose controller is not told, and from a
    delivery of records.  The controller is the one that writes its calls
    down, which does what the given one does. *)
Theorem context_errors s :
  let constructed := construct JSON_parse context def (logged c) s in
  let connected := connect JSON_parse context identifier def (logged c) s in
  let disconnected := disconnect context identifier (logged c) s in
  let delivered := deliver_values JSON_parse context def (logged c) s in
  (construct JSON_parse context def c (unlogged s) = (unlogged constructed.1, constructed.2) ∧
   telling "initialize" "Error initializing controller" (log_of s) (log_of constructed.1) constructed.2 ∧
   constructed.1.1 = s.1) ∧
  (connect JSON_parse context identifier def c (unlogged s) = (unlogged connected.1, connected.2) ∧
   telling "connect" "Error connecting controller" (log_of s) (log_of connected.1) connected.2 ∧
   bindingObserver connected.1.1 = BindingObserver.start context identifier (document_of s) (bindingObserver s.1) ∧
   StringMapObserver.started (valueObserver connected.1.1) = true) ∧
  (disconnect context identifier c (unlogged s) = (unlogged disconnected.1, None) ∧ disconnected.2 = None ∧
   reporting "disconnect" "Error disconnecting controller" (log_of s) (log_of disconnected.1) ∧
   bindingObserver disconnected.1.1 = BindingObserver.stop context identifier (bindingObserver s.1) ∧
   StringMapObserver.started (valueObserver disconnected.1.1) = false) ∧
  (deliver_values JSON_parse context def c (unlogged s) = (unlogged delivered.1, delivered.2) ∧
   escaping (log_of s) (log_of delivered.1) delivered.2).
Proof.
  cbv zeta. split; [apply construct_logged|]. split; [apply connect_logged|].
  split; [apply disconnect_logged|apply deliver_logged].
Qed.
End exceptions.
End Context.

(** *** A context on a page: the button 2 below the element 1 *)

Definition context_page : PageDom.t := PageDom.mk [(0, 0); (1, 1); (2, 2)] []
  [((2, "data-action"), "c#go x#go"); ((1, "data-c-names-value"), "[1]")] eq_refl.

#[local] Instance context_page_tags : Tagged PageDom.t := λ _ e, if decide (e = 2) then "BUTTON" else "DIV".

Definition idle_controller : Context.controller PageDom.t unit :=
  Context.mk_controller Act.skip Act.skip (Act.throw "not yet") (mk_receiver (λ _, None) (λ _, None)) (λ _ _ u, u).

Definition names_definition : Context.definition :=
  Context.mk_definition
    (match Values.valueDescriptorMap (cx_scope page_context) [("names", CArray)] with inl m => m | inr _ => [] end)
    (match Values.ValuePropertiesBlessing [("names", CArray)] with inl p => p | inr _ => [] end).

Lemma idle_methods : Context.Methods page_context idle_controller.
Proof.
  split; try (intros x; apply StringMapObserver.evolves_refl). by intros name method v ?.
Qed.

Lemma context_in_step_witness :
  let start := Context.initial page_context Dispatcher.new (mk_browser context_page mo_new, ()) in
  let s := (Context.construct read_json page_context names_definition idle_controller start).1 in
  let s' := (Context.connect read_json page_context "c" names_definition idle_controller s).1 in
  (∃ b, b ∈ BindingObserver.bindings_of (Context.bindingObserver s'.1) ∧ a_element (b_action b) = 2) ∧
  JMap.get "data-c-names-value" (StringMapObserver.stringMap (Context.valueObserver s'.1)) = Some "[1]".
Proof.
  cbv zeta. set (s := (Context.construct _ _ _ _ _).1).
  destruct (Context.context_in_step read_json page_context "c" names_definition idle_controller [("names", CArray)]
    [] Dispatcher.new (Some context_page) [] (Context.connect read_json page_context "c" names_definition idle_controller s).1)
    as (_ & Hb & Hv).
  - exact idle_methods.
  - reflexivity.
  - intros b Hb. by apply not_elem_of_nil in Hb.
  - apply Dispatcher.serves_new.
  - apply (Context.session_connect _ _ _ _ _ Dispatcher.new [] s
      (Context.connect read_json page_context "c" names_definition idle_controller s).1 None).
    + apply (Context.session_construct _ _ _ _ _ Dispatcher.new context_page tt). vm_compute. reflexivity.
    + vm_compute. reflexivity.
  - split.
    + destruct Hb as (_ & _ & Hw). destruct (Hw 2 0 "c#go") as (b & Hb & He & _);
        [vm_compute; reflexivity..|right|by exists b].
      intros dom'. vm_compute. discriminate.
    + rewrite (Hv "data-c-names-value" (Values.mk_descriptor TArray "names-value" "namesValue"));
        [vm_compute; reflexivity..|apply not_elem_of_nil|].
      intros (m & Hm & _). vm_compute in Hm. by apply not_elem_of_nil in Hm.
Defined.
