(* ===== verification/Failures.v ===== *)
(** The router, when contexts throw.

    Models [src/gui/web/assets/scripts/stimulus.js], [Module] and [Router], over
    contexts whose construction, connection and disconnection may throw: an
    exception leaves the operation where it is thrown, so that the contexts
    after it are not constructed or connected.  [Router] has the operations for
    contexts that do not throw, to which these are equal as long as nothing
    does; [Contexts] shows what a context throws. *)

From S2P Require Import Prelude JsCore JsString Dom Multimaps Observers Tokens ValueList Scopes Router StringMap.

#[local] Open Scope string_scope.
#[local] Open Scope list_scope.
#[local] Open Scope nat_scope.

Module Failures.
Import Module.

Record ThrowingOps (doc W : Type) := {
  to_new : doc → router → context → Act.t W;
  to_connect : doc → router → context → Act.t W;
  to_disconnect : doc → router → context → Act.t W;
}.
Arguments to_new {doc W}.
Arguments to_connect {doc W}.
Arguments to_disconnect {doc W}.

(** What the operations do to the state, thrown or not. *)
Definition total {doc W} (ops : ThrowingOps doc W) : ContextOps doc W := {|
  co_new dom r w cx := (to_new ops dom r cx w).1;
  co_connect dom r w cx := (to_connect ops dom r cx w).1;
  co_disconnect dom r w cx := (to_disconnect ops dom r cx w).1;
|}.

Section failures.
Context {doc W : Type} (ops : ThrowingOps doc W).
Implicit Types (dom : doc) (r : router) (w : W) (s : router * W).

(** An operation of a context, on the state it works on. *)
Definition on_world (a : router → Act.t W) : Act.t (router * W) :=
  λ '(r, w), let '(w, e) := a r w in ((r, w), e).

Definition set_connected (mid : nat) (f : list context → list context) r : router :=
  let m := deref r mid in
  store r mid (mk_module (m_definition m) (m_contextsByScope m) (f (m_connectedContexts m))).

Definition on_router (f : router → router) : Act.t (router * W) := Act.update (λ '(r, w), (f r, w)).

Definition next_context_id r : router :=
  mk_router (scopesByIdentifier r) (modulesByIdentifier r) (modules r) (next_module r) (S (next_context r)).

(** The context, or the exception of its construction. *)
Definition fetchContextForScope dom (mid : nat) (sc : scope) s : router * W * (context + string) :=
  let '(r, w) := s in
  match JMap.get sc (m_contextsByScope (deref r mid)) with
  | Some context => (r, w, inl context)
  | None =>
    let context := mk_context (next_context r) mid sc in
    let r := next_context_id r in
    match to_new ops dom r context w with
    | (w, Some e) => (r, w, inr e)
    | (w, None) =>
      let m := deref r mid in
      (store r mid (mk_module (m_definition m) (JMap.set sc context (m_contextsByScope m))
                              (m_connectedContexts m)), w, inl context)
    end
  end.

Definition connectContextForScope dom (mid : nat) (sc : scope) : Act.t (router * W) := λ s,
  match fetchContextForScope dom mid sc s with
  | (r, w, inr e) => ((r, w), Some e)
  | (r, w, inl context) =>
    (on_router (set_connected mid (JSet.add context)) ;;
     on_world (λ r, to_connect ops dom r context))%act (r, w)
  end.

Definition disconnectContextForScope dom (mid : nat) (sc : scope) : Act.t (router * W) := λ s,
  match JMap.get sc (m_contextsByScope (deref s.1 mid)) with
  | Some context =>
    (on_router (set_connected mid (JSet.delete context)) ;;
     on_world (λ r, to_disconnect ops dom r context))%act s
  | None => (s, None)
  end.

Definition connectModule dom (mid : nat) : Act.t (router * W) := λ '(r, w),
  let identifier := m_identifier (deref r mid) in
  let r := Router.set_modules r (JMap.set identifier mid (modulesByIdentifier r)) in
  let scopes := Multimap.getValuesForKey (scopesByIdentifier r) identifier in
  Act.each (connectContextForScope dom mid) scopes (r, w).

Definition disconnectModule dom (mid : nat) : Act.t (router * W) := λ '(r, w),
  let identifier := m_identifier (deref r mid) in
  let r := Router.set_modules r (JMap.delete identifier (modulesByIdentifier r)) in
  let scopes := Multimap.getValuesForKey (scopesByIdentifier r) identifier in
  Act.each (disconnectContextForScope dom mid) scopes (r, w).

Definition unloadIdentifier dom (identifier : string) : Act.t (router * W) := λ s,
  match JMap.get identifier (modulesByIdentifier s.1) with
  | Some mid => disconnectModule dom mid s
  | None => (s, None)
  end.

Definition loadDefinition dom (def : definition) : Act.t (router * W) :=
  (unloadIdentifier dom (def_identifier def) ;;
   (λ '(r, w), let '(r, mid) := Router.new_module_object r def in connectModule dom mid (r, w)))%act.

Definition scopeConnected dom (sc : scope) : Act.t (router * W) := λ '(r, w),
  let r := Router.set_scopes r (Multimap.add (scopesByIdentifier r) (sc_identifier sc) sc) in
  match JMap.get (sc_identifier sc) (modulesByIdentifier r) with
  | Some mid => connectContextForScope dom mid sc (r, w)
  | None => ((r, w), None)
  end.

Definition scopeDisconnected dom (sc : scope) : Act.t (router * W) := λ '(r, w),
  let r := Router.set_scopes r (Multimap.delete (scopesByIdentifier r) (sc_identifier sc) sc) in
  match JMap.get (sc_identifier sc) (modulesByIdentifier r) with
  | Some mid => disconnectContextForScope dom mid sc (r, w)
  | None => ((r, w), None)
  end.

(** ** Against the operations of [Router] *)

(** Up to a construction that throws, an operation is that of [Router]. *)
Lemma connect_cases dom mid sc s :
  (connectContextForScope dom mid sc s).1 = Module.connectContextForScope (total ops) dom s mid sc ∨
  ∃ w e, connectContextForScope dom mid sc s = ((next_context_id s.1, w), Some e).
Proof.
  destruct s as [r w]. unfold connectContextForScope, Module.connectContextForScope, fetchContextForScope,
    Module.fetchContextForScope, Act.seq, on_router, on_world, Act.update. simpl.
  destruct (JMap.get sc _) as [cx|].
  - left. by destruct (to_connect _ _ _ _ _).
  - fold (next_context_id r). destruct (to_new _ _ _ _ _) as [w1 [e|]]; [by eauto|]. left. simpl.
    by destruct (to_connect _ _ _ _ _).
Qed.

Lemma disconnect_state dom mid sc s :
  (disconnectContextForScope dom mid sc s).1 = Module.disconnectContextForScope (total ops) dom s mid sc.
Proof.
  destruct s as [r w]. unfold disconnectContextForScope, Module.disconnectContextForScope, Act.seq, on_router,
    on_world, Act.update. simpl. destruct (JMap.get sc _) as [cx|]; [|done]. by destruct (to_disconnect _ _ _ _ _).
Qed.
Lemma connect_completes dom mid sc s s' :
  connectContextForScope dom mid sc s = (s', None) → Module.connectContextForScope (total ops) dom s mid sc = s'.
Proof. intros Hc. destruct (connect_cases dom mid sc s) as [<-|(w & e & Ht)]; [by rewrite Hc|congruence]. Qed.

Lemma disconnect_completes dom mid sc s s' :
  disconnectContextForScope dom mid sc s = (s', None) → Module.disconnectContextForScope (total ops) dom s mid sc = s'.
Proof. intros Hc. by rewrite <-disconnect_state, Hc. Qed.

(** A loop that completes is a fold. *)
Lemma each_completes {A} (f : A → Act.t (router * W)) (g : router * W → A → router * W) l s s' :
  (∀ x s s', f x s = (s', None) → g s x = s') → Act.each f l s = (s', None) → foldl g s l = s'.
Proof.
  intros Hf. revert s. induction l as [|x l IH]; intros s; simpl; [by intros [= ->]|].
  intros (s1 & Hx & Hl)%Act.seq_completes. rewrite (Hf _ _ _ Hx). by apply IH.
Qed.

Lemma unload_completes dom i s s' :
  unloadIdentifier dom i s = (s', None) → Router.unloadIdentifier (total ops) dom s i = s'.
Proof.
  unfold unloadIdentifier, Router.unloadIdentifier. destruct (JMap.get i _) as [mid|]; [|by intros [= ->]].
  destruct s as [r w]. apply each_completes. intros sc s1 s2. apply disconnect_completes.
Qed.

Lemma connectModule_completes dom mid s s' :
  connectModule dom mid s = (s', None) → Router.connectModule (total ops) dom s mid = s'.
Proof. destruct s as [r w]. apply each_completes. intros sc s1 s2. apply connect_completes. Qed.

(** ** What holds when something throws

    A disconnection does not: [Context.disconnect] catches what the controller
    throws ([Contexts.Context.context_errors]). *)

Context (disconnects : ∀ dom r cx w, (to_disconnect ops dom r cx w).2 = None).

Lemma disconnect_eq dom mid sc s :
  disconnectContextForScope dom mid sc s = (Module.disconnectContextForScope (total ops) dom s mid sc, None).
Proof.
  rewrite <-disconnect_state. unfold disconnectContextForScope, Act.seq, on_router, on_world, Act.update.
  destruct s as [r w]. simpl. destruct (JMap.get sc _) as [cx|]; [|done].
  pose proof (disconnects dom (set_connected mid (JSet.delete cx) r) cx w) as Hd.
  destruct (to_disconnect _ _ _ _ _) as [w' e]. simpl in *. by subst.
Qed.

Lemma each_disconnect dom mid l s :
  Act.each (disconnectContextForScope dom mid) l s =
  (foldl (λ s sc, Module.disconnectContextForScope (total ops) dom s mid sc) s l, None).
Proof.
  revert s. induction l as [|sc l IH]; intros s; simpl; [done|]. unfold Act.seq. by rewrite disconnect_eq, IH.
Qed.

Lemma unload_eq dom i s : unloadIdentifier dom i s = (Router.unloadIdentifier (total ops) dom s i, None).
Proof.
  unfold unloadIdentifier, Router.unloadIdentifier. destruct (JMap.get i _) as [mid|]; [|done].
  destruct s as [r w]. unfold disconnectModule. by rewrite each_disconnect.
Qed.

Lemma scopeDisconnected_eq dom sc s :
  scopeDisconnected dom sc s = (Router.scopeDisconnected (total ops) dom s sc, None).
Proof.
  destruct s as [r w]. unfold scopeDisconnected, Router.scopeDisconnected.
  destruct (JMap.get (sc_identifier sc) _) as [mid|]; [|done]. by rewrite disconnect_eq.
Qed.

Lemma next_context_heap r : heap_ok r → heap_ok (next_context_id r).
Proof.
  intros [Hb Hc Hcx Hn]. split; [done| |done..]. intros mid sc cx (Hs & Hm & Hid)%Hc. split_and!; [done..|simpl; lia].
Qed.

(** Contexts that may not get connected. *)
Lemma connect_safe dom mid sc s :
  heap_ok s.1 → allocated s.1 mid →
  let '(s', e) := connectContextForScope dom mid sc s in
  heap_ok s'.1 ∧ same_tables s.1 s'.1 ∧
  (∀ mid' sc', sc' ∈ conn s'.1 mid' → (mid' = mid ∧ sc' = sc) ∨ sc' ∈ conn s.1 mid') ∧
  (∀ mid' sc', sc' ∈ conn s.1 mid' → sc' ∈ conn s'.1 mid') ∧
  (e = None → sc ∈ conn s'.1 mid).
Proof.
  intros Ho Ha. destruct (connectContextForScope dom mid sc s) as [s' e] eqn:Hc.
  destruct (connect_cases dom mid sc s) as [Heq|(w & e' & Heq)]; rewrite Hc in Heq.
  - simpl in Heq. subst s'. destruct (connect_spec (total ops) dom s mid sc Ho Ha) as (Ho' & Hs & Hconn).
    split_and!; [done|done|..]; intros; apply Hconn || apply Hconn in H; eauto.
  - injection Heq as -> ->. simpl. split_and!; [by apply next_context_heap|by split|by eauto|done|done].
Qed.

Lemma each_connect_safe dom mid l s :
  heap_ok s.1 → allocated s.1 mid →
  let '(s', e) := Act.each (connectContextForScope dom mid) l s in
  heap_ok s'.1 ∧ same_tables s.1 s'.1 ∧
  (∀ mid' sc', sc' ∈ conn s'.1 mid' → (mid' = mid ∧ sc' ∈ l) ∨ sc' ∈ conn s.1 mid') ∧
  (∀ mid' sc', sc' ∈ conn s.1 mid' → sc' ∈ conn s'.1 mid') ∧
  (e = None → ∀ sc', sc' ∈ l → sc' ∈ conn s'.1 mid).
Proof.
  revert s. induction l as [|sc l IH]; intros s Ho Ha; simpl.
  { split_and!; [done|apply same_refl|by eauto|done|]. intros _ sc' Hin. by apply not_elem_of_nil in Hin. }
  pose proof (connect_safe dom mid sc s Ho Ha) as H1. unfold Act.seq.
  destruct (connectContextForScope dom mid sc s) as [s1 [e|]].
  { destruct H1 as (Ho1 & Hs1 & Hin1 & Hkeep1 & _). split_and!; [done|done| |done|done].
    intros mid' sc' [[-> ->]|?]%Hin1; [left; split; [done|by left]|by right]. }
  destruct H1 as (Ho1 & Hs1 & Hin1 & Hkeep1 & Hsc1).
  pose proof (IH s1 Ho1 ltac:(by apply (same_allocated _ _ Hs1))) as H2.
  destruct (Act.each _ l s1) as [s2 e2]. destruct H2 as (Ho2 & Hs2 & Hin2 & Hkeep2 & Hall2).
  split_and!; [done|by eapply same_trans|..].
  - intros mid' sc' [[-> ?]|[[-> ->]|?]%Hin1]%Hin2; [left; split; [done|by right]|left; split; [done|by left]|by right].
  - eauto.
  - intros He sc' [->|Hin]%elem_of_cons; eauto.
Qed.
(** [partly F scs r]: the scopes that the router knows are [scs]; modules have
    connected contexts only for known scopes of their identifier, and, but for
    the identifiers of [F], for all of them. *)
Record partly (F : list string) (scs : list scope) r : Prop := {
  pt_heap : heap_ok r;
  pt_scopes_wf : wf (Multimap.valuesByKey (scopesByIdentifier r));
  pt_scopes i sc :
    related (Multimap.valuesByKey (scopesByIdentifier r)) i sc ↔ sc_identifier sc = i ∧ sc ∈ scs;
  pt_modules_wf : JMap.wf (modulesByIdentifier r);
  pt_registered i mid :
    JMap.get i (modulesByIdentifier r) = Some mid → allocated r mid ∧ m_identifier (deref r mid) = i;
  pt_known mid sc :
    sc ∈ conn r mid → sc ∈ scs ∧ JMap.get (sc_identifier sc) (modulesByIdentifier r) = Some mid;
  pt_complete mid sc :
    sc ∈ scs → sc_identifier sc ∉ F → JMap.get (sc_identifier sc) (modulesByIdentifier r) = Some mid →
    sc ∈ conn r mid;
}.

(** The identifiers of [F] after an operation on [i] that leaves [i] complete, or
    that an exception cut off. *)
Definition marked (i : string) (e : option string) (F : list string) : list string :=
  match e with Some _ => i :: F | None => filter (λ j, j ≠ i) F end.

Lemma partly_new : partly [] [] new_router.
Proof.
  destruct (Router.ok_new) as [? ? ? ? ? Hc]. split; [done..| |].
  - intros mid sc. by rewrite Hc.
  - intros mid sc Hin. by apply not_elem_of_nil in Hin.
Qed.

Lemma partly_weaken F F' scs r : F ⊆ F' → partly F scs r → partly F' scs r.
Proof. intros HF [? ? ? ? ? ? Hall]. split; try done. intros mid sc ? ?. apply Hall; [done|]. by intros ?%HF. Qed.

Lemma partly_scopes F scs r i sc :
  partly F scs r → sc ∈ Multimap.getValuesForKey (scopesByIdentifier r) i ↔ sc_identifier sc = i ∧ sc ∈ scs.
Proof.
  intros Hp. rewrite <-(pt_scopes _ _ _ Hp). unfold Multimap.getValuesForKey, related, bucket.
  by destruct (JMap.get i _).
Qed.

(** The tables after context operations. *)
Lemma partly_after F scs r r' :
  heap_ok r' → same_tables r r' →
  wf (Multimap.valuesByKey (scopesByIdentifier r)) →
  (∀ i sc, related (Multimap.valuesByKey (scopesByIdentifier r)) i sc ↔ sc_identifier sc = i ∧ sc ∈ scs) →
  JMap.wf (modulesByIdentifier r) →
  (∀ i mid, JMap.get i (modulesByIdentifier r) = Some mid →
     allocated r mid ∧ m_identifier (deref r mid) = i) →
  (∀ mid sc, sc ∈ conn r' mid →
     sc ∈ scs ∧ JMap.get (sc_identifier sc) (modulesByIdentifier r) = Some mid) →
  (∀ mid sc, sc ∈ scs → sc_identifier sc ∉ F → JMap.get (sc_identifier sc) (modulesByIdentifier r) = Some mid →
     sc ∈ conn r' mid) →
  partly F scs r'.
Proof.
  intros Ho [Hs Hm Hn Ha Hd] Hw Hr Hmw Hreg Hc Hall. split; rewrite ?Hs, ?Hm; try done.
  intros i mid [??]%Hreg. split; [by apply Ha|]. unfold m_identifier. by rewrite Hd.
Qed.

Lemma partly_unload F scs dom s i :
  partly F scs s.1 →
  let s' := Router.unloadIdentifier (total ops) dom s i in
  partly F scs s'.1 ∧
  ∀ i', JMap.get i' (modulesByIdentifier s'.1) = if decide (i = i') then None else JMap.get i' (modulesByIdentifier s.1).
Proof.
  destruct s as [r w]. intros Hp. unfold Router.unloadIdentifier. simpl in *.
  destruct (JMap.get i _) as [mid|] eqn:Hi; [|split; [done|]; intros i'; simpl; case_decide; by subst].
  unfold Router.disconnectModule. destruct (pt_registered _ _ _ Hp _ _ Hi) as [Ha ->].
  set (r1 := Router.set_modules r _). assert (heap_ok r1) as Hh by (destruct (pt_heap _ _ _ Hp); by split).
  destruct (Router.disconnect_all (total ops) dom (r1, w) mid
              (Multimap.getValuesForKey (scopesByIdentifier r) i)) as (Ho1 & Hs1 & Hc1); [done..|].
  split; [|intros i'; rewrite (same_modules _ _ Hs1); apply JMap.get_delete].
  eapply partly_after; [exact Ho1|exact Hs1|apply Hp|apply Hp|by apply JMap.wf_delete, Hp|..]; simpl.
  - intros i' mid'. rewrite JMap.get_delete. case_decide; [done|]. apply (pt_registered _ _ _ Hp).
  - intros mid' sc' [Hno [Hsc Hreg]%(pt_known _ _ _ Hp)]%Hc1. split; [done|].
    rewrite JMap.get_delete, decide_False; [done|]. intros Heq. apply Hno. rewrite <-Heq in Hreg.
    split; [congruence|]. by apply (partly_scopes _ _ _ _ _ Hp).
  - intros mid' sc' Hsc HF. rewrite JMap.get_delete. case_decide; [done|]. intros Hreg. apply Hc1. split.
    + intros [_ [? _]%(partly_scopes _ _ _ _ _ Hp)]. congruence.
    + by apply (pt_complete _ _ _ Hp).
Qed.

Lemma partly_connectModule F scs dom r w i mid :
  partly F scs r → allocated r mid → m_identifier (deref r mid) = i → JMap.get i (modulesByIdentifier r) = None →
  conn r mid = [] →
  let '(s', e) := connectModule dom mid (r, w) in
  partly (marked i e F) scs s'.1 ∧ modulesByIdentifier s'.1 = JMap.set i mid (modulesByIdentifier r).
Proof.
  intros Hp Ha Hm Hi Hnil. unfold connectModule. rewrite Hm. set (r1 := Router.set_modules r _).
  assert (heap_ok r1) as Hh by (destruct (pt_heap _ _ _ Hp); by split).
  pose proof (each_connect_safe dom mid (Multimap.getValuesForKey (scopesByIdentifier r) i) (r1, w) Hh Ha) as Hc.
  simpl. destruct (Act.each _ _ (r1, w)) as [s' e]. destruct Hc as (Ho' & Hs & Hin & Hkeep & Hall).
  split; [|apply Hs].
  eapply partly_after; [exact Ho'|exact Hs|apply Hp|apply Hp|by apply JMap.wf_set, Hp|..]; simpl.
  - intros i' mid'. rewrite JMap.get_set. case_decide; [|apply (pt_registered _ _ _ Hp)]. intros [= <-]. by subst.
  - intros mid' sc' [[-> [Hid Hsc]%(partly_scopes _ _ _ _ _ Hp)]|[Hsc Hreg]%(pt_known _ _ _ Hp)]%Hin;
      (split; [done|]); rewrite JMap.get_set; case_decide; congruence.
  - intros mid' sc' Hsc HF. rewrite JMap.get_set. case_decide as Heq.
    + intros [= <-]. destruct e as [e|]; [by destruct HF; rewrite <-Heq; left|].
      apply Hall; [done|]. by apply (partly_scopes _ _ _ _ _ Hp).
    + intros Hreg. apply Hkeep. apply (pt_complete _ _ _ Hp); [done| |done]. intros HinF. apply HF.
      destruct e; simpl; [by right|]. apply list_elem_of_filter. split; [congruence|done].
Qed.
Lemma partly_load F scs dom s def :
  partly F scs s.1 →
  let '(s', e) := loadDefinition dom def s in
  partly (marked (def_identifier def) e F) scs s'.1 ∧
  ∀ i, is_Some (JMap.get i (modulesByIdentifier s'.1)) ↔ i = def_identifier def ∨ is_Some (JMap.get i (modulesByIdentifier s.1)).
Proof.
  intros Hp. unfold loadDefinition, Act.seq. rewrite unload_eq.
  destruct (partly_unload F scs dom s (def_identifier def) Hp) as [Hp1 Hg1].
  destruct (Router.unloadIdentifier (total ops) dom s (def_identifier def)) as [r w]. simpl in Hp1, Hg1.
  pose proof (Router.new_module_heap r def (pt_heap _ _ _ Hp1)) as Hnew.
  unfold Router.new_module_object in *. set (mid := next_module r) in *. set (r1 := mk_router _ _ _ _ _) in *.
  destruct Hnew as (Hh & Ha & Hid & Hcx & Hnil & Hold).
  assert (partly F scs r1) as Hp2.
  { destruct Hp1 as [? ? ? ? Hreg Hk Hall]. split; try done; unfold conn.
    - intros i mid' [Ha' Hi]%Hreg. destruct (Hold _ Ha') as [? Hd]. split; [done|]. by unfold m_identifier; rewrite Hd.
    - intros mid' sc. rewrite Hcx. apply Hk.
    - intros mid' sc. rewrite Hcx. apply Hall. }
  pose proof (partly_connectModule F scs dom r1 w (def_identifier def) mid Hp2 Ha Hid) as Hc.
  destruct (connectModule dom mid (r1, w)) as [s' e]. destruct Hc as [Hp3 Hg3].
  { simpl. by rewrite Hg1, decide_True. }
  { unfold conn. by rewrite Hnil. }
  split; [done|]. intros i. rewrite Hg3, JMap.get_set. simpl. rewrite Hg1. case_decide; [subst|naive_solver].
  split; [by left|eauto].
Qed.

Lemma partly_scopeConnected F scs dom s sc :
  partly F scs s.1 → sc ∉ scs →
  let '(s', e) := scopeConnected dom sc s in
  partly (match e with Some _ => sc_identifier sc :: F | None => F end) (sc :: scs) s'.1.
Proof.
  destruct s as [r w]. simpl. intros Hp Hsc. unfold scopeConnected.
  set (r1 := Router.set_scopes r _). assert (heap_ok r1) as Hh by (destruct (pt_heap _ _ _ Hp); by split).
  assert (∀ i sc', related (Multimap.valuesByKey (scopesByIdentifier r1)) i sc' ↔
                   sc_identifier sc' = i ∧ sc' ∈ sc :: scs) as Hrel.
  { intros i sc'. simpl. rewrite related_add, (pt_scopes _ _ _ Hp), elem_of_cons. naive_solver. }
  change (modulesByIdentifier r1) with (modulesByIdentifier r).
  destruct (JMap.get (sc_identifier sc) _) as [mid|] eqn:Hmid.
  - destruct (pt_registered _ _ _ Hp _ _ Hmid) as [Ha _].
    pose proof (connect_safe dom mid sc (r1, w) Hh Ha) as Hc.
    destruct (connectContextForScope dom mid sc (r1, w)) as [s' e]. destruct Hc as (Ho' & Hs & Hin & Hkeep & Hdone).
    eapply partly_after; [exact Ho'|exact Hs|apply wf_add, Hp|exact Hrel|apply Hp|apply (pt_registered _ _ _ Hp)|..]; simpl.
    + intros mid' sc' [[-> ->]|[? ?]%(pt_known _ _ _ Hp)]%Hin; [by split; [left|]|by split; [right|]].
    + intros mid' sc' [->|Hin']%elem_of_cons HF Hreg.
      * destruct e; [by destruct HF; left|]. rewrite Hmid in Hreg. injection Hreg as <-. by apply Hdone.
      * apply Hkeep. apply (pt_complete _ _ _ Hp); [done| |done]. destruct e; [|done]. by intros ?; apply HF; right.
  - simpl. eapply (partly_after _ _ r1); [done|apply same_refl|apply wf_add, Hp|exact Hrel|apply Hp|apply (pt_registered _ _ _ Hp)|..].
    + intros mid' sc' [? ?]%(pt_known _ _ _ Hp). by split; [right|].
    + intros mid' sc' [->|Hin']%elem_of_cons HF Hreg; [simpl in Hreg; congruence|]. by apply (pt_complete _ _ _ Hp).
Qed.

Lemma partly_scopeDisconnected F scs dom s sc :
  partly F scs s.1 → partly F (JSet.delete sc scs) (Router.scopeDisconnected (total ops) dom s sc).1.
Proof.
  destruct s as [r w]. simpl. intros Hp. unfold Router.scopeDisconnected.
  set (r1 := Router.set_scopes r _). assert (heap_ok r1) as Hh by (destruct (pt_heap _ _ _ Hp); by split).
  assert (∀ i sc', related (Multimap.valuesByKey (scopesByIdentifier r1)) i sc' ↔
                   sc_identifier sc' = i ∧ sc' ∈ JSet.delete sc scs) as Hrel.
  { intros i sc'. simpl. rewrite related_del, (pt_scopes _ _ _ Hp), JSet.elem_of_delete. naive_solver. }
  change (modulesByIdentifier r1) with (modulesByIdentifier r).
  destruct (JMap.get (sc_identifier sc) _) as [mid|] eqn:Hmid.
  - destruct (disconnect_spec (total ops) dom (r1, w) mid sc Hh) as (Ho1 & Hs1 & Hc1).
    { by apply (pt_registered _ _ _ Hp) in Hmid as [? _]. }
    eapply partly_after; [exact Ho1|exact Hs1|apply wf_del, Hp|exact Hrel|apply Hp|apply (pt_registered _ _ _ Hp)|..]; simpl.
    + intros mid' sc' [Hno [? ?]%(pt_known _ _ _ Hp)]%Hc1. split; [|done]. apply JSet.elem_of_delete. split; [|done].
      intros ->. apply Hno. split; [congruence|done].
    + intros mid' sc' [Hne Hin']%JSet.elem_of_delete HF Hreg. apply Hc1. split; [tauto|]. by apply (pt_complete _ _ _ Hp).
  - simpl. eapply (partly_after _ _ r1); [done|apply same_refl|apply wf_del, Hp|exact Hrel|apply Hp|apply (pt_registered _ _ _ Hp)|..].
    + intros mid' sc' [? ?]%(pt_known _ _ _ Hp). split; [|done]. apply JSet.elem_of_delete. split; [congruence|done].
    + intros mid' sc' [Hne Hin']%JSet.elem_of_delete HF Hreg. by apply (pt_complete _ _ _ Hp).
Qed.

(** Operations on the router, which end with an exception or not; between them
    the contexts' own state changes.  The identifiers that are listed first are
    those an operation of which failed since they were last registered without
    an exception. *)
Inductive session : list string → list scope → router * W → Prop :=
  | session_new w : session [] [] (new_router, w)
  | session_world F scs r w w' : session F scs (r, w) → session F scs (r, w')
  | session_load F scs dom def s s' e :
    session F scs s → loadDefinition dom def s = (s', e) → session (marked (def_identifier def) e F) scs s'
  | session_unload F scs dom i s s' e :
    session F scs s → unloadIdentifier dom i s = (s', e) → session F scs s'
  | session_connected F scs dom sc s s' e :
    session F scs s → sc ∉ scs → scopeConnected dom sc s = (s', e) →
    session (match e with Some _ => sc_identifier sc :: F | None => F end) (sc :: scs) s'
  | session_disconnected F scs dom sc s s' e :
    session F scs s → sc ∈ scs → scopeDisconnected dom sc s = (s', e) → session F (JSet.delete sc scs) s'.

Lemma session_partly F scs s : session F scs s → partly F scs s.1.
Proof.
  induction 1 as [w|F scs r w w' _ IH|F scs dom def s s' e _ IH Hl|F scs dom i s s' e _ IH Hu
                 |F scs dom sc s s' e _ IH Hsc Hc|F scs dom sc s s' e _ IH Hsc Hd].
  - apply partly_new.
  - done.
  - pose proof (partly_load F scs dom s def IH) as Hp. rewrite Hl in Hp. apply Hp.
  - rewrite unload_eq in Hu. injection Hu as <- <-. by apply partly_unload.
  - pose proof (partly_scopeConnected F scs dom s sc IH Hsc) as Hp. by rewrite Hc in Hp.
  - rewrite scopeDisconnected_eq in Hd. injection Hd as <- <-. by apply partly_scopeDisconnected.
Qed.
End failures.
(** ** Properties *)

(** An operation that completes does what [Router]'s does. *)
Lemma completed_as_router {doc W} (ops : ThrowingOps doc W) dom s s' :
  (∀ def, loadDefinition ops dom def s = (s', None) → Router.loadDefinition (total ops) dom s def = s') ∧
  (∀ i, unloadIdentifier ops dom i s = (s', None) → Router.unloadIdentifier (total ops) dom s i = s') ∧
  (∀ sc, scopeConnected ops dom sc s = (s', None) → Router.scopeConnected (total ops) dom s sc = s') ∧
  (∀ sc, scopeDisconnected ops dom sc s = (s', None) → Router.scopeDisconnected (total ops) dom s sc = s').
Proof.
  split_and!.
  - intros def (s1 & Hu & Hc)%Act.seq_completes. unfold Router.loadDefinition.
    rewrite (unload_completes _ _ _ _ _ Hu). destruct s1 as [r w].
    by destruct (Router.new_module_object r def) as [r1 mid]; apply connectModule_completes.
  - intros i. apply unload_completes.
  - intros sc. destruct s as [r w]. unfold scopeConnected, Router.scopeConnected.
    destruct (JMap.get (sc_identifier sc) _) as [mid|]; [apply connect_completes|by intros [= ->]].
  - intros sc. destruct s as [r w]. unfold scopeDisconnected, Router.scopeDisconnected.
    destruct (JMap.get (sc_identifier sc) _) as [mid|]; [apply disconnect_completes|by intros [= ->]].
Qed.

(** C18: Exceptions that constructions and connections of contexts let through are
    contained.  In every session of registrations, unloads and scopes that come
    and go, whatever throws, a module has connected contexts only for present
    scopes of its registered identifier; an identifier none of whose operations
    failed since it was registered has one for each; and registering an
    identifier again without an exception connects all that a failure left
    out. *)
Theorem failures_contained {doc W} (ops : ThrowingOps doc W)
    (disconnects : ∀ dom r cx w, (to_disconnect ops dom r cx w).2 = None) F scs s :
  session ops F scs s →
  (∀ mid sc, sc ∈ conn s.1 mid → sc ∈ scs ∧ JMap.get (sc_identifier sc) (modulesByIdentifier s.1) = Some mid) ∧
  (∀ mid sc, sc ∈ scs → sc_identifier sc ∉ F → JMap.get (sc_identifier sc) (modulesByIdentifier s.1) = Some mid →
     sc ∈ conn s.1 mid) ∧
  ∀ dom def s', loadDefinition ops dom def s = (s', None) →
    ∃ mid, JMap.get (def_identifier def) (modulesByIdentifier s'.1) = Some mid ∧
    ∀ sc, sc ∈ conn s'.1 mid ↔ sc ∈ scs ∧ sc_identifier sc = def_identifier def.
Proof.
  intros Hs. pose proof (session_partly ops disconnects F scs s Hs) as Hp.
  split_and!; [apply Hp|apply Hp|]. intros dom def s' Hl.
  pose proof (partly_load ops disconnects F scs dom s def Hp) as Hload. rewrite Hl in Hload.
  destruct Hload as [Hp' Hreg].
  destruct (proj2 (Hreg (def_identifier def))) as [mid Hmid]; [by left|]. exists mid. split; [done|].
  intros sc. split.
  - intros [Hsc Hid]%(pt_known _ _ _ Hp'). split; [done|].
    apply (pt_registered _ _ _ Hp') in Hid as [_ <-]. by apply (pt_registered _ _ _ Hp') in Hmid as [_ <-].
  - intros [Hsc Hid]. apply (pt_complete _ _ _ Hp'); [done| |by rewrite Hid]. simpl.
    intros [Hne _]%list_elem_of_filter. done.
Qed.

(** Contexts that cannot be connected while the world is broken: the first of
    the two scopes of [clock] is not connected, so the second is not tried; once
    the world works, registering [clock] again connects both. *)
Definition sample_ops : ThrowingOps unit bool := {|
  to_new := λ _ _ _, Act.skip;
  to_connect := λ _ _ _ w, ((w, if (w : bool) then Some "not ready" else None) : bool * option string);
  to_disconnect := λ _ _ _, Act.skip;
|}.
Definition clock : definition := mk_definition "clock" "Clock".
Definition clock_scope (n : nat) : scope := mk_scope n n "clock".

Definition scope_state : router * bool :=
  (scopeConnected sample_ops tt (clock_scope 2) (scopeConnected sample_ops tt (clock_scope 1) (new_router, true)).1).1.
Definition broken_state : router * bool := (loadDefinition sample_ops tt clock scope_state).1.

Lemma broken_session : session sample_ops ["clock"] [clock_scope 2; clock_scope 1] (broken_state.1, false).
Proof.
  assert (session sample_ops ["clock"] [clock_scope 2; clock_scope 1] broken_state) as Hs.
  { apply (session_load sample_ops [] _ tt clock scope_state _ (Some "not ready")); [|by vm_compute].
    apply (session_connected sample_ops [] [clock_scope 1] tt (clock_scope 2)
      (scopeConnected sample_ops tt (clock_scope 1) (new_router, true)).1 _ None); [|by apply (bool_decide_unpack _)|done].
    apply (session_connected sample_ops [] [] tt (clock_scope 1) (new_router, true) _ None);
      [apply session_new|apply not_elem_of_nil|done]. }
  rewrite (surjective_pairing broken_state) in Hs. by apply (session_world _ _ _ _ _ false) in Hs.
Qed.

Lemma failures_contained_witness :
  session sample_ops ["clock"] [clock_scope 2; clock_scope 1] (broken_state.1, false) ∧
  cx_element <$> Router.contexts broken_state.1 = [1] ∧
  ∃ mid, JMap.get "clock" (modulesByIdentifier (loadDefinition sample_ops tt clock (broken_state.1, false)).1.1) = Some mid ∧
    clock_scope 1 ∈ conn (loadDefinition sample_ops tt clock (broken_state.1, false)).1.1 mid ∧
    clock_scope 2 ∈ conn (loadDefinition sample_ops tt clock (broken_state.1, false)).1.1 mid.
Proof.
  split; [apply broken_session|]. split; [by vm_compute|].
  destruct (failures_contained sample_ops (λ _ _ _ _, eq_refl) ["clock"] _ _ broken_session) as (_ & _ & Hrepair).
  destruct (Hrepair tt clock (loadDefinition sample_ops tt clock (broken_state.1, false)).1 ltac:(by vm_compute))
    as (mid & Hmid & Hall).
  exists mid. split; [exact Hmid|]. split; apply Hall; (split; [|done]).
  - right. left.
  - left.
Defined.
End Failures.
