(* ===== verification/Wiring.v ===== *)
(** The whole framework at work: the application, whose contexts observe their
    actions and share the dispatcher.

    Models how [src/gui/web/assets/scripts/stimulus.js] composes its classes
    when [Application] connects the contexts of the page: [Context.connect]
    starts the context's [BindingObserver] before it tells the controller, and
    [Context.disconnect] stops it afterwards; all of them connect their
    bindings to the application's one [Dispatcher].  What the controllers do is
    the parameter [ops], over a state of their own; their values are the
    subject of [Contexts].  The document that an observer was last told of is
    kept beside it, to state what has been delivered. *)

From S2P Require Import Prelude JsCore JsString Dom Multimaps Observers Tokens ValueList ValueStack Scopes.
From S2P Require Import Router App Regex Actions Dispatcher Bindings.

#[local] Open Scope string_scope.
#[local] Open Scope list_scope.

(** ** What an observer keeps, whatever else the dispatcher serves *)

Section tracking.
Context {doc : Type} `{Dom doc} `{Tagged doc} {D : Type} `{BindingDelegate D}.
Context (context : context) (identifier : string).

#[local] Abbreviation tracks C := (BindingObserver.tracks context identifier (Conn := C)).

Lemma tracks_change (C C' : list binding → D → Prop) od ov c d d' :
  C' (BindingObserver.bindings c) d' →
  tracks C od (ov, (c, d)) → tracks C' od (ov, (c, d')).
Proof.
  intros HC. destruct od as [dom|], ov as [[tl vl]|]; simpl; try done.
  - intros [(Ha & Hst & Hi & Hc) Hroot]. split; [|exact Hroot]. split_and!; [done..|]. split; [|done].
    destruct Hi as [[Hw Ht Hl] He Hx]. split; [|done..]. split; [done..|].
    destruct Hl as [Hk Hr Hre Hnd Hpa [? ? ? ? _]]. by split.
  - intros []. by split.
Qed.

Context {Conn : list binding → D → Prop}.

Lemma tracks_vals od o : tracks Conn od o → ∃ tvs, BindingObserver.Vals context (Conn := Conn) tvs o.2.
Proof.
  destruct od as [dom|], o as [[[tl vl]|] s]; try done; [|by eexists].
  intros [Hs _]. eexists. exact (ValueStack.sync_vals _ _ _ _ Hs).
Qed.

Lemma tracks_conn od o :
  tracks Conn od o → Conn (BindingObserver.bindings_of o) (BindingObserver.state_of o).
Proof. intros [tvs Hv]%tracks_vals. apply (BindingObserver.vals_conn _ _ _ Hv). Qed.

Lemma tracks_context od o b :
  tracks Conn od o → b ∈ BindingObserver.bindings_of o → b_context b = context.
Proof. intros [tvs Hv]%tracks_vals. by eapply BindingObserver.bindings_context. Qed.

Lemma tracks_idle identifier' o :
  tracks Conn None o → BindingObserver.tracks context identifier' (Conn := Conn) None o.
Proof. done. Qed.
End tracking.

(** What the dispatcher keeps besides, such as that it is started. *)
Class Kept (Q : Dispatcher.t → Prop) : Prop := {
  kept_connected d b : Q d → Q (Dispatcher.bindingConnected d b);
  kept_disconnected d b : Q d → Q (Dispatcher.bindingDisconnected d b);
}.

#[export] Instance kept_started b : Kept (λ d, Dispatcher.started d = b).
Proof.
  split; intros d bd <-; pose proof (Dispatcher.replace_started d bd) as Hr.
  - unfold Dispatcher.bindingConnected. destruct (Dispatcher.fetchEventListenerForBinding d bd). apply Hr.
  - unfold Dispatcher.bindingDisconnected. destruct (Dispatcher.fetchEventListenerForBinding d bd). apply Hr.
Qed.

#[export] Instance kept_binding_laws Q context others :
  Kept Q → BindingLaws Dispatcher.t context (λ bs d, bound context others bs d ∧ Q d).
Proof.
  intros HQ. pose proof (dispatcher_binding_laws context others) as L. split.
  - intros bs bs' d Hp [? ?]. split; [by eapply binding_perm|done].
  - intros bs d b [? ?] ? ?. split; [by apply binding_connect|by apply kept_connected].
  - intros bs d b [? ?] ? ?. split; [by apply binding_disconnect|by apply kept_disconnected].
Qed.

Module Wiring.

(** ** The shared state *)

Record entry (doc : Type) := mk_entry {
  en_observer : option (TokenListObserver.t * ValueListObserver.core action) * BindingObserver.core;
  (** The document as of the last delivery to the observer, while it is started. *)
  en_seen : option doc;
}.
Arguments mk_entry {doc}.
Arguments en_observer {doc}.
Arguments en_seen {doc}.

Record world (doc U : Type) := mk_world {
  dispatcher : Dispatcher.t;
  entries : list (context * entry doc);
  user : U;
}.
Arguments mk_world {doc U}.
Arguments dispatcher {doc U}.
Arguments entries {doc U}.
Arguments user {doc U}.

Section wiring.
Context {doc U : Type} `{Dom doc} `{Tagged doc} (ops : ContextOps doc U).
Implicit Types (dom : doc) (r : router) (w : world doc U) (cx : context).

Definition new_entry : entry doc := mk_entry (None, BindingObserver.new_core) None.
Definition entry_of w cx : entry doc := default new_entry (JMap.get cx (entries w)).
Definition seen w cx : option doc := en_seen (entry_of w cx).

(** The context's [bindingObserver]. *)
Definition observer_of w cx : BindingObserver.t (D := Dispatcher.t) :=
  let '(stack, bindings) := en_observer (entry_of w cx) in (stack, (bindings, dispatcher w)).
Definition put cx (od : option doc) (o : BindingObserver.t) w : world doc U :=
  let '(stack, (bindings, d)) := o in
  mk_world d (JMap.set cx (mk_entry (stack, bindings) od) (entries w)) (user w).

Definition on_user (f : U → U) w : world doc U := mk_world (dispatcher w) (entries w) (f (user w)).
Definition on_dispatcher (f : Dispatcher.t → Dispatcher.t) w : world doc U :=
  mk_world (f (dispatcher w)) (entries w) (user w).

(** [Context.identifier] *)
Definition identifier_of r cx : string := m_identifier (Module.deref r (cx_module cx)).

Definition connect dom r w cx : world doc U :=
  let w := put cx (Some dom) (BindingObserver.start cx (identifier_of r cx) dom (observer_of w cx)) w in
  on_user (λ u, co_connect ops dom r u cx) w.

Definition disconnect dom r w cx : world doc U :=
  let w := on_user (λ u, co_disconnect ops dom r u cx) w in
  put cx None (BindingObserver.stop cx (identifier_of r cx) (observer_of w cx)) w.

Definition contextOps : ContextOps doc (world doc U) := {|
  co_new dom r w cx := on_user (λ u, co_new ops dom r u cx) w;
  co_connect := connect;
  co_disconnect := disconnect;
|}.

Definition app_ops : App.Ops doc (world doc U) := {|
  App.contextOps := contextOps;
  App.dispatcher_start := on_dispatcher Dispatcher.start;
  App.dispatcher_stop := on_dispatcher Dispatcher.stop;
|}.

(** The browser delivers records to the observer of a context. *)
Definition deliver cx dom (ms : list mutation) (s : router * world doc U) : router * world doc U :=
  let '(r, w) := s in
  (r, put cx (Some dom) (BindingObserver.processMutations cx (identifier_of r cx) dom ms (observer_of w cx)) w).

Definition initial (u : U) : world doc U := mk_world Dispatcher.new [] u.

(** ** The invariant *)

Definition all_bindings (l : list (context * entry doc)) : list binding :=
  concat ((λ ce : context * entry doc, BindingObserver.bindings (en_observer ce.2).2) <$> l).

Context (Q : Dispatcher.t → Prop) {HQ : Kept Q}.
#[local] Abbreviation serving cx others := (λ bs d, bound cx others bs d ∧ Q d).

Record Wired (s : router * world doc U) : Prop := {
  wired_wf : JMap.wf (entries s.2);
  wired_serves : Dispatcher.Serves (λ _ _, True) (all_bindings (entries s.2)) (dispatcher s.2);
  wired_kept : Q (dispatcher s.2);
  wired_tracks cx :
    BindingObserver.tracks cx (identifier_of s.1 cx) (Conn := λ _ _, True) (seen s.2 cx) (observer_of s.2 cx);
  wired_seen cx : is_Some (seen s.2 cx) ↔ cx ∈ Module.contexts s.1 (cx_module cx);
}.

Lemma bindings_of_observer w cx :
  BindingObserver.bindings_of (observer_of w cx) = BindingObserver.bindings (en_observer (entry_of w cx)).2.
Proof. unfold observer_of. by destruct (en_observer (entry_of w cx)). Qed.

Lemma elem_of_all_bindings (l : list (context * entry doc)) b :
  JMap.wf l →
  b ∈ all_bindings l ↔
  ∃ cx, b ∈ BindingObserver.bindings (en_observer (default new_entry (JMap.get cx l))).2.
Proof.
  intros Hwf. unfold all_bindings. rewrite list_elem_of_In, in_concat. split.
  - intros (bs & Hbs%list_elem_of_In & Hb%list_elem_of_In).
    apply list_elem_of_fmap in Hbs as ([cx en] & -> & Hin). exists cx.
    by rewrite (JMap.elem_get_Some _ _ _ Hwf Hin).
  - intros (cx & Hb). destruct (JMap.get cx l) as [en|] eqn:Hg; [|by apply not_elem_of_nil in Hb].
    exists (BindingObserver.bindings (en_observer en).2). rewrite <-!list_elem_of_In. split; [|done].
    apply list_elem_of_fmap. exists (cx, en). split; [done|]. by apply JMap.get_Some_elem.
Qed.

(** The bindings of the other contexts. *)
Definition others w cx : list binding := all_bindings (JMap.delete cx (entries w)).

Lemma elem_of_others w cx b :
  JMap.wf (entries w) →
  b ∈ others w cx ↔ ∃ cx', cx' ≠ cx ∧ b ∈ BindingObserver.bindings_of (observer_of w cx').
Proof.
  intros Hwf. unfold others. rewrite elem_of_all_bindings by by apply JMap.wf_delete.
  split; intros (cx' & Hb).
  - rewrite JMap.get_delete in Hb. case_decide as Hc; [by apply not_elem_of_nil in Hb|].
    exists cx'. rewrite bindings_of_observer. by split; [congruence|].
  - destruct Hb as [Hne Hb]. rewrite bindings_of_observer in Hb. exists cx'.
    by rewrite JMap.get_delete, decide_False by congruence.
Qed.

Lemma elem_of_entries w b :
  JMap.wf (entries w) →
  b ∈ all_bindings (entries w) ↔ ∃ cx, b ∈ BindingObserver.bindings_of (observer_of w cx).
Proof.
  intros Hwf. rewrite elem_of_all_bindings by done. split; intros [cx Hb]; exists cx; by rewrite bindings_of_observer in *.
Qed.

Lemma entry_of_put w cx od o cx' :
  entry_of (put cx od o w) cx' = if decide (cx = cx') then mk_entry (o.1, o.2.1) od else entry_of w cx'.
Proof.
  destruct o as [ov [c d]]. unfold entry_of. simpl. rewrite JMap.get_set. by case_decide.
Qed.

Lemma observer_of_put w cx od o : observer_of (put cx od o w) cx = o.
Proof. unfold observer_of. rewrite entry_of_put, decide_True by done. by destruct o as [ov [c d]]. Qed.

Lemma wired_context r w cx b :
  Wired (r, w) → b ∈ BindingObserver.bindings_of (observer_of w cx) → b_context b = cx.
Proof. intros HW. eapply tracks_context, (wired_tracks _ HW). Qed.

(** The dispatcher serves the bindings of a context besides those of the others. *)
Lemma wired_bound r w cx :
  Wired (r, w) →
  BindingObserver.tracks cx (identifier_of r cx) (Conn := serving cx (others w cx)) (seen w cx) (observer_of w cx).
Proof.
  intros HW. pose proof (wired_wf _ HW) as Hwf. pose proof (wired_tracks _ HW cx) as Ht. simpl in *.
  unfold observer_of in *. pose proof (bindings_of_observer w cx) as Hb. unfold observer_of in Hb.
  destruct (en_observer (entry_of w cx)) as [ov c] eqn:Hen.
  apply (tracks_change cx (identifier_of r cx) (λ _ _, True) _ _ ov c (dispatcher w)); [|done]. split; [split|apply (wired_kept _ HW)].
  - intros b (cx' & Hne & Hin)%elem_of_others; [|done]. apply (wired_context r) in Hin; congruence.
  - eapply Dispatcher.serves_ext, (wired_serves _ HW). intros b. simpl.
    rewrite elem_of_app, (elem_of_others w cx b Hwf), (elem_of_entries w b Hwf). split.
    + intros [cx' Hin]. destruct (decide (cx' = cx)) as [->|]; [|by eauto]. left. by rewrite bindings_of_observer, Hen in Hin.
    + intros [Hin|(cx' & _ & Hin)]; [|by eauto]. exists cx. by rewrite bindings_of_observer, Hen.
Qed.

(** An operation of one context's observer. *)
Lemma wired_put r r' w cx od o f :
  Wired (r, w) →
  (∀ cx', is_Some (seen w cx') → identifier_of r' cx' = identifier_of r cx') →
  (∀ cx', cx' ∈ Module.contexts r' (cx_module cx') ↔
          if decide (cx = cx') then is_Some od else cx' ∈ Module.contexts r (cx_module cx')) →
  BindingObserver.tracks cx (identifier_of r' cx) (Conn := serving cx (others w cx)) od o →
  Wired (r', on_user f (put cx od o w)).
Proof.
  intros HW Hid Hc Ht. pose proof (wired_wf _ HW) as Hwf.
  pose proof (tracks_conn _ _ _ _ Ht) as [[Ho Hs] HQs].
  assert (JMap.wf (entries (put cx od o w))) as Hwf'.
  { destruct o as [ov [c d]]. by apply JMap.wf_set. }
  assert (dispatcher (put cx od o w) = BindingObserver.state_of o) as Hd by by destruct o as [ov [c d]].
  assert (∀ cx', cx ≠ cx' → BindingObserver.bindings_of (observer_of (put cx od o w) cx') =
                            BindingObserver.bindings_of (observer_of w cx')) as Hother.
  { intros cx' Hne. by rewrite !bindings_of_observer, entry_of_put, decide_False. }
  split; simpl.
  - done.
  - rewrite Hd. eapply Dispatcher.serves_ext, Hs. intros b.
    rewrite elem_of_app, (elem_of_others w cx b Hwf), (elem_of_entries (put cx od o w) b Hwf'). split.
    + intros [Hin|(cx' & Hne & Hin)]; [exists cx; by rewrite observer_of_put|]. exists cx'. by rewrite Hother.
    + intros [cx' Hin]. destruct (decide (cx = cx')) as [<-|Hne]; [left; by rewrite observer_of_put in Hin|].
      right. exists cx'. by rewrite Hother in Hin.
  - by rewrite Hd.
  - intros cx'. change (observer_of (on_user f (put cx od o w)) cx') with (observer_of (put cx od o w) cx').
    change (seen (on_user f (put cx od o w)) cx') with (seen (put cx od o w) cx').
    unfold seen. rewrite entry_of_put. destruct (decide (cx = cx')) as [<-|Hne].
    + rewrite observer_of_put. destruct o as [ov [c d]]. by eapply tracks_change, Ht.
    + pose proof (wired_tracks _ HW cx') as Ht'. simpl in Ht'.
      unfold observer_of in *. rewrite entry_of_put, decide_False by done. unfold seen in *.
      destruct (en_observer (entry_of w cx')) as [ov c].
      apply (tracks_change _ _ (λ _ _, True) _ _ _ _ (dispatcher w)); [done|].
      destruct (en_seen (entry_of w cx')) eqn:Hsn; [|done]. rewrite Hid; [done|].
      unfold seen. rewrite Hsn. by eexists.
  - intros cx'. change (seen (on_user f (put cx od o w)) cx') with (seen (put cx od o w) cx').
    unfold seen. rewrite entry_of_put, Hc. case_decide; [done|]. apply (wired_seen _ HW).
Qed.

(** A step that leaves the observers alone. *)
Lemma wired_router r r' w f :
  Wired (r, w) →
  (∀ cx, is_Some (seen w cx) → identifier_of r' cx = identifier_of r cx) →
  (∀ cx, cx ∈ Module.contexts r' (cx_module cx) ↔ cx ∈ Module.contexts r (cx_module cx)) →
  Wired (r', on_user f w).
Proof.
  intros HW Hid Hc. split; simpl; [apply HW|apply HW|apply HW| |].
  - intros cx. pose proof (wired_tracks _ HW cx) as Ht. simpl in Ht.
    change (observer_of (on_user f w) cx) with (observer_of w cx). change (seen (on_user f w) cx) with (seen w cx).
    destruct (seen w cx) eqn:Hsn; [|done]. rewrite Hid; [done|]. rewrite Hsn. by eexists.
  - intros cx. rewrite Hc. apply (wired_seen _ HW).
Qed.

Lemma on_user_id w : on_user id w = w.
Proof. by destruct w. Qed.

Lemma same_identifier r r' cx : Module.same_tables r r' → identifier_of r' cx = identifier_of r cx.
Proof. intros Hs. unfold identifier_of, m_identifier. by rewrite (Module.same_definition _ _ Hs). Qed.

Context {LD : DomLaws doc}.

(** *** The router's steps *)

Lemma fetch_wired dom r w mid sc r' w' cx :
  Wired (r, w) → Module.heap_ok r → Module.allocated r mid →
  Module.fetchContextForScope contextOps dom (r, w) mid sc = (r', w', cx) → Wired (r', w').
Proof.
  intros HW Ho Ha Hf.
  destruct (Module.fetch_spec contextOps dom r w mid sc Ho Ha) as (r1 & w1 & cx1 & Hf1 & _ & Hs & Hc & _).
  rewrite Hf in Hf1. simplify_eq.
  assert (∃ f, w1 = on_user f w) as [f ->].
  { unfold Module.fetchContextForScope in Hf. destruct (JMap.get sc _); simplify_eq/=; [exists id; by rewrite on_user_id|].
    by eexists. }
  apply (wired_router r); [done| |].
  - intros cx _. by apply same_identifier.
  - intros cx. by rewrite Hc.
Qed.

Lemma connect_wired dom r w mid cx :
  Wired (r, w) → Module.heap_ok r → Module.allocated r mid →
  JMap.get (cx_scope cx) (m_contextsByScope (Module.deref r mid)) = Some cx → cx_scope cx ∉ Module.conn r mid →
  let m := Module.deref r mid in
  let r' := Module.store r mid (mk_module (m_definition m) (m_contextsByScope m) (JSet.add cx (m_connectedContexts m))) in
  Wired (r', connect dom r' w cx).
Proof.
  intros HW Ho Ha Hget Hnew m r'. destruct (Module.heap_contexts _ Ho _ _ _ Hget) as (_ & Hm & _).
  destruct (Module.set_connected_ok r mid (JSet.add cx (Module.contexts r mid)) Ho Ha) as (_ & Hs & Hc).
  { apply JSet.NoDup_add, Ho. }
  { intros cx' [->|Hin]%JSet.elem_of_add; [done|]. by apply (Module.heap_connected _ Ho). }
  apply (wired_put r); [done| | |].
  - intros cx' _. by apply same_identifier.
  - intros cx'. unfold r'. rewrite Hc. destruct (decide (cx = cx')) as [<-|Hne].
    + rewrite decide_True by done. rewrite JSet.elem_of_add. split; [by eexists|by left].
    + case_decide as Hmid; [|done]. rewrite JSet.elem_of_add, <-Hmid. naive_solver.
  - apply (BindingObserver.tracks_start cx (identifier_of r' cx) (Conn := serving cx (others w cx))). pose proof (wired_bound _ _ cx HW) as Ht.
    assert (seen w cx = None) as Hsn; [|by rewrite Hsn in Ht].
    apply eq_None_not_Some. intros Hin%(wired_seen _ HW). apply Hnew. simpl in Hin. rewrite Hm in Hin.
    by apply list_elem_of_fmap_2.
Qed.

Lemma disconnect_wired dom r w mid cx :
  Wired (r, w) → Module.heap_ok r → Module.allocated r mid → cx ∈ Module.contexts r mid →
  let m := Module.deref r mid in
  let r' := Module.store r mid (mk_module (m_definition m) (m_contextsByScope m) (JSet.delete cx (m_connectedContexts m))) in
  Wired (r', disconnect dom r' w cx).
Proof.
  intros HW Ho Ha Hin m r'. pose proof (Module.heap_connected _ Ho _ _ Hin) as Hget.
  destruct (Module.heap_contexts _ Ho _ _ _ Hget) as (_ & Hm & _).
  destruct (Module.set_connected_ok r mid (JSet.delete cx (Module.contexts r mid)) Ho Ha) as (_ & Hs & Hc).
  { apply JSet.NoDup_delete, Ho. }
  { intros cx' [_ ?]%JSet.elem_of_delete. by apply (Module.heap_connected _ Ho). }
  change (disconnect dom r' w cx) with
    (put cx None (BindingObserver.stop cx (identifier_of r' cx) (observer_of w cx)) (on_user (λ u, co_disconnect ops dom r' u cx) w)).
  set (f := λ u, co_disconnect ops dom r' u cx).
  assert (∀ o, put cx None o (on_user f w) = on_user f (put cx None o w)) as ->; [by intros [ov [c d]]|].
  apply (wired_put r); [done| | |].
  - intros cx' _. by apply same_identifier.
  - intros cx'. unfold r'. rewrite Hc. destruct (decide (cx = cx')) as [<-|Hne].
    + rewrite decide_True by done. rewrite JSet.elem_of_delete. split; [by intros []|by intros []%is_Some_None].
    + case_decide as Hmid; [|done]. rewrite JSet.elem_of_delete, <-Hmid. naive_solver.
  - pose proof (wired_bound _ _ cx HW) as Ht. destruct (seen w cx) as [dom'|] eqn:Hsn.
    + apply (BindingObserver.tracks_stop cx (identifier_of r' cx) (Conn := serving cx (others w cx)) dom'). by rewrite (same_identifier r).
    + destruct (proj2 (wired_seen _ HW cx)) as [dom' Hsn']; [by simpl; rewrite Hm|]. simpl in Hsn'. congruence.
Qed.

Lemma wired_stable : Router.Stable contextOps Wired.
Proof.
  split.
  - intros r r' w HW Hm _. rewrite <-(on_user_id w).
    assert (∀ mid, Module.deref r' mid = Module.deref r mid) as Hd by (intros; unfold Module.deref; by rewrite Hm).
    apply (wired_router r); [done| |]; intros cx; unfold identifier_of, Module.contexts; by rewrite Hd.
  - intros r w def HW Ho. rewrite <-(on_user_id w).
    assert (JMap.get (next_module r) (modules r) = None) as Hnew.
    { destruct (JMap.get _ _) eqn:Hb; [|done]. apply (Module.heap_bound _ Ho) in Hb. lia. }
    assert (Module.deref r (next_module r) = Module.empty_module) as Hempty by (unfold Module.deref; by rewrite Hnew).
    apply (wired_router r); [done| |]; intros cx; unfold identifier_of, Module.contexts, Module.deref; simpl;
      rewrite JMap.get_set; case_decide as Hmid; try done.
    + intros Hs%(wired_seen _ HW). simpl in Hs. unfold Module.contexts in Hs. rewrite <-Hmid, Hempty in Hs.
      by apply not_elem_of_nil in Hs.
    + rewrite <-Hmid. fold (Module.deref r (next_module r)). by rewrite Hempty.
  - intros dom [r w] mid sc HW Ho Ha Hsc. simpl in *. unfold Module.connectContextForScope.
    destruct (Module.fetch_spec contextOps dom r w mid sc Ho Ha) as (r1 & w1 & cx & Hf & Ho1 & Hs & Hc & Hcs & Hget).
    rewrite Hf. apply (connect_wired dom r1 w1 mid cx); [by eapply fetch_wired| | | |].
    + done.
    + by apply (Module.same_allocated _ _ Hs).
    + by rewrite Hcs.
    + unfold Module.conn. by rewrite Hcs, Hc.
  - intros dom [r w] mid sc HW Ho Ha Hsc. simpl in *. unfold Module.disconnectContextForScope.
    apply list_elem_of_fmap in Hsc as (cx & -> & Hin). rewrite (Module.heap_connected _ Ho _ _ Hin).
    by apply disconnect_wired.
Qed.

(** *** The other steps of a session *)

Lemma deliver_wired r w cx dom dom' ms :
  Wired (r, w) → seen w cx = Some dom →
  BindingObserver.reported cx (identifier_of r cx) (D := Dispatcher.t) dom dom' ms →
  Wired (deliver cx dom' ms (r, w)).
Proof.
  intros HW Hsn Hr. unfold deliver.
  rewrite <-(on_user_id (put _ _ _ w)). apply (wired_put r); [done|done| |].
  - intros cx'. destruct (decide (cx = cx')) as [<-|]; [|done]. rewrite <-(wired_seen _ HW). simpl. rewrite Hsn.
    by split; intros _; eexists.
  - pose proof (wired_bound _ _ cx HW) as Ht. rewrite Hsn in Ht.
    by apply (BindingObserver.tracks_mutations cx (identifier_of r cx) (Conn := serving cx (others w cx)) dom).
Qed.
End wiring.

(** ** Sessions *)

Section session.
Context {doc U : Type} `{DomLaws doc} `{Tagged doc} (ops : ContextOps doc U).
Implicit Types (dom : doc) (a : App.t (W := world doc U)).

(** What the application and the observers of its contexts have been through:
    every observer is told of the changes of the document on its own, and the
    methods of the controllers run at any time. *)
Inductive session (root : elem) (u : U) : App.view doc → App.t → Prop :=
  | session_new : session root u (App.mk_view None []) (App.new root (initial u))
  | session_load v a dom definitions :
    session root u v a → session root u (App.view_load v definitions) (App.load (app_ops ops) dom definitions a)
  | session_unload v a dom identifiers :
    session root u v a → session root u (App.view_unload v identifiers) (App.unload (app_ops ops) dom identifiers a)
  | session_start ids a dom :
    session root u (App.mk_view None ids) a →
    session root u (App.mk_view (Some dom) ids) (App.start (app_ops ops) dom a)
  | session_mutations ids a dom dom' ms :
    session root u (App.mk_view (Some dom) ids) a → App.reported (app_ops ops) dom dom' root ms →
    session root u (App.mk_view (Some dom') ids) (App.processMutations (app_ops ops) dom' ms a)
  | session_deliver v a cx dom dom' ms :
    session root u v a → seen (App.world_of a) cx = Some dom →
    BindingObserver.reported cx (identifier_of (App.router_of a) cx) (D := Dispatcher.t) dom dom' ms →
    session root u v (App.map_router (deliver cx dom' ms) a)
  | session_user v a f :
    session root u v a → session root u v (App.map_router (λ '(r, w), (r, on_user f w)) a).

Definition kept (v : App.view doc) (d : Dispatcher.t) : Prop :=
  match App.vw_document v with Some _ => Dispatcher.started d = true | None => True end.

#[local] Instance kept_view v : Kept (kept v).
Proof. unfold kept. destruct (App.vw_document v); [apply kept_started|by split]. Qed.

Lemma wired_new (u : U) : Wired (doc := doc) (λ _, True) (new_router, initial u).
Proof.
  split; simpl; [constructor|apply Dispatcher.serves_new|done| |].
  - intros cx. split; simpl; [done|done|by intros tok a ?%not_elem_of_nil|constructor|done].
  - intros cx. split; [by intros []%is_Some_None|]. by intros ?%not_elem_of_nil.
Qed.

Lemma wired_dispatcher_start r (w : world doc U) :
  Wired (λ _, True) (r, w) → Wired (λ d, Dispatcher.started d = true) (r, on_dispatcher Dispatcher.start w).
Proof.
  intros [Hwf Hs _ Ht Hsn]. simpl in *. destruct (Dispatcher.start_serves _ _ _ Hs) as [Hs' Hst].
  split; simpl; [done..| |done]. intros cx. specialize (Ht cx). unfold observer_of in *.
  change (entry_of (on_dispatcher Dispatcher.start w) cx) with (entry_of w cx).
  destruct (en_observer (entry_of w cx)). by eapply tracks_change, Ht.
Qed.

Lemma wired_session_tracks root u v a :
  session root u v a → App.tracks (app_ops ops) (Wired (U := U) (kept v)) root v a.
Proof.
  induction 1 as [|v a dom defs _ IH|v a dom is_ _ IH|ids a dom _ IH|ids a dom dom' ms _ IH Hr|v a cx dom dom' ms _ IH Hsn Hr|v a f _ IH].
  - split_and!; [done..|]. apply ScopeObserver.vals_new. split; [apply Router.ok_new|apply wired_new|].
    intros i. simpl. pose proof (not_elem_of_nil i). split; [by intros []|done].
  - apply App.load_tracks; [exact (wired_stable ops _)|done].
  - apply App.unload_tracks; [exact (wired_stable ops _)|done].
  - destruct IH as (Hn & Hv & Hi). pose proof (wired_stable ops (kept (App.mk_view (Some dom) ids))) as SP.
    apply (ValueStack.start_sync _ _ (App.value_laws (app_ops ops) _ SP ids)).
    destruct a as [tl [vl [so [r w]]]]. simpl in *. split_and!; [done..|].
    destruct Hi as [Hc [Ho HP Hreg] Hk]. split; [done| |done]. split; [done|by apply wired_dispatcher_start|done].
  - destruct IH as [Hs Hroot]. unfold App.tracks in *. simpl in *. subst root.
    eapply App.app_mutations_sync; [exact (wired_stable ops _)|done..].
  - destruct v as [od ids]. apply App.map_router_tracks with ids; [|done].
    intros scs. unfold App.router_of, App.world_of in *. destruct a.2.2.2 as [r w]. intros [Ho HP Hreg].
    split; [done|exact (deliver_wired _ _ _ _ _ _ _ HP Hsn Hr)|done].
  - destruct v as [od ids]. apply App.map_router_tracks with ids; [|done].
    intros scs. destruct a.2.2.2 as [r w]. intros [Ho HP Hreg].
    split; [done|by apply (wired_router _ r r w f HP)|done].
Qed.

(** ** What the page's listeners call *)

(** The word [w], at the place [k] of the action attribute of [e], names the
    controller [i] of [c]: an element at or above [e], inside the root, which
    asks for it, and [i] is registered. *)
Definition asks dom (root : elem) (ids : list string) (c : elem) (i : string) (e : elem) (k : nat) (w : string) : Prop :=
  (i ∈ ids ∧ App.wanted dom root c i) ∧ contains dom c e = true ∧
  (∃ v, getAttribute dom e App.actionAttribute = Some v ∧ Str.words v !! k = Some w) ∧
  d_identifier (parseActionDescriptorString w) = Some i.

(** A word has an event: its own or the element's default. *)
Definition has_event (e : elem) (w : string) : Prop :=
  d_eventName (parseActionDescriptorString w) ≠ None ∨ ∀ dom, getDefaultEventNameForElement dom e ≠ None.

(** Every observer has been told of the document. *)
Definition caught_up dom (w : world doc U) : Prop := ∀ cx dom', seen w cx = Some dom' → dom' = dom.

Lemma word_at_spec (cx : context) dom e k w :
  BindingObserver.word_at cx dom e k = Some w ↔
  contains dom (cx_element cx) e = true ∧
  ∃ v, getAttribute dom e App.actionAttribute = Some v ∧ Str.words v !! k = Some w.
Proof.
  unfold BindingObserver.word_at, BindingObserver.element, ValueStack.words_of.
  destruct (contains dom (cx_element cx) e); [|by split; [|intros []]].
  destruct (getAttribute dom e App.actionAttribute); naive_solver.
Qed.

(** What a started application knows of the bindings of its contexts. *)
Lemma session_bindings root u ids dom a :
  session root u (App.mk_view (Some dom) ids) a →
  let w := App.world_of a in
  Dispatcher.Serves (λ _ _, True) (all_bindings (entries w)) (dispatcher w) ∧ Dispatcher.started (dispatcher w) = true ∧
  (∀ b, b ∈ all_bindings (entries w) ↔ ∃ cx, cx ∈ App.contexts a ∧ b ∈ BindingObserver.bindings_of (observer_of w cx)) ∧
  (∀ c i, (∃ cx, cx ∈ App.contexts a ∧ cx_element cx = c ∧ sc_identifier (cx_scope cx) = i) ↔
          i ∈ ids ∧ App.wanted dom root c i) ∧
  (∀ cx cx', cx ∈ App.contexts a → cx' ∈ App.contexts a → cx_element cx = cx_element cx' →
     sc_identifier (cx_scope cx) = sc_identifier (cx_scope cx') → cx = cx') ∧
  ∀ cx, cx ∈ App.contexts a →
    ∃ dom', seen w cx = Some dom' ∧
      bindings_match cx (sc_identifier (cx_scope cx)) dom' (BindingObserver.bindings_of (observer_of w cx)).
Proof.
  intros Hs w. apply wired_session_tracks in Hs as [Hs Hroot]. simpl in Hs.
  set (v := App.mk_view (Some dom) ids) in Hs. pose proof (wired_stable ops (kept v)) as SP.
  pose proof (App.sync_connected (app_ops ops) _ SP ids dom a) as Hconn.
  pose proof (λ cx cx', App.sync_context_unique (app_ops ops) _ ids dom a cx cx' Hs) as Hu.
  destruct (App.sync_router (app_ops ops) _ ids dom a Hs) as [Ho HW _].
  unfold App.world_of, App.contexts, App.router_of in *. subst w. destruct a.2.2.2 as [r w] eqn:Hrw. simpl in *.
  assert (∀ cx, cx ∈ Module.contexts r (cx_module cx) →
    cx ∈ Router.contexts r ∧ identifier_of r cx = sc_identifier (cx_scope cx)) as Hcx.
  { intros cx Hin. pose proof (list_elem_of_fmap_2 cx_scope _ _ Hin) as Hsc.
    apply (Router.ok_connected _ _ Ho) in Hsc as [_ Hm].
    split; [by apply (Router.elem_of_contexts _ _ _ Ho)|]. by apply (Router.ok_registered _ _ Ho) in Hm as [_ Hm]. }
  split_and!; [apply HW|apply (wired_kept _ _ HW)| | | |].
  - intros b. rewrite (elem_of_entries w b (wired_wf _ _ HW)). split; [|naive_solver]. intros [cx Hb]. exists cx.
    split; [|done]. apply Hcx, (wired_seen _ _ HW). simpl. pose proof (wired_tracks _ _ HW cx) as Ht. simpl in Ht.
    destruct (seen w cx) eqn:Hsn; [by eexists|]. exfalso.
    destruct (observer_of w cx) as [[?|] s]; [done|]. destruct Ht as [Hk _ _ _ _].
    apply Permutation_nil_r in Hk. unfold BindingObserver.bindings_of, BindingObserver.bindings, JMap.values in Hb.
    unfold JMap.keys in Hk. apply fmap_nil_inv in Hk. simpl in Hb. rewrite Hk in Hb. by apply not_elem_of_nil in Hb.
  - intros c i. rewrite <-Hroot. rewrite <-(Hconn c i Hs). unfold App.connected, App.contexts, App.router_of. by rewrite Hrw.
  - exact Hu.
  - intros cx Hin. apply (Router.elem_of_contexts _ _ _ Ho) in Hin as [_ Hin].
    destruct (Hcx cx Hin) as [_ Hid]. destruct (proj2 (wired_seen _ _ HW cx) Hin) as [dom' Hsn]. simpl in Hsn.
    exists dom'. split; [done|]. pose proof (wired_bound _ _ _ cx HW) as Ht. rewrite Hsn, Hid in Ht.
    destruct (observer_of w cx) as [[[tl vl]|] s]; [|done]. destruct Ht as [Hin' Hr].
    by apply (BindingObserver.sync_bindings cx _ (Conn := λ bs d, bound cx (others w cx) bs d ∧ kept v d) dom' tl vl s).
Qed.

Lemma caught_up_check dom (w : world doc U) :
  Forall (λ ce : context * entry doc, ∀ dom', en_seen ce.2 = Some dom' → dom' = dom) (entries w) → caught_up dom w.
Proof.
  rewrite Forall_forall. intros Hall cx dom' Hsn. unfold seen, entry_of in Hsn.
  destruct (JMap.get cx (entries w)) as [en|] eqn:Hg; [|done].
  by apply (Hall (cx, en)); [apply JMap.get_Some_elem|].
Qed.
End session.
End Wiring.

(** C1: the page is wired as its document says: whatever the application has
    been through, once its observers have been told of the document the
    listeners that the browser holds call a binding for exactly the action words
    that name a registered controller of an element at or above theirs: every
    binding they call is of such a word, and its action is parsed from it; every
    such word that has an event has a binding; and no word has two. *)
Theorem page_wired {doc U : Type} `{DomLaws doc, Tagged doc} (ops : ContextOps doc U) root u ids dom a :
  Wiring.session ops root u (App.mk_view (Some dom) ids) a → Wiring.caught_up dom (App.world_of a) →
  let d := Wiring.dispatcher (App.world_of a) in
  let called b := b ∈ Dispatcher.attached d (Dispatcher.id_of b) in
  let identifier b := sc_identifier (cx_scope (b_context b)) in
  (∀ i b, b ∈ Dispatcher.attached d i → i = Dispatcher.id_of b ∧ i ∈ Dispatcher.registered d) ∧
  (∀ b, called b → ∃ w dom' tok,
     Wiring.asks dom root ids (cx_element (b_context b)) (identifier b) (a_element (b_action b)) (a_index (b_action b)) w ∧
     tok_content tok = w ∧ forToken dom' (tok_id tok) tok = inl (b_action b)) ∧
  (∀ c i e k w, Wiring.asks dom root ids c i e k w → Wiring.has_event e w →
     ∃ b, called b ∧ cx_element (b_context b) = c ∧ identifier b = i ∧
          a_element (b_action b) = e ∧ a_index (b_action b) = k) ∧
  (∀ b b', called b → called b' → cx_element (b_context b) = cx_element (b_context b') → identifier b = identifier b' →
     a_element (b_action b) = a_element (b_action b') → a_index (b_action b) = a_index (b_action b') → b = b').
Proof.
  intros Hs Hup d called identifier.
  destruct (Wiring.session_bindings ops _ _ _ _ _ Hs) as (Hd & Hst & Hall & Hctx & Huniq & Hcx). fold d in Hd, Hst.
  assert (∀ cx, cx ∈ App.contexts a → bindings_match cx (sc_identifier (cx_scope cx)) dom
    (BindingObserver.bindings_of (Wiring.observer_of (App.world_of a) cx))) as Hmatch.
  { intros cx Hin. destruct (Hcx cx Hin) as (dom' & Hsn & Hb). by apply Hup in Hsn as ->. }
  assert (∀ b, called b ↔ ∃ cx, cx ∈ App.contexts a ∧
    b ∈ BindingObserver.bindings_of (Wiring.observer_of (App.world_of a) cx)) as Hcalled.
  { intros b. unfold called. rewrite (Dispatcher.serves_attached _ _ _ Hd), Hall. tauto. }
  assert (∀ b, called b → b_context b ∈ App.contexts a ∧
    b ∈ BindingObserver.bindings_of (Wiring.observer_of (App.world_of a) (b_context b))) as Hown.
  { intros b (cx & Hin & Hb)%Hcalled. destruct (Hmatch cx Hin) as [Hw _]. by destruct (Hw b Hb) as [-> _]. }
  split_and!.
  - intros i b Hb. pose proof Hb as [_ Hi]%(Dispatcher.serves_attached _ _ _ Hd). split; [done|].
    apply (Dispatcher.serves_registered _ _ _ Hd). split; [done|]. unfold Dispatcher.attached in Hb.
    destruct (Dispatcher.listener d i); [by eexists|by apply not_elem_of_nil in Hb].
  - intros b [Hin Hb]%Hown. destruct (Hmatch _ Hin) as [Hw _].
    destruct (Hw b Hb) as (_ & w & dom' & tok & Hword & _ & _ & Hc & Hf & Hi). exists w, dom', tok.
    apply Wiring.word_at_spec in Hword as [Hcon Hat]. split_and!; [|done|done].
    pose proof (forToken_spec dom' (tok_id tok) tok) as Hspec. rewrite Hf, Hc in Hspec.
    destruct Hspec as (_ & _ & _ & _ & _ & _ & Hid & _).
    split; [apply Hctx; by exists (b_context b)|]. split_and!; [done|done|by rewrite Hid, Hi].
  - intros c i e k w (Hwant & Hcon & Hat & Hid) Hev. apply Hctx in Hwant as (cx & Hin & <- & <-).
    destruct (Hmatch cx Hin) as (Hw & _ & Hex).
    destruct (Hex e k w) as (b & Hb & He & Hk); [by apply Wiring.word_at_spec|done|done|].
    destruct (Hw b Hb) as [Hc _]. exists b. split; [apply Hcalled; by eexists|]. unfold identifier. by rewrite Hc.
  - intros b b' Hb Hb' Hc Hi He Hk. apply Hown in Hb as [Hin Hb], Hb' as [Hin' Hb'].
    assert (b_context b = b_context b') as Heq by by apply Huniq.
    destruct (Hmatch _ Hin) as (_ & Hu & _). apply Hu; [done|by rewrite Heq|done|done].
Qed.

(** *** A page with a controller [c] on the element 2, and a button 3 in it with
    two actions of it and one of another controller. *)

Definition wired_page : PageDom.t := PageDom.mk [(0, 1); (1, 2); (2, 3)] []
  [((2, "data-controller"), "c"); ((3, "data-action"), "c#go  keydown@window->c#stop x#go")] eq_refl.

#[local] Instance wired_page_tags : Tagged PageDom.t := λ _ e, if decide (e = 3) then "BUTTON" else "DIV".

Definition idle_ops : ContextOps PageDom.t unit :=
  {| co_new _ _ u _ := u; co_connect _ _ u _ := u; co_disconnect _ _ u _ := u |}.

Definition wired_app : App.t :=
  App.start (Wiring.app_ops idle_ops) wired_page
    (App.load (Wiring.app_ops idle_ops) wired_page [mk_definition "c" "C"] (App.new 1 (Wiring.initial tt))).

Example wired_listeners :
  (λ i, (i, toString ∘ b_action <$> Dispatcher.attached (Wiring.dispatcher (App.world_of wired_app)) i)) <$>
    Dispatcher.registered (Wiring.dispatcher (App.world_of wired_app)) =
  [((ElementTarget 3, "click"), ["click->c#go"]); ((Global Window, "keydown"), ["keydown@window->c#stop"])].
Proof. vm_compute. reflexivity. Qed.

Lemma page_wired_witness :
  ∃ b, b ∈ Dispatcher.attached (Wiring.dispatcher (App.world_of wired_app)) (Dispatcher.id_of b) ∧
       a_element (b_action b) = 3 ∧ a_index (b_action b) = 1.
Proof.
  destruct (page_wired idle_ops 1 tt ["c"] wired_page wired_app) as (_ & _ & Hex & _).
  - apply Wiring.session_start.
    exact (Wiring.session_load _ 1 tt (App.mk_view None []) _ wired_page [mk_definition "c" "C"] (Wiring.session_new _ 1 tt)).
  - apply Wiring.caught_up_check. vm_compute. constructor; [|constructor]. intros dom' Heq. congruence.
  - destruct (Hex 2 "c" 3 1 "keydown@window->c#stop") as (b & Hb & _ & _ & He & Hk).
    + split; [|split; [vm_compute; reflexivity|split]].
      * split; [left|]. split; [vm_compute; reflexivity|]. exists "c". split; [vm_compute; reflexivity|left].
      * eexists. split; vm_compute; reflexivity.
      * vm_compute. reflexivity.
    + left. vm_compute. discriminate.
    + exists b. split; [exact Hb|]. split; [exact He|exact Hk].
Defined.
