(* ===== verification/Page.v ===== *)
(** The state that the controllers of [main.js] share, and the operations on
    the page that they use.

    [ui] holds the elements that are targets of controllers, the messages of
    the flash area with their timers, and the fields of the [PeerInfo]
    controller.  The browser functions whose result the program only uses are
    an interface, [Browser]. *)

From S2P Require Import Prelude JsCore JsString Json Numbers EventLoop.
From Stdlib Require Import Ascii.
From stdpp Require Import pretty.

#[local] Open Scope string_scope.
#[local] Open Scope handler_scope.

(** ** The document *)

(** What an element contains: the parsed [markup] of an [innerHTML], the text
    of an [innerText], or elements appended to it. *)
Inductive html :=
  | Markup (markup : string)
  | InnerText (text : string)
  | Element (tag : string) (classes : list string) (content : list html).

Record element := mk_element {
  el_name : option string;
  el_value : option string;
  el_files : list string;
  el_checked : bool;
  el_content : list html;
  el_scrollTop : Z;
  el_scrollLeft : Z;
  el_width : string;
}.

(** A form input and an output element. *)
Definition input (name value : string) : element :=
  mk_element (Some name) (Some value) [] false [] 0 0 "".
Definition output (content : list html) : element := mk_element None None [] false content 0 0 "".

Abbreviation target := (string * string)%type.

Record ui := mk_ui {
  (** The element ids and identifiers for which the application has a
      connected controller. *)
  controllers : list (string * string);
  (** The targets, by the identifier of their controller and their name. *)
  targets : list (target * element);
  (** The children of the flash wrapper, each a node with its content. *)
  flashes : list (nat * html);
  (** The nodes that a timer will remove. *)
  timers : list nat;
  next_node : nat;
  endpoint : option string;
  socketAddr : option string;
  console : list string;
  (** [new Date()]: hours, minutes and seconds. *)
  clock : Z * Z * Z;
  (** The files being read, the downloads triggered and the event sources
      opened. *)
  readers : list (string * string);
  downloads : list (string * string);
  sources : list string;
}.

Class Browser := {
  location_search : string;
  (** The decoded string, or the exception. *)
  decodeURIComponent : string → string + string;
  JSON_parse : string → json + string;
  (** The exception for reading a member of [null] or [undefined]. *)
  type_error : string → string;
  svg_of : string → html;
  scrollHeight : element → Z;
  scrollWidth : element → Z;
  (** Hours, minutes and seconds of a timestamp in nanoseconds. *)
  local_time : option json → string * string * string;
}.

(** *** Updates *)

Definition set_controllers cs (s : ui) : ui :=
  mk_ui cs (targets s) (flashes s) (timers s) (next_node s) (endpoint s) (socketAddr s)
    (console s) (clock s) (readers s) (downloads s) (sources s).
Definition set_targets ts (s : ui) : ui :=
  mk_ui (controllers s) ts (flashes s) (timers s) (next_node s) (endpoint s) (socketAddr s)
    (console s) (clock s) (readers s) (downloads s) (sources s).
Definition set_flashes fs ts n (s : ui) : ui :=
  mk_ui (controllers s) (targets s) fs ts n (endpoint s) (socketAddr s)
    (console s) (clock s) (readers s) (downloads s) (sources s).
Definition set_endpoint e (s : ui) : ui :=
  mk_ui (controllers s) (targets s) (flashes s) (timers s) (next_node s) (Some e) (socketAddr s)
    (console s) (clock s) (readers s) (downloads s) (sources s).
Definition set_socketAddr a (s : ui) : ui :=
  mk_ui (controllers s) (targets s) (flashes s) (timers s) (next_node s) (endpoint s) (Some a)
    (console s) (clock s) (readers s) (downloads s) (sources s).
Definition add_console l (s : ui) : ui :=
  mk_ui (controllers s) (targets s) (flashes s) (timers s) (next_node s) (endpoint s) (socketAddr s)
    (console s ++ [l]) (clock s) (readers s) (downloads s) (sources s).
Definition set_clock t (s : ui) : ui :=
  mk_ui (controllers s) (targets s) (flashes s) (timers s) (next_node s) (endpoint s) (socketAddr s)
    (console s) t (readers s) (downloads s) (sources s).
Definition add_reader f (s : ui) : ui :=
  mk_ui (controllers s) (targets s) (flashes s) (timers s) (next_node s) (endpoint s) (socketAddr s)
    (console s) (clock s) (readers s ++ [f]) (downloads s) (sources s).
Definition add_download d (s : ui) : ui :=
  mk_ui (controllers s) (targets s) (flashes s) (timers s) (next_node s) (endpoint s) (socketAddr s)
    (console s) (clock s) (readers s) (downloads s ++ [d]) (sources s).
Definition add_source u (s : ui) : ui :=
  mk_ui (controllers s) (targets s) (flashes s) (timers s) (next_node s) (endpoint s) (socketAddr s)
    (console s) (clock s) (readers s) (downloads s) (sources s ++ [u]).

Definition set_content c (el : element) : element :=
  mk_element (el_name el) (el_value el) (el_files el) (el_checked el) c
    (el_scrollTop el) (el_scrollLeft el) (el_width el).
Definition set_value v (el : element) : element :=
  mk_element (el_name el) v (el_files el) (el_checked el) (el_content el)
    (el_scrollTop el) (el_scrollLeft el) (el_width el).
Definition set_files fs (el : element) : element :=
  mk_element (el_name el) (el_value el) fs (el_checked el) (el_content el)
    (el_scrollTop el) (el_scrollLeft el) (el_width el).
Definition set_checked b (el : element) : element :=
  mk_element (el_name el) (el_value el) (el_files el) b (el_content el)
    (el_scrollTop el) (el_scrollLeft el) (el_width el).
Definition set_scrollTop z (el : element) : element :=
  mk_element (el_name el) (el_value el) (el_files el) (el_checked el) (el_content el)
    z (el_scrollLeft el) (el_width el).
Definition set_scrollLeft z (el : element) : element :=
  mk_element (el_name el) (el_value el) (el_files el) (el_checked el) (el_content el)
    (el_scrollTop el) z (el_width el).
Definition set_width w (el : element) : element :=
  mk_element (el_name el) (el_value el) (el_files el) (el_checked el) (el_content el)
    (el_scrollTop el) (el_scrollLeft el) w.

(** ** Values in strings *)

(** [`${v}`] for the [value] of an input. *)
Definition str (v : option string) : string := default "undefined" v.

(** A text between double quotes. *)
Abbreviation quoted := Str.quoted.

(** A property that [JSON.stringify] leaves out if it is [undefined], and an
    array entry that it writes [null]. *)
Definition prop (k : string) (v : option string) : list (string * json) :=
  match v with Some s => [(k, JStr s)] | None => [] end.
Definition entry (v : option string) : json :=
  match v with Some s => JStr s | None => JNull end.

Abbreviation to_string := Json.to_string.

Definition show (v : option json) : string := default "undefined" (to_string <$> v).

(** [${date.getHours()}:${date.getMinutes()}:${date.getSeconds()}] *)
Definition show_time (t : Z * Z * Z) : string :=
  let '(h, m, s) := t in pretty h +:+ ":" +:+ pretty m +:+ ":" +:+ pretty s.

(** The characters of a string, with their indexes. *)
Definition indexed (l : list json) : list (string * json) :=
  imap (λ i v, (pretty i, v)) l.
Definition chars (s : string) : list json :=
  map (λ c, JStr (String c "")) (String.list_ascii_of_string s).

(** The own enumerable properties of a value, [None] for [null]. *)
Definition entries (j : json) : option (list (string * json)) :=
  match j with
  | JObj o => Some o
  | JArr l => Some (indexed l)
  | JStr s => Some (indexed (chars s))
  | JNum _ | JBool _ => Some []
  | JNull => None
  end.

(** The keys that [for (k in v)] visits. *)
Definition for_in_keys (j : json) : list string := (default [] (entries j)).*1.

(** [v == s] for a string [s]: a number or a boolean is compared with the number
    that the text is, anything else but [null] with the text. *)
Definition equals_string (v : option json) (s : string) : bool :=
  match v with
  | None | Some JNull => false
  | Some (JNum z) => bool_decide (Number.ofString s = Number.decimal z 0)
  | Some (JBool b) => bool_decide (Number.ofString s = Number.decimal (if b then 1 else 0) 0)
  | Some v => bool_decide (to_string v = s)
  end.

(** [v == undefined] *)
Definition is_nullish (v : option json) : bool :=
  match v with None | Some JNull => true | _ => false end.

(** ** Operations of handlers *)

Section operations.
Context `{Browser}.

Abbreviation M := (M ui).

Definition modify (f : ui → ui) : M unit := let* s := get in put (f s).

(** [this.tTarget] in the controller [c]. *)
Definition find_target (c t : string) : M element :=
  let* s := get in
  match JMap.get (c, t) (targets s) with
  | Some el => ret el
  | None => throw ("Error: Missing target element " +:+ quoted (c +:+ "." +:+ t))
  end.

Definition update_target (c t : string) (f : element → element) : M unit :=
  let* el := find_target c t in
  modify (λ s, set_targets (JMap.set (c, t) (f el) (targets s)) s).

(** [this.tTarget.innerHTML = markup] and [innerText] *)
Definition set_innerHTML (c t markup : string) : M unit :=
  update_target c t (set_content (if Str.non_empty markup then [Markup markup] else [])).
Definition set_innerText (c t text : string) : M unit :=
  update_target c t (set_content [InnerText text]).

(** [this.tTarget.appendChild(child)] *)
Definition appendChild (c t : string) (child : html) : M unit :=
  update_target c t (λ el, set_content (el_content el ++ [child]) el).

Definition target_value (c t : string) : M (option string) :=
  let* el := find_target c t in ret (el_value el).

(** [this.application.getControllerForElementAndIdentifier(
    document.getElementById(id), identifier)], of which [member] is then
    read. *)
Definition controller (id identifier member : string) : M unit :=
  let* s := get in
  if bool_decide ((id, identifier) ∈ controllers s) then ret tt else throw (type_error member).

(** [await resp.text()] and [await resp.json()] *)
Definition text (resp : response) : M string := settle (response_body resp).
Definition json_of (resp : response) : M json :=
  let* body := settle (response_body resp) in
  match JSON_parse body with
  | inl v => ret v
  | inr e => throw e
  end.

(** [Object.entries(v)] *)
Definition object_entries (v : json) : M (list (string * json)) :=
  match entries v with
  | Some o => ret o
  | None => throw "TypeError: Cannot convert undefined or null to object"
  end.

(** [v.k] *)
Definition member (k : string) (v : option json) : M (option json) :=
  match v with
  | None | Some JNull => throw (type_error k)
  | Some (JObj o) => ret (JMap.get k o)
  | Some _ => ret None
  end.
End operations.

Abbreviation handler := (M ui unit).

(** A GET request, and a POST request with its content type. *)
Definition get_request (addr : string) : request := mk_request addr "GET" [] None.
Definition post_request (addr content_type : string) (b : payload) : request :=
  mk_request addr "POST" [("Content-Type", content_type)] (Some b).

#[global] Arguments find_target : simpl never.
#[global] Arguments update_target : simpl never.
#[global] Arguments target_value : simpl never.
#[global] Arguments controller : simpl never.
#[global] Arguments object_entries : simpl never.
#[global] Arguments member : simpl never.
#[global] Arguments json_of : simpl never.
#[global] Arguments text : simpl never.

(** ** What the operations do

    [run (m k e) s] is the handler [m], with what follows it in [k] and [e],
    in the state [s]. *)

Section equations.
Context `{Browser}.
Implicit Types (s : ui).

Lemma run_get {St} (k : St → cmd St) e (s : St) : run (get k e) s = run (k s) s.
Proof. done. Qed.

Lemma run_modify f (k : unit → cmd ui) e s : run (modify f k e) s = run (k tt) (f s).
Proof. done. Qed.

Lemma run_find_target c t el (k : element → cmd ui) e s :
  JMap.get (c, t) (targets s) = Some el → run (find_target c t k e) s = run (k el) s.
Proof. intros Ht. unfold find_target, bind, get. simpl. by rewrite Ht. Qed.

Lemma run_update_target c t f el (k : unit → cmd ui) e s :
  JMap.get (c, t) (targets s) = Some el →
  run (update_target c t f k e) s = run (k tt) (set_targets (JMap.set (c, t) (f el) (targets s)) s).
Proof. intros Ht. unfold update_target, bind. by rewrite (run_find_target _ _ el). Qed.

Lemma run_target_value c t el (k : option string → cmd ui) e s :
  JMap.get (c, t) (targets s) = Some el → run (target_value c t k e) s = run (k (el_value el)) s.
Proof. intros Ht. unfold target_value, bind. by rewrite (run_find_target _ _ el). Qed.

Lemma run_controller id i m (k : unit → cmd ui) e s :
  (id, i) ∈ controllers s → run (controller id i m k e) s = run (k tt) s.
Proof. intros Hc. unfold controller, bind, get. simpl. by rewrite bool_decide_eq_true_2. Qed.
End equations.

(** ** Rules of the contract logic for the operations *)

Section rules.
Context `{Browser} (C : contract ui).
Implicit Types (s : ui).

Lemma holds_modify f s (Q : unit → ui → Prop) X : Q tt (f s) → holds C (modify f) s Q X.
Proof. intros HQ. apply holds_bind, holds_get, holds_put. done. Qed.

Lemma holds_find_target c t s (Q : element → ui → Prop) (X : string → ui → Prop) :
  (∀ el, JMap.get (c, t) (targets s) = Some el → Q el s) →
  (JMap.get (c, t) (targets s) = None → ∀ e, X e s) →
  holds C (find_target c t) s Q X.
Proof.
  intros HQ HX. apply holds_bind, holds_get. destruct (JMap.get _ _) as [el|] eqn:Ht.
  - apply holds_ret. by apply HQ.
  - apply holds_throw. by apply HX.
Qed.

Lemma holds_update_target c t f s (Q : unit → ui → Prop) (X : string → ui → Prop) :
  (∀ el, JMap.get (c, t) (targets s) = Some el →
     Q tt (set_targets (JMap.set (c, t) (f el) (targets s)) s)) →
  (JMap.get (c, t) (targets s) = None → ∀ e, X e s) →
  holds C (update_target c t f) s Q X.
Proof.
  intros HQ HX. apply holds_bind, holds_find_target; [|done]. intros el Ht.
  apply holds_modify. by apply HQ.
Qed.

Lemma holds_target_value c t s (Q : option string → ui → Prop) (X : string → ui → Prop) :
  (∀ el, JMap.get (c, t) (targets s) = Some el → Q (el_value el) s) →
  (JMap.get (c, t) (targets s) = None → ∀ e, X e s) →
  holds C (target_value c t) s Q X.
Proof.
  intros HQ HX. apply holds_bind, holds_find_target; [|done]. intros el Ht.
  apply holds_ret. by apply HQ.
Qed.

Lemma holds_controller id i m s (Q : unit → ui → Prop) (X : string → ui → Prop) :
  ((id, i) ∈ controllers s → Q tt s) →
  ((id, i) ∉ controllers s → ∀ e, X e s) →
  holds C (controller id i m) s Q X.
Proof.
  intros HQ HX. apply holds_bind, holds_get. case_bool_decide.
  - apply holds_ret. by apply HQ.
  - apply holds_throw. by apply HX.
Qed.

Lemma holds_text resp s (Q : string → ui → Prop) (X : string → ui → Prop) :
  inv C s → (∀ s', inv C s' → Q (response_body resp) s') → (∀ e s', inv C s' → X e s') →
  holds C (text resp) s Q X.
Proof. apply holds_settle. Qed.

Lemma holds_json_of resp s (Q : json → ui → Prop) (X : string → ui → Prop) :
  inv C s → (∀ j s', inv C s' → JSON_parse (response_body resp) = inl j → Q j s') →
  (∀ e s', inv C s' → X e s') →
  holds C (json_of resp) s Q X.
Proof.
  intros Hs HQ HX. apply holds_bind, holds_settle; [done| |done]. intros s' Hs'.
  destruct (JSON_parse _) eqn:?; [apply holds_ret|apply holds_throw]; auto.
Qed.

Lemma holds_object_entries v s (Q : list (string * json) → ui → Prop) (X : string → ui → Prop) :
  (∀ o, entries v = Some o → Q o s) → (∀ e, X e s) → holds C (object_entries v) s Q X.
Proof.
  intros HQ HX. unfold object_entries. destruct (entries v); [apply holds_ret|apply holds_throw]; auto.
Qed.

Lemma holds_member k v s (Q : option json → ui → Prop) (X : string → ui → Prop) :
  (∀ v', Q v' s) → (∀ e, X e s) → holds C (member k v) s Q X.
Proof.
  intros HQ HX. unfold member. repeat case_match; first [by apply holds_throw|by apply holds_ret].
Qed.
End rules.
