(* ===== verification/Base.v ===== *)
(** The controllers that the others rely on: [Flash], [PeerInfo],
    [BaseElement] and [Messaging] of
    [src/gui/web/assets/scripts/main.js]. *)

From S2P Require Import Prelude JsCore JsString Json EventLoop Page.
From Stdlib Require Import Ascii.

#[local] Open Scope string_scope.
#[local] Open Scope handler_scope.

(** ** [Flash] *)

Module Flash.

(** [static get targets()] *)
Definition targets : list string :=
  ["wrapper"].

(** The text that is displayed: [content.replace(/\s+/g, ' ').trim()]. *)
Definition normalise (content : string) : string := Str.trim (Str.collapse_ws content).

Definition message (className content : string) : html :=
  Element "div" ["flash-msg"; className]
    [InnerText content; Element "span" ["closebtn"] [Markup "&times;"]; Element "span" ["progress"] []].

(** The new node, with the timer that removes it. *)
Definition createFlash (className content : string) : M ui (nat * html) :=
  let content := normalise content in
  let* s := get in
  let newDiv := (next_node s, message className content) in
  put (set_flashes (flashes s) (timers s ++ [next_node s]) (S (next_node s)) s) ;;;
  ret newDiv.

Definition append `{Browser} (flash : nat * html) : handler :=
  let* _ := find_target "flash" "wrapper" in
  modify (λ s, set_flashes (flashes s ++ [flash]) (timers s) (next_node s) s).

Definition printError `{Browser} (e : string) : handler :=
  let* flash := createFlash "error" e in append flash.

Definition printSuccess `{Browser} (e : string) : handler :=
  let* flash := createFlash "success" e in append flash.

(** [newDiv.remove()], by the timer and by the close button. *)
Definition remove (n : nat) (s : ui) : ui :=
  set_flashes (filter (λ f : nat * html, f.1 ≠ n) (flashes s)) (timers s) (next_node s) s.
Definition timeout (n : nat) (s : ui) : ui :=
  let s := remove n s in
  set_flashes (flashes s) (filter (λ m, m ≠ n) (timers s)) (next_node s) s.
Definition click_close (n : nat) (s : ui) : ui := remove n s.
End Flash.

(** ** [BaseElement] *)

Module Base.
Section base.
Context `{Browser}.

(** [this.flash.printError(e)] and [this.flash.printSuccess(e)] *)
Definition flash_error (e : string) : handler :=
  controller "flash" "flash" "printError" ;;; Flash.printError e.
Definition flash_success (e : string) : handler :=
  controller "flash" "flash" "printSuccess" ;;; Flash.printSuccess e.

Definition invalid (el : element) : bool :=
  match el_value el with
  | Some v => negb (Str.non_empty v)
  | None => true
  end.

Fixpoint checkInputs (els : list element) : M ui bool :=
  match els with
  | [] => ret true
  | el :: els =>
    if invalid el then
      flash_error ("form validation failed: " +:+ quoted (str (el_name el)) +:+ " is empty or invalid") ;;;
      ret false
    else checkInputs els
  end.

(** [this.fetch(addr, opts)] *)
Definition fetch (r : request) : M ui response :=
  let* resp := EventLoop.fetch r in
  if bool_decide (status resp ≠ 200%Z) then
    let* text := text resp in
    throw ("wrong status: " +:+ Json.to_string (JNum (status resp)) +:+ " " +:+ statusText resp
             +:+ " - " +:+ text)
  else ret resp.

(** [this.peerInfo.getAPIURL(suffix)] *)
Definition getAPIURL (suffix : string) : M ui string :=
  controller "peerInfo" "peerInfo" "getAPIURL" ;;;
  let* s := get in ret (str (endpoint s) +:+ suffix).
End base.
End Base.

(** ** [PeerInfo] *)

Module PeerInfo.

(** [static get targets()] *)
Definition targets : list string :=
  ["peerAddr"; "socketAddr"].
Section peer_info.
Context `{Browser}.

(** [s.substr(1)] *)
Definition tail (s : string) : string := match s with "" => "" | String _ s => s end.

Definition getQueryArgs (search : string) : list (string * option string) :=
  foldl (λ queryDict item,
           let parts := Str.split_on "=" item in
           Obj.assign (default "" (head parts)) (parts !! 1) queryDict)
    [] (Str.split_on "&" (tail search)).

Definition initialize : handler :=
  let queryDict := getQueryArgs location_search in
  match decodeURIComponent (str (mjoin (JMap.get "addr" queryDict))) with
  | inr error => throw error
  | inl addr =>
    let endpoint := "http://" +:+ addr in
    modify (set_endpoint endpoint) ;;;
    set_innerText "peerInfo" "peerAddr" endpoint ;;;
    modify (add_console endpoint) ;;;
    let addr := endpoint +:+ "/socket/address" in
    try_catch
      (let* resp := fetch (get_request addr) in
       let* text := text resp in
       set_innerText "peerInfo" "socketAddr" ("tcp://" +:+ text) ;;;
       modify (set_socketAddr text))
      (λ e, Base.flash_error ("failed to fetch socket address: " +:+ e))
  end.
End peer_info.
End PeerInfo.

(** ** [Messaging] *)

Module Messaging.

(** [static get targets()] *)
Definition targets : list string :=
  ["holder"; "messages"].
Section messaging.
Context `{Browser}.

Definition addMsg (el : html) : handler :=
  appendChild "messaging" "messages" el ;;;
  let* holder := find_target "messaging" "holder" in
  update_target "messaging" "holder" (set_scrollTop (scrollHeight holder)).

(** [this.messagingController.addMsg(el)] in the other controllers *)
Definition controller_addMsg (el : html) : handler :=
  controller "messaging" "messaging" "addMsg" ;;; addMsg el.
End messaging.
End Messaging.

#[global] Arguments Base.flash_error : simpl never.
#[global] Arguments Base.flash_success : simpl never.
#[global] Arguments Base.checkInputs : simpl never.
#[global] Arguments Base.fetch : simpl never.
#[global] Arguments Base.getAPIURL : simpl never.

(** ** What the flash operations do *)

(** The state after a message was printed. *)
Definition report (className content : string) (s : ui) : ui :=
  set_flashes (flashes s ++ [(next_node s, Flash.message className (Flash.normalise content))])
    (timers s ++ [next_node s]) (S (next_node s)) s.

(** The controllers that all others use are connected. *)
Record base_ok (s : ui) : Prop := {
  base_flash : ("flash", "flash") ∈ controllers s;
  base_peerInfo : ("peerInfo", "peerInfo") ∈ controllers s;
  base_wrapper : is_Some (JMap.get ("flash", "wrapper") (targets s));
}.

Lemma base_ok_report c e s : base_ok s → base_ok (report c e s).
Proof. by intros []. Qed.

Lemma base_ok_update t el s : base_ok s → base_ok (set_targets (JMap.set t el (targets s)) s).
Proof.
  intros [? ? [el' Hw]]. split; simpl; [done..|]. rewrite JMap.get_set. case_decide; eauto.
Qed.

Section equations.
Context `{Browser}.
Implicit Types (s : ui).

Lemma run_print c e (k : unit → cmd ui) h s :
  base_ok s →
  run (bind (Flash.createFlash c e) Flash.append k h) s = run (k tt) (report c e s).
Proof.
  intros [_ _ [el Hw]]. unfold Flash.createFlash, Flash.append, bind, get, put, ret. cbn.
  by rewrite (run_find_target _ _ el).
Qed.

Lemma run_flash_error e (k : unit → cmd ui) h s :
  base_ok s → run (Base.flash_error e k h) s = run (k tt) (report "error" e s).
Proof.
  intros Hb. unfold Base.flash_error, bind. rewrite run_controller by apply Hb. by apply run_print.
Qed.

Lemma run_flash_success e (k : unit → cmd ui) h s :
  base_ok s → run (Base.flash_success e k h) s = run (k tt) (report "success" e s).
Proof.
  intros Hb. unfold Base.flash_success, bind. rewrite run_controller by apply Hb. by apply run_print.
Qed.

Lemma run_getAPIURL suffix (k : string → cmd ui) h s :
  base_ok s → run (Base.getAPIURL suffix k h) s = run (k (str (endpoint s) +:+ suffix)) s.
Proof. intros Hb. unfold Base.getAPIURL, bind. by rewrite run_controller by apply Hb. Qed.

(** The message of [checkInputs] for the first input that is not valid. *)
Definition validation_error (el : element) : string :=
  "form validation failed: " +:+ quoted (str (el_name el)) +:+ " is empty or invalid".

Definition first_invalid (els : list element) : option element :=
  head (filter (λ el, Base.invalid el = true) els).

Lemma run_checkInputs els (k : bool → cmd ui) h s :
  base_ok s →
  run (Base.checkInputs els k h) s =
    match first_invalid els with
    | Some el => run (k false) (report "error" (validation_error el) s)
    | None => run (k true) s
    end.
Proof.
  intros Hb. unfold first_invalid. induction els as [|el els IH]; [done|].
  rewrite filter_cons. unfold Base.checkInputs; fold Base.checkInputs.
  destruct (Base.invalid el) eqn:Hi; cbn; [|exact IH].
  unfold bind. by rewrite run_flash_error.
Qed.

(** The exception of [BaseElement.fetch] for a response that is not OK. *)
Definition wrong_status (resp : response) : string :=
  "wrong status: " +:+ Json.to_string (JNum (status resp)) +:+ " " +:+ statusText resp
    +:+ " - " +:+ response_body resp.
End equations.

(** ** Rules *)

Section rules.
Context `{Browser} (C : contract ui).
Implicit Types (s : ui).

Lemma holds_print c e s (Q : unit → ui → Prop) (X : string → ui → Prop) :
  (is_Some (JMap.get ("flash", "wrapper") (targets s)) → Q tt (report c e s)) →
  (JMap.get ("flash", "wrapper") (targets s) = None →
     ∀ err, X err (set_flashes (flashes s) (timers s ++ [next_node s]) (S (next_node s)) s)) →
  holds C (bind (Flash.createFlash c e) Flash.append) s Q X.
Proof.
  intros HQ HX. apply holds_bind, holds_bind, holds_get, holds_bind, holds_put, holds_ret.
  apply holds_bind, holds_find_target; simpl.
  - intros el Hw. apply holds_modify. apply HQ. eauto.
  - intros Hw err. by apply HX.
Qed.

Lemma holds_fetch_ok r s (Q : response → ui → Prop) (X : string → ui → Prop) :
  inv C s → allowed C r →
  (∀ resp s', inv C s' → status resp = 200%Z → Q resp s') → (∀ e s', inv C s' → X e s') →
  holds C (Base.fetch r) s Q X.
Proof.
  intros Hs Hr HQ HX. apply holds_bind, holds_fetch; [done..| |done]. intros resp s' Hs'.
  case_bool_decide as Hst.
  - apply holds_bind, holds_text; [done| |done]. intros s'' Hs''. apply holds_throw. by apply HX.
  - apply holds_ret. apply HQ; [done|]. destruct (decide (status resp = 200%Z)); [done|contradiction].
Qed.
End rules.

(** ** Properties *)

(** The text of a flash message is the words of what was printed, each
    separated from the next by one space; so it starts and ends with no white
    space, keeps every word, and printing it again changes nothing. *)
Lemma flash_text_normal content :
  Flash.normalise content = Str.join " " (Str.words content) ∧
  Str.words (Flash.normalise content) = Str.words content ∧
  Flash.normalise (Flash.normalise content) = Flash.normalise content.
Proof.
  unfold Flash.normalise. rewrite !Str.trim_collapse.
  assert (∀ s, Str.words (Str.join " " (Str.words s)) = Str.words s) as Hw.
  { intros s. apply Str.words_join, Str.words_all. }
  by rewrite !Hw.
Qed.

(** A query string, and the last value that it gives to a key. *)
Definition query (kvs : list (string * string)) : string :=
  "?" +:+ Str.join "&" (map (λ kv, kv.1 +:+ "=" +:+ kv.2) kvs).
Definition last_value (k : string) (kvs : list (string * string)) : option string :=
  foldl (λ v kv, if decide (kv.1 = k) then Some kv.2 else v) None kvs.

(** A part of a query: no separator in it. *)
Definition plain (s : string) : Prop := Str.free "&" s ∧ Str.free "=" s.

(** The arguments of a query string are read back: a key that the query
    sets has the last value set, and any other key has none; only the key
    [__proto__] cannot be set. *)
Lemma query_args_roundtrip kvs k :
  kvs ≠ [] → Forall (λ kv, plain kv.1 ∧ plain kv.2) kvs → k ≠ Obj.proto →
  mjoin (JMap.get k (PeerInfo.getQueryArgs (query kvs))) = last_value k kvs.
Proof.
  intros Hne Hkvs Hp. unfold PeerInfo.getQueryArgs, query. simpl.
  rewrite Str.app_nil_l, Str.split_on_join.
  2:{ by destruct kvs. }
  2:{ apply Forall_fmap, (Forall_impl _ _ _ Hkvs). intros [k' v] [[] []]. simpl in *.
      apply Str.free_app. split; [done|]. by apply (Str.free_app _ "="). }
  unfold last_value.
  assert (∀ o r, mjoin (JMap.get k o) = r →
    mjoin (JMap.get k (foldl (λ queryDict item, Obj.assign (default "" (head (Str.split_on "=" item)))
             (Str.split_on "=" item !! 1) queryDict) o (map (λ kv, kv.1 +:+ "=" +:+ kv.2) kvs))) =
    foldl (λ v kv, if decide (kv.1 = k) then Some kv.2 else v) r kvs) as Hfold; [|by apply Hfold].
  clear Hne. induction Hkvs as [|[k' v] kvs [[_ Hk] [_ Hv]] Hkvs IH]; intros o r Hr; simpl in *; [done|].
  apply IH. change ("=" +:+ v) with (String "=" v).
  rewrite Str.split_on_app, Str.split_on_free by done. simpl. rewrite Obj.obj_get_assign by done. by case_decide.
Qed.

Lemma query_args_roundtrip_witness :
  mjoin (JMap.get "addr" (PeerInfo.getQueryArgs (query [("addr", "a"); ("x", ""); ("addr", "127.0.0.1:4000")]))) =
    Some "127.0.0.1:4000".
Proof.
  rewrite (query_args_roundtrip [("addr", "a"); ("x", ""); ("addr", "127.0.0.1:4000")] "addr").
  - reflexivity.
  - discriminate.
  - repeat constructor.
  - discriminate.
Defined.
