(* ===== verification/Forms.v ===== *)
(** The controllers with forms: [Unicast], [Broadcast], [Naming],
    [DataSharing] and [Search] of [src/gui/web/assets/scripts/main.js]. *)

From S2P Require Import Prelude JsCore JsString Json EventLoop Page Base.
From Stdlib Require Import Ascii.

#[local] Open Scope string_scope.
#[local] Open Scope handler_scope.

(** The chat message that is posted. *)
Definition chat (message : option string) : json :=
  JObj [("Type", JStr "chat"); ("payload", JObj (prop "Message" message))].

(** ** [Unicast] *)

Module Unicast.

(** [static get targets()] *)
Definition targets : list string :=
  ["message"; "destination"].
Section unicast.
Context `{Browser}.

Definition packet (destination message : option string) : json :=
  JObj (prop "Dest" destination ++ [("Msg", chat message)]).

(** The markup of a message that was sent. *)
Definition sent_markup (message destination : option string) (date : Z * Z * Z) : string :=
  "
                <div>
                    <p class=" +:+ quoted "msg" +:+ ">" +:+ str message +:+ "</p>
                    <p class=" +:+ quoted "details" +:+ ">
                        to " +:+ str destination +:+ " 
                        at " +:+ show_time date +:+ "
                    </p>
                </div>".

Definition send : handler :=
  let* addr := Base.getAPIURL "/messaging/unicast" in
  let* messageTarget := find_target "unicast" "message" in
  let* destinationTarget := find_target "unicast" "destination" in
  let* ok := Base.checkInputs [messageTarget; destinationTarget] in
  if negb ok then ret tt else
  let* message := target_value "unicast" "message" in
  let* destination := target_value "unicast" "destination" in
  let pkt := packet destination message in
  let fetchArgs := post_request addr "application/json" (TextBody (Json.stringify pkt)) in
  try_catch
    (let* _ := Base.fetch fetchArgs in
     let* s := get in
     let el := Element "div" ["sent"] [Markup (sent_markup message destination (clock s))] in
     Messaging.controller_addMsg el)
    (λ e, Base.flash_error ("failed to send message: " +:+ e)).
End unicast.
End Unicast.

(** ** [Broadcast] *)

Module Broadcast.

(** [static get targets()] *)
Definition targets : list string :=
  ["chatMessage"; "privateMessage"; "privateRecipients"].
Section broadcast.
Context `{Browser}.

Definition sendChat : handler :=
  let* addr := Base.getAPIURL "/messaging/broadcast" in
  let* chatMessageTarget := find_target "broadcast" "chatMessage" in
  let* ok := Base.checkInputs [chatMessageTarget] in
  if negb ok then ret tt else
  let* message := target_value "broadcast" "chatMessage" in
  let fetchArgs := post_request addr "application/json" (TextBody (Json.stringify (chat message))) in
  try_catch
    (let* _ := Base.fetch fetchArgs in
     Base.flash_success "chat message broadcasted")
    (λ e, Base.flash_error ("failed to send message: " +:+ e)).

(** [destination.split(",").forEach(e => recipients[e.trim()] = {})] *)
Definition recipients (destination : string) : list (string * json) :=
  foldl (λ recipients e, Obj.assign (Str.trim e) (JObj []) recipients) [] (Str.split_on "," destination).

Definition private_message (destination : string) (message : option string) : json :=
  JObj [("Type", JStr "private");
        ("payload", JObj [("Recipients", JObj (recipients destination)); ("Msg", chat message)])].

Definition sendPrivate : handler :=
  let* addr := Base.getAPIURL "/messaging/broadcast" in
  let* privateMessageTarget := find_target "broadcast" "privateMessage" in
  let* privateRecipientsTarget := find_target "broadcast" "privateRecipients" in
  let* ok := Base.checkInputs [privateMessageTarget; privateRecipientsTarget] in
  if negb ok then ret tt else
  let* destination := target_value "broadcast" "privateRecipients" in
  let* message := target_value "broadcast" "privateMessage" in
  match destination with
  | None => throw (type_error "split")
  | Some destination =>
    let fetchArgs := post_request addr "application/json"
      (TextBody (Json.stringify (private_message destination message))) in
    try_catch
      (let* _ := Base.fetch fetchArgs in
       Base.flash_success "private message sent")
      (λ e, Base.flash_error ("failed to send message: " +:+ e))
  end.
End broadcast.
End Broadcast.

(** ** [Naming] *)

Module Naming.

(** [static get targets()] *)
Definition targets : list string :=
  ["resolveResult"; "resolveFilename"; "tagFilename"; "tagMetahash"].
Section naming.
Context `{Browser}.

(** The result of [checkInputs] is not used. *)
Definition resolve : handler :=
  let* resolveFilenameTarget := find_target "naming" "resolveFilename" in
  let* _ := Base.checkInputs [resolveFilenameTarget] in
  let* filename := target_value "naming" "resolveFilename" in
  let* addr := Base.getAPIURL ("/datasharing/naming?name=" +:+ str filename) in
  try_catch
    (let* resp := Base.fetch (get_request addr) in
     let* text := text resp in
     (if bool_decide (text = "")
      then set_innerHTML "naming" "resolveResult" "<i>nothing found</i>"
      else set_innerHTML "naming" "resolveResult" text) ;;;
     Base.flash_success "filename resolved")
    (λ e, Base.flash_error ("Failed to resolve filename: " +:+ e)).

Definition tag : handler :=
  let* addr := Base.getAPIURL "/datasharing/naming" in
  let* tagFilenameTarget := find_target "naming" "tagFilename" in
  let* tagMetahashTarget := find_target "naming" "tagMetahash" in
  let* ok := Base.checkInputs [tagFilenameTarget; tagMetahashTarget] in
  if negb ok then ret tt else
  let* filename := target_value "naming" "tagFilename" in
  let* metahash := target_value "naming" "tagMetahash" in
  let fetchArgs := post_request addr "application/json"
    (TextBody (Json.stringify (JArr [entry filename; entry metahash]))) in
  try_catch
    (let* _ := Base.fetch fetchArgs in
     Base.flash_success "tagging done")
    (λ e, Base.flash_error ("failed to tag filename: " +:+ e)).
End naming.
End Naming.

(** ** [DataSharing] *)

Module DataSharing.

(** [static get targets()] *)
Definition targets : list string :=
  ["uploadResult"; "fileUpload"; "downloadMetahash"].
Section data_sharing.
Context `{Browser}.

(** The listener of the reader's [load] event. *)
Definition upload_load (addr result : string) : handler :=
  let fetchArgs := post_request addr "multipart/form-data" (FileBody result) in
  try_catch
    (let* resp := Base.fetch fetchArgs in
     let* text := text resp in
     Base.flash_success ("data uploaded, metahash: " +:+ text) ;;;
     set_innerHTML "dataSharing" "uploadResult" ("Metahash: " +:+ text))
    (λ e, Base.flash_error ("failed to upload data: " +:+ e)).

(** [Math.round((loaded / total) * 100)] for [0 < total]. *)
Definition percent (loaded total : Z) : Z := ((200 * loaded + total) / (2 * total))%Z.

(** The listener of the reader's [progress] event. *)
Definition upload_progress (loaded total : Z) : handler :=
  if bool_decide (loaded ≠ 0%Z ∧ total ≠ 0%Z)
  then Base.flash_success ("File upload progress: " +:+ Json.to_string (JNum (percent loaded total)))
  else ret tt.

Definition upload : handler :=
  let* addr := Base.getAPIURL "/datasharing/upload" in
  let* fileUploadTarget := find_target "dataSharing" "fileUpload" in
  match el_files fileUploadTarget with
  | [] => Base.flash_error "No file found"
  | file :: _ => modify (add_reader (addr, file))
  end.

Definition triggerDownload (metahash blob : string) : handler :=
  modify (add_download (metahash, blob)).

Definition download : handler :=
  let* downloadMetahashTarget := find_target "dataSharing" "downloadMetahash" in
  let* ok := Base.checkInputs [downloadMetahashTarget] in
  if negb ok then ret tt else
  let* metahash := target_value "dataSharing" "downloadMetahash" in
  let* addr := Base.getAPIURL ("/datasharing/download?key=" +:+ str metahash) in
  try_catch
    (let* resp := Base.fetch (get_request addr) in
     let* blob := settle (response_body resp) in
     triggerDownload (str metahash) blob ;;;
     Base.flash_success "Data downloaded!")
    (λ e, Base.flash_error ("Failed to download data: " +:+ e)).
End data_sharing.
End DataSharing.

(** ** [Search] *)

Module Search.

(** [static get targets()] *)
Definition targets : list string :=
  ["searchAllResult"; "searchAllPattern"; "searchAllBudget"; "searchAllTimeout"; "searchFirstResult";
   "searchFirstPattern"; "searchFirstInitialBudget"; "searchFirstFactor"; "searchFirstRetry"; "searchFirstTimeout"].
Section search.
Context `{Browser}.

(** [parseInt(v)] *)
Definition number (v : option string) : json := Json.of_number (Json.parseInt (str v)).

Definition all_packet (pattern budget timeout : option string) : json :=
  JObj (prop "Pattern" pattern ++ [("Budget", number budget)] ++ prop "Timeout" timeout).

Definition searchAll : handler :=
  let* addr := Base.getAPIURL "/datasharing/searchAll" in
  let* patternTarget := find_target "search" "searchAllPattern" in
  let* budgetTarget := find_target "search" "searchAllBudget" in
  let* timeoutTarget := find_target "search" "searchAllTimeout" in
  let* ok := Base.checkInputs [patternTarget; budgetTarget; timeoutTarget] in
  if negb ok then ret tt else
  let* pattern := target_value "search" "searchAllPattern" in
  let* budget := target_value "search" "searchAllBudget" in
  let* timeout := target_value "search" "searchAllTimeout" in
  let pkt := all_packet pattern budget timeout in
  let fetchArgs := post_request addr "multipart/form-data" (TextBody (Json.stringify pkt)) in
  try_catch
    (set_innerHTML "search" "searchAllResult" "<i>searching all...</i>" ;;;
     let* resp := Base.fetch fetchArgs in
     let* text := text resp in
     Base.flash_success ("SearchAll done, result: " +:+ text) ;;;
     set_innerHTML "search" "searchAllResult" ("Names: " +:+ text))
    (λ e, Base.flash_error ("failed to searchAll: " +:+ e)).

Definition first_packet (pattern initial factor retry timeout : option string) : json :=
  JObj (prop "Pattern" pattern ++
        [("Initial", number initial); ("Factor", number factor); ("Retry", number retry)] ++
        prop "Timeout" timeout).

Definition searchFirst : handler :=
  let* addr := Base.getAPIURL "/datasharing/searchFirst" in
  let* patternTarget := find_target "search" "searchFirstPattern" in
  let* initialTarget := find_target "search" "searchFirstInitialBudget" in
  let* factorTarget := find_target "search" "searchFirstFactor" in
  let* retryTarget := find_target "search" "searchFirstRetry" in
  let* timeoutTarget := find_target "search" "searchFirstTimeout" in
  let* ok := Base.checkInputs [patternTarget; initialTarget; factorTarget; retryTarget; timeoutTarget] in
  if negb ok then ret tt else
  let* pattern := target_value "search" "searchFirstPattern" in
  let* initial := target_value "search" "searchFirstInitialBudget" in
  let* factor := target_value "search" "searchFirstFactor" in
  let* retry := target_value "search" "searchFirstRetry" in
  let* timeout := target_value "search" "searchFirstTimeout" in
  let pkt := first_packet pattern initial factor retry timeout in
  let fetchArgs := post_request addr "multipart/form-data" (TextBody (Json.stringify pkt)) in
  try_catch
    (set_innerHTML "search" "searchFirstResult" "<i>searching first...</i>" ;;;
     let* resp := Base.fetch fetchArgs in
     let* text := text resp in
     Base.flash_success ("Search done, result: " +:+ text) ;;;
     (if bool_decide (text = "")
      then set_innerHTML "search" "searchFirstResult" "<i>Nothing found</i>"
      else set_innerHTML "search" "searchFirstResult" ("Names: " +:+ text)) ;;;
     Base.flash_success ("search first done, result: " +:+ text))
    (λ e, Base.flash_error ("failed to Search first: " +:+ e)).
End search.
End Search.

(** ** The recipients of a private message *)

(** The recipients of a private message are exactly the comma-separated
    parts of the input without the white space around them, each once, and
    each maps to an empty object; a part [__proto__] is no recipient. *)
Lemma recipients_spec destination :
  (∀ k, k ∈ Obj.keys (Broadcast.recipients destination) ↔
        k ∈ map Str.trim (Str.split_on "," destination) ∧ k ≠ Obj.proto) ∧
  NoDup (Obj.keys (Broadcast.recipients destination)) ∧
  (∀ k v, JMap.get k (Broadcast.recipients destination) = Some v → v = JObj []).
Proof.
  unfold Broadcast.recipients. set (parts := Str.split_on "," destination). clearbody parts.
  set (add := λ recipients e, Obj.assign (Str.trim e) (JObj []) recipients).
  assert (∀ o : list (string * json), NoDup (Obj.keys o) →
    (∀ k v, JMap.get k o = Some v → v = JObj []) →
    let o' := foldl add o parts in
    (∀ k, k ∈ Obj.keys o' ↔ k ∈ Obj.keys o ∨ (k ∈ map Str.trim parts ∧ k ≠ Obj.proto)) ∧
    NoDup (Obj.keys o') ∧ ∀ k v, JMap.get k o' = Some v → v = JObj []) as Hall.
  { induction parts as [|e parts IH]; intros o Hn Hv; simpl.
    - split_and!; [|done..]. intros k. pose proof (not_elem_of_nil k). tauto.
    - destruct (IH (add o e)) as (Hk & Hn' & Hv').
      + by apply Obj.obj_NoDup_assign.
      + by apply (Obj.obj_values_assign _ _ _ (λ v, v = JObj [])).
      + split_and!; [|done..]. intros k. rewrite Hk. unfold add.
        rewrite Obj.obj_keys_assign, elem_of_cons. intuition congruence. }
  destruct (Hall []) as (Hk & Hn & Hv); [constructor|done|].
  split_and!; [|done..]. intros k. rewrite Hk. pose proof (not_elem_of_nil k). tauto.
Qed.

(** ** The progress of an upload *)

(** C39: the progress that an upload reports is a percentage: between 0 and 100
    for the sizes of a progress event, within half a percent of the share that
    is loaded, 100 once everything is, and never going down. *)
Theorem percent_bounds loaded loaded' total :
  (0 < loaded ≤ loaded' ∧ loaded' ≤ total →
   0 ≤ DataSharing.percent loaded total ≤ 100 ∧
   2 * Z.abs (100 * loaded - DataSharing.percent loaded total * total) ≤ total ∧
   DataSharing.percent total total = 100 ∧
   DataSharing.percent loaded total ≤ DataSharing.percent loaded' total)%Z.
Proof.
  intros [[H0 H1] H2]. unfold DataSharing.percent.
  assert (0 < 2 * total)%Z as Ht by lia.
  pose proof (Z.mul_div_le (200 * loaded + total) _ Ht). pose proof (Z.mul_succ_div_gt (200 * loaded + total) _ Ht).
  split_and!.
  - apply Z.div_pos; lia.
  - apply Z.lt_succ_r, Z.div_lt_upper_bound; lia.
  - nia.
  - symmetry. apply (Z.div_unique _ _ _ total); lia.
  - apply Z.div_le_mono; lia.
Qed.

Lemma percent_bounds_witness : DataSharing.percent 3 7 = 43%Z ∧ (DataSharing.percent 3 7 ≤ DataSharing.percent 5 7)%Z.
Proof. split; [reflexivity|]. apply (percent_bounds 3 5 7). lia. Defined.
