(* ===== verification/Tables.v ===== *)
(** The controllers that display what the node reports: [Routing], [Catalog]
    and [Packets] of [src/gui/web/assets/scripts/main.js]. *)

From S2P Require Import Prelude JsCore JsString Json EventLoop Page Base.
From Stdlib Require Import Ascii.

#[local] Open Scope string_scope.
#[local] Open Scope handler_scope.

(** ** [Routing] *)

Module Routing.

(** [static get targets()] *)
Definition targets : list string :=
  ["table"; "graphviz"; "peer"; "origin"; "relay"].
Section routing.
Context `{Browser}.

(** A row of the routing table. *)
Definition row (origin : string) (relay : json) : html :=
  Element "tr" [] [Markup ("<td>" +:+ origin +:+ "</td><td>" +:+ to_string relay +:+ "</td>")].

Definition update_table (addr : string) : handler :=
  try_catch
    (let* resp := Base.fetch (get_request addr) in
     let* data := json_of resp in
     set_innerHTML "routing" "table" "" ;;;
     let* entries := object_entries data in
     for_each entries (λ e, appendChild "routing" "table" (row e.1 e.2)) ;;;
     Base.flash_success "Routing table updated")
    (λ e, Base.flash_error ("Failed to fetch routing: " +:+ e)).

Definition update_graph (graphAddr : string) : handler :=
  try_catch
    (let* resp := Base.fetch (get_request graphAddr) in
     let* data := text resp in
     let* element := settle (svg_of data) in
     set_innerHTML "routing" "graphviz" "" ;;;
     appendChild "routing" "graphviz" element)
    (λ e, Base.flash_error ("Failed to display routing: " +:+ e)).

Definition update : handler :=
  let* addr := Base.getAPIURL "/messaging/routing" in
  update_table addr ;;;
  update_graph (addr +:+ "?graphviz=on").

Definition initialize : handler := spawn update.

Definition addPeer : handler :=
  let* peerTarget := find_target "routing" "peer" in
  let* ok := Base.checkInputs [peerTarget] in
  if negb ok then ret tt else
  let* addr := Base.getAPIURL "/messaging/peers" in
  let* peer := target_value "routing" "peer" in
  let fetchArgs := post_request addr "application/json" (TextBody (Json.stringify (JArr [entry peer]))) in
  try_catch
    (let* _ := Base.fetch fetchArgs in
     Base.flash_success "peer added" ;;;
     spawn update)
    (λ e, Base.flash_error ("failed to add peer: " +:+ e)).

Definition entry_message (origin relay : option string) : json :=
  JObj (prop "Origin" origin ++ prop "RelayAddr" relay).

Definition setEntry : handler :=
  let* addr := Base.getAPIURL "/messaging/routing" in
  let* originTarget := find_target "routing" "origin" in
  let* ok := Base.checkInputs [originTarget] in
  if negb ok then ret tt else
  let* origin := target_value "routing" "origin" in
  let* relay := target_value "routing" "relay" in
  let message := entry_message origin relay in
  let fetchArgs := post_request addr "application/json" (TextBody (Json.stringify message)) in
  try_catch
    (let* _ := Base.fetch fetchArgs in
     (if bool_decide (relay = Some "")
      then Base.flash_success "Entry deleted"
      else Base.flash_success "Entry set") ;;;
     spawn update)
    (λ e, Base.flash_error ("failed to set entry: " +:+ e)).
End routing.
End Routing.

(** ** [Catalog] *)

Module Catalog.

(** [static get targets()] *)
Definition targets : list string :=
  ["content"; "key"; "value"].
Section catalog.
Context `{Browser}.

Definition paragraph (markup : string) : html :=
  Element "p" [] (if Str.non_empty markup then [Markup markup] else []).

(** A chunk with the peers that have it. *)
Definition chunk_entry (chunk : string) (peersBag : json) : html :=
  Element "div" [] (paragraph chunk :: map paragraph (for_in_keys peersBag)).

Definition update : handler :=
  let* addr := Base.getAPIURL "/datasharing/catalog" in
  try_catch
    (let* resp := Base.fetch (get_request addr) in
     let* data := json_of resp in
     set_innerHTML "catalog" "content" "" ;;;
     let* entries := object_entries data in
     if bool_decide (length entries = 0)
     then set_innerHTML "catalog" "content" "<i>no elements</i>" ;;;
          Base.flash_success "Catalog updated, nothing found"
     else for_each entries (λ e, appendChild "catalog" "content" (chunk_entry e.1 e.2)) ;;;
          Base.flash_success "Catalog updated")
    (λ e, Base.flash_error ("Failed to fetch catalog: " +:+ e)).

Definition initialize : handler := spawn update.

Definition add : handler :=
  let* addr := Base.getAPIURL "/datasharing/catalog" in
  let* keyTarget := find_target "catalog" "key" in
  let* valueTarget := find_target "catalog" "value" in
  let* ok := Base.checkInputs [keyTarget; valueTarget] in
  if negb ok then ret tt else
  let* key := target_value "catalog" "key" in
  let* value := target_value "catalog" "value" in
  let fetchArgs := post_request addr "application/json"
    (TextBody (Json.stringify (JArr [entry key; entry value]))) in
  try_catch
    (let* _ := Base.fetch fetchArgs in
     spawn update)
    (λ e, Base.flash_error ("failed to add catalog entry: " +:+ e)).
End catalog.
End Catalog.

(** ** [Packets] *)

Module Packets.

(** [static get targets()] *)
Definition targets : list string :=
  ["follow"; "holder"; "scroll"; "packets"].
Section packets.
Context `{Browser}.

(** The event source is opened and its listeners are set; the listeners are
    [packetMessage], [packetError] and [packetsScroll]. *)
Definition initialize : handler :=
  let* addr := Base.getAPIURL "/registry/pktnotify" in
  modify (add_source addr) ;;;
  let* _ := find_target "packets" "holder" in
  ret tt.

Definition chat_markup (message source : string) (date : string * string * string) : string :=
  let '(h, m, s) := date in
  "<div><p class=" +:+ quoted "msg" +:+ ">" +:+ message +:+ "</p><p class=" +:+ quoted "details" +:+
  ">from " +:+ source +:+ " at " +:+ h +:+ ":" +:+ m +:+ ":" +:+ s +:+ "</p></div>".

(** The chat message of a packet, added to the messages. *)
Definition show_chat (pkt msg : option json) : handler :=
  let* header := member "Header" pkt in
  let* timestamp := member "Timestamp" header in
  let* source := member "Source" header in
  controller "peerInfo" "peerInfo" "socketAddr" ;;;
  let* s := get in
  let class :=
    if match socketAddr s with Some a => equals_string source a | None => is_nullish source end
    then "sent" else "received" in
  let* payload := member "Payload" msg in
  let* message := member "Message" payload in
  Messaging.controller_addMsg
    (Element "div" [class] [Markup (chat_markup (show message) (show source) (local_time timestamp))]).

Definition packetMessage (data : string) : handler :=
  match JSON_parse data with
  | inr e => throw e
  | inl pkt =>
    let* msg := member "Msg" (Some pkt) in
    let* type := member "Type" msg in
    (if equals_string type "chat" then show_chat (Some pkt) msg else ret tt) ;;;
    appendChild "packets" "packets"
      (Element "div" [] [Markup ("<pre>" +:+ Json.stringify_indent 0 pkt +:+ "</pre>")]) ;;;
    let* packets := find_target "packets" "packets" in
    update_target "packets" "scroll"
      (set_width (Json.to_string (JNum (scrollWidth packets)) +:+ "px")) ;;;
    let* follow := find_target "packets" "follow" in
    if el_checked follow then
      update_target "packets" "packets" (λ el, set_scrollLeft (scrollWidth el) el) ;;;
      update_target "packets" "holder" (λ el, set_scrollLeft (scrollWidth el) el)
    else ret tt
  end.

Definition packetError : handler :=
  Base.flash_error "failed to listen pkt: stopped listening".

Definition packetsScroll : handler :=
  let* holder := find_target "packets" "holder" in
  update_target "packets" "packets" (set_scrollLeft (el_scrollLeft holder)).
End packets.
End Packets.
