(* ===== verification/Submit.v ===== *)
(** What submitting a form does: validation, one request, and the outcome for
    every way in which the request can end.

    [submits] is the contract that the handlers of [main.js] which post a form
    are meant to fulfil (the comment of [checkInputs]: the caller should exit
    if it returns false); [submits_text] is the contract of those that then
    read the text of the response. *)

From S2P Require Import Prelude JsCore JsString Json EventLoop Page Base Forms Tables.

#[local] Open Scope string_scope.
#[local] Open Scope handler_scope.

(** ** The page *)

Definition targets_of (c : string) (names : list string) : list target := map (λ t, (c, t)) names.

Definition all_targets : list target :=
  targets_of "flash" Flash.targets ++ targets_of "peerInfo" PeerInfo.targets ++
  targets_of "messaging" Messaging.targets ++ targets_of "unicast" Unicast.targets ++
  targets_of "broadcast" Broadcast.targets ++ targets_of "naming" Naming.targets ++
  targets_of "dataSharing" DataSharing.targets ++ targets_of "search" Search.targets ++
  targets_of "routing" Routing.targets ++ targets_of "catalog" Catalog.targets ++
  targets_of "packets" Packets.targets.

(** The controllers that others call are connected and every target is
    there. *)
Record page_ok (s : ui) : Prop := {
  page_base : base_ok s;
  page_messaging : ("messaging", "messaging") ∈ controllers s;
  page_targets t : t ∈ all_targets → is_Some (JMap.get t (targets s));
}.

Lemma page_ok_report c e s : page_ok s → page_ok (report c e s).
Proof. intros []. split; [by apply base_ok_report|done..]. Qed.

Lemma page_ok_update t el s : page_ok s → page_ok (set_targets (JMap.set t el (targets s)) s).
Proof.
  intros [? ? Ht]. split; [by apply base_ok_update|done|]. intros t' Ht'. simpl.
  rewrite JMap.get_set. case_decide; [eauto|]. by apply Ht.
Qed.

(** The element that is a target of a page. *)
Definition target_of (s : ui) (t : target) : element := default (output []) (JMap.get t (targets s)).

Lemma target_of_get s t : page_ok s → t ∈ all_targets → JMap.get t (targets s) = Some (target_of s t).
Proof.
  intros Hp Ht. destruct (page_targets s Hp t Ht) as [el Hel]. unfold target_of. by rewrite Hel.
Qed.

Lemma target_of_report c e s t : target_of (report c e s) t = target_of s t.
Proof. done. Qed.

(** The decision procedure for membership in [all_targets]. *)
Ltac is_target := apply (bool_decide_unpack _); vm_compute; exact I.

#[export] Hint Resolve page_base page_ok_report page_ok_update base_ok_report base_ok_update : js.

(** ** The contract *)

Section contract.
Context `{Browser}.

(** The inputs that a form requires, the request it posts, the state it shows
    while it waits, the prefix of its error messages and what it does on
    success: the new state and the requests it sends. *)
Record form := mk_form {
  fm_required : list target;
  fm_request : ui → request;
  fm_waiting : ui → ui;
  fm_error : string;
}.

(** The turn ends in [s'] having sent [rs]; every rejection is handled. *)
Definition ends (t : turn ui) (s' : ui) (rs : list request) : Prop :=
  tn_state t = s' ∧ tn_sent t = rs ∧ tn_unhandled t = [].

(** The handler reports the error [e] and is done. *)
Definition reports (f : form) (t : turn ui) (e : string) (s : ui) : Prop :=
  t = mk_turn (report "error" (fm_error f +:+ e) s) [] [] [].

(** A response that is not OK, or no response. *)
Definition failure_spec (f : form) (k : response + string → cmd ui) : Prop :=
  (∀ e s, page_ok s → reports f (run (k (inr e)) s) e s) ∧
  (∀ resp s, status resp ≠ 200%Z →
     ∃ k', run (k (inl resp)) s = mk_turn s [Settling k'] [] [] ∧
       ∀ s', page_ok s' →
         reports f (run (k' None) s') (wrong_status resp) s' ∧
         ∀ e, reports f (run (k' (Some e)) s') e s').

(** Inputs are checked first; if one is missing, it is reported and nothing is
    sent. *)
Definition submission_spec (m : handler) (f : form)
    (success : ui → (response + string → cmd ui) → Prop) : Prop :=
  ∀ s, page_ok s →
    match first_invalid (map (target_of s) (fm_required f)) with
    | Some el => run (start m) s = mk_turn (report "error" (validation_error el) s) [] [] []
    | None =>
      ∃ k, run (start m) s =
             mk_turn (fm_waiting f s) [Fetching (fm_request f s) k] [fm_request f s] [] ∧
           failure_spec f k ∧ success s k
    end.

(** [success s0 s] and [follow_up s0 s]: the state after a success in [s] of a
    form that was submitted in [s0], and the requests that this sends. *)
Definition submits (m : handler) (f : form) (success : ui → ui → ui)
    (follow_up : ui → ui → list request) : Prop :=
  submission_spec m f (λ s0 k,
    ∀ resp s, page_ok s → status resp = 200%Z →
      ends (run (k (inl resp)) s) (success s0 s) (follow_up s0 s)).

(** [success s0 text s]: the same for a form whose handler reads the body
    [text] of the response. *)
Definition submits_text (m : handler) (f : form) (success : ui → string → ui → ui) : Prop :=
  submission_spec m f (λ s0 k,
    ∀ resp s, status resp = 200%Z →
      ∃ k', run (k (inl resp)) s = mk_turn s [Settling k'] [] [] ∧
        ∀ s', page_ok s' →
          ends (run (k' None) s') (success s0 (response_body resp) s') [] ∧
          ∀ e, reports f (run (k' (Some e)) s') e s').
End contract.

(** ** Execution *)

Section execution.
Context `{Browser}.
Implicit Types (s : ui).

(** What follows [this.fetch]. *)
Definition fetched (k : response → cmd ui) (h : string → cmd ui) (o : response + string) : cmd ui :=
  match o with
  | inl resp =>
    (if bool_decide (status resp ≠ 200%Z)
     then bind (text resp) (λ t, throw
       ("wrong status: " +:+ Json.to_string (JNum (status resp)) +:+ " " +:+ statusText resp
          +:+ " - " +:+ t))
     else ret resp) k h
  | inr e => h e
  end.

Lemma run_fetch_ok r (k : response → cmd ui) h s :
  run (Base.fetch r k h) s = mk_turn s [Fetching r (fetched k h)] [r] [].
Proof. done. Qed.

Lemma fetched_ok k h resp : status resp = 200%Z → fetched k h (inl resp) = k resp.
Proof. intros Hs. simpl. by rewrite bool_decide_eq_false_2 by auto. Qed.

Lemma fetched_failure (f : form) k h :
  (∀ e s, page_ok s → reports f (run (h e) s) e s) → failure_spec f (fetched k h).
Proof.
  intros Hh. split; [done|]. intros resp s Hs. simpl. rewrite bool_decide_eq_true_2 by done.
  eexists. split; [done|]. intros s' Hs'. split; [by apply Hh|]. intros e. by apply Hh.
Qed.

Lemma run_page_target c t s (k : element → cmd ui) h :
  page_ok s → (c, t) ∈ all_targets → run (find_target c t k h) s = run (k (target_of s (c, t))) s.
Proof. intros Hp Ht. by rewrite (run_find_target _ _ (target_of s (c, t))) by by apply target_of_get. Qed.

Lemma run_page_value c t s (k : option string → cmd ui) h :
  page_ok s → (c, t) ∈ all_targets →
  run (target_value c t k h) s = run (k (el_value (target_of s (c, t)))) s.
Proof. intros Hp Ht. by rewrite (run_target_value _ _ (target_of s (c, t))) by by apply target_of_get. Qed.

Lemma run_page_update c t f s (k : unit → cmd ui) h :
  page_ok s → (c, t) ∈ all_targets →
  run (update_target c t f k h) s =
    run (k tt) (set_targets (JMap.set (c, t) (f (target_of s (c, t))) (targets s)) s).
Proof. intros Hp Ht. by rewrite (run_update_target _ _ _ (target_of s (c, t))) by by apply target_of_get. Qed.
End execution.

(** [exec] runs a handler on a page up to its next [await]. *)
Ltac exec :=
  repeat first
    [ rewrite run_getAPIURL by auto with js
    | rewrite run_page_target by (auto with js; is_target)
    | rewrite run_page_value by (auto with js; is_target)
    | rewrite run_page_update by (auto with js; is_target)
    | rewrite run_checkInputs by auto with js
    | rewrite run_flash_error by auto with js
    | rewrite run_flash_success by auto with js
    | progress cbn [run ret throw start bind try_catch negb] ].

Section forms.
Context `{Browser}.

(** A handler that reports an error and is done. *)
Lemma reports_error (f : form) e s :
  page_ok s → reports f (run (Base.flash_error (fm_error f +:+ e) (λ _, Done) Unhandled) s) e s.
Proof. intros Hp. unfold reports. by rewrite run_flash_error by auto with js. Qed.

Lemma first_invalid_None els el :
  first_invalid els = None → el ∈ els → ∃ v, el_value el = Some v ∧ v ≠ "".
Proof.
  unfold first_invalid. intros Hf Hel.
  assert (filter (λ el, Base.invalid el = true) els = []) as Hnil by by destruct (filter _ els).
  destruct (decide (Base.invalid el = true)) as [Hi|Hi].
  { assert (el ∈ filter (λ el, Base.invalid el = true) els) as Hin by by apply list_elem_of_filter.
    rewrite Hnil in Hin. by apply not_elem_of_nil in Hin. }
  unfold Base.invalid in Hi. destruct (el_value el) as [v|]; [|done]. exists v. split; [done|].
  intros ->. done.
Qed.

Lemma first_invalid_one el : Base.invalid el = true → first_invalid [el] = Some el.
Proof. intros Hi. unfold first_invalid. by rewrite filter_cons_True. Qed.

Lemma run_spawn (m : handler) (k : unit → cmd ui) h s :
  run (spawn m k h) s =
    let t := run (start m) s in
    let t' := run (k tt) (tn_state t) in
    mk_turn (tn_state t') (tn_waiting t ++ tn_waiting t') (tn_sent t ++ tn_sent t')
      (tn_unhandled t ++ tn_unhandled t').
Proof. done. Qed.

(** The value of an input of the page. *)
Definition value_of (s : ui) (c t : string) : option string := el_value (target_of s (c, t)).

(** A POST to the node. *)
Definition post_json (suffix : string) (j : ui → json) (s : ui) : request :=
  post_request (str (endpoint s) +:+ suffix) "application/json" (TextBody (Json.stringify (j s))).

End forms.

(** [submit_to f] proves the request and the failures of a handler with the
    form [f] that has passed the validation, [submit f] also its validation;
    what the success does is left. *)
Ltac submit_to f :=
  let e := fresh "e" in let s' := fresh "s'" in let Hs' := fresh "Hs'" in
  exec; unfold try_catch, bind; exec; rewrite run_fetch_ok;
  eexists; split; [reflexivity|]; split;
  [apply fetched_failure; intros e s' Hs'; by apply (reports_error f)|].
Ltac validate :=
  exec; simpl map; destruct (first_invalid _) as [el|] eqn:Hvalid; [reflexivity|]; exec.
Ltac submit f := validate; submit_to f.

Section submissions.
Context `{Browser}.

(** *** [Broadcast] *)

Definition sendChat_form : form := mk_form
  [("broadcast", "chatMessage")]
  (post_json "/messaging/broadcast" (λ s, chat (value_of s "broadcast" "chatMessage")))
  id "failed to send message: ".

(** Broadcasting a chat message: the message must not be empty; one POST
    with the chat packet is sent; every failure is reported, and a success is
    reported. *)
Lemma sendChat_submits :
  submits Broadcast.sendChat sendChat_form
    (λ _, report "success" "chat message broadcasted") (λ _ _, []).
Proof.
  intros s0 Hp0. unfold start, Broadcast.sendChat, bind. submit sendChat_form.
  intros resp s Hs Hst. rewrite fetched_ok by done. by exec.
Qed.

Definition sendPrivate_form : form := mk_form
  [("broadcast", "privateMessage"); ("broadcast", "privateRecipients")]
  (post_json "/messaging/broadcast" (λ s,
     Broadcast.private_message (str (value_of s "broadcast" "privateRecipients"))
       (value_of s "broadcast" "privateMessage")))
  id "failed to send message: ".

(** Sending a private message: the message and the recipients must not be
    empty; one POST with the recipients and the chat packet is sent; every
    failure is reported, and a success is reported. *)
Lemma sendPrivate_submits :
  submits Broadcast.sendPrivate sendPrivate_form
    (λ _, report "success" "private message sent") (λ _ _, []).
Proof.
  intros s Hp. unfold start, Broadcast.sendPrivate, bind. validate.
  destruct (first_invalid_None _ (target_of s ("broadcast", "privateRecipients")) Hvalid)
    as (v & Hv & _); [right; by left|].
  unfold fm_request, sendPrivate_form, post_json, value_of. rewrite Hv.
  submit_to sendPrivate_form.
  intros resp s' Hs Hst. rewrite fetched_ok by done. by exec.
Qed.

(** *** [Unicast] *)

Definition send_form : form := mk_form
  [("unicast", "message"); ("unicast", "destination")]
  (post_json "/messaging/unicast" (λ s,
     Unicast.packet (value_of s "unicast" "destination") (value_of s "unicast" "message")))
  id "failed to send message: ".

(** The state after [addMsg]: the message is the last one and the holder is
    scrolled to it. *)
Definition message_added (el : html) (s : ui) : ui :=
  let messages := target_of s ("messaging", "messages") in
  let s := set_targets
    (JMap.set ("messaging", "messages") (set_content (el_content messages ++ [el]) messages) (targets s)) s in
  let holder := target_of s ("messaging", "holder") in
  set_targets
    (JMap.set ("messaging", "holder") (set_scrollTop (scrollHeight holder) holder) (targets s)) s.

Lemma run_addMsg el (k : unit → cmd ui) h s :
  page_ok s → run (Messaging.controller_addMsg el k h) s = run (k tt) (message_added el s).
Proof.
  intros Hp. unfold Messaging.controller_addMsg, Messaging.addMsg, appendChild, bind.
  rewrite run_controller by apply Hp. by exec.
Qed.

Definition sent_message (s0 s : ui) : html :=
  Element "div" ["sent"]
    [Markup (Unicast.sent_markup (value_of s0 "unicast" "message")
               (value_of s0 "unicast" "destination") (clock s))].

(** C21: sending a unicast message: the message and the destination must not be
    empty (otherwise the first one that is empty is reported and nothing is
    sent); exactly one POST carries them; a failed request or a status other
    than 200 ends in one error message and no unhandled rejection; on success
    the message that was sent is appended to the messages, which scroll to it,
    with the time at which the response arrived. *)
Theorem send_submits :
  submits Unicast.send send_form (λ s0 s, message_added (sent_message s0 s) s) (λ _ _, []).
Proof.
  intros s0 Hp0. unfold start, Unicast.send, bind. submit send_form.
  intros resp s Hs Hst. rewrite fetched_ok by done. cbn. by rewrite run_addMsg.
Qed.

(** *** [Naming.tag], [Routing] and [Catalog] *)

Definition tag_form : form := mk_form
  [("naming", "tagFilename"); ("naming", "tagMetahash")]
  (post_json "/datasharing/naming" (λ s,
     JArr [entry (value_of s "naming" "tagFilename"); entry (value_of s "naming" "tagMetahash")]))
  id "failed to tag filename: ".

(** Tagging a file: the file name and the metahash must not be empty; one
    POST with both is sent; every failure is reported, and a success is
    reported. *)
Lemma tag_submits :
  submits Naming.tag tag_form (λ _, report "success" "tagging done") (λ _ _, []).
Proof.
  intros s0 Hp0. unfold start, Naming.tag, bind. submit tag_form.
  intros resp s Hs Hst. rewrite fetched_ok by done. by exec.
Qed.

Definition addPeer_form : form := mk_form
  [("routing", "peer")]
  (post_json "/messaging/peers" (λ s, JArr [entry (value_of s "routing" "peer")]))
  id "failed to add peer: ".

(** The request of an update of the routing table. *)
Definition routing_request (s : ui) : request := get_request (str (endpoint s) +:+ "/messaging/routing").

Lemma run_routing_update s s' :
  base_ok s → endpoint s = endpoint s' → ends (run (start Routing.update) s) s [routing_request s'].
Proof.
  intros Hb He. unfold routing_request. rewrite <-He. unfold start, Routing.update, Routing.update_table, bind, try_catch. exec.
  by rewrite run_fetch_ok.
Qed.

Lemma ends_spawn (m : handler) s s1 rs :
  ends (run (start m) s) s1 rs → ends (run (Spawn (start m) Done) s) s1 rs.
Proof.
  intros (Hs & Hr & Hu). unfold ends. cbn. rewrite Hs, Hr, Hu. by rewrite !app_nil_r.
Qed.

(** Adding a peer: the peer must not be empty; one POST with it is sent;
    every failure is reported; a success is reported and starts exactly one
    update of the routing table. *)
Lemma addPeer_submits :
  submits Routing.addPeer addPeer_form
    (λ _, report "success" "peer added") (λ _ s, [routing_request s]).
Proof.
  intros s0 Hp0. unfold start, Routing.addPeer, bind. submit addPeer_form.
  intros resp s Hs Hst. rewrite fetched_ok by done. exec.
  apply ends_spawn, run_routing_update; auto with js.
Qed.

Definition setEntry_form : form := mk_form
  [("routing", "origin")]
  (post_json "/messaging/routing" (λ s,
     Routing.entry_message (value_of s "routing" "origin") (value_of s "routing" "relay")))
  id "failed to set entry: ".

(** An empty relay deletes the entry. *)
Definition entry_report (s0 : ui) : string :=
  if decide (value_of s0 "routing" "relay" = Some "") then "Entry deleted" else "Entry set".

(** Setting a routing entry: the origin must not be empty, the relay may
    be; one POST with both is sent; every failure is reported; a success is
    reported as a deletion exactly if the relay was empty when the form was
    submitted, and starts one update of the routing table. *)
Lemma setEntry_submits :
  submits Routing.setEntry setEntry_form
    (λ s0, report "success" (entry_report s0)) (λ _ s, [routing_request s]).
Proof.
  intros s0 Hp0. unfold start, Routing.setEntry, bind. submit setEntry_form.
  intros resp s Hs Hst. rewrite fetched_ok by done. unfold entry_report, value_of.
  destruct (decide (el_value (target_of s0 ("routing", "relay")) = Some "")) as [Hr|Hr].
  - rewrite bool_decide_eq_true_2 by done. exec. apply ends_spawn, run_routing_update; auto with js.
  - rewrite bool_decide_eq_false_2 by done. exec. apply ends_spawn, run_routing_update; auto with js.
Qed.

Definition add_form : form := mk_form
  [("catalog", "key"); ("catalog", "value")]
  (post_json "/datasharing/catalog" (λ s,
     JArr [entry (value_of s "catalog" "key"); entry (value_of s "catalog" "value")]))
  id "failed to add catalog entry: ".

Definition catalog_request (s : ui) : request := get_request (str (endpoint s) +:+ "/datasharing/catalog").

Lemma run_catalog_update s : base_ok s → ends (run (start Catalog.update) s) s [catalog_request s].
Proof.
  intros Hb. unfold start, Catalog.update, bind, try_catch. exec. by rewrite run_fetch_ok.
Qed.

(** Adding to the catalog: the key and the value must not be empty; one
    POST with both is sent; every failure is reported; a success starts exactly
    one update of the catalog. *)
Lemma add_submits :
  submits Catalog.add add_form (λ _ s, s) (λ _ s, [catalog_request s]).
Proof.
  intros s0 Hp0. unfold start, Catalog.add, bind. submit add_form.
  intros resp s Hs Hst. rewrite fetched_ok by done. exec.
  apply ends_spawn, run_catalog_update. auto with js.
Qed.
(** *** [Search] *)

(** [this.tTarget.innerHTML = markup] on a page. *)
Definition show_markup (t : target) (markup : string) (s : ui) : ui :=
  set_targets (JMap.set t
    (set_content (if Str.non_empty markup then [Markup markup] else []) (target_of s t)) (targets s)) s.

Definition post_search (suffix : string) (j : ui → json) (s : ui) : request :=
  post_request (str (endpoint s) +:+ suffix) "multipart/form-data" (TextBody (Json.stringify (j s))).

Definition searchAll_form : form := mk_form
  [("search", "searchAllPattern"); ("search", "searchAllBudget"); ("search", "searchAllTimeout")]
  (post_search "/datasharing/searchAll" (λ s,
     Search.all_packet (value_of s "search" "searchAllPattern")
       (value_of s "search" "searchAllBudget") (value_of s "search" "searchAllTimeout")))
  (show_markup ("search", "searchAllResult") "<i>searching all...</i>")
  "failed to searchAll: ".

Lemma page_ok_markup t m s : page_ok s → page_ok (show_markup t m s).
Proof. apply page_ok_update. Qed.

#[local] Hint Resolve page_ok_markup : js.

(** Searching all names: the pattern, the budget and the timeout must not
    be empty; the search is announced and one POST is sent, with the budget as
    [parseInt] reads it; every failure, also of reading the response, is
    reported; the names found are shown. *)
Lemma searchAll_submits :
  submits_text Search.searchAll searchAll_form (λ _ text s,
    show_markup ("search", "searchAllResult") ("Names: " +:+ text)
      (report "success" ("SearchAll done, result: " +:+ text) s)).
Proof.
  intros s0 Hp0. unfold start, Search.searchAll, bind. validate.
  unfold try_catch, bind, set_innerHTML. exec. submit_to searchAll_form.
  intros resp s Hst. rewrite fetched_ok by done. eexists. split; [reflexivity|].
  intros s' Hs'. split; [by exec|]. intros e. by apply (reports_error searchAll_form).
Qed.

Definition searchFirst_form : form := mk_form
  [("search", "searchFirstPattern"); ("search", "searchFirstInitialBudget");
   ("search", "searchFirstFactor"); ("search", "searchFirstRetry"); ("search", "searchFirstTimeout")]
  (post_search "/datasharing/searchFirst" (λ s,
     Search.first_packet (value_of s "search" "searchFirstPattern")
       (value_of s "search" "searchFirstInitialBudget") (value_of s "search" "searchFirstFactor")
       (value_of s "search" "searchFirstRetry") (value_of s "search" "searchFirstTimeout")))
  (show_markup ("search", "searchFirstResult") "<i>searching first...</i>")
  "failed to Search first: ".

Definition first_result (text : string) : string :=
  if decide (text = "") then "<i>Nothing found</i>" else "Names: " +:+ text.

(** Searching the first name: all five inputs must not be empty; the
    search is announced and one POST is sent; every failure, also of reading
    the response, is reported; the name found, or that there is none, is
    shown. *)
Lemma searchFirst_submits :
  submits_text Search.searchFirst searchFirst_form (λ _ text s,
    report "success" ("search first done, result: " +:+ text)
      (show_markup ("search", "searchFirstResult") (first_result text)
        (report "success" ("Search done, result: " +:+ text) s))).
Proof.
  intros s0 Hp0. unfold start, Search.searchFirst, bind. validate.
  unfold try_catch, bind, set_innerHTML. exec. submit_to searchFirst_form.
  intros resp s Hst. rewrite fetched_ok by done. eexists. split; [reflexivity|].
  intros s' Hs'. split; [|intros e; by apply (reports_error searchFirst_form)].
  unfold first_result. destruct (decide (response_body resp = "")) as [Ht|Ht].
  - exec. rewrite bool_decide_eq_true_2 by done. by exec.
  - exec. rewrite bool_decide_eq_false_2 by done. by exec.
Qed.

(** *** [DataSharing.download] *)

Definition download_form : form := mk_form
  [("dataSharing", "downloadMetahash")]
  (λ s, get_request (str (endpoint s) +:+ "/datasharing/download?key=" +:+
                     str (value_of s "dataSharing" "downloadMetahash")))
  id "Failed to download data: ".

(** Downloading: the metahash must not be empty; one GET with it is sent;
    every failure is reported and downloads nothing; a success saves the
    response under the metahash that was submitted. *)
Lemma download_submits :
  submits_text DataSharing.download download_form (λ s0 blob s,
    report "success" "Data downloaded!"
      (add_download (str (value_of s0 "dataSharing" "downloadMetahash"), blob) s)).
Proof.
  intros s0 Hp0. unfold start, DataSharing.download, bind. submit download_form.
  intros resp s Hst. rewrite fetched_ok by done. eexists. split; [reflexivity|].
  intros s' Hs'. split; [|intros e; by apply (reports_error download_form)].
  assert (page_ok (add_download (str (value_of s0 "dataSharing" "downloadMetahash"), response_body resp) s'))
    as Hd by (destruct Hs' as [[] ??]; by split; [split|..]).
  unfold DataSharing.triggerDownload, modify, bind, get, put. by exec.
Qed.

(** *** [Naming.resolve]

    The handler ignores the result of [checkInputs]: with an empty file name
    it reports the error and still sends the request. *)
Definition resolve_request (s : ui) : request :=
  get_request (str (endpoint s) +:+ "/datasharing/naming?name=" +:+
               str (value_of s "naming" "resolveFilename")).

(** C40: resolving an empty file name reports that the name is empty and sends
    the request all the same, with an empty name: the result of [checkInputs]
    is ignored, against its comment (the caller should exit if it returns
    false). *)
Theorem resolve_sends_invalid s :
  page_ok s → value_of s "naming" "resolveFilename" = Some "" →
  ends (run (start Naming.resolve) s)
    (report "error" (validation_error (target_of s ("naming", "resolveFilename"))) s)
    [get_request (str (endpoint s) +:+ "/datasharing/naming?name=")].
Proof.
  intros Hp Hv. unfold start, Naming.resolve, bind. exec.
  unfold value_of in Hv. rewrite first_invalid_one by by unfold Base.invalid; rewrite Hv.
  exec. rewrite target_of_report, Hv. by exec.
Qed.
(** ** The other forms *)

(** C22: the forms that post what was entered: chat and private messages, tags,
    peers, routing entries and the catalog.  Each validates its inputs, sends
    exactly one POST with them and reports every failure once.  A success is
    reported, as a deletion for an entry whose relay was empty when the form was
    submitted, by all but the catalog's form, which reports nothing.  After a
    success the forms of the peers and of the entries start exactly one update
    of the routing table, and the catalog's one of the catalog; the messages and
    the tags start none. *)
Theorem forms_submit :
  submits Broadcast.sendChat sendChat_form (λ _, report "success" "chat message broadcasted") (λ _ _, []) ∧
  submits Broadcast.sendPrivate sendPrivate_form (λ _, report "success" "private message sent") (λ _ _, []) ∧
  submits Naming.tag tag_form (λ _, report "success" "tagging done") (λ _ _, []) ∧
  submits Routing.addPeer addPeer_form (λ _, report "success" "peer added") (λ _ s, [routing_request s]) ∧
  submits Routing.setEntry setEntry_form (λ s0, report "success" (entry_report s0)) (λ _ s, [routing_request s]) ∧
  submits Catalog.add add_form (λ _ s, s) (λ _ s, [catalog_request s]).
Proof.
  split_and!; [apply sendChat_submits|apply sendPrivate_submits|apply tag_submits|apply addPeer_submits|
    apply setEntry_submits|apply add_submits].
Qed.

(** C23: the forms that read the response: the two searches and the download.
    Every input must not be empty; one request is sent, with the numbers as
    [parseInt] reads them; every failure, also of reading the response, is
    reported; on success the names found are shown, or for the first match that
    there is none, and the data are saved under the metahash that was
    submitted. *)
Theorem readers_submit :
  submits_text Search.searchAll searchAll_form (λ _ text s,
    show_markup ("search", "searchAllResult") ("Names: " +:+ text)
      (report "success" ("SearchAll done, result: " +:+ text) s)) ∧
  submits_text Search.searchFirst searchFirst_form (λ _ text s,
    report "success" ("search first done, result: " +:+ text)
      (show_markup ("search", "searchFirstResult") (first_result text)
        (report "success" ("Search done, result: " +:+ text) s))) ∧
  submits_text DataSharing.download download_form (λ s0 blob s,
    report "success" "Data downloaded!"
      (add_download (str (value_of s0 "dataSharing" "downloadMetahash"), blob) s)).
Proof. split_and!; [apply searchAll_submits|apply searchFirst_submits|apply download_submits]. Qed.
End submissions.
