(* ===== verification/Sessions.v ===== *)
(** What holds throughout a session of the user interface: any number of
    handlers running and waiting, answered in any order, with timers, clicks
    and typing in between.

    [session_ok] is the invariant: the flash messages have their timers, the
    tables show one answer of the node, and the page is complete.  Every
    handler of [main.js] is shown to keep it at each [await]
    ([handler_safe]), and the theorems at the end read off the consequences. *)

From S2P Require Import Prelude JsCore JsString Json EventLoop Page Base Forms Tables Submit.

#[local] Open Scope string_scope.
#[local] Open Scope handler_scope.

Section sessions.
Context `{Browser}.
Implicit Types (s : ui).

(** ** The invariant *)

(** Every message has a timer, and nodes are fresh. *)
Record flashes_ok s : Prop := {
  flash_timer f : f ∈ flashes s → f.1 ∈ timers s;
  flash_nodup : NoDup (flashes s).*1;
  timer_nodup : NoDup (timers s);
  timer_bound n : n ∈ timers s → n < next_node s;
}.

Definition content_of s (t : target) : list html := el_content (target_of s t).

(** The routing table is empty or shows exactly the entries of one answer. *)
Definition shows_answer s : Prop :=
  content_of s ("routing", "table") = [] ∨
  ∃ answer data o, JSON_parse answer = inl data ∧ entries data = Some o ∧
    content_of s ("routing", "table") = map (λ e : string * json, Routing.row e.1 e.2) o.

(** The graph area is empty or shows the drawing of one answer. *)
Definition shows_graph s : Prop :=
  content_of s ("routing", "graphviz") = [] ∨
  ∃ answer, content_of s ("routing", "graphviz") = [svg_of answer].

(** An address of the node: a path below its endpoint. *)
Definition at_node (ep : string) (addr : string) : Prop := ∃ path, addr = ep +:+ ("/" +:+ path).

(** The uploads that wait for their file to be read, and the event source, are
    for the node. *)
Record session_ok (ep : string) s : Prop := {
  session_page : page_ok s;
  session_flashes : flashes_ok s;
  session_table : shows_answer s;
  session_graph : shows_graph s;
  session_endpoint : endpoint s = Some ep;
  session_readers : Forall (λ r, at_node ep r.1) (readers s);
  session_sources : Forall (at_node ep) (sources s);
}.

(** Requests go to the node. *)
Definition to_node (ep : string) (r : request) : Prop := at_node ep (url r).

(** What may go wrong in the listener of packets, which is not in a [try]:
    a message that is not JSON or lacks a member. *)
Definition packet_error (e : string) : Prop :=
  (∃ data, JSON_parse data = inr e) ∨
  (∃ k, k ∈ ["Msg"; "Type"; "Header"; "Timestamp"; "Source"; "Payload"; "Message"] ∧ e = type_error k).

Definition session_contract (ep : string) : contract ui :=
  mk_contract (session_ok ep) (to_node ep) packet_error.

(** ** The invariant and the updates of the state *)

Lemma flashes_ok_report c e s : flashes_ok s → flashes_ok (report c e s).
Proof.
  intros [Ht Hn Htn Hb]. assert (next_node s ∉ timers s) as Hfresh by (intros ?%Hb; lia).
  split; simpl.
  - intros f. rewrite !elem_of_app, !list_elem_of_singleton. intros [?%Ht| ->]; auto.
  - rewrite fmap_app. apply NoDup_app. split_and!; [done| |apply NoDup_singleton].
    intros n (f & -> & Hf%Ht)%list_elem_of_fmap Hin%list_elem_of_singleton.
    simpl in Hin. by rewrite Hin in Hf.
  - apply NoDup_app. split_and!; [done| |apply NoDup_singleton].
    intros n Hin ->%list_elem_of_singleton. done.
  - intros n. rewrite elem_of_app, list_elem_of_singleton. intros [?%Hb| ->]; lia.
Qed.

Lemma session_report ep c e s : session_ok ep s → session_ok ep (report c e s).
Proof.
  intros []. split; [by apply page_ok_report|by apply flashes_ok_report|done..].
Qed.

Lemma content_of_set s t el t' :
  content_of (set_targets (JMap.set t el (targets s)) s) t' =
    if decide (t = t') then el_content el else content_of s t'.
Proof. unfold content_of, target_of. simpl. rewrite JMap.get_set. by case_decide. Qed.

(** Changing a target that does not show an answer, or not its content. *)
Lemma session_update ep t el s :
  (t ∈ [("routing", "table"); ("routing", "graphviz")] → el_content el = content_of s t) →
  session_ok ep s → session_ok ep (set_targets (JMap.set t el (targets s)) s).
Proof.
  intros Hel [Hp Hf Ht Hg He Hr Hs].
  assert (∀ t', t' ∈ [("routing", "table"); ("routing", "graphviz")] →
    content_of (set_targets (JMap.set t el (targets s)) s) t' = content_of s t') as Hc.
  { intros t' Hin. rewrite content_of_set. case_decide; [subst; auto|done]. }
  split; [by apply page_ok_update|by destruct Hf| | |done..].
  - unfold shows_answer. rewrite Hc by by left. done.
  - unfold shows_graph. rewrite Hc by by right; left. done.
Qed.

(** *** Rules for a page *)

Section page_rules.
Context (ep : string).
#[local] Abbreviation C := (session_contract ep).

Lemma holds_page_find c t s (Q : element → ui → Prop) X :
  page_ok s → (c, t) ∈ all_targets → Q (target_of s (c, t)) s → holds C (find_target c t) s Q X.
Proof.
  intros Hp Ht HQ. pose proof (target_of_get s (c, t) Hp Ht) as Hg.
  apply holds_find_target; rewrite Hg; [|done]. by intros el [= <-].
Qed.

Lemma holds_page_update c t f s (Q : unit → ui → Prop) X :
  page_ok s → (c, t) ∈ all_targets →
  Q tt (set_targets (JMap.set (c, t) (f (target_of s (c, t))) (targets s)) s) →
  holds C (update_target c t f) s Q X.
Proof. intros Hp Ht HQ. apply holds_bind, holds_page_find; [done..|]. by apply holds_modify. Qed.

Lemma holds_page_value c t s (Q : option string → ui → Prop) X :
  page_ok s → (c, t) ∈ all_targets → Q (el_value (target_of s (c, t))) s →
  holds C (target_value c t) s Q X.
Proof. intros Hp Ht HQ. apply holds_bind, holds_page_find; [done..|]. by apply holds_ret. Qed.

Lemma holds_page_controller id i m s (Q : unit → ui → Prop) X :
  (id, i) ∈ controllers s → Q tt s → holds C (controller id i m) s Q X.
Proof. intros Hc HQ. by apply holds_controller. Qed.

Lemma holds_flash c e s (Q : unit → ui → Prop) X :
  base_ok s → Q tt (report c e s) → holds C (bind (Flash.createFlash c e) Flash.append) s Q X.
Proof. intros [_ _ Hw] HQ. apply holds_print; [done|]. intros Hn. rewrite Hn in Hw. by destruct Hw. Qed.

Lemma holds_flash_error e s (Q : unit → ui → Prop) X :
  page_ok s → Q tt (report "error" e s) → holds C (Base.flash_error e) s Q X.
Proof.
  intros [Hb _ _] HQ. apply holds_bind, holds_page_controller; [apply Hb|]. by apply holds_flash.
Qed.

Lemma holds_flash_success e s (Q : unit → ui → Prop) X :
  page_ok s → Q tt (report "success" e s) → holds C (Base.flash_success e) s Q X.
Proof.
  intros [Hb _ _] HQ. apply holds_bind, holds_page_controller; [apply Hb|]. by apply holds_flash.
Qed.

Lemma holds_getAPIURL suffix s (Q : string → ui → Prop) X :
  page_ok s → Q (str (endpoint s) +:+ suffix) s → holds C (Base.getAPIURL suffix) s Q X.
Proof.
  intros [Hb _ _] HQ. apply holds_bind, holds_page_controller; [apply Hb|].
  by apply holds_bind, holds_get, holds_ret.
Qed.

Lemma holds_checkInputs els s (Q : bool → ui → Prop) X :
  session_ok ep s → (first_invalid els = None → Q true s) →
  (∀ s', session_ok ep s' → Q false s') →
  holds C (Base.checkInputs els) s Q X.
Proof.
  intros Hs. unfold first_invalid. induction els as [|el els IH]; intros Ht Hf; [by apply holds_ret, Ht|].
  rewrite filter_cons in Ht. unfold Base.checkInputs; fold Base.checkInputs.
  destruct (Base.invalid el) eqn:Hi; simpl in *; [|by apply IH].
  apply holds_bind, holds_flash_error; [apply Hs|]. apply holds_ret, Hf. by apply session_report.
Qed.

Lemma holds_packet_member k v s (Q : option json → ui → Prop) (X : string → ui → Prop) :
  (∀ v', Q v' s) → X (type_error k) s → holds C (member k v) s Q X.
Proof.
  intros HQ HX. unfold member. repeat case_match; first [by apply holds_throw|by apply holds_ret].
Qed.

Lemma to_node_endpoint s suffix m hs b :
  session_ok ep s → to_node ep (mk_request (str (endpoint s) +:+ ("/" +:+ suffix)) m hs b).
Proof. intros Hs. exists suffix. simpl. by rewrite (session_endpoint _ _ Hs). Qed.

(** Updates of the other fields. *)
Lemma session_ext s s' :
  controllers s' = controllers s → targets s' = targets s → flashes s' = flashes s →
  timers s' = timers s → next_node s' = next_node s → endpoint s' = endpoint s →
  readers s' = readers s → sources s' = sources s →
  session_ok ep s → session_ok ep s'.
Proof.
  intros Hc Ht Hf Htm Hn He Hr Hs [[[]] [] Hta Hg Hep Hro Hso].
  assert (∀ t, content_of s' t = content_of s t) as Hcon.
  { intros t. unfold content_of, target_of. by rewrite Ht. }
  split; [split; [split|..]|split|..]; unfold shows_answer, shows_graph; setoid_rewrite Hcon || idtac;
    rewrite ?Hc, ?Ht, ?Hf, ?Htm, ?Hn, ?He, ?Hr, ?Hs; done.
Qed.

Lemma at_node_endpoint s suffix : session_ok ep s → at_node ep (str (endpoint s) +:+ ("/" +:+ suffix)).
Proof. intros Hs. exists suffix. by rewrite (session_endpoint _ _ Hs). Qed.

(** A file that is to be uploaded, and the connection for the packets. *)
Lemma session_reader r s : at_node ep r.1 → session_ok ep s → session_ok ep (add_reader r s).
Proof.
  intros Hr [[[]] [] ? ? ? Hro ?]. split; [by split; [split|..]|by split|done..| |done].
  simpl. apply Forall_app. by split; [|apply Forall_singleton].
Qed.

Lemma session_source u s : at_node ep u → session_ok ep s → session_ok ep (add_source u s).
Proof.
  intros Hu [[[]] [] ? ? ? ? Hso]. split; [by split; [split|..]|by split|done..|].
  simpl. apply Forall_app. by split; [|apply Forall_singleton].
Qed.
End page_rules.
End sessions.

Create HintDb session discriminated.
#[export] Hint Resolve session_report : session.

(** [in_session] proves that a state reached from one in the session is in the
    session. *)
Ltac in_session :=
  lazymatch goal with
  | |- page_ok _ => eapply session_page; in_session
  | |- inv (session_contract ?ep) ?s => change (session_ok ep s); in_session
  | |- session_ok _ (report _ _ _) => apply session_report; in_session
  | |- session_ok _ (set_targets _ _) =>
    apply session_update;
    [let Ht := fresh "Ht" in intros Ht; exfalso; apply (bool_decide_pack _) in Ht; exact Ht|in_session]
  | |- session_ok _ (add_reader _ _) => apply session_reader; [by eapply at_node_endpoint; eassumption|in_session]
  | |- session_ok _ (add_source _ _) => apply session_source; [by eapply at_node_endpoint; eassumption|in_session]
  | |- session_ok _ (_ _ ?s) =>
    first [eassumption | apply (session_ext _ s); [reflexivity..|in_session]]
  | |- session_ok _ _ => eassumption
  end.

(** [walk] follows a handler to its end. *)
Ltac to_the_node :=
  first [ assumption
        | by apply to_node_endpoint
        | by eexists ].
Ltac step_handler :=
  cbn beta;
  repeat match goal with
    | Hs : inv (session_contract ?ep) ?s |- _ => change (session_ok ep s) in Hs
    end;
  lazymatch goal with
  | |- safe _ (start _) _ => apply holds_start
  | |- holds _ (bind _ _) _ _ _ => apply holds_bind
  | |- holds _ (ret _) _ _ _ => apply holds_ret
  | |- holds _ (try_catch _ _) _ _ _ => apply holds_try
  | |- holds _ (find_target _ _) _ _ _ => apply holds_page_find; [in_session|is_target|]
  | |- holds _ (target_value _ _) _ _ _ => apply holds_page_value; [in_session|is_target|]
  | |- holds _ (update_target _ _ _) _ _ _ => apply holds_page_update; [in_session|is_target|]
  | |- holds _ (set_innerHTML _ _ _) _ _ _ => unfold set_innerHTML
  | |- holds _ (set_innerText _ _ _) _ _ _ => unfold set_innerText
  | |- holds _ (appendChild _ _ _) _ _ _ => unfold appendChild
  | |- holds _ (modify _) _ _ _ => apply holds_modify
  | |- holds _ (controller _ _ _) _ _ _ =>
    apply holds_page_controller;
    [first [eapply page_messaging; in_session | eapply base_peerInfo, page_base; in_session]|]
  | |- holds _ get _ _ _ => apply holds_get
  | |- holds _ (Base.flash_error _) _ _ _ => apply holds_flash_error; [in_session|]
  | |- holds _ (Base.flash_success _) _ _ _ => apply holds_flash_success; [in_session|]
  | |- holds _ (Base.getAPIURL _) _ _ _ => apply holds_getAPIURL; [in_session|]
  | |- holds _ (Base.checkInputs _) _ _ _ =>
    apply holds_checkInputs; [in_session|intros Hvalid; cbn [negb]|intros ? ?; cbn [negb]]
  | |- holds _ (Base.fetch _) _ _ _ =>
    apply holds_fetch_ok; [in_session|to_the_node|intros ? ? ? _|intros ? ? ?]
  | |- holds _ (fetch _) _ _ _ =>
    apply holds_fetch; [in_session|to_the_node|intros ? ? ?|intros ? ? ?]
  | |- holds _ (text _) _ _ _ => apply holds_text; [in_session|intros ? ?|intros ? ? ?]
  | |- holds _ (json_of _) _ _ _ =>
    apply holds_json_of; [in_session|intros ? ? ? ?|intros ? ? ?]
  | |- holds _ (settle _) _ _ _ => apply holds_settle; [in_session|intros ? ?|intros ? ? ?]
  | |- holds _ (member _ _) _ _ _ => apply holds_packet_member; [intros ?|]
  | |- inv _ _ ∧ tolerated _ _ => split; [in_session|]
  | |- tolerated _ (type_error ?k) => right; exists k; split; [apply (bool_decide_unpack _); exact I|reflexivity]
  | |- holds _ (spawn _) _ _ _ => apply holds_spawn; [eauto with session|intros ? ?]
  | |- holds _ (if ?b then _ else _) _ _ _ => destruct b
  | |- inv _ _ => in_session
  end.
Ltac walk := repeat step_handler.

Section handlers.
Context `{Browser} (ep : string).
#[local] Abbreviation C := (session_contract ep).
Implicit Types (s : ui).

Lemma sendChat_safe s : session_ok ep s → safe C (start Broadcast.sendChat) s.
Proof. intros Hs. unfold Broadcast.sendChat. walk. Qed.

Lemma sendPrivate_safe s : session_ok ep s → safe C (start Broadcast.sendPrivate) s.
Proof.
  intros Hs. unfold Broadcast.sendPrivate. walk.
  destruct (first_invalid_None _ (target_of s ("broadcast", "privateRecipients")) Hvalid)
    as (v & -> & _); [right; by left|]. walk.
Qed.

Lemma send_safe s : session_ok ep s → safe C (start Unicast.send) s.
Proof. intros Hs. unfold Unicast.send, Messaging.controller_addMsg, Messaging.addMsg. walk. Qed.

Lemma resolve_safe s : session_ok ep s → safe C (start Naming.resolve) s.
Proof. intros Hs. unfold Naming.resolve. walk. Qed.

Lemma tag_safe s : session_ok ep s → safe C (start Naming.tag) s.
Proof. intros Hs. unfold Naming.tag. walk. Qed.

Lemma upload_safe s : session_ok ep s → safe C (start DataSharing.upload) s.
Proof.
  intros Hs. unfold DataSharing.upload. walk.
  destruct (el_files (target_of s ("dataSharing", "fileUpload"))); walk.
Qed.

Lemma upload_load_safe addr file result s :
  (addr, file) ∈ readers s → session_ok ep s → safe C (start (DataSharing.upload_load addr result)) s.
Proof.
  intros Hin Hs. pose proof (session_readers _ _ Hs) as Hr. rewrite Forall_forall in Hr.
  apply Hr in Hin as [suffix Haddr]. simpl in Haddr. subst addr. unfold DataSharing.upload_load. walk.
Qed.

Lemma upload_progress_safe loaded total s :
  session_ok ep s → safe C (start (DataSharing.upload_progress loaded total)) s.
Proof. intros Hs. unfold DataSharing.upload_progress. walk. Qed.

Lemma download_safe s : session_ok ep s → safe C (start DataSharing.download) s.
Proof. intros Hs. unfold DataSharing.download, DataSharing.triggerDownload. walk. Qed.

Lemma searchAll_safe s : session_ok ep s → safe C (start Search.searchAll) s.
Proof. intros Hs. unfold Search.searchAll. walk. Qed.

Lemma searchFirst_safe s : session_ok ep s → safe C (start Search.searchFirst) s.
Proof. intros Hs. unfold Search.searchFirst. walk. Qed.

Lemma packetError_safe s : session_ok ep s → safe C (start Packets.packetError) s.
Proof. intros Hs. unfold Packets.packetError. walk. Qed.

Lemma packetsScroll_safe s : session_ok ep s → safe C (start Packets.packetsScroll) s.
Proof. intros Hs. unfold Packets.packetsScroll. walk. Qed.

Lemma packets_initialize_safe s : session_ok ep s → safe C (start Packets.initialize) s.
Proof. intros Hs. unfold Packets.initialize. walk. Qed.

(** *** [Routing] and [Catalog] *)

(** The session, apart from the table, which shows [rows]. *)
Record filling (rows : list html) s : Prop := {
  filling_page : page_ok s;
  filling_flashes : flashes_ok s;
  filling_graph : shows_graph s;
  filling_endpoint : endpoint s = Some ep;
  filling_rows : content_of s ("routing", "table") = rows;
  filling_readers : Forall (λ r, at_node ep r.1) (readers s);
  filling_sources : Forall (at_node ep) (sources s);
}.

Lemma filling_set rows el s :
  filling rows s →
  filling (el_content el) (set_targets (JMap.set ("routing", "table") el (targets s)) s).
Proof.
  intros [Hp Hf Hg He Hr ? ?]. split; [by apply page_ok_update|by destruct Hf| |done| |done..].
  - unfold shows_graph. by rewrite content_of_set, decide_False by done.
  - by rewrite content_of_set, decide_True.
Qed.

Lemma session_filling s : session_ok ep s → ∃ rows, filling rows s.
Proof. intros []. by eexists. Qed.

Lemma filling_session answer data o s :
  filling (map (λ e : string * json, Routing.row e.1 e.2) o) s →
  JSON_parse answer = inl data → entries data = Some o → session_ok ep s.
Proof. intros [] ??. split; try done. right. by exists answer, data, o. Qed.

Lemma filling_empty s : filling [] s → session_ok ep s.
Proof. intros []. split; try done. by left. Qed.

(** The rows are appended one by one, without an [await] in between. *)
Lemma holds_rows (o : list (string * json)) s (Q : unit → ui → Prop) X :
  filling [] s →
  (∀ s', filling (map (λ e : string * json, Routing.row e.1 e.2) o) s' → Q tt s') →
  holds C (for_each o (λ e, appendChild "routing" "table" (Routing.row e.1 e.2))) s Q X.
Proof.
  intros Hs HQ.
  apply (holds_for_each C o _ (λ l s, ∃ shown, o = (shown ++ l)%list ∧
    filling (map (λ e : string * json, Routing.row e.1 e.2) shown) s)).
  - by exists [].
  - intros s' (shown & -> & Hf). apply HQ. by rewrite app_nil_r.
  - intros x l s' (shown & -> & Hf). apply holds_page_update; [apply Hf|is_target|].
    exists (shown ++ [x])%list. split; [by rewrite <-(assoc_L (++))|].
    pose proof (filling_rows _ _ Hf) as Hr. unfold content_of in Hr.
    rewrite map_app. simpl. rewrite <-Hr. exact (filling_set _ (set_content _ _) _ Hf).
Qed.

Lemma filling_cleared s :
  session_ok ep s →
  filling [] (set_targets (JMap.set ("routing", "table")
    (set_content [] (target_of s ("routing", "table"))) (targets s)) s).
Proof.
  intros [rows Hf]%session_filling. exact (filling_set _ (set_content [] _) _ Hf).
Qed.

Lemma holds_update_table addr s (Q : unit → ui → Prop) X :
  session_ok ep s → to_node ep (get_request addr) → (∀ s', session_ok ep s' → Q tt s') →
  holds C (Routing.update_table addr) s Q X.
Proof.
  intros Hs Ha HQ. unfold Routing.update_table. walk; [|apply HQ; in_session..].
  match goal with
  | Hj : JSON_parse _ = inl _, Hs' : session_ok ep ?s' |- holds _ _ (set_targets _ ?s') _ _ =>
    rename Hj into Hparse; apply filling_cleared in Hs' as Hf
  end.
  apply holds_object_entries; [intros o Ho|intros e].
  - apply holds_bind, holds_rows; [exact Hf|]. intros s1 Hs1.
    pose proof (filling_session _ _ _ _ Hs1 Hparse Ho). walk. apply HQ. in_session.
  - apply filling_empty in Hf. apply holds_flash_error; [by eapply session_page|].
    apply HQ. by apply session_report.
Qed.

(** The graph area is cleared and gets the new drawing. *)
Lemma session_graph_cleared el s :
  el_content el = [] → session_ok ep s →
  session_ok ep (set_targets (JMap.set ("routing", "graphviz") el (targets s)) s).
Proof.
  intros Hel [Hp Hf Ht Hg He ? ?]. split; [by apply page_ok_update|by destruct Hf| | |done..].
  - unfold shows_answer. by rewrite content_of_set, decide_False by done.
  - left. by rewrite content_of_set, decide_True.
Qed.

Lemma session_graph_drawn el answer s :
  el_content el = [svg_of answer] → session_ok ep s →
  session_ok ep (set_targets (JMap.set ("routing", "graphviz") el (targets s)) s).
Proof.
  intros Hel [Hp Hf Ht Hg He ? ?]. split; [by apply page_ok_update|by destruct Hf| | |done..].
  - unfold shows_answer. by rewrite content_of_set, decide_False by done.
  - right. exists answer. by rewrite content_of_set, decide_True.
Qed.

Lemma holds_update_graph addr s (Q : unit → ui → Prop) X :
  session_ok ep s → to_node ep (get_request addr) → (∀ s', session_ok ep s' → Q tt s') →
  holds C (Routing.update_graph addr) s Q X.
Proof.
  intros Hs Ha HQ. unfold Routing.update_graph. walk; try (apply HQ; in_session).
  match goal with
  | Hs' : session_ok ep ?s' |- holds _ _ (set_targets (@JMap.set _ _ _ _ ?el _) ?s') _ _ =>
    pose proof (session_graph_cleared el s' eq_refl Hs') as Hcleared;
    pose proof (content_of_set s' ("routing", "graphviz") el ("routing", "graphviz")) as Hempty
  end.
  rewrite decide_True in Hempty by done. unfold content_of in Hempty.
  unfold appendChild. apply holds_page_update; [by eapply session_page|is_target|].
  apply HQ. eapply session_graph_drawn; [|exact Hcleared].
  exact (f_equal (λ l, l ++ [svg_of _])%list Hempty).
Qed.

Lemma routing_update_safe s : session_ok ep s → safe C (start Routing.update) s.
Proof.
  intros Hs. unfold Routing.update. do 4 step_handler. cbn beta.
  apply holds_update_table; [done|by apply to_node_endpoint|]. intros s' Hs'.
  apply holds_update_graph; [done| |done].
  exists ("messaging/routing" +:+ "?graphviz=on"). cbn.
  rewrite (session_endpoint _ _ Hs). cbn. by rewrite JsString.Str.app_assoc.
Qed.

#[local] Hint Resolve routing_update_safe : session.

Lemma routing_initialize_safe s : session_ok ep s → safe C (start Routing.initialize) s.
Proof. intros Hs. unfold Routing.initialize. walk. Qed.

Lemma addPeer_safe s : session_ok ep s → safe C (start Routing.addPeer) s.
Proof. intros Hs. unfold Routing.addPeer. walk. Qed.

Lemma setEntry_safe s : session_ok ep s → safe C (start Routing.setEntry) s.
Proof. intros Hs. unfold Routing.setEntry. walk. Qed.

Lemma holds_entries (o : list (string * json)) s (Q : unit → ui → Prop) X :
  session_ok ep s → (∀ s', session_ok ep s' → Q tt s') →
  holds C (for_each o (λ e, appendChild "catalog" "content" (Catalog.chunk_entry e.1 e.2))) s Q X.
Proof.
  intros Hs HQ. apply (holds_for_each C o _ (λ _, session_ok ep)); [done|done|].
  intros x l s1 Hs1. walk. in_session.
Qed.

Lemma catalog_update_safe s : session_ok ep s → safe C (start Catalog.update) s.
Proof.
  intros Hs. unfold Catalog.update. walk. apply holds_object_entries; [intros o Ho|intros e; walk].
  walk. apply holds_entries; [in_session|]. intros s1 Hs1. walk.
Qed.

#[local] Hint Resolve catalog_update_safe : session.

Lemma catalog_initialize_safe s : session_ok ep s → safe C (start Catalog.initialize) s.
Proof. intros Hs. unfold Catalog.initialize. walk. Qed.

Lemma add_safe s : session_ok ep s → safe C (start Catalog.add) s.
Proof. intros Hs. unfold Catalog.add. walk. Qed.

(** *** [PeerInfo] and [Packets] *)

(** The endpoint that the address of the page gives. *)
Definition page_endpoint (ep : string) : Prop :=
  ∃ addr, ep = "http://" +:+ addr ∧
    decodeURIComponent (str (mjoin (JMap.get "addr" (PeerInfo.getQueryArgs location_search)))) = inl addr.

Lemma peer_initialize_safe s :
  page_endpoint ep → session_ok ep (set_endpoint ep s) → safe C (start PeerInfo.initialize) s.
Proof.
  intros (addr & -> & Hd) Hs. unfold PeerInfo.initialize. rewrite Hd. walk.
Qed.

Lemma packetMessage_safe data s : session_ok ep s → safe C (start (Packets.packetMessage data)) s.
Proof.
  intros Hs. unfold Packets.packetMessage, Packets.show_chat, Messaging.controller_addMsg, Messaging.addMsg.
  destruct (JSON_parse data) as [pkt|err] eqn:Hp; [walk|].
  apply holds_start, holds_throw. split; [done|]. left. by exists data.
Qed.

(** ** The session *)

(** The handlers that the page's events start: the actions of the forms, the
    [initialize] methods and the listeners that these set.  The listener of an
    upload has the address that [upload] took for it. *)
Inductive gui_handler (s : ui) : handler → Prop :=
  | on_peer_initialize : gui_handler s PeerInfo.initialize
  | on_send : gui_handler s Unicast.send
  | on_sendChat : gui_handler s Broadcast.sendChat
  | on_sendPrivate : gui_handler s Broadcast.sendPrivate
  | on_resolve : gui_handler s Naming.resolve
  | on_tag : gui_handler s Naming.tag
  | on_upload : gui_handler s DataSharing.upload
  | on_upload_load addr file result :
    (addr, file) ∈ readers s → gui_handler s (DataSharing.upload_load addr result)
  | on_upload_progress loaded total : gui_handler s (DataSharing.upload_progress loaded total)
  | on_download : gui_handler s DataSharing.download
  | on_searchAll : gui_handler s Search.searchAll
  | on_searchFirst : gui_handler s Search.searchFirst
  | on_routing_initialize : gui_handler s Routing.initialize
  | on_routing_update : gui_handler s Routing.update
  | on_addPeer : gui_handler s Routing.addPeer
  | on_setEntry : gui_handler s Routing.setEntry
  | on_catalog_initialize : gui_handler s Catalog.initialize
  | on_catalog_update : gui_handler s Catalog.update
  | on_add : gui_handler s Catalog.add
  | on_packets_initialize : gui_handler s Packets.initialize
  | on_packetMessage data : gui_handler s (Packets.packetMessage data)
  | on_packetError : gui_handler s Packets.packetError
  | on_packetsScroll : gui_handler s Packets.packetsScroll.

(** What changes the page without a handler of [main.js] that waits: a timer
    fires, a message is closed, the user edits an input, ticks a box or chooses
    files, time passes. *)
Inductive gui_event : ui → ui → Prop :=
  | timer_fires n s : n ∈ timers s → gui_event s (Flash.timeout n s)
  | message_closed n s : gui_event s (Flash.click_close n s)
  | user_types t v s :
    t ∈ all_targets →
    gui_event s (set_targets (JMap.set t (set_value v (target_of s t)) (targets s)) s)
  | user_ticks t b s :
    t ∈ all_targets →
    gui_event s (set_targets (JMap.set t (set_checked b (target_of s t)) (targets s)) s)
  | user_chooses t fs s :
    t ∈ all_targets →
    gui_event s (set_targets (JMap.set t (set_files fs (target_of s t)) (targets s)) s)
  | time_passes t s : gui_event s (set_clock t s).

Lemma handler_safe m s :
  page_endpoint ep → gui_handler s m → session_ok ep s → safe C (start m) s.
Proof.
  intros He [] Hs;
    [apply peer_initialize_safe; [done|]; apply (session_ext _ s); try done;
     simpl; by rewrite (session_endpoint _ _ Hs)
    |by apply send_safe
    |by apply sendChat_safe
    |by apply sendPrivate_safe
    |by apply resolve_safe
    |by apply tag_safe
    |by apply upload_safe
    |by eapply upload_load_safe
    |by apply upload_progress_safe
    |by apply download_safe
    |by apply searchAll_safe
    |by apply searchFirst_safe
    |by apply routing_initialize_safe
    |by apply routing_update_safe
    |by apply addPeer_safe
    |by apply setEntry_safe
    |by apply catalog_initialize_safe
    |by apply catalog_update_safe
    |by apply add_safe
    |by apply packets_initialize_safe
    |by apply packetMessage_safe
    |by apply packetError_safe
    |by apply packetsScroll_safe].
Qed.

Lemma session_set_flashes fs ts s :
  flashes_ok (set_flashes fs ts (next_node s) s) → session_ok ep s →
  session_ok ep (set_flashes fs ts (next_node s) s).
Proof. intros Hf [[[]] ? ? ? ? ? ?]. split; [by split; [split|..]|done..]. Qed.

Lemma NoDup_kept n (fs : list (nat * html)) :
  NoDup fs.*1 → NoDup (filter (λ f : nat * html, f.1 ≠ n) fs).*1.
Proof. intros Hn. eapply sublist_NoDup; [exact Hn|]. apply fmap_sublist, sublist_filter. Qed.

Lemma flashes_ok_remove n s : flashes_ok s → flashes_ok (Flash.remove n s).
Proof.
  intros [Ht Hn Htn Hb]. split; simpl; [|by apply NoDup_kept|done..].
  intros f [_ Hf]%list_elem_of_filter. by apply Ht.
Qed.

Lemma flashes_ok_timeout n s : flashes_ok s → flashes_ok (Flash.timeout n s).
Proof.
  intros [Ht Hn Htn Hb]. split; simpl.
  - intros f [Hne Hf]%list_elem_of_filter. apply list_elem_of_filter. auto.
  - by apply NoDup_kept.
  - by apply NoDup_filter.
  - intros m [_ Hm]%list_elem_of_filter. by apply Hb.
Qed.

Lemma event_session s s' : gui_event s s' → session_ok ep s → session_ok ep s'.
Proof.
  intros [n s0 Hn|n s0|t v s0 Ht|t b s0 Ht|t fs s0 Ht|t s0] Hs.
  - apply (session_set_flashes (filter (λ f : nat * html, f.1 ≠ n) (flashes s0))
             (filter (λ m, m ≠ n) (timers s0)) s0); [|done].
    exact (flashes_ok_timeout n s0 (session_flashes _ _ Hs)).
  - apply (session_set_flashes (filter (λ f : nat * html, f.1 ≠ n) (flashes s0)) (timers s0) s0); [|done].
    exact (flashes_ok_remove n s0 (session_flashes _ _ Hs)).
  - by apply session_update.
  - by apply session_update.
  - by apply session_update.
  - by apply (session_ext _ s0).
Qed.

(** The page before [PeerInfo] is initialised. *)
Record fresh_page s : Prop := {
  fresh_ok : page_ok s;
  fresh_flashes : flashes s = [] ∧ timers s = [];
  fresh_table : content_of s ("routing", "table") = [];
  fresh_graph : content_of s ("routing", "graphviz") = [];
  fresh_opened : readers s = [] ∧ sources s = [];
}.

(** A session starts with [PeerInfo.initialize] and goes on with any handlers,
    answers and events. *)
Definition session (s0 : ui) (w : world ui) : Prop :=
  page_endpoint ep ∧ fresh_page s0 ∧
  rtc (step gui_handler gui_event) (enter (mk_world s0 [] [] []) (start PeerInfo.initialize)) w.

Lemma fresh_session s : fresh_page s → session_ok ep (set_endpoint ep s).
Proof.
  intros [[[]] [Hf Ht] Htb Hg [Hr Hs]].
  split; [by split; [split|..]| |by left|by left|done|simpl; rewrite Hr; constructor|simpl; rewrite Hs; constructor].
  split; simpl; rewrite ?Hf, ?Ht; try constructor.
  - by intros f ?%not_elem_of_nil.
  - by intros n ?%not_elem_of_nil.
Qed.

Lemma session_ok_world s0 w : session s0 w → ok_world C w.
Proof.
  intros (He & Hf & Hr). pose proof (fresh_session s0 Hf) as Hs.
  pose proof (peer_initialize_safe s0 He Hs) as Hp.
  eapply reachable_ok; [| | |exact Hr].
  - intros m s Hm. by apply handler_safe.
  - intros s s'. apply event_session.
  - destruct (run_safe _ _ _ Hp). split; simpl; try done.
Qed.
End handlers.

(** ** What a session guarantees *)

Section guarantees.
Context `{Browser} (ep : string).

Lemma foldr_timeout ns s f :
  f ∈ flashes (foldr Flash.timeout s ns) → f ∈ flashes s ∧ f.1 ∉ ns.
Proof.
  induction ns as [|n ns IH]; simpl; [intros Hf; split; [done|apply not_elem_of_nil]|].
  intros [Hne [Hin Hns]%IH]%list_elem_of_filter. split; [done|]. by apply not_elem_of_cons.
Qed.

(** C8: at every moment of a session the routing table is empty or shows
    exactly the entries of one answer of the node, in their order, and the
    graph area is empty or shows one drawing, however the updates and their
    answers interleave. *)
Theorem tables_atomic s0 w :
  session ep s0 w → shows_answer (state w) ∧ shows_graph (state w).
Proof. intros Hw%session_ok_world. destruct (world_inv _ _ Hw). done. Qed.

(** C9: in a session no promise rejection and no exception stays unhandled,
    except those of the listener of packets, for a message that is not JSON or
    lacks a member. *)
Theorem rejections_handled s0 w : session ep s0 w → Forall packet_error (unhandled w).
Proof. intros Hw%session_ok_world. apply (world_unhandled _ _ Hw). Qed.

(** C24: in a session every message that is displayed has a running timer, no
    node is used twice, and once the timers have fired no message is left. *)
Theorem flashes_expire s0 w :
  session ep s0 w →
  (∀ f, f ∈ flashes (state w) → f.1 ∈ timers (state w)) ∧
  NoDup (flashes (state w)).*1 ∧
  flashes (foldr Flash.timeout (state w) (timers (state w))) = [].
Proof.
  intros Hw%session_ok_world. destruct (session_flashes _ _ (world_inv _ _ Hw)) as [Ht Hn _ _].
  split_and!; [done..|].
  destruct (flashes (foldr _ _ _)) as [|f fs] eqn:He; [done|].
  assert (f ∈ flashes (foldr Flash.timeout (state w) (timers (state w)))) as Hf by (rewrite He; by left).
  apply foldr_timeout in Hf as [Hf Hnot]. by apply Ht in Hf.
Qed.

(** C25: every request of a session, the connection for the packets and every
    address that an upload will be sent to once its file is read are those of
    the node whose address the page was opened with. *)
Theorem requests_to_node s0 w :
  session ep s0 w →
  Forall (to_node ep) (sent w) ∧ Forall (at_node ep) (sources (state w)) ∧
  Forall (λ r, at_node ep r.1) (readers (state w)).
Proof.
  intros Hw%session_ok_world. split_and!; [apply (world_sent _ _ Hw)|apply (world_inv _ _ Hw)..].
Qed.
End guarantees.
