(* ===== verification/NodePage.v ===== *)
(** The page [src/gui/web/node.html], and what a session on it guarantees.

    [node_page] has the targets that the page's markup declares, with the
    names of its inputs; [node_browser] is a browser in which the page was
    opened with [?addr=127.0.0.1:4000].  They are used to evaluate the
    theorems. *)

From S2P Require Import Prelude JsCore JsString Json EventLoop Page Base Forms Tables Submit Sessions.

#[local] Open Scope string_scope.

(** ** The page *)

Definition node_elements : list (target * element) :=
  [(("flash", "wrapper"), output []);
   (("peerInfo", "peerAddr"), output []);
   (("peerInfo", "socketAddr"), output []);
   (("messaging", "holder"), output []);
   (("messaging", "messages"), output []);
   (("unicast", "message"), input "message" "");
   (("unicast", "destination"), input "destination" "");
   (("broadcast", "chatMessage"), input "message" "");
   (("broadcast", "privateMessage"), input "message" "");
   (("broadcast", "privateRecipients"), input "recipients" "");
   (("routing", "table"), output []);
   (("routing", "graphviz"), output []);
   (("routing", "peer"), input "peer" "");
   (("routing", "origin"), input "origin" "");
   (("routing", "relay"), input "relay" "");
   (("catalog", "content"), output []);
   (("catalog", "key"), input "key" "");
   (("catalog", "value"), input "value" "");
   (("dataSharing", "uploadResult"), output []);
   (("dataSharing", "fileUpload"), input "" "");
   (("dataSharing", "downloadMetahash"), input "" "");
   (("search", "searchAllResult"), output []);
   (("search", "searchAllPattern"), input "pattern" "");
   (("search", "searchAllBudget"), input "budget" "");
   (("search", "searchAllTimeout"), input "timeout" "");
   (("search", "searchFirstResult"), output []);
   (("search", "searchFirstPattern"), input "pattern" "");
   (("search", "searchFirstInitialBudget"), input "budget" "");
   (("search", "searchFirstFactor"), input "factor" "");
   (("search", "searchFirstRetry"), input "retry" "");
   (("search", "searchFirstTimeout"), input "timeout" "");
   (("naming", "resolveResult"), output []);
   (("naming", "resolveFilename"), input "filename" "");
   (("naming", "tagFilename"), input "filename" "");
   (("naming", "tagMetahash"), input "metahash" "");
   (("packets", "follow"), mk_element (Some "") (Some "on") [] true [] 0 0 "");
   (("packets", "holder"), output []);
   (("packets", "scroll"), output []);
   (("packets", "packets"), output [])].

(** Elements with an id, and their controller. *)
Definition node_controllers : list (string * string) :=
  [("flash", "flash"); ("peerInfo", "peerInfo"); ("messaging", "messaging")].

Definition node_page : ui :=
  mk_ui node_controllers node_elements [] [] 0 None None [] (12, 30, 5)%Z [] [] [].

(** A browser that reads one JSON text. *)
Definition sample_text : string := "sample".
Definition sample_table : json := JObj [("127.0.0.1:1", JStr "127.0.0.1:2"); ("127.0.0.1:3", JStr "127.0.0.1:3")].

#[local] Instance node_browser : Browser := {|
  location_search := "?addr=127.0.0.1:4000";
  decodeURIComponent s := inl s;
  JSON_parse s := if decide (s = sample_text) then inl sample_table else inr "SyntaxError: Unexpected token";
  type_error k := "TypeError: Cannot read properties of null (reading '" +:+ k +:+ "')";
  svg_of dot := Element "svg" [] [InnerText dot];
  scrollHeight el := Z.of_nat (length (el_content el));
  scrollWidth el := Z.of_nat (length (el_content el));
  local_time _ := ("0", "0", "0");
|}.

Definition node_endpoint : string := "http://127.0.0.1:4000".

Lemma node_page_ok : page_ok node_page.
Proof.
  split; [split|..]; [by left|by right; left| |by right; right; left|].
  - by eexists.
  - assert (Forall (λ t, is_Some (JMap.get t (targets node_page))) all_targets) as Hf.
    { apply (bool_decide_unpack _). vm_compute. exact I. }
    intros t Ht. by eapply Forall_forall in Ht; [|exact Hf].
Qed.

Lemma node_page_fresh : fresh_page node_page.
Proof. by split; [apply node_page_ok|..]. Qed.

Lemma node_page_endpoint : page_endpoint node_endpoint.
Proof. exists "127.0.0.1:4000". split; [done|]. vm_compute. reflexivity. Qed.

(** The page with a value typed into an input. *)
Definition typed (t : target) (v : string) (s : ui) : ui :=
  set_targets (JMap.set t (set_value (Some v) (target_of s t)) (targets s)) s.

(** A session on that page: two updates of the routing table whose answers
    arrive, with a form submitted in between. *)
Definition run_all (steps : list (world ui → option (world ui))) (w : world ui) : option (world ui) :=
  foldl (λ w f, w ≫= f) (Some w) steps.

Definition by_handler (m : handler) (w : world ui) : option (world ui) := Some (enter w (start m)).
Definition by_answer (i : nat) (a : answer) (w : world ui) : option (world ui) := complete w i a.

Definition ok_response (body : string) : answer := Responds (mk_response 200 "OK" body).

Definition node_steps : list (world ui → option (world ui)) :=
  [by_handler Routing.initialize;
   by_handler Routing.update;
   by_answer 1 (ok_response sample_text);
   by_answer 2 Fulfils;
   by_answer 1 (ok_response sample_text);
   by_handler Unicast.send;
   by_answer 2 Fulfils].

Definition node_world : world ui :=
  default (mk_world node_page [] [] [])
    (run_all node_steps (enter (mk_world node_page [] [] []) (start PeerInfo.initialize))).

(** *** That session is one *)

(** The steps that a session may take. *)
Definition legal (f : world ui → option (world ui)) : Prop :=
  (∃ m, (∀ s, gui_handler s m) ∧ f = by_handler m) ∨ (∃ i a, f = by_answer i a).

Lemma legal_handler m : (∀ s, gui_handler s m) → legal (by_handler m).
Proof. intros Hm. left. by exists m. Qed.

Lemma legal_answer i a : legal (by_answer i a).
Proof. right. by exists i, a. Qed.

Lemma run_all_reachable fs w w' :
  Forall legal fs → run_all fs w = Some w' →
  rtc (step gui_handler gui_event) w w'.
Proof.
  unfold run_all. revert w. induction fs as [|f fs IH]; intros w Hfs Hr; [by simplify_eq/=|].
  apply Forall_cons in Hfs as [Hf Hfs]. simpl in Hr.
  destruct (f w) as [w1|] eqn:Hw1.
  - eapply rtc_l; [|by apply IH]. destruct Hf as [(m & Hm & ->)|(i & a & ->)].
    + unfold by_handler in Hw1. simplify_eq. by apply step_handler.
    + by eapply step_resume.
  - exfalso. clear -Hr. induction fs as [|f fs IH]; simpl in Hr; [done|auto].
Qed.

Lemma node_world_runs :
  match run_all node_steps (enter (mk_world node_page [] [] []) (start PeerInfo.initialize)) with
  | Some _ => true
  | None => false
  end = true.
Proof. vm_compute. reflexivity. Qed.

Lemma node_session : session node_endpoint node_page node_world.
Proof.
  split_and!; [apply node_page_endpoint|apply node_page_fresh|].
  pose proof node_world_runs as Hruns. unfold node_world.
  destruct (run_all node_steps _) as [w|] eqn:E.
  - simpl. eapply run_all_reachable; [|exact E].
    repeat (apply Forall_cons; split); [| | | | | | |by apply Forall_nil].
    + by apply legal_handler, on_routing_initialize.
    + by apply legal_handler, on_routing_update.
    + apply legal_answer.
    + apply legal_answer.
    + apply legal_answer.
    + by apply legal_handler, on_send.
    + apply legal_answer.
  - discriminate Hruns.
Qed.

Lemma tables_atomic_witness :
  content_of (state node_world) ("routing", "table") =
    [Routing.row "127.0.0.1:1" (JStr "127.0.0.1:2"); Routing.row "127.0.0.1:3" (JStr "127.0.0.1:3")] ∧
  shows_answer (state node_world).
Proof.
  split; [vm_compute; reflexivity|]. apply (tables_atomic node_endpoint node_page node_world node_session).
Defined.

Lemma rejections_handled_witness : Forall packet_error (unhandled node_world).
Proof. apply (rejections_handled node_endpoint node_page node_world node_session). Defined.

Lemma flashes_expire_witness :
  length (flashes (state node_world)) = 3 ∧
  flashes (foldr Flash.timeout (state node_world) (timers (state node_world))) = [].
Proof.
  split; [vm_compute; reflexivity|].
  apply (flashes_expire node_endpoint node_page node_world node_session).
Defined.

(** An upload: the packets' connection is made, a file chosen and, after it is
    read, sent. *)
Definition choose (fs : list string) (w : world ui) : world ui :=
  mk_world (set_targets (JMap.set ("dataSharing", "fileUpload")
      (set_files fs (target_of (state w) ("dataSharing", "fileUpload"))) (targets (state w))) (state w))
    (pending w) (sent w) (unhandled w).

Definition upload_address : string := "http://127.0.0.1:4000/datasharing/upload".

Definition opened : world ui :=
  enter (enter (mk_world node_page [] [] []) (start PeerInfo.initialize)) (start Packets.initialize).
Definition before_load : world ui := enter (choose ["some text"] opened) (start DataSharing.upload).
Definition upload_world : world ui := enter before_load (start (DataSharing.upload_load upload_address "some text")).

Lemma file_waits : (upload_address, "some text") ∈ readers (state before_load).
Proof. vm_compute. by left. Qed.

Lemma choose_step fs w : step gui_handler gui_event w (choose fs w).
Proof.
  destruct w as [s ps rs us]. apply step_event. apply user_chooses. apply (bool_decide_unpack _). vm_compute. exact I.
Qed.

Lemma upload_session : session node_endpoint node_page upload_world.
Proof.
  split_and!; [apply node_page_endpoint|apply node_page_fresh|].
  apply (rtc_l _ _ opened); [apply step_handler, on_packets_initialize|].
  apply (rtc_l _ _ (choose ["some text"] opened)); [apply choose_step|].
  apply (rtc_l _ _ before_load); [apply step_handler, on_upload|].
  apply (rtc_l _ _ upload_world); [|apply rtc_refl].
  exact (step_handler gui_handler gui_event before_load _
    (on_upload_load _ upload_address "some text" "some text" file_waits)).
Qed.

Lemma requests_to_node_witness :
  length (sent node_world) = 5 ∧ Forall (to_node node_endpoint) (sent node_world) ∧
  url <$> sent upload_world = ["http://127.0.0.1:4000/socket/address"; upload_address] ∧ Forall (to_node node_endpoint) (sent upload_world) ∧
  sources (state upload_world) = ["http://127.0.0.1:4000/registry/pktnotify"] ∧
  (upload_address, "some text") ∈ readers (state upload_world).
Proof.
  split; [vm_compute; reflexivity|].
  split; [apply (requests_to_node node_endpoint node_page node_world node_session)|].
  split; [vm_compute; reflexivity|].
  split; [apply (requests_to_node node_endpoint node_page upload_world upload_session)|].
  split; [vm_compute; reflexivity|exact file_waits].
Defined.

(** An empty file name: the request is sent all the same. *)
Lemma resolve_sends_invalid_witness :
  page_ok (set_endpoint node_endpoint node_page) ∧
  tn_sent (run (start Naming.resolve) (set_endpoint node_endpoint node_page)) =
    [get_request "http://127.0.0.1:4000/datasharing/naming?name="].
Proof.
  assert (page_ok (set_endpoint node_endpoint node_page)) as Hp
    by (destruct node_page_ok as [[] ??]; by split; [split|..]).
  split; [done|].
  destruct (resolve_sends_invalid (set_endpoint node_endpoint node_page) Hp eq_refl) as (_ & Hr & _).
  exact Hr.
Defined.
