(* ===== verification/Classes.v ===== *)
(** The controller classes of the page, their blessing and the actions of the
    page.

    Models the class declarations of [src/gui/web/assets/scripts/main.js] and
    the base class [Controller] of [stimulus.js] as a heap of classes, each
    with the names of the methods and accessors that it defines and its
    targets; the bodies of the methods are those of [Base], [Forms] and
    [Tables].  [page_actions] are the action descriptors of
    [src/gui/web/node.html]. *)

From S2P Require Import Prelude JsCore JsString Dom Scopes Names Json Values Blessings Actions Page Base Forms Tables.

#[local] Open Scope string_scope.
#[local] Open Scope list_scope.

(** Methods and getters, known by the class and the name. *)
Definition methods (class : string) (names : list string) : list (string * Blessings.descriptor) :=
  (λ n, (n, DValue (class +:+ "." +:+ n))) <$> names.
Definition getters (class : string) (names : list string) : list (string * Blessings.descriptor) :=
  (λ n, (n, DAccessor (getter_only (OwnGetter (class +:+ "." +:+ n))))) <$> names.

Definition class (name : string) (parent : nat) (targets : option (list string)) (ms gs : list string) : class_object :=
  mk_class (Some parent) (match targets with Some l => [("targets", SStrings l)] | None => [] end)
    (("constructor", DValue name) :: methods name ms ++ getters name gs).

(** [Function.prototype], and the base class of the framework. *)
Definition Function_prototype : class_object := mk_class None [] [].
Definition Controller : class_object :=
  mk_class (Some 0)
    [("blessings", SBlessings [ClassPropertiesBlessing; TargetPropertiesBlessing; ValuePropertiesBlessing]);
     ("targets", SStrings []); ("values", SPairs [])]
    (("constructor", DValue "Controller") ::
     getters "Controller" ["application"; "scope"; "element"; "identifier"; "targets"; "classes"; "data"] ++
     methods "Controller" ["initialize"; "connect"; "disconnect"]).

Definition page_heap : heap :=
  [Function_prototype; Controller;
   class "BaseElement" 1 None ["checkInputs"; "fetch"] ["flash"; "peerInfo"];
   class "Flash" 1 (Some Flash.targets) ["printError"; "printSuccess"; "createFlash"] [];
   class "PeerInfo" 1 (Some PeerInfo.targets) ["initialize"; "getAPIURL"; "getQueryArgs"] ["flash"];
   class "Messaging" 2 (Some Messaging.targets) ["addMsg"] [];
   class "Unicast" 2 (Some Unicast.targets) ["send"] ["messagingController"];
   class "Routing" 2 (Some Routing.targets) ["initialize"; "update"; "addPeer"; "setEntry"] [];
   class "Packets" 2 (Some Packets.targets) ["initialize"; "packetMessage"; "packetError"; "packetsScroll"]
     ["messagingController"];
   class "Broadcast" 2 (Some Broadcast.targets) ["sendChat"; "sendPrivate"] [];
   class "Catalog" 2 (Some Catalog.targets) ["initialize"; "update"; "add"] [];
   class "DataSharing" 2 (Some DataSharing.targets) ["upload"; "download"; "triggerDownload"] [];
   class "Search" 2 (Some Search.targets) ["searchAll"; "searchFirst"] [];
   class "Naming" 2 (Some Naming.targets) ["resolve"; "tag"] []].

(** The registrations of [main], in order. *)
Definition registrations : list (string * nat) :=
  [("flash", 3); ("peerInfo", 4); ("messaging", 5); ("unicast", 6); ("routing", 7); ("packets", 8);
   ("broadcast", 9); ("catalog", 10); ("dataSharing", 11); ("search", 12); ("naming", 13)].

(** [blessDefinition] of each registration, on the heap that the ones before
    left. *)
Fixpoint bless_all (h : heap) (regs : list (string * nat)) : heap * list (string * nat) + string :=
  match regs with
  | [] => inl (h, [])
  | (identifier, c) :: regs =>
    match blessDefinition h identifier c with
    | inl (h, def) =>
      match bless_all h regs with inl (h, defs) => inl (h, def :: defs) | inr error => inr error end
    | inr error => inr error
    end
  end.

Definition blessed_heap : heap := Eval vm_compute in match bless_all page_heap registrations with inl (h, _) => h | inr _ => [] end.
Definition blessed_classes : list (string * nat) :=
  Eval vm_compute in match bless_all page_heap registrations with inl (_, defs) => defs | inr _ => [] end.

(** The [data-action] attributes of the page. *)
Definition page_actions : list string :=
  ["click->unicast#send"; "click->broadcast#sendChat"; "click->broadcast#sendPrivate"; "click->routing#update";
   "click->routing#addPeer"; "click->routing#setEntry"; "click->catalog#update"; "click->catalog#add";
   "click->dataSharing#upload"; "click->dataSharing#download"; "click->search#searchAll";
   "click->search#searchFirst"; "click->naming#resolve"; "click->naming#tag"].

(** A heap is well formed if every prototype is older, which can be computed. *)
Definition heap_check (h : heap) : bool :=
  forallb (λ c, match parent h c with Some p => (p <? c)%nat | None => true end) (seq 0 (length h)).

Lemma heap_check_wf h : heap_check h = true → heap_wf h.
Proof.
  intros Hc c p Hp. unfold heap_check in Hc. rewrite forallb_forall in Hc.
  assert (c < length h)%nat as Hlt.
  { unfold parent in Hp. destruct (h !! c) eqn:Hl; [|done]. by eapply lookup_lt_Some. }
  specialize (Hc c). rewrite Hp in Hc. apply Nat.ltb_lt, Hc, in_seq. lia.
Qed.

Lemma page_heap_wf : heap_wf page_heap.
Proof. by apply heap_check_wf. Qed.

(** What [page_classes_blessed] states of one class, computed. *)
Definition blessed_check (h : heap) (def reg : string * nat) : bool :=
  bool_decide (parent h def.2 = Some reg.2) &&
  forallb (λ name, bool_decide (lookup_property h def.2 (name +:+ "Target") =
                                Some (DAccessor (getter_only (GetTarget name)))))
    (readInheritableStaticArrayValues static_strings page_heap reg.2 "targets") &&
  forallb (λ key, bool_decide (key = "constructor") ||
                  bool_decide (lookup_property h def.2 key = JMap.get key (prototype_of page_heap reg.2)))
    (JMap.keys (prototype_of page_heap reg.2)).

Lemma blessed_check_spec h def reg :
  blessed_check h def reg = true →
  parent h def.2 = Some reg.2 ∧
  (∀ name, name ∈ readInheritableStaticArrayValues static_strings page_heap reg.2 "targets" →
     lookup_property h def.2 (name +:+ "Target") = Some (DAccessor (getter_only (GetTarget name)))) ∧
  (∀ key, key ∈ JMap.keys (prototype_of page_heap reg.2) → key ≠ "constructor" →
     lookup_property h def.2 key = JMap.get key (prototype_of page_heap reg.2)).
Proof.
  unfold blessed_check. generalize page_heap as h0. intros h0 [[Hp Ht]%andb_true_iff Hk]%andb_true_iff.
  apply bool_decide_eq_true in Hp. rewrite forallb_forall in Ht, Hk. split; [done|]. split.
  - intros name Hn%list_elem_of_In. by apply Ht, bool_decide_eq_true in Hn.
  - intros key Hkey%list_elem_of_In Hne. apply Hk, orb_true_iff in Hkey as [Hc|Hc];
      by apply bool_decide_eq_true in Hc.
Qed.

(** Every controller class of the page can be registered, and each of its
    targets is then a property that finds the target of that name; what the
    classes define themselves is kept. *)
Lemma page_classes_blessed :
  ∃ h defs, bless_all page_heap registrations = inl (h, defs) ∧ defs.*1 = registrations.*1 ∧
  Forall2 (λ def reg : string * nat,
    parent h def.2 = Some reg.2 ∧
    (∀ name, name ∈ readInheritableStaticArrayValues static_strings page_heap reg.2 "targets" →
       lookup_property h def.2 (name +:+ "Target") = Some (DAccessor (getter_only (GetTarget name)))) ∧
    (∀ key, key ∈ JMap.keys (prototype_of page_heap reg.2) → key ≠ "constructor" →
       lookup_property h def.2 key = JMap.get key (prototype_of page_heap reg.2))) defs registrations.
Proof.
  exists blessed_heap, blessed_classes. split; [vm_compute; reflexivity|]. split; [vm_compute; reflexivity|].
  assert (Forall2 (λ def reg, blessed_check blessed_heap def reg = true) blessed_classes registrations) as Hc.
  { let l := eval vm_compute in blessed_classes in assert (blessed_classes = l) as -> by (vm_compute; reflexivity).
    unfold registrations. repeat (apply Forall2_cons_2; [vm_compute; reflexivity|]). apply Forall2_nil_2. }
  eapply Forall2_impl; [exact Hc|]. apply blessed_check_spec.
Qed.

(** The code that a click on a button runs. *)
Definition action_code (text : string) : option string :=
  let d := parseActionDescriptorString text in
  match d_eventName d, d_eventTarget d, d_identifier d, d_methodName d with
  | Some event, None, Some identifier, Some method =>
    if decide (event = "click") then
      match JMap.get identifier blessed_classes ≫= λ c, lookup_property blessed_heap c method with
      | Some (DValue code) => Some code
      | _ => None
      end
    else None
  | _, _, _, _ => None
  end.

Definition page_codes : list string :=
  ["Unicast.send"; "Broadcast.sendChat"; "Broadcast.sendPrivate"; "Routing.update"; "Routing.addPeer";
   "Routing.setEntry"; "Catalog.update"; "Catalog.add"; "DataSharing.upload"; "DataSharing.download";
   "Search.searchAll"; "Search.searchFirst"; "Naming.resolve"; "Naming.tag"].

(** Every button of the page works: its action descriptor, for a click,
    names a registered identifier and a method that the blessed class of that
    identifier has, which is the one that [main.js] defines for it. *)
Lemma page_actions_defined : action_code <$> page_actions = Some <$> page_codes.
Proof. vm_compute. reflexivity. Qed.

(** ** The theorems on classes, on this page *)

Lemma ancestors_terminate_witness :
  heap_wf page_heap ∧ ∃ l, ancestors_loop 7 page_heap (Some 6) [] = Some (l ++ [6]) ∧ lineage page_heap (l ++ [6]).
Proof. split; [exact page_heap_wf|]. apply (ancestors_terminate page_heap 6 7); [exact page_heap_wf|lia]. Defined.

Lemma bless_lookup_witness :
  ∃ h' s, bless page_heap 3 = inl (h', s) ∧ lookup_property h' s "printError" = Some (DValue "Flash.printError").
Proof.
  assert (3 < length page_heap)%nat as Hc by (vm_compute; lia).
  pose proof (bless_lookup page_heap 3 "printError" page_heap_wf Hc ltac:(discriminate)) as Hb.
  destruct (getBlessedProperties page_heap 3) as [p|e] eqn:He; [|vm_compute in He; discriminate He].
  destruct Hb as (h' & s & Hb & _ & _ & Hl). exists h', s. split; [exact Hb|]. rewrite Hl. reflexivity.
Defined.

Lemma targets_blessed_witness :
  match bless page_heap 7 with
  | inl (h', s) => lookup_property h' s "originTarget" = Some (DAccessor (getter_only (GetTarget "origin")))
  | inr _ => False
  end.
Proof.
  destruct (bless page_heap 7) as [[h' s]|e] eqn:Hb; [|vm_compute in Hb; discriminate Hb].
  apply (targets_blessed page_heap 7 h' s "origin" page_heap_wf ltac:(vm_compute; lia) Hb).
  - exists 1, [ClassPropertiesBlessing; TargetPropertiesBlessing; ValuePropertiesBlessing].
    split; [vm_compute; set_solver|]. split; [reflexivity|set_solver].
  - exists 7, Routing.targets. split; [vm_compute; set_solver|]. split; [reflexivity|set_solver].
  - intros c' names name' Hc' Ho Hn. vm_compute in Hc'.
    repeat (apply elem_of_cons in Hc' as [->|Hc']; [vm_compute in Ho; simplify_eq|]);
      try by apply not_elem_of_nil in Hc'.
    all: repeat (apply elem_of_cons in Hn as [->|Hn]; [discriminate|]); by apply not_elem_of_nil in Hn.
  - reflexivity.
Defined.
