(* ===== verification/Boot.v ===== *)
(** The start of the page: [main] and the collapsible panels.

    Models [src/gui/web/assets/scripts/main.js], the functions [main] and
    [initCollapsible].  The state is the heap of classes, the application and
    the panels; a statement that throws ends [main], as it does in the page. *)

From S2P Require Import Prelude JsCore JsString Dom Observers StringMap Scopes Router App Blessings Classes.
From stdpp Require Import pretty.

#[local] Open Scope string_scope.
#[local] Open Scope list_scope.
#[local] Open Scope act_scope.

(** ** Collapsible panels *)

Module Collapsible.

Record t := mk {
  (** The elements whose [classList] contains [active]. *)
  active : list elem;
  (** [style.display], for the elements that have one. *)
  display : list (elem * string);
  (** The elements with the click listener. *)
  listening : list elem;
}.

Definition with_active (l : list elem) (s : t) : t := mk l (display s) (listening s).
Definition with_display (d : list (elem * string)) (s : t) : t := mk (active s) d (listening s).
Definition with_listening (l : list elem) (s : t) : t := mk (active s) (display s) l.

Section collapsible.
Context (nextElementSibling : elem → option elem).

Definition null_style : string := "TypeError: Cannot read properties of null (reading 'style')".

(** [content.style.display = v], for the sibling of [e]. *)
Definition set_display (e : elem) (v : string) : Act.t t :=
  match nextElementSibling e with
  | Some content => Act.update (λ s, with_display (JMap.set content v (display s)) s)
  | None => Act.throw null_style
  end.

(** The click listener of [e]. *)
Definition click (e : elem) : Act.t t := λ s,
  (if JSet.has e (active s)
   then (set_display e "none" ;; Act.update (λ s, with_active (JSet.delete e (active s)) s))
   else (set_display e "block" ;; Act.update (λ s, with_active (JSet.add e (active s)) s))) s.

(** A round of the loop of [initCollapsible]. *)
Definition init_element (e : elem) : Act.t t :=
  Act.update (λ s, with_listening (listening s ++ [e]) s) ;;
  λ s, set_display e (if JSet.has e (active s) then "block" else "none") s.

Definition initCollapsible (coll : list elem) : Act.t t := Act.each init_element coll.

(** The user clicks on an element; an exception of the listener is reported by
    the browser, and nothing else follows it. *)
Definition user_click (s : t) (e : elem) : t :=
  foldl (λ s e', if decide (e' = e) then (click e s).1 else s) s (listening s).

(** *** What is shown *)

Definition shown (b : bool) : string := if b then "block" else "none".

(** An element shows its panel exactly if it is active. *)
Definition matching (s : t) (e : elem) : Prop :=
  ∀ content, nextElementSibling e = Some content →
    JMap.get content (display s) = Some (shown (JSet.has e (active s))).

Context (next_inj : ∀ e e' c, nextElementSibling e = Some c → nextElementSibling e' = Some c → e = e').

Lemma init_element_eq e c s :
  nextElementSibling e = Some c →
  init_element e s =
    (with_display (JMap.set c (shown (JSet.has e (active s))) (display s)) (with_listening (listening s ++ [e]) s), None).
Proof. intros Hc. unfold init_element, Act.seq, Act.update, set_display. by rewrite Hc. Qed.

Lemma init_spec coll s :
  Forall (λ e, is_Some (nextElementSibling e)) coll →
  let '(s', r) := initCollapsible coll s in
  r = None ∧ active s' = active s ∧ listening s' = listening s ++ coll ∧
  (∀ e, e ∈ coll → matching s' e) ∧
  (∀ e, e ∉ coll → ∀ c, nextElementSibling e = Some c → JMap.get c (display s') = JMap.get c (display s)).
Proof.
  intros Hall. unfold initCollapsible. revert s. induction Hall as [|e coll [c Hc] Hall IH]; intros s; simpl.
  { split_and!; [done|done|by rewrite app_nil_r|by intros e ?%not_elem_of_nil|done]. }
  unfold Act.seq at 1. rewrite (init_element_eq e c s Hc).
  specialize (IH (with_display (JMap.set c (shown (JSet.has e (active s))) (display s))
    (with_listening (listening s ++ [e]) s))).
  destruct (Act.each init_element coll _) as [s' r]. destruct IH as (-> & Ha & Hl & Hm & Hf). simpl in *.
  split_and!; [done|done|by rewrite Hl, <-(assoc_L (++))| |].
  - intros e' [->|He']%elem_of_cons; [|by apply Hm]. destruct (decide (e ∈ coll)); [by apply Hm|].
    intros c' Hc'. rewrite (Hf e), Ha by done. assert (c' = c) as -> by congruence. by rewrite JMap.get_set_eq.
  - intros e' [Hne He']%not_elem_of_cons c' Hc'. rewrite (Hf e') by done. rewrite JMap.get_set_ne; [done|].
    intros ->. apply Hne. by eapply next_inj.
Qed.

(** The number of clicks on an element. *)
Definition clicks (e : elem) (l : list elem) : nat := length (filter (λ e', e' = e) l).

Lemma click_spec e c s :
  nextElementSibling e = Some c →
  let s' := (click e s).1 in
  listening s' = listening s ∧
  (∀ e', JSet.has e' (active s') = if decide (e' = e) then negb (JSet.has e (active s)) else JSet.has e' (active s)) ∧
  matching s' e ∧ (∀ e', e' ≠ e → matching s e' → matching s' e').
Proof.
  intros Hc. unfold click, Act.seq, set_display. rewrite Hc. simpl.
  assert (∀ e', e' ≠ e → ∀ v, ∀ c', nextElementSibling e' = Some c' →
    JMap.get c' (JMap.set c v (display s)) = JMap.get c' (display s)) as Hne.
  { intros e' He v c' Hc'. rewrite JMap.get_set_ne; [done|]. intros ->. apply He. by eapply next_inj. }
  destruct (JSet.has e (active s)) eqn:Ha; simpl.
  - assert (∀ e', JSet.has e' (JSet.delete e (active s)) = if decide (e' = e) then false else JSet.has e' (active s)) as Hd.
    { intros e'. rewrite ElementObserver.has_delete. by destruct (decide (e = e')), (decide (e' = e)). }
    split_and!; [done|done| |].
    + intros c' Hc'. simpl. rewrite Hd, decide_True by done. assert (c' = c) as -> by congruence. apply JMap.get_set_eq.
    + intros e' He Hm c' Hc'. simpl. rewrite Hd, decide_False, (Hne e') by done. by apply Hm.
  - assert (∀ e', JSet.has e' (JSet.add e (active s)) = if decide (e' = e) then true else JSet.has e' (active s)) as Hd.
    { intros e'. rewrite ElementObserver.has_add. by destruct (decide (e = e')), (decide (e' = e)). }
    split_and!; [done|done| |].
    + intros c' Hc'. simpl. rewrite Hd, decide_True by done. assert (c' = c) as -> by congruence. apply JMap.get_set_eq.
    + intros e' He Hm c' Hc'. simpl. rewrite Hd, decide_False, (Hne e') by done. by apply Hm.
Qed.

Lemma user_click_eq s e :
  NoDup (listening s) → user_click s e = if decide (e ∈ listening s) then (click e s).1 else s.
Proof.
  unfold user_click. generalize (listening s) as l. intros l Hn. revert s. induction l as [|e' l IH]; intros s; simpl.
  { done. }
  apply NoDup_cons in Hn as [He' Hn]. rewrite IH by done. destruct (decide (e' = e)) as [->|Hne].
  - rewrite decide_False by done. by rewrite decide_True by left.
  - apply decide_ext. rewrite elem_of_cons. naive_solver.
Qed.

Lemma clicks_cons e e' l : clicks e (e' :: l) = if decide (e' = e) then S (clicks e l) else clicks e l.
Proof. unfold clicks. rewrite filter_cons. by destruct (decide (e' = e)). Qed.

Lemma clicks_spec coll s l :
  NoDup coll → listening s = coll → Forall (λ e, is_Some (nextElementSibling e)) coll →
  (∀ e, e ∈ coll → matching s e) →
  ∀ e, e ∈ coll →
    JSet.has e (active (foldl user_click s l)) = xorb (JSet.has e (active s)) (Nat.odd (clicks e l)) ∧
    matching (foldl user_click s l) e.
Proof.
  intros Hn Hl Hall. revert s Hl. induction l as [|e l IH]; intros s Hl Hm x Hx; simpl.
  { by rewrite xorb_false_r; auto. }
  rewrite user_click_eq by by rewrite Hl. rewrite Hl, clicks_cons. destruct (decide (e ∈ coll)) as [He|He].
  - rewrite Forall_forall in Hall. destruct (Hall e He) as [c Hc].
    destruct (click_spec e c s Hc) as (Hl' & Ha & Hme & Hmo).
    destruct (IH (click e s).1) with (e := x) as [Hact Hmat]; [congruence| |done|].
    + intros e' He'. destruct (decide (e' = e)) as [->|Hne]; [done|]. by apply Hmo, Hm.
    + split; [|done]. rewrite Hact, Ha. destruct (decide (x = e)) as [->|Hne].
      * rewrite decide_True by done. rewrite Nat.odd_succ, <-Nat.negb_odd.
        by destruct (JSet.has e (active s)), (Nat.odd _).
      * by rewrite decide_False by congruence.
  - rewrite decide_False by (intros ->; done). by apply IH.
Qed.
End collapsible.

(** C34: the panels follow the clicks: if every collapsible element has a panel,
    [initCollapsible] does not throw, and after any clicks of the user an
    element is active exactly if it was at first and has been clicked an even
    number of times, or was not and an odd number; and its panel is displayed
    exactly if the element is active. *)
Theorem panels_toggle next coll s l :
  (∀ e e' c, next e = Some c → next e' = Some c → e = e') →
  NoDup coll → listening s = [] → Forall (λ e, is_Some (next e)) coll →
  let '(s0, r) := initCollapsible next coll s in
  r = None ∧ ∀ e content, e ∈ coll → next e = Some content →
    let s' := foldl (user_click next) s0 l in
    let b := xorb (JSet.has e (active s)) (Nat.odd (clicks e l)) in
    JSet.has e (active s') = b ∧ JMap.get content (display s') = Some (shown b).
Proof.
  intros Hinj Hn Hl Hall. pose proof (init_spec next Hinj coll s Hall) as Hi.
  destruct (initCollapsible next coll s) as [s0 r]. destruct Hi as (-> & Ha & Hl0 & Hm & _).
  rewrite Hl, app_nil_l in Hl0. split; [done|]. intros e content He Hc.
  destruct (clicks_spec next Hinj coll s0 l Hn Hl0 Hall Hm e He) as [Hact Hmat]. simpl.
  rewrite <-Ha. split; [done|]. rewrite <-Hact. by apply Hmat.
Qed.

End Collapsible.

(** ** [main] *)

Module Main.

Section main.
Context {doc W : Type} `{Dom doc} (ops : App.Ops doc W).

Record t := mk {
  classes : heap;
  application : App.t (W := W);
  panels : Collapsible.t;
}.

Definition with_application (f : App.t → App.t) (s : t) : t := mk (classes s) (f (application s)) (panels s).

(** A statement on the panels. *)
Definition on_panels (a : Act.t Collapsible.t) : Act.t t := λ s,
  let '(p, r) := a (panels s) in (mk (classes s) (application s) p, r).

(** A class, as the definition that the router keeps knows it. *)
Definition class_name (c : nat) : string := "class " +:+ pretty c.

(** [application.register(identifier, controllerConstructor)]: the router
    unloads the identifier, then blesses the class, which may throw. *)
Definition register (dom : doc) (identifier : string) (c : nat) : Act.t t := λ s,
  match blessDefinition (classes s) identifier c with
  | inl (h, (identifier, blessed)) =>
    (mk h (App.register ops dom identifier (class_name blessed) (application s)) (panels s), None)
  | inr error => (with_application (App.unload ops dom [identifier]) s, Some error)
  end.

(** [main], for the collapsible elements of the document; [start] waits for
    the document and runs after it. *)
Definition main (dom : doc) (next : elem → option elem) (collapsibles : list elem) : Act.t t :=
  Act.each (λ '(identifier, c), register dom identifier c) registrations ;;
  on_panels (Collapsible.initCollapsible next collapsibles).

(** The state when the script runs. *)
Definition initial (root : elem) (w : W) (active : list elem) : t :=
  mk page_heap (App.new root w) (Collapsible.mk active [] []).
End main.

Section boot.
Context {doc W : Type} `{DomLaws doc} (ops : App.Ops doc W).

(** Registering classes that can be blessed. *)
Lemma registers_session dom root w regs (s : t (W := W)) ids h defs :
  bless_all (classes s) regs = inl (h, defs) →
  App.session ops root w (App.mk_view None ids) (application s) →
  let '(s', r) := Act.each (λ '(identifier, c), register ops dom identifier c) regs s in
  r = None ∧ classes s' = h ∧ panels s' = panels s ∧
  App.session ops root w (App.mk_view None (reverse defs.*1 ++ ids)) (application s').
Proof.
  revert s ids h defs. induction regs as [|[i c] regs IH]; intros s ids h defs Hb Hs; simpl in Hb.
  { injection Hb as <- <-. done. }
  simpl. unfold Act.seq at 1. unfold register at 1.
  destruct (blessDefinition (classes s) i c) as [[h1 [i' c']]|] eqn:Hd; [|done].
  destruct (bless_all h1 regs) as [[h2 defs']|] eqn:Hb2; [|done]. injection Hb as <- <-.
  assert (App.session ops root w (App.mk_view None (i' :: ids))
            (App.register ops dom i' (class_name c') (application s))) as Hs1.
  { exact (App.session_load ops root w (App.mk_view None ids) _ dom [mk_definition i' (class_name c')] Hs). }
  specialize (IH (mk h1 (App.register ops dom i' (class_name c') (application s)) (panels s)) _ _ _ Hb2 Hs1).
  destruct (Act.each _ regs _) as [s' r]. simpl in IH. destruct IH as (-> & -> & -> & Hs').
  split_and!; [done..|]. rewrite fmap_cons, reverse_cons, <-(assoc_L (++)). exact Hs'.
Qed.

(** C6: [main] brings the page up: if every collapsible element has a panel it
    does not throw, and once the document is ready, and however it changes
    afterwards, a controller is connected for an element exactly for the
    identifiers of its [data-controller] attribute that are among the eleven
    that [main] registers. *)
Theorem main_connects dom next coll root w active dom0 dom1 records :
  Forall (λ e, is_Some (next e)) coll →
  let '(s, r) := main ops dom next coll (initial root w active) in
  r = None ∧
  ∀ e i, App.reported ops dom0 dom1 root records →
    let a := App.start ops dom0 (application s) in
    (App.connected a e i ↔ i ∈ registrations.*1 ∧ App.wanted dom0 root e i) ∧
    (App.connected (App.processMutations ops dom1 records a) e i ↔ i ∈ registrations.*1 ∧ App.wanted dom1 root e i).
Proof.
  intros Hall. unfold main, Act.seq.
  destruct (bless_all page_heap registrations) as [[h defs]|] eqn:Hb; [|vm_compute in Hb; discriminate Hb].
  assert (defs.*1 = registrations.*1) as Hdefs.
  { assert (match bless_all page_heap registrations with inl (_, defs) => defs.*1 | inr _ => [] end =
            registrations.*1) as Hc by (vm_compute; reflexivity). by rewrite Hb in Hc. }
  pose proof (registers_session dom root w registrations (initial root w active) [] h defs Hb
    (App.session_new ops root w)) as Hr.
  destruct (Act.each _ registrations _) as [s1 r1]. destruct Hr as (-> & _ & _ & Hs1).
  unfold on_panels.
  assert (∃ p, Collapsible.initCollapsible next coll (panels s1) = (p, None)) as [p ->].
  { clear -Hall. generalize (panels s1) as p. induction Hall as [|e coll [c Hc] Hall IH]; intros p; [by eexists|].
    unfold Collapsible.initCollapsible in *. simpl. unfold Act.seq at 1.
    rewrite (Collapsible.init_element_eq next e c p Hc). apply IH. }
  split; [done|]. intros e i Hrep. simpl.
  assert (∀ j, j ∈ reverse defs.*1 ++ [] ↔ j ∈ registrations.*1) as Hids.
  { intros j. by rewrite app_nil_r, elem_of_reverse, Hdefs. }
  pose proof (Router.stable_trivial (App.contextOps ops)) as SP.
  pose proof (App.session_start ops root w _ _ dom0 Hs1) as Hs2.
  pose proof (App.session_mutations ops root w _ _ dom0 dom1 records Hs2 Hrep) as Hs3.
  destruct (App.session_tracks ops _ SP (λ _ _ _, I) root w _ _ I Hs2) as [Hi2 Hroot2].
  destruct (App.session_tracks ops _ SP (λ _ _ _, I) root w _ _ I Hs3) as [Hi3 Hroot3].
  split; [rewrite <-Hroot2|rewrite <-Hroot3]; rewrite <-Hids; by eapply App.sync_connected.
Qed.
End boot.

Lemma main_connects_witness :
  let ops := App.page_ops in
  let next := λ e, Some (e + 10) in
  let '(s, r) := main ops App.page0 next [3] (initial 1 tt []) in
  r = None ∧ App.connected (App.start ops App.page0 (application s)) 2 "flash".
Proof.
  pose proof (main_connects App.page_ops App.page0 (λ e, Some (e + 10)) [3] 1 tt [] App.page0 App.page1 App.records1)
    as Hm.
  cbv zeta. destruct (main _ _ _ _ _) as [s r].
  destruct Hm as [Hr Hm]; [constructor; [eexists; reflexivity|constructor]|]. split; [exact Hr|].
  apply (Hm 2 "flash"); [apply App.page_reported|]. split; [left|].
  split; [by apply (bool_decide_eq_true_1 _)|]. exists "flash". split; [reflexivity|vm_compute; set_solver].
Defined.
End Main.
