(* ===== verification/Rendering.v ===== *)
(** The graph renderer's front end: the promises of a worker, the choice of a
    back end, the options of a rendering and the data URL of an image.

    Models [src/gui/web/assets/scripts/viz.js].  The renderer itself
    ([viz.lite.render.js], a worker) and the browser's canvas and XML parser
    are parameters.  Arrays that a caller passes are references into a store,
    since [renderString] writes to one. *)

From S2P Require Import Prelude JsCore JsString Json.
From Stdlib Require Import Ascii ZifyN QArith Qround.
From stdpp Require Import pretty.

#[local] Open Scope string_scope.
#[local] Open Scope list_scope.

(** ** What is rendered *)

Record file := mk_file { f_path : string; f_data : string }.

(** An image of a graph; its sizes are numbers or strings, which the program
    only concatenates, [None] for [undefined]. *)
Record image := mk_image { i_path : string; i_width : option string; i_height : option string }.

(** The options that a caller gives, [None] for [undefined]; [o_files] refers to
    the caller's array. *)
Record options := mk_options {
  o_format : option string;
  o_engine : option string;
  o_files : option nat;
  o_images : option (list image);
  o_yInvert : option bool;
  o_nop : option Z;
}.

Definition no_options : options := mk_options None None None None None None.

(** [_extends({}, options, { format: format })] *)
Definition with_format (format : string) (o : options) : options :=
  mk_options (Some format) (o_engine o) (o_files o) (o_images o) (o_yInvert o) (o_nop o).

(** What a back end is asked to render. *)
Record request := mk_request {
  r_src : string;
  r_format : string;
  r_engine : string;
  r_files : list file;
  r_images : list image;
  r_yInvert : bool;
  r_nop : Z;
}.

Module Viz.

(** ** [renderString] *)

(** The arrays of the callers. *)
Abbreviation store := (list (list file)).

Definition newline : string := String (ascii_of_N 10) "".
Definition shown (v : option string) : string := default "undefined" v.

Definition image_data (i : image) : string :=
  "<?xml version=" +:+ Str.quoted "1.0" +:+ " encoding=" +:+ Str.quoted "UTF-8" +:+ " standalone=" +:+ Str.quoted "no"
  +:+ "?>" +:+ newline +:+ "<!DOCTYPE svg PUBLIC " +:+ Str.quoted "-//W3C//DTD SVG 1.1//EN" +:+ " "
  +:+ Str.quoted "http://www.w3.org/Graphics/SVG/1.1/DTD/svg11.dtd" +:+ ">" +:+ newline
  +:+ "<svg width=" +:+ Str.quoted (shown (i_width i)) +:+ " height=" +:+ Str.quoted (shown (i_height i)) +:+ "></svg>".

Definition image_file (i : image) : file := mk_file (i_path i) (image_data i).

(** The array of files of a rendering: the caller's, or a new one. *)
Definition files_array (s : store) (o : options) : store * nat :=
  match o_files o with Some r => (s, r) | None => (s ++ [[]], length s) end.

(** [for (…) files.push(…)] *)
Definition push_images (s : store) (r : nat) (images : list image) : store :=
  foldl (λ s i, alter (λ files, files ++ [image_file i]) r s) s images.

Definition renderString (s : store) (src : string) (o : options) : store * request :=
  let format := default "svg" (o_format o) in
  let engine := default "dot" (o_engine o) in
  let '(s, files) := files_array s o in
  let images := default [] (o_images o) in
  let yInvert := default false (o_yInvert o) in
  let nop := default 0%Z (o_nop o) in
  let s := push_images s files images in
  (s, mk_request src format engine (default [] (s !! files)) images yInvert nop).

Definition renderSVGElement (s : store) (src : string) (o : options) : store * request :=
  renderString s src (with_format "svg" o).

Definition renderImageElement (s : store) (src : string) (o : options) : store * request :=
  renderString s src (with_format "svg" o).

(** The test [format !== 'json' || format !== 'json0']. *)
Definition json_format (format : option string) : option string :=
  if bool_decide (format ≠ Some "json") || bool_decide (format ≠ Some "json0") then Some "json" else format.

Definition renderJSONObject (s : store) (src : string) (o : options) : store * request :=
  renderString s src
    (mk_options (json_format (o_format o)) (o_engine o) (o_files o) (o_images o) (o_yInvert o) (o_nop o)).

(** ** The back end *)

Inductive wrapper := WorkerWrapper | ModuleWrapper.

(** What the constructor finds: [workerURL], [worker], [Module] and [render] in
    its options, and whether [Viz.Module] and [Viz.render] are there. *)
Definition new_wrapper (workerURL worker Module_ render : bool) (global_module global_render : bool) : wrapper + string :=
  if workerURL then inl WorkerWrapper
  else if worker then inl WorkerWrapper
  else if Module_ && render then inl ModuleWrapper
  else if global_module && global_render then inl ModuleWrapper
  else inr "Error: Must specify workerURL or worker option, Module and render options, or include one of full.render.js or lite.render.js after viz.js.".

(** [ModuleWrapper.render]: the promise is settled at once. *)
Definition module_render (render : request → string + string) (r : request) : string + string := render r.
End Viz.

(** ** [WorkerWrapper]: promises for the answers of a worker *)

Module Worker.

Record t := mk {
  nextId : nat;
  (** The listeners, each for the promise of its id. *)
  listeners : list nat;
  posted : list (nat * request);
  (** The promises that are settled, with their result or error. *)
  settled : list (nat * (string + string));
  (** Exceptions of the message listener. *)
  uncaught : list string;
}.

Definition new : t := mk 0 [] [] [] [].

(** [render(src, options)]: the state after it, and the promise. *)
Definition render (r : request) (w : t) : t * nat :=
  let id := nextId w in
  (mk (S id) (JSet.add id (listeners w)) (posted w ++ [(id, r)]) (settled w) (uncaught w), id).

(** A promise is settled once. *)
Definition settle (id : nat) (v : string + string) (l : list (nat * (string + string))) : list (nat * (string + string)) :=
  if JMap.has id l then l else l ++ [(id, v)].

(** The worker's message. *)
Definition message (id : nat) (answer : string + string) (w : t) : t :=
  if JSet.has id (listeners w) then
    mk (nextId w) (JSet.delete id (listeners w)) (posted w) (settle id answer (settled w)) (uncaught w)
  else mk (nextId w) (listeners w) (posted w) (settled w) (uncaught w ++ ["TypeError: _this.listeners[id] is not a function"]).

(** What happens to a wrapper. *)
Inductive step := Render (r : request) | Answer (id : nat) (answer : string + string).
Definition run_step (w : t) (st : step) : t :=
  match st with Render r => (render r w).1 | Answer id answer => message id answer w end.
Definition run (steps : list step) : t := foldl run_step new steps.

(** The requests of a run, whose indexes are the promises, and its answers. *)
Definition requests (steps : list step) : list request :=
  omap (λ st, match st with Render r => Some r | Answer _ _ => None end) steps.
Definition answers (steps : list step) : list (nat * (string + string)) :=
  omap (λ st, match st with Render _ => None | Answer id a => Some (id, a) end) steps.

(** As many numbers below [n] as there are, each once, are all of them. *)
Lemma NoDup_all_below (l : list nat) n :
  NoDup l → (∀ x, x ∈ l → x < n) → length l = n → ∀ x, x < n → x ∈ l.
Proof.
  intros Hn Hb Hl x Hx. assert (l ≡ₚ seq 0 n) as ->; [|by apply elem_of_seq; lia].
  apply submseteq_length_Permutation; [|by rewrite length_seq, Hl].
  apply NoDup_submseteq; [done|]. intros y Hy. apply elem_of_seq. specialize (Hb y Hy). lia.
Qed.

(** The worker answers each request at most once, after it was posted. *)
Fixpoint answering (posted_ : nat) (answered : list nat) (steps : list step) : Prop :=
  match steps with
  | [] => True
  | Render _ :: steps => answering (S posted_) answered steps
  | Answer id _ :: steps => id < posted_ ∧ id ∉ answered ∧ answering posted_ (id :: answered) steps
  end.

Record Inv (w : t) (rs : list request) (as_ : list (nat * (string + string))) : Prop := {
  inv_next : nextId w = length rs;
  inv_posted : posted w = imap (λ i r, (i, r)) rs;
  inv_settled : settled w = as_;
  inv_listeners id : id ∈ listeners w ↔ id < length rs ∧ id ∉ as_.*1;
  inv_bound id : id ∈ as_.*1 → id < length rs;
  inv_uncaught : uncaught w = [];
}.

Lemma run_inv steps w rs as_ :
  Inv w rs as_ → answering (length rs) (reverse as_.*1) steps →
  Inv (foldl run_step w steps) (rs ++ requests steps) (as_ ++ answers steps).
Proof.
  revert w rs as_. induction steps as [|[r|id a] steps IH]; intros w rs as_ [Hn Hp Hs Hl Hb Hu] Ha.
  - unfold requests, answers. simpl. by rewrite !app_nil_r.
  - simpl in Ha |- *. change (requests (Render r :: steps)) with (r :: requests steps).
    change (answers (Render r :: steps)) with (answers steps).
    rewrite (cons_middle r), (assoc_L (++)). apply IH; [|by rewrite length_app, Nat.add_1_r].
    split; simpl; [by rewrite Hn, length_app, Nat.add_1_r| |done| | |done].
    + rewrite imap_app. simpl. by rewrite Hp, Hn, Nat.add_0_r.
    + intros id. rewrite JSet.elem_of_add, Hl, length_app, Hn. simpl. split.
      * intros [->|[? ?]]; [|split; [lia|done]]. split; [lia|]. intros Hin%Hb. lia.
      * intros [? ?]. destruct (decide (id = length rs)); [by left|right; split; [lia|done]].
    + intros id Hin%Hb. rewrite length_app. lia.
  - simpl in Ha. destruct Ha as (Hid & Hna & Ha). rewrite elem_of_reverse in Hna.
    change (requests (Answer id a :: steps)) with (requests steps).
    change (answers (Answer id a :: steps)) with ((id, a) :: answers steps).
    rewrite (cons_middle (id, a)), (assoc_L (++)). simpl.
    apply IH; [|rewrite fmap_app; simpl; by rewrite reverse_snoc].
    unfold message. rewrite (proj2 (JSet.has_true id (listeners w))) by by apply Hl.
    split; simpl; [done|done| | | |done].
    + unfold settle. assert (JMap.has id (settled w) = false) as ->; [|by rewrite Hs].
      apply not_true_iff_false. by rewrite JMap.map_has_true, Hs.
    + intros id'. rewrite JSet.elem_of_delete, Hl, fmap_app, elem_of_app. simpl.
      rewrite list_elem_of_singleton. tauto.
    + intros id'. rewrite fmap_app, elem_of_app. simpl. rewrite list_elem_of_singleton. intros [?| ->]; auto.
Qed.

Lemma run_spec steps :
  answering 0 [] steps → Inv (run steps) (requests steps) (answers steps).
Proof.
  intros Ha. apply (run_inv steps new [] []); [|done]. split; simpl; [done..| | |done].
  - intros id. split; [by intros ?%not_elem_of_nil|]. intros [? _]. lia.
  - by intros id ?%not_elem_of_nil.
Qed.

Lemma answered_nodup n l steps : answering n l steps → NoDup (answers steps).*1 ∧ ∀ id, id ∈ (answers steps).*1 → id ∉ l.
Proof.
  revert n l. induction steps as [|[r|id a] steps IH]; intros n l Ha; simpl in Ha.
  - split; [constructor|]. by intros id ?%not_elem_of_nil.
  - by apply IH in Ha.
  - destruct Ha as (_ & Hid & Ha). apply IH in Ha as [Hn Hl].
    change (answers (Answer id a :: steps)) with ((id, a) :: answers steps). simpl. split.
    + apply NoDup_cons. split; [|done]. intros Hin. apply (Hl _ Hin). left.
    + intros id' [->|Hin]%elem_of_cons; [done|]. apply Hl in Hin. set_solver.
Qed.

(** Every rendering gets its own answer: for a worker that answers each
    request it is sent at most once, in any order and interleaved with new
    requests, with what [f] says of the request, a promise is settled exactly
    if its request has been answered, with the answer of its own request, and
    no message goes astray; once the worker has answered as many messages as it
    was sent every promise is settled and no listener is left. *)
Lemma renderings_answered f steps :
  answering 0 [] steps →
  (∀ id a, Answer id a ∈ steps → ∃ r, requests steps !! id = Some r ∧ a = f r) →
  let w := run steps in
  (∀ id v, JMap.get id (settled w) = Some v ↔
     ∃ r, requests steps !! id = Some r ∧ v = f r ∧ Answer id v ∈ steps) ∧
  uncaught w = [] ∧ posted w = imap (λ i r, (i, r)) (requests steps) ∧
  (length (answers steps) = length (requests steps) →
     listeners w = [] ∧ ∀ id r, requests steps !! id = Some r → JMap.get id (settled w) = Some (f r)).
Proof.
  intros Ha Hf w. destruct (run_spec steps Ha) as [Hn Hp Hs Hl Hb Hu].
  destruct (answered_nodup 0 [] steps Ha) as [Hnd _].
  assert (∀ id a, (id, a) ∈ answers steps ↔ Answer id a ∈ steps) as Hans.
  { intros id a. unfold answers. rewrite list_elem_of_omap. split.
    - intros ([r|id' a'] & Hin & Heq); [done|]. by injection Heq as <- <-.
    - intros Hin. by exists (Answer id a). }
  assert (∀ id v, JMap.get id (settled w) = Some v ↔ Answer id v ∈ steps) as Hset.
  { intros id v. unfold w. rewrite Hs, <-Hans.
    split; [apply JMap.get_Some_elem|by apply JMap.elem_get_Some]. }
  split_and!; [|done|done|].
  - intros id v. rewrite Hset. split; [|by intros (r & _ & _ & ?)].
    intros Hin. destruct (Hf _ _ Hin) as (r & Hr & ->). eauto.
  - intros Hlen. assert (∀ id, id < length (requests steps) → id ∈ (answers steps).*1) as Hall.
    { intros id Hid. apply (NoDup_all_below (answers steps).*1 (length (requests steps))); [done| |by rewrite length_fmap|done].
      intros id' ?. by apply Hb. }
    split.
    + destruct (listeners w) as [|id l] eqn:Hlw; [done|]. exfalso.
      assert (id ∈ listeners (run steps)) as Hin by (fold w; rewrite Hlw; left).
      apply Hl in Hin as [Hlt Hnin]. by apply Hnin, Hall.
    + intros id r Hr. apply Hset. assert (id ∈ (answers steps).*1) as Hin by by eapply Hall, lookup_lt_Some.
      apply list_elem_of_fmap in Hin as ([id' a] & -> & Hin%Hans). simpl in *.
      destruct (Hf _ _ Hin) as (r' & Hr' & ->). by simplify_eq.
Qed.
End Worker.

(** ** The requests of renderings *)

Section requests.
Import Viz.

Lemma push_images_lookup s r images r' :
  push_images s r images !! r' =
    if decide (r = r') then (λ files, files ++ (image_file <$> images)) <$> s !! r' else s !! r'.
Proof.
  unfold push_images. revert s. induction images as [|i images IH]; intros s; simpl.
  - case_decide; [|done]. destruct (s !! r'); simpl; [by rewrite app_nil_r|done].
  - rewrite IH. case_decide as Hr; [subst r'|].
    + rewrite list_lookup_alter_eq. destruct (s !! r); simpl; [by rewrite <-(assoc_L (++))|done].
    + by rewrite list_lookup_alter_ne.
Qed.

Lemma push_images_length s r images : length (push_images s r images) = length s.
Proof.
  unfold push_images. revert s. induction images as [|i images IH]; intros s; simpl; [done|].
  by rewrite IH, length_alter.
Qed.

(** The files of a rendering, with those of its images. *)
Definition image_files (o : options) : list file := image_file <$> default [] (o_images o).

Lemma renderString_own s src o r fs :
  o_files o = Some r → s !! r = Some fs →
  let '(s', q) := renderString s src o in
  r_files q = fs ++ image_files o ∧ s' !! r = Some (fs ++ image_files o) ∧ ∀ r', r' ≠ r → s' !! r' = s !! r'.
Proof.
  intros Ho Hr. unfold renderString, files_array. rewrite Ho.
  assert (push_images s r (default [] (o_images o)) !! r = Some (fs ++ image_files o)) as Hp.
  { by rewrite push_images_lookup, decide_True, Hr. }
  split_and!; [simpl; by rewrite Hp|done|]. intros r' Hne. rewrite push_images_lookup. by rewrite decide_False.
Qed.

Lemma renderString_new s src o :
  o_files o = None →
  let '(s', q) := renderString s src o in
  r_files q = image_files o ∧ ∀ r, r < length s → s' !! r = s !! r.
Proof.
  intros Ho. unfold renderString, files_array. rewrite Ho. split.
  - simpl. rewrite push_images_lookup, decide_True, lookup_app_r, Nat.sub_diag by done. done.
  - intros r Hr. rewrite push_images_lookup, decide_False by lia. by rewrite lookup_app_l.
Qed.

(** The entry points, with the format that each asks for: [renderString] the
    caller's or [svg], the others always the same, [renderJSONObject] also when
    the caller asks for another format of JSON. *)
Definition entry_points (o : options) : list ((store → string → options → store * request) * string) :=
  [(renderString, match o_format o with Some f => f | None => "svg" end);
   (renderSVGElement, "svg"); (renderImageElement, "svg"); (renderJSONObject, "json")].

(** What an entry point asks for. *)
Lemma entry_request render format s src o :
  (render, format) ∈ entry_points o →
  ∃ o', o_files o' = o_files o ∧ o_images o' = o_images o ∧ (∀ s src, render s src o = renderString s src o') ∧
  let q := (renderString s src o').2 in
  r_src q = src ∧ r_format q = format ∧
  r_engine q = (match o_engine o with Some e => e | None => "dot" end) ∧
  r_images q = (match o_images o with Some l => l | None => [] end) ∧
  r_yInvert q = (match o_yInvert o with Some b => b | None => false end) ∧
  r_nop q = (match o_nop o with Some n => n | None => 0%Z end).
Proof.
  assert (∀ f, json_format f = Some "json") as Hjson.
  { intros f. unfold json_format. destruct (decide (f = Some "json")) as [->|Hf]; [done|].
    by rewrite (bool_decide_eq_true_2 _ Hf). }
  unfold entry_points. intros Hin. repeat (apply elem_of_cons in Hin as [[= -> ->]|Hin]); [..|by apply not_elem_of_nil in Hin].
  - exists o. unfold renderString. destruct (files_array s o). split_and!; try done; by destruct o as [[]].
  - exists (with_format "svg" o). unfold renderString. destruct (files_array s _). split_and!; by destruct o as [[]].
  - exists (with_format "svg" o). unfold renderString. destruct (files_array s _). split_and!; by destruct o as [[]].
  - exists (mk_options (json_format (o_format o)) (o_engine o) (o_files o) (o_images o) (o_yInvert o) (o_nop o)).
    unfold renderString. destruct (files_array s _). split_and!; [done|done|done|done|simpl; by rewrite Hjson|by destruct o as [[]]..].
Qed.

(** C35: what each entry point sends to the back end: the source; the format
    [svg] for elements and images, always [json] for objects, whichever format
    was asked for, and for texts the caller's or [svg]; the caller's engine,
    images, [yInvert] and [nop], which are [dot], none, [false] and 0 by
    default; and the caller's files followed by a file for each image.  The
    files of the images are added to the caller's own array, so that rendering
    twice with the same options sends them twice; no other array is changed. *)
Theorem rendering_requests render format s src src2 o :
  (render, format) ∈ entry_points o →
  let '(s1, q) := render s src o in
  let '(s2, q2) := render s1 src2 o in
  (r_src q = src ∧ r_format q = format ∧
   r_engine q = (match o_engine o with Some e => e | None => "dot" end) ∧
   r_images q = (match o_images o with Some l => l | None => [] end) ∧
   r_yInvert q = (match o_yInvert o with Some b => b | None => false end) ∧
   r_nop q = (match o_nop o with Some n => n | None => 0%Z end)) ∧
  match o_files o with
  | Some r => ∀ fs, s !! r = Some fs →
      r_files q = fs ++ image_files o ∧ r_files q2 = fs ++ image_files o ++ image_files o ∧
      ∀ r', r' ≠ r → s2 !! r' = s !! r'
  | None => r_files q = image_files o ∧ r_files q2 = image_files o ∧ ∀ r, r < length s → s2 !! r = s !! r
  end.
Proof.
  intros Hin. destruct (entry_request render format s src o Hin) as (o' & Hfiles & Himages & Hrender & Hq).
  rewrite !Hrender. destruct (renderString s src o') as [s1 q1] eqn:Hrun. rewrite Hrender.
  assert (image_files o' = image_files o) as Hif by (unfold image_files; by rewrite Himages).
  rewrite <-Hfiles, <-Hif. destruct (renderString s1 src2 o') as [s2 q2] eqn:Hrun2. split; [exact Hq|].
  destruct (o_files o') as [r|] eqn:Ho.
  - intros fs Hr. pose proof (renderString_own s src o' r fs Ho Hr) as H1. rewrite Hrun in H1.
    destruct H1 as (Hq1 & Hr1 & Ho1). pose proof (renderString_own s1 src2 o' r _ Ho Hr1) as H2. rewrite Hrun2 in H2.
    destruct H2 as (Hq2 & _ & Ho2). split_and!; [done|by rewrite Hq2, <-(assoc_L (++))|]. intros r' Hne. by rewrite Ho2, Ho1.
  - pose proof (renderString_new s src o' Ho) as H1. rewrite Hrun in H1. destruct H1 as [Hq1 Ho1].
    pose proof (renderString_new s1 src2 o' Ho) as H2. rewrite Hrun2 in H2. destruct H2 as [Hq2 Ho2].
    split_and!; [done|done|]. intros r Hr. rewrite Ho2, Ho1; [done|done|].
    assert (length s1 = S (length s)) as ->; [|lia].
    unfold renderString, files_array in Hrun. rewrite Ho in Hrun. injection Hrun as <- _.
    rewrite push_images_length, length_app. simpl. lia.
Qed.

Lemma rendering_requests_witness :
  let o := mk_options None None (Some 0) (Some [mk_image "a.svg" (Some "10px") None]) None None in
  let q := (renderJSONObject [[mk_file "b" "c"]] "graph {}" o).2 in
  r_engine q = "dot" ∧ r_format q = "json" ∧ length (r_files q) = 2.
Proof.
  intros o q. pose proof (rendering_requests renderJSONObject "json" [[mk_file "b" "c"]] "graph {}" "" o) as Hr.
  unfold entry_points in Hr. specialize (Hr ltac:(by do 3 right; left)).
  destruct Hr as ((_ & Hf & He & _) & Hfiles). split; [exact He|]. split; [exact Hf|].
  destruct (Hfiles _ eq_refl) as (Hq & _). unfold q. fold o. exact (f_equal length Hq).
Defined.
End requests.

(** ** The data URL of an image *)

Module Base64.

(** *** [encodeURIComponent], on code units below 256 *)

Definition unreserved (c : ascii) : bool :=
  Str.is_upper c || Str.is_lower c || Str.is_digit c ||
  bool_decide (c ∈ ["-"; "_"; "."; "!"; "~"; "*"; "'"; "("; ")"]%char).

(** The bytes of UTF-8. *)
Definition utf8_char (c : ascii) : string :=
  let n := N_of_ascii c in
  if (n <? 128)%N then String c ""
  else String (ascii_of_N (192 + n / 64)) (String (ascii_of_N (128 + n mod 64)) "").

Fixpoint concat_map (f : ascii → string) (s : string) : string :=
  match s with "" => "" | String c s => f c +:+ concat_map f s end.

Definition utf8 : string → string := concat_map utf8_char.

Definition upper_hex (n : N) : ascii := if (n <? 10)%N then ascii_of_N (48 + n) else ascii_of_N (55 + n).
Definition percent (b : ascii) : string :=
  String "%" (String (upper_hex (N_of_ascii b / 16)) (String (upper_hex (N_of_ascii b mod 16)) "")).

Definition encode_char (c : ascii) : string := if unreserved c then String c "" else concat_map percent (utf8_char c).
Definition encodeURIComponent : string → string := concat_map encode_char.

(** [s.replace(/%([0-9A-F]{2})/g, (match, p1) => String.fromCharCode('0x' + p1))] *)
Definition hex_upper (c : ascii) : option N :=
  if Str.is_digit c || Str.in_range "A" "F" c then Json.digit c else None.
Fixpoint unpercent (s : string) : string :=
  match s with
  | "" => ""
  | String c rest =>
    match rest with
    | String h (String l rest') =>
      match bool_decide (c = "%"%char), hex_upper h, hex_upper l with
      | true, Some h, Some l => String (ascii_of_N (h * 16 + l)) (unpercent rest')
      | _, _, _ => String c (unpercent rest)
      end
    | _ => String c (unpercent rest)
    end
  end.

(** *** [btoa] *)

Definition sextet (k : N) : ascii :=
  if (k <? 26)%N then ascii_of_N (65 + k)
  else if (k <? 52)%N then ascii_of_N (71 + k)
  else if (k <? 62)%N then ascii_of_N (k - 4)
  else if (k =? 62)%N then "+"%char else "/"%char.

Fixpoint btoa (s : string) : string :=
  match s with
  | "" => ""
  | String a s =>
    let a := N_of_ascii a in
    match s with
    | "" => String (sextet (a / 4)) (String (sextet (a mod 4 * 16)) "==")
    | String b s =>
      let b := N_of_ascii b in
      match s with
      | "" => String (sextet (a / 4)) (String (sextet (a mod 4 * 16 + b / 16)) (String (sextet (b mod 16 * 4)) "="))
      | String c s =>
        let c := N_of_ascii c in
        String (sextet (a / 4)) (String (sextet (a mod 4 * 16 + b / 16))
          (String (sextet (b mod 16 * 4 + c / 64)) (String (sextet (c mod 64)) (btoa s))))
      end
    end
  end.

Definition b64EncodeUnicode (str : string) : string := btoa (unpercent (encodeURIComponent str)).

Definition data_url (svgXml : string) : string := "data:image/svg+xml;base64," +:+ b64EncodeUnicode svgXml.

Example b64_examples : b64EncodeUnicode <$> [""; "M"; "Ma"; "Man"; "100% ~"; String (ascii_of_N 233) ""] =
  [""; "TQ=="; "TWE="; "TWFu"; "MTAwJSB+"; "w6k="].
Proof. vm_compute. reflexivity. Qed.

(** *** A reader of data URLs *)

Definition sextet_value (c : ascii) : option N :=
  let n := N_of_ascii c in
  if Str.is_upper c then Some (n - 65)%N
  else if Str.is_lower c then Some (n - 71)%N
  else if Str.is_digit c then Some (n + 4)%N
  else if bool_decide (c = "+"%char) then Some 62%N
  else if bool_decide (c = "/"%char) then Some 63%N
  else None.

Fixpoint atob (s : string) : option string :=
  match s with
  | "" => Some ""
  | String w (String x (String y (String z rest))) =>
    match sextet_value w, sextet_value x, sextet_value y, sextet_value z with
    | Some w, Some x, Some y, Some z =>
      (λ t, String (ascii_of_N (w * 4 + x / 16)) (String (ascii_of_N (x mod 16 * 16 + y / 4))
              (String (ascii_of_N (y mod 4 * 64 + z)) t))) <$> atob rest
    | Some w, Some x, Some y, None =>
      Some (String (ascii_of_N (w * 4 + x / 16)) (String (ascii_of_N (x mod 16 * 16 + y / 4)) ""))
    | Some w, Some x, None, None => Some (String (ascii_of_N (w * 4 + x / 16)) "")
    | _, _, _, _ => None
    end
  | _ => None
  end.

Fixpoint read_utf8 (s : string) : string :=
  match s with
  | "" => ""
  | String c rest =>
    if (N_of_ascii c <? 128)%N then String c (read_utf8 rest)
    else match rest with
         | String d rest' => String (ascii_of_N ((N_of_ascii c - 192) * 64 + (N_of_ascii d - 128))) (read_utf8 rest')
         | "" => ""
         end
  end.

Lemma unpercent_plain c t : c ≠ "%"%char → unpercent (String c t) = String c (unpercent t).
Proof. intros Hc. destruct t as [|h [|l t]]; [done..|]. simpl. by rewrite bool_decide_eq_false_2. Qed.

Lemma unpercent_encode c t : unpercent (encode_char c +:+ t) = utf8_char c +:+ unpercent t.
Proof.
  unfold encode_char. destruct (unreserved c) eqn:Hu.
  - assert (c ≠ "%"%char ∧ utf8_char c = String c "") as [Hc ->].
    { destruct c as [[] [] [] [] [] [] [] []]; first [discriminate Hu|done]. }
    rewrite Str.app_cons, Str.app_nil_l. by apply unpercent_plain.
  - destruct c as [[] [] [] [] [] [] [] []]; first [discriminate Hu|reflexivity].
Qed.

Lemma unpercent_utf8 s : unpercent (encodeURIComponent s) = utf8 s.
Proof.
  induction s as [|c s IH]; [done|]. change (encodeURIComponent (String c s)) with (encode_char c +:+ encodeURIComponent s).
  by rewrite unpercent_encode, IH.
Qed.

Lemma read_utf8_char c t : read_utf8 (utf8_char c +:+ t) = String c (read_utf8 t).
Proof. destruct c as [[] [] [] [] [] [] [] []]; reflexivity. Qed.

Lemma read_utf8_utf8 s : read_utf8 (utf8 s) = s.
Proof.
  induction s as [|c s IH]; [done|]. change (utf8 (String c s)) with (utf8_char c +:+ utf8 s).
  by rewrite read_utf8_char, IH.
Qed.

Lemma sextet_read k : (k < 64)%N → sextet_value (sextet k) = Some k.
Proof.
  intros Hk. assert (forallb (λ k, bool_decide (sextet_value (sextet (N.of_nat k)) = Some (N.of_nat k))) (seq 0 64) = true) as Hall
    by (vm_compute; reflexivity).
  rewrite forallb_forall in Hall. specialize (Hall (N.to_nat k)). rewrite N2Nat.id in Hall.
  apply bool_decide_eq_true in Hall; [done|]. apply in_seq. lia.
Qed.

(** The arithmetic of the three bytes. *)
Lemma sextets_bytes a b c :
  (a < 256 → b < 256 → c < 256 →
   (a / 4 < 64 ∧ a mod 4 * 16 + b / 16 < 64 ∧ b mod 16 * 4 + c / 64 < 64 ∧ c mod 64 < 64) ∧
   a / 4 * 4 + (a mod 4 * 16 + b / 16) / 16 = a ∧
   (a mod 4 * 16 + b / 16) mod 16 * 16 + (b mod 16 * 4 + c / 64) / 4 = b ∧
   (b mod 16 * 4 + c / 64) mod 4 * 64 + c mod 64 = c)%N.
Proof. intros. split_and!; zify; Z.div_mod_to_equations; lia. Qed.

Lemma byte_bound c : (N_of_ascii c < 256)%N.
Proof. by destruct c as [[] [] [] [] [] [] [] []]. Qed.

(** Induction by three characters. *)
Lemma three_ind (P : string → Prop) :
  P "" → (∀ a, P (String a "")) → (∀ a b, P (String a (String b ""))) →
  (∀ a b c s, P s → P (String a (String b (String c s)))) → ∀ s, P s.
Proof.
  intros H0 H1 H2 H3 s. assert (∀ n s, String.length s < n → P s) as Hall; [|apply (Hall (S (String.length s))); lia].
  induction n as [|n IH]; intros [|a [|b [|c t]]] Hn; simpl in Hn; try done; try lia.
  apply H3, IH. lia.
Qed.

Lemma atob_btoa s : atob (btoa s) = Some s.
Proof.
  induction s as [|a|a b|a b c s IH] using three_ind; [done|..].
  - destruct (sextets_bytes (N_of_ascii a) 0 0) as ((? & ? & _) & Ha & _); [apply byte_bound|done..|].
    rewrite N.add_0_r in *. cbn [btoa]. cbn [atob]. rewrite !sextet_read by done. simpl. by rewrite Ha, ascii_N_embedding.
  - destruct (sextets_bytes (N_of_ascii a) (N_of_ascii b) 0) as ((? & ? & ? & _) & Ha & Hb & _);
      [apply byte_bound..|done|]. rewrite N.add_0_r in *. cbn [btoa]. cbn [atob]. rewrite !sextet_read by done. simpl.
    by rewrite Ha, Hb, !ascii_N_embedding.
  - destruct (sextets_bytes (N_of_ascii a) (N_of_ascii b) (N_of_ascii c)) as ((? & ? & ? & ?) & Ha & Hb & Hc);
      [apply byte_bound..|]. cbn [btoa]. cbn [atob]. rewrite !sextet_read by done. rewrite IH. simpl.
    by rewrite Ha, Hb, Hc, !ascii_N_embedding.
Qed.

Lemma btoa_bytes s : b64EncodeUnicode s = btoa (utf8 s).
Proof. unfold b64EncodeUnicode. by rewrite unpercent_utf8. Qed.

(** The characters of a data URL. *)
Definition url_char (c : ascii) : bool :=
  Str.is_upper c || Str.is_lower c || Str.is_digit c || bool_decide (c ∈ ["+"; "/"; "="]%char).

Lemma sextet_url k : (k < 64)%N → url_char (sextet k) = true.
Proof.
  intros Hk. assert (forallb (λ k, url_char (sextet (N.of_nat k))) (seq 0 64) = true) as Hall by (vm_compute; reflexivity).
  rewrite forallb_forall in Hall. specialize (Hall (N.to_nat k)). rewrite N2Nat.id in Hall.
  apply Hall, in_seq. lia.
Qed.

Lemma btoa_url s : Str.all url_char (btoa s) = true.
Proof.
  induction s as [|a|a b|a b c s IH] using three_ind; [done|..].
  - destruct (sextets_bytes (N_of_ascii a) 0 0) as ((? & ? & _) & _); [apply byte_bound|done..|].
    rewrite N.add_0_r in *. cbn [btoa Str.all]. rewrite !sextet_url by done. done.
  - destruct (sextets_bytes (N_of_ascii a) (N_of_ascii b) 0) as ((? & ? & ? & _) & _); [apply byte_bound..|done|].
    rewrite N.add_0_r in *. cbn [btoa Str.all]. rewrite !sextet_url by done. done.
  - destruct (sextets_bytes (N_of_ascii a) (N_of_ascii b) (N_of_ascii c)) as ((? & ? & ? & ?) & _); [apply byte_bound..|].
    cbn [btoa Str.all]. rewrite !sextet_url by done. exact IH.
Qed.

(** C36: the data URL of an image holds its SVG text: the encoding uses only the
    letters, digits and signs of base 64, and decoding it as base 64 and UTF-8
    gives the text back, whatever characters it has. *)
Theorem data_url_roundtrip svgXml :
  Str.all url_char (b64EncodeUnicode svgXml) = true ∧ read_utf8 <$> atob (b64EncodeUnicode svgXml) = Some svgXml.
Proof. rewrite btoa_bytes. split; [apply btoa_url|]. rewrite atob_btoa. simpl. by rewrite read_utf8_utf8. Qed.

End Base64.

(** ** Images of an SVG text *)

Module SvgImage.

(** The options of an image, [None] for [undefined]. *)
Record image_options := mk_options {
  io_scale : option Q;
  io_mimeType : option string;
  io_quality : option Q;
}.

(** [defaultScale], for the window's [devicePixelRatio]. *)
Definition defaultScale (devicePixelRatio : option Q) : Q :=
  match devicePixelRatio with
  | Some ratio => if Qle_bool ratio 1 then 1%Q else ratio
  | None => 1%Q
  end.

(** What the browser tells of the image of the SVG text: that it is loaded, and
    its canvas made a blob, or that it failed to load. *)
Inductive image_event := Loaded (width height : Z) | Failed (error : option string).

#[global] Instance image_event_eq_dec : EqDecision image_event.
Proof. solve_decision. Defined.

(** The canvas that is drawn and made an image, with the size that the image is
    given. *)
Record drawn := mk_drawn {
  canvas_width : Z;
  canvas_height : Z;
  mimeType : string;
  quality : Q;
  image_width : Z;
  image_height : Z;
}.

(** An assignment to the size of a canvas keeps the integer part. *)
Definition canvas_size (size : Z) (scale : Q) : Z := Qfloor (inject_Z size * scale).

(** The address that the SVG image is loaded from, and how the promise is
    settled when the browser has loaded it or failed to. *)
Definition svgXmlToImageElement (devicePixelRatio : option Q) (svgXml : string) (o : image_options)
    : string * (image_event → drawn + string) :=
  let scale := default (defaultScale devicePixelRatio) (io_scale o) in
  let mimeType := default "image/png" (io_mimeType o) in
  let quality := default 1%Q (io_quality o) in
  (Base64.data_url svgXml, λ ev,
   match ev with
   | Loaded width height =>
     inl (mk_drawn (canvas_size width scale) (canvas_size height scale) mimeType quality width height)
   | Failed (Some error) => inr error
   | Failed None => inr "Error: Error loading SVG"
   end).

(** With Fabric: what its canvas is asked for, given the number of objects that
    it loaded and their size. *)
Record fabric_drawn := mk_fabric_drawn {
  fd_format : option string;
  fd_multiplier : Q;
  fd_quality : Q;
  fd_width : Z;
  fd_height : Z;
}.

Definition svgXmlToImageElementFabric (devicePixelRatio : option Q) (o : image_options)
    (objects : nat) (width height : Z) : fabric_drawn + string :=
  let multiplier := default (defaultScale devicePixelRatio) (io_scale o) in
  let mimeType := default "image/png" (io_mimeType o) in
  let format :=
    if decide (mimeType = "image/jpeg") then Some "jpeg"
    else if decide (mimeType = "image/png") then Some "png"
    else None in
  if decide (objects = 0) then inr "Error: Error loading SVG with Fabric"
  else inl (mk_fabric_drawn format multiplier (default 1%Q (io_quality o)) width height).
End SvgImage.
