(* ===== verification/Renderer.v ===== *)
(** The renderer as its callers see it: the four entry points of [Viz], over a
    worker.

    Models the methods of the class [Viz] of
    [src/gui/web/assets/scripts/viz.js], with what their promises are settled
    with.  An entry point sends a request ([Rendering.Viz]) to the wrapper
    ([Rendering.Worker]) and passes the answer to the function of its [.then];
    the parser of XML and [JSON.parse] are the browser's, and so is the loading
    of images, also by Fabric, which it may report later or never. *)

From S2P Require Import Prelude JsCore JsString Json Rendering.

#[local] Open Scope string_scope.
#[local] Open Scope list_scope.

(** What the browser does with the text of a rendering. *)
Class RenderingBrowser (svg : Type) := {
  documentElement : string → svg;
  JSON_parse : string → json + string;
  (** [typeof fabric === "object" && fabric.loadSVGFromString] *)
  has_fabric : bool;
  devicePixelRatio : option QArith_base.Q;
}.

Module Renderer.

Section renderer.
Context {svg : Type} `{RenderingBrowser svg}.

(** The entry points; that of images has options of its own. *)
Inductive entry := RenderString | RenderSVGElement | RenderImageElement (o : SvgImage.image_options) | RenderJSONObject.

(** What a promise is fulfilled with. *)
Inductive rendered :=
  | Text (str : string)
  | SvgElement (e : svg)
  | Image (d : SvgImage.drawn)
  | FabricImage (d : SvgImage.fabric_drawn)
  | Object (j : json).

(** The request of a call. *)
Definition request_of (e : entry) (s : Viz.store) (src : string) (o : options) : Viz.store * request :=
  match e with
  | RenderString => Viz.renderString s src o
  | RenderSVGElement => Viz.renderSVGElement s src o
  | RenderImageElement _ => Viz.renderImageElement s src o
  | RenderJSONObject => Viz.renderJSONObject s src o
  end.

Definition sum_map {A B} (f : A → B) (x : A + string) : B + string :=
  match x with inl v => inl (f v) | inr error => inr error end.

(** What is loaded for an image: the address of an [Image], or by Fabric the
    text; and what the browser reports of it: that the image is loaded, and a
    blob made of its canvas, or that this failed; or how many objects Fabric
    found in the text, and their size. *)
Inductive loading := LoadImage (src : string) | LoadSVGFromString (svgXml : string).
Inductive report :=
  | ImageReport (ev : SvgImage.image_event)
  | FabricReport (objects : nat) (width height : Z).

#[export] Instance report_eq_dec : EqDecision report.
Proof. solve_decision. Defined.

(** The browser only reports of what it was given to load. *)
Definition expected (rep : report) : bool :=
  match rep with ImageReport _ => negb has_fabric | FabricReport _ _ _ => has_fabric end.

(** The functions of [.then].  That of images returns another promise: what is
    loaded, and how a report settles the promise. *)
Definition then_svg (str : string) : rendered + string := inl (SvgElement (documentElement str)).
Definition then_image (o : SvgImage.image_options) (str : string) : loading * (report → option (rendered + string)) :=
  if has_fabric then
    (LoadSVGFromString str, λ rep,
     match rep with
     | FabricReport objects width height =>
       Some (sum_map FabricImage (SvgImage.svgXmlToImageElementFabric devicePixelRatio o objects width height))
     | ImageReport _ => None
     end)
  else
    let '(src, settled) := SvgImage.svgXmlToImageElement devicePixelRatio str o in
    (LoadImage src, λ rep,
     match rep with ImageReport ev => Some (sum_map Image (settled ev)) | FabricReport _ _ _ => None end).
Definition then_json (str : string) : rendered + string := sum_map Object (JSON_parse str).

(** How the promise of an entry point is settled, given how the wrapper's
    promise is, and what the browser has reported of the image, if it has. *)
Definition settles (e : entry) (answer : string + string) (loaded : option report) :
    option (rendered + string) :=
  match answer with
  | inr error => Some (inr error)
  | inl str =>
    match e with
    | RenderString => Some (inl (Text str))
    | RenderSVGElement => Some (then_svg str)
    | RenderImageElement o => loaded ≫= (then_image o str).2
    | RenderJSONObject => Some (then_json str)
    end
  end.

(** ** A renderer and its callers *)

Record t := mk {
  callers : Viz.store;
  worker : Worker.t;
  (** The entry points that were called, in the order of the promises. *)
  calls : list entry;
  (** What the browser has reported of the images, by their promises. *)
  images : list (nat * report);
}.

Definition new (s : Viz.store) : t := mk s Worker.new [] [].

Definition call (e : entry) (src : string) (o : options) (r : t) : t * nat :=
  let '(s, q) := request_of e (callers r) src o in
  let '(w, promise) := Worker.render q (worker r) in
  (mk s w (calls r ++ [e]) (images r), promise).

Definition answer (id : nat) (a : string + string) (r : t) : t :=
  mk (callers r) (Worker.message id a (worker r)) (calls r) (images r).

(** The browser reports of the image that was made for a promise. *)
Definition load (promise : nat) (ev : report) (r : t) : t :=
  mk (callers r) (worker r) (calls r) (images r ++ [(promise, ev)]).

(** How a promise is settled, if it is. *)
Definition result (r : t) (promise : nat) : option (rendered + string) :=
  e ← calls r !! promise;
  a ← JMap.get promise (Worker.settled (worker r));
  settles e a (JMap.get promise (images r)).

Inductive step :=
  | Call (e : entry) (src : string) (o : options)
  | Answer (id : nat) (a : string + string)
  | Load (promise : nat) (ev : report).

Definition run_step (r : t) (st : step) : t :=
  match st with Call e src o => (call e src o r).1 | Answer id a => answer id a r | Load p ev => load p ev r end.
Definition run (s : Viz.store) (steps : list step) : t := foldl run_step (new s) steps.

(** *** What the worker sees *)

Fixpoint worker_steps (s : Viz.store) (steps : list step) : list Worker.step :=
  match steps with
  | [] => []
  | Call e src o :: steps =>
    let '(s, q) := request_of e s src o in Worker.Render q :: worker_steps s steps
  | Answer id a :: steps => Worker.Answer id a :: worker_steps s steps
  | Load _ _ :: steps => worker_steps s steps
  end.

Definition entries (steps : list step) : list entry :=
  omap (λ st, match st with Call e _ _ => Some e | _ => None end) steps.
Definition loads (steps : list step) : list (nat * report) :=
  omap (λ st, match st with Load p ev => Some (p, ev) | _ => None end) steps.

(** The requests that the calls send. *)
Definition requests (s : Viz.store) (steps : list step) : list request := Worker.requests (worker_steps s steps).

Lemma run_worker steps r :
  worker (foldl run_step r steps) = foldl Worker.run_step (worker r) (worker_steps (callers r) steps) ∧
  calls (foldl run_step r steps) = calls r ++ entries steps ∧ images (foldl run_step r steps) = images r ++ loads steps.
Proof.
  revert r. induction steps as [|[e src o|id a|p ev] steps IH]; intros r; simpl.
  - split; [done|]. by rewrite !app_nil_r.
  - unfold call. destruct (request_of e (callers r) src o) as [s q].
    destruct (IH (mk s (Worker.render q (worker r)).1 (calls r ++ [e]) (images r))) as (Hw & Hc & Hi).
    split; [exact Hw|]. change (entries (Call e src o :: steps)) with (e :: entries steps).
    simpl in Hc. rewrite <-(assoc_L (++)) in Hc. split; [exact Hc|exact Hi].
  - exact (IH (answer id a r)).
  - destruct (IH (load p ev r)) as (Hw & Hc & Hi). split; [exact Hw|]. split; [exact Hc|].
    change (loads (Load p ev :: steps)) with ((p, ev) :: loads steps).
    simpl in Hi. by rewrite <-(assoc_L (++)) in Hi.
Qed.

Lemma worker_answer id a s steps : Worker.Answer id a ∈ worker_steps s steps ↔ Answer id a ∈ steps.
Proof.
  revert s. induction steps as [|[e src o|id' a'|p ev] steps IH]; intros s; simpl.
  - split; intros ?%not_elem_of_nil; done.
  - destruct (request_of e s src o) as [s' q]. rewrite !elem_of_cons, IH. naive_solver.
  - rewrite !elem_of_cons, IH. naive_solver.
  - rewrite elem_of_cons, IH. naive_solver.
Qed.

Lemma entries_requests s steps : length (entries steps) = length (requests s steps).
Proof.
  unfold requests. revert s. induction steps as [|[e src o|id a|p ev] steps IH]; intros s; simpl; [done| |apply IH..].
  destruct (request_of e s src o) as [s' q]. simpl. f_equal. apply IH.
Qed.

Lemma elem_of_loads p ev steps : (p, ev) ∈ loads steps ↔ Load p ev ∈ steps.
Proof.
  unfold loads. rewrite list_elem_of_omap. split; [by intros ([] & ? & [= -> ->])|]. intros ?. by exists (Load p ev).
Qed.

(** The reports of a promise's image, which are those of [g]. *)
Lemma get_loads (g : nat → report) steps id :
  (∀ p ev, Load p ev ∈ steps → ev = g p) →
  JMap.get id (loads steps) = if decide ((id, g id) ∈ loads steps) then Some (g id) else None.
Proof.
  intros Hg. case_decide as Hl.
  - destruct (JMap.get id (loads steps)) as [ev|] eqn:Hget.
    + apply JMap.get_Some_elem, elem_of_loads, Hg in Hget. by subst.
    + apply JMap.get_None in Hget. destruct Hget. apply list_elem_of_fmap. by exists (id, g id).
  - destruct (JMap.get id (loads steps)) as [ev|] eqn:Hget; [|done].
    apply JMap.get_Some_elem in Hget. assert (ev = g id) as -> by (apply Hg; by apply elem_of_loads). done.
Qed.

(** The worker answers each request at most once, after it was posted. *)
Definition answering (s : Viz.store) (steps : list step) : Prop := Worker.answering 0 [] (worker_steps s steps).

(** A promise that waits for its image: of [renderImageElement], once there is
    a text. *)
Definition awaits_image (e : entry) (answer : string + string) : bool :=
  match e, answer with RenderImageElement _, inl _ => true | _, _ => false end.

Lemma settles_cases e answer :
  (awaits_image e answer = false ∧ ∃ v, ∀ ev, settles e answer ev = Some v) ∨
  (awaits_image e answer = true ∧ ∃ h, (∀ ev, settles e answer ev = ev ≫= h) ∧
     ∀ rep, expected rep = true → is_Some (h rep)).
Proof.
  unfold settles, awaits_image. destruct answer as [str|error].
  2:{ left. split; [by destruct e|by eexists]. }
  destruct e as [| |o|]; try (left; split; [done|by eexists]). right. split; [done|].
  exists (then_image o str).2. split; [done|]. unfold expected, then_image.
  destruct has_fabric; simpl; intros [ev|n w h] Hrep; simplify_eq; by eexists.
Qed.

(** A promise settled with what is reported of the image [g]. *)
Lemma settles_loaded e answer (P : Prop) `{Decision P} g v :
  settles e answer (if decide P then Some g else None) = Some v ↔
  (awaits_image e answer = true → P) ∧ settles e answer (Some g) = Some v.
Proof.
  destruct (settles_cases e answer) as [[-> (x & Hx)]|[-> (h & Hh & _)]].
  - rewrite !Hx. naive_solver.
  - rewrite !Hh. case_decide; simpl; naive_solver.
Qed.

Lemma settles_image e answer g :
  (awaits_image e answer = true → expected g = true) → is_Some (settles e answer (Some g)).
Proof.
  intros Hg. destruct (settles_cases e answer) as [[_ (x & ->)]|[Ha (h & -> & Hh)]]; [by eexists|]. by apply Hh, Hg.
Qed.

(** C30: whichever entry points of the renderer are called, in whatever order
    the worker answers what it is sent and the browser loads the images, a
    promise is settled exactly when its own request has been answered and, for
    an image, the browser has reported of it: rejected with the
    worker's error, or with what the entry point makes of the text, which can
    fail as well; once the worker has answered all it was sent, every promise is
    settled that does not wait for an image that is not loaded. *)
Theorem entry_points_settled f g s steps :
  answering s steps →
  (∀ id a, Answer id a ∈ steps → ∃ q, requests s steps !! id = Some q ∧ a = f q) →
  (∀ id ev, Load id ev ∈ steps → ev = g id ∧ expected ev = true) →
  let r := run s steps in
  (∀ id v, result r id = Some v ↔
     ∃ e q, entries steps !! id = Some e ∧ requests s steps !! id = Some q ∧ Answer id (f q) ∈ steps ∧
            (awaits_image e (f q) = true → Load id (g id) ∈ steps) ∧ settles e (f q) (Some (g id)) = Some v) ∧
  (length (Worker.answers (worker_steps s steps)) = length (requests s steps) →
     ∀ id e q, entries steps !! id = Some e → requests s steps !! id = Some q →
       (awaits_image e (f q) = true → Load id (g id) ∈ steps) → is_Some (result r id)).
Proof.
  intros Ha Hf Hg r. destruct (run_worker steps (new s)) as (Hw & Hc & Hi). fold (run s steps) in Hw, Hc, Hi. fold r in Hw, Hc, Hi.
  change (foldl Worker.run_step (worker (new s)) (worker_steps (callers (new s)) steps)) with
    (Worker.run (worker_steps s steps)) in Hw. simpl in Hc, Hi.
  destruct (Worker.renderings_answered f (worker_steps s steps) Ha) as (Hset & _ & _ & Hall).
  { intros id a Hin%worker_answer. by apply Hf. }
  fold (requests s steps) in Hset, Hall. unfold result. rewrite Hw, Hc, Hi.
  assert (∀ id e q v, settles e (f q) (JMap.get id (loads steps)) = Some v ↔
    (awaits_image e (f q) = true → Load id (g id) ∈ steps) ∧ settles e (f q) (Some (g id)) = Some v) as Hload.
  { intros id e q v. rewrite (get_loads g), settles_loaded, elem_of_loads; [done|]. by intros ?? [-> _]%Hg. }
  split.
  - intros id v. split.
    + intros Hr. destruct (entries steps !! id) as [e|] eqn:He; [|done]. simpl in Hr.
      destruct (JMap.get id (Worker.settled _)) as [x|] eqn:Hgx; [|done]. simpl in Hr.
      apply Hset in Hgx as (q & Hq & -> & Hin%worker_answer). apply Hload in Hr as [??]. by exists e, q.
    + intros (e & q & -> & Hq & Hin & Hl & Hs). simpl.
      assert (JMap.get id (Worker.settled (Worker.run (worker_steps s steps))) = Some (f q)) as ->.
      { apply Hset. exists q. by rewrite worker_answer. }
      simpl. by apply Hload.
  - intros Hlen id e q He Hq Hl. rewrite He. simpl. destruct (Hall Hlen) as [_ Hs]. rewrite (Hs id q Hq). simpl.
    destruct (settles_image e (f q) (g id)) as [v Hv]; [by intros [_ ?]%Hl%Hg|]. exists v. by apply Hload.
Qed.
End renderer.
End Renderer.

(** *** Witness: calls answered out of order; the last text is not JSON, and the
    second image is not loaded *)

#[local] Instance sample_browser : RenderingBrowser string := {|
  documentElement str := str;
  JSON_parse _ := inr "SyntaxError";
  has_fabric := false;
  devicePixelRatio := None;
|}.

Definition sample_worker (q : request) : string + string := if decide (r_src q = "a") then inr "A" else inl (r_src q).
Definition sample_load (promise : nat) : Renderer.report := Renderer.ImageReport (SvgImage.Failed None).

Definition sample_image : Renderer.entry := Renderer.RenderImageElement (SvgImage.mk_options None None None).

Definition sample_steps : list Renderer.step :=
  [Renderer.Call sample_image "a" no_options; Renderer.Call sample_image "b" no_options;
   Renderer.Answer 1 (inl "b"); Renderer.Call Renderer.RenderJSONObject "c" no_options; Renderer.Answer 0 (inr "A");
   Renderer.Answer 2 (inl "c"); Renderer.Load 1 (sample_load 1); Renderer.Call sample_image "d" no_options;
   Renderer.Answer 3 (inl "d")].

Lemma entry_points_settled_witness :
  let r := Renderer.run [] sample_steps in
  Renderer.result r 0 = Some (inr "A") ∧ Renderer.result r 1 = Some (inr "Error: Error loading SVG") ∧
  is_Some (Renderer.result r 2) ∧ Renderer.result r 2 = Some (inr "SyntaxError") ∧ Renderer.result r 3 = None.
Proof.
  destruct (Renderer.entry_points_settled sample_worker sample_load [] sample_steps) as (Hr & Hall).
  - unfold Renderer.answering. simpl. repeat split; try lia; by apply (bool_decide_eq_true_1 _).
  - intros id a Hin. unfold sample_steps in Hin.
    repeat (apply elem_of_cons in Hin as [Heq|Hin]; [first [discriminate Heq|injection Heq as -> ->; eexists; split; reflexivity]|]).
    by apply not_elem_of_nil in Hin.
  - intros id ev Hin. unfold sample_steps in Hin.
    repeat (apply elem_of_cons in Hin as [Heq|Hin]; [first [discriminate Heq|by injection Heq as -> ->]|]).
    by apply not_elem_of_nil in Hin.
  - split; [vm_compute; reflexivity|]. split; [|split; [|split; vm_compute; reflexivity]].
    + apply (Hr 1). do 2 eexists. split; [reflexivity|]. split; [reflexivity|]. split; [do 2 right; left|].
      split; [intros _; do 6 right; left|reflexivity].
    + by apply (Hall eq_refl 2 Renderer.RenderJSONObject _ eq_refl eq_refl).
Defined.
