(* ===== verification/Async.v ===== *)
(** Compiled [async] functions: the helpers [__generator] and [__awaiter], the
    promises they use, [domReady] and the start of the application.

    Models [src/gui/web/assets/scripts/stimulus.js].  A compiled body is a
    function of the generator's label, of what [sent()] gives and of the regions
    of its [try] statements; what it works on is the type [U].  Promises are
    those of the language: a heap of promises with their reactions and a queue
    of jobs, where a reaction is the resumption of an [async] call or the
    settling of another promise. *)

From S2P Require Import Prelude JsCore Dom Observers Scopes Router App.

#[local] Open Scope string_scope.
#[local] Open Scope list_scope.
#[local] Open Scope nat_scope.

(** ** [__generator] *)

Module Generator.

Section generator.
Context {V U : Type}.
(** [undefined], the numbers, and the exceptions that the helper throws. *)
Context (undefined : V) (num : option Z → V) (TypeError : string → V).

(** What a method of an iterator returns, or throws. *)
Record result := mk_result { value : V; done : bool }.

(** An iterator to which [yield*] delegates. *)
Record iterator := mk_iterator {
  it_next : V → U → U * (result + V);
  it_throw : option (V → U → U * (result + V));
  it_return : option (V → U → U * (result + V));
}.

(** The instructions: [[0, v]] to [[7]]. *)
Inductive op :=
  | Next (v : V)
  | Throw (e : V)
  | Return (v : V)
  | Break (label : Z)
  | Yield (v : V)
  | YieldStar (it : iterator)
  | Catch (e : V)
  | EndFinally.

(** A region of a [try] statement: [[start, catch, finally, end]]. *)
Record try := mk_try { tr_start : Z; tr_catch : option Z; tr_finally : option Z; tr_end : Z }.

(** The object [_]. *)
Record frame := mk_frame { label : Z; trys : list try; ops : list op }.

(** The closure's variables: [_], which becomes [0] at the end, [f] and [y]. *)
Record t := mk { frame_of : option frame; executing : bool; delegate : option iterator }.

Definition new : t := mk (Some (mk_frame 0 [] [])) false None.

(** The compiled body: it reads the label, may call [sent()], which returns or
    throws, may push regions, and returns an instruction or throws. *)
Definition body : Type := frame → V + V → U → frame * U * (op + V).
Context (b : body).

(** What [sent()] gives, for the value of [t] when the body is called. *)
Definition sent_op (o : op) : V + V :=
  match o with Next v | Catch v => inl v | Throw e => inr e | _ => inl undefined end.
Definition sent_try (tr : option try) : V + V :=
  match tr with
  | Some tr => if Z.odd (tr_start tr) then inr (num (tr_catch tr)) else inl (num (tr_catch tr))
  | None => inl undefined
  end.

(** The operand [op[1]]. *)
Definition operand (o : op) : V :=
  match o with
  | Next v | Throw v | Return v | Yield v | Catch v => v
  | Break label => num (Some label)
  | YieldStar _ | EndFinally => undefined
  end.

(** What happens in a round of the loop: the body is called, the loop goes on
    with an instruction, the step returns, or the generator ends. *)
Inductive round :=
  | Call (f : frame) (sent : V + V)
  | Continue (g : t) (o : op)
  | Return_ (g : t) (r : result)
  | End (o : op).

Definition below (n : Z) (bound : option Z) : bool := match bound with Some b => (n <? b)%Z | None => false end.

(** The [switch]; [y] is [0] when it is reached. *)
Definition dispatch (f : frame) (o : op) : round :=
  match o with
  | Next _ | Throw _ => Call f (sent_op o)
  | Yield v => Return_ (mk (Some (mk_frame (label f + 1) (trys f) (ops f))) false None) (mk_result v false)
  | YieldStar it => Continue (mk (Some (mk_frame (label f + 1) (trys f) (ops f))) false (Some it)) (Next undefined)
  | EndFinally =>
    let g := mk (Some (mk_frame (label f) (removelast (trys f)) (removelast (ops f)))) false None in
    match last (ops f) with
    | Some o => Continue g o
    | None => Continue g (Catch (TypeError "Cannot read properties of undefined (reading '0')"))
    end
  | Return _ | Break _ | Catch _ =>
    match last (trys f), o with
    | None, Break l => Call (mk_frame l (trys f) (ops f)) (sent_try None)
    | None, _ => End o
    | Some tr, _ =>
      let inside := match o with Break l => (tr_start tr <? l)%Z && (l <? tr_end tr)%Z | _ => false end in
      let caught := match o with Catch _ => below (label f) (tr_catch tr) | _ => false end in
      if inside then
        match o with Break l => Call (mk_frame l (trys f) (ops f)) (sent_try (Some tr)) | _ => End o end
      else if caught then Call (mk_frame (default 0%Z (tr_catch tr)) (trys f) (ops f)) (sent_op o)
      else if below (label f) (tr_finally tr) then
        Call (mk_frame (default 0%Z (tr_finally tr)) (trys f) (ops f ++ [o])) (sent_try (Some tr))
      else
        let ops' := match tr_finally tr with Some n => if (n =? 0)%Z then ops f else removelast (ops f) | None => ops f end in
        Continue (mk (Some (mk_frame (label f) (removelast (trys f)) ops')) false None) o
    end
  end.

(** The delegation to [y]: it returns a result, or the step goes on with an
    instruction, or an exception is thrown. *)
Inductive delegation := Return_delegate (r : result) | Go (o : op) | Throw_ (e : V).

(** [op = [op[0] & 2, t.value]] *)
Definition masked (o : op) (v : V) : op :=
  match o with Return _ | Break _ | Catch _ | EndFinally => Return v | _ => Next v end.

Definition call_method (m : V → U → U * (result + V)) (o : op) (u : U) : U * delegation :=
  let '(u, r) := m (operand o) u in
  (u, match r with
      | inl r => if done r then Go (masked o (value r)) else Return_delegate r
      | inr e => Throw_ e
      end).

Definition delegated (it : iterator) (o : op) (u : U) : U * delegation :=
  match o with
  | Next _ => call_method (it_next it) o u
  | Return _ | Break _ | Catch _ | EndFinally =>
    match it_return it with Some m => call_method m o u | None => (u, Go o) end
  | Throw _ | Yield _ | YieldStar _ =>
    match it_throw it with
    | Some m => call_method m o u
    | None =>
      match it_return it with
      | Some m => let '(u, r) := m undefined u in (u, match r with inl _ => Go o | inr e => Throw_ e end)
      | None => (u, Go o)
      end
    end
  end.

(** After the loop. *)
Definition finish (o : op) : result + V :=
  match o with
  | Next _ => inl (mk_result undefined true)
  | Return v => inl (mk_result v true)
  | o => inr (operand o)
  end.

(** The loop, with a round for each unit of fuel. *)
Fixpoint loop (fuel : nat) (g : t) (o : op) (u : U) : option (t * U * (result + V)) :=
  match frame_of g with
  | None => Some (g, u, finish o)
  | Some f =>
    match fuel with
    | O => None
    | S fuel =>
      let '(u, r) := match delegate g with Some it => delegated it o u | None => (u, Go o) end in
      match r with
      | Return_delegate r => Some (mk (Some f) false (delegate g), u, inl r)
      | Throw_ e => loop fuel (mk (Some f) false None) (Catch e) u
      | Go o =>
        match dispatch f o with
        | Call f sent =>
          let '(f, u, r) := b f sent u in
          loop fuel (mk (Some f) false None) (match r with inl o => o | inr e => Catch e end) u
        | Continue g o => loop fuel g o u
        | Return_ g r => Some (g, u, inl r)
        | End o => loop fuel (mk None false None) o u
        end
      end
    end
  end.

(** [step(op)] *)
Definition step (fuel : nat) (g : t) (o : op) (u : U) : option (t * U * (result + V)) :=
  if executing g then Some (g, u, inr (TypeError "Generator is already executing.")) else loop fuel g o u.

(** *** Bodies without [try]

A function whose every part, from one [await] to the next, gives the value to
wait for, or the result, or throws; it is compiled to a part per label, which
first calls [sent()]. *)

Inductive outcome := Await (v : V) | Result (v : V) | Raise (e : V).
Definition parts : Type := Z → V → U → U * outcome.

Definition compile (p : parts) : body := λ f sent u,
  match sent with
  | inl v =>
    let '(u, o) := p (label f) v u in
    (f, u, match o with Await v => inl (Yield v) | Result v => inl (Return v) | Raise e => inr e end)
  | inr e => (f, u, inr e)
  end.

(** A generator that waits before a part, and one that has ended. *)
Definition before (l : Z) : t := mk (Some (mk_frame l [] [])) false None.
Definition ended : t := mk None false None.

(** More fuel does not change the outcome. *)
Lemma loop_mono fuel fuel' g o u x : fuel ≤ fuel' → loop fuel g o u = Some x → loop fuel' g o u = Some x.
Proof.
  revert fuel' g o u. induction fuel as [|fuel IH]; intros fuel' g o u Hle; simpl.
  { destruct fuel'; simpl; by destruct (frame_of g). }
  destruct fuel' as [|fuel']; [lia|]. apply le_S_n in Hle. simpl. destruct (frame_of g) as [f|]; [|done].
  destruct (match delegate g with Some it => delegated it o u | None => (u, Go o) end) as [u1 [r|o1|e]]; [done| |by apply IH].
  destruct (dispatch f o1) as [f1 sent|g1 o2|g1 r|o2]; [|by apply IH|done|by apply IH].
  destruct (b f1 sent u1) as [[f2 u2] r]. by apply IH.
Qed.
End generator.

Section plain.
Context {V U : Type} (undefined : V) (num : option Z → V) (TypeError : string → V) (p : parts (V := V) (U := U)).

(** What a step of a compiled function does: it runs the next part. *)
Definition run_part (l : Z) (r : V + V) (u : U) : t (V := V) (U := U) * U * (result (V := V) + V) :=
  match r with
  | inl v =>
    let '(u, o) := p l v u in
    match o with
    | Await w => (before (l + 1), u, inl (mk_result w false))
    | Result w => (ended, u, inl (mk_result w true))
    | Raise e => (ended, u, inr e)
    end
  | inr e => (ended, u, inr e)
  end.

Definition resume (r : V + V) : op (V := V) (U := U) := match r with inl v => Next v | inr e => Throw e end.

Lemma step_plain fuel l r u :
  3 ≤ fuel → step undefined num TypeError (compile p) fuel (before l) (resume r) u = Some (run_part l r u).
Proof.
  intros Hf. destruct fuel as [|[|[|fuel]]]; [lia..|]. unfold step, run_part. simpl.
  destruct r as [v|e]; [|done]. simpl. destruct (p l v u) as [u' [w|w|e]]; done.
Qed.

(** A run of the generator on a sequence of answers, and of the function's
    parts; [None] is the function that has ended. *)
Fixpoint drive (fuel : nat) (rs : list (V + V)) (g : t) (u : U) : option (list (result (V := V) + V) * U) :=
  match rs with
  | [] => Some ([], u)
  | r :: rs =>
    '(g, u, x) ← step undefined num TypeError (compile p) fuel g (resume r) u;
    '(xs, u) ← drive fuel rs g u;
    Some (x :: xs, u)
  end.

Definition next_label (l : Z) (x : result (V := V) + V) : option Z :=
  match x with inl r => if done r then None else Some (l + 1)%Z | inr _ => None end.

Fixpoint run_parts (rs : list (V + V)) (ol : option Z) (u : U) : list (result (V := V) + V) * U :=
  match rs with
  | [] => ([], u)
  | r :: rs =>
    match ol with
    | Some l =>
      let '(_, u, x) := run_part l r u in
      let '(xs, u) := run_parts rs (next_label l x) u in (x :: xs, u)
    | None =>
      let '(xs, u) := run_parts rs None u in
      (match r with inl _ => inl (mk_result undefined true) | inr e => inr e end :: xs, u)
    end
  end.

Lemma drive_ended fuel rs u : drive fuel rs ended u = Some (run_parts rs None u).
Proof.
  revert u. induction rs as [|r rs IH]; intros u; simpl; [done|].
  assert (step undefined num TypeError (compile p) fuel ended (resume r) u =
    Some (ended, u, match r with inl _ => inl (mk_result undefined true) | inr e => inr e end)) as ->.
  { unfold step. by destruct fuel, r. }
  simpl. rewrite IH. simpl. by destruct (run_parts rs None u).
Qed.
End plain.
End Generator.

(** C29: [__generator] runs a compiled function: on any sequence of answers to its
    [await]s, values or rejections, each step of the generator runs the next
    part of the function with the answer, on the state that the parts before
    left, and gives what the part gives; a rejected [await] or a part that
    throws ends the function with that exception, without running the parts
    after it; and a function that has ended stays so.  Three rounds of the
    loop are enough for a step. *)
Theorem generator_runs_parts {V U : Type} undefined num TypeError (p : Generator.parts (V := V) (U := U)) fuel rs l u :
  3 ≤ fuel →
  Generator.drive undefined num TypeError p fuel rs (Generator.before l) u =
    Some (Generator.run_parts undefined p rs (Some l) u).
Proof.
  intros Hf. revert l u. induction rs as [|r rs IH]; intros l u; simpl; [done|].
  rewrite Generator.step_plain by done. simpl. destruct (Generator.run_part p l r u) as [[g u'] x] eqn:Hr.
  assert (g = match Generator.next_label l x with Some l => Generator.before l | None => Generator.ended end) as ->.
  { unfold Generator.run_part in Hr. destruct r as [v|e]; [|by simplify_eq].
    destruct (p l v u) as [u1 [w|w|e]]; by simplify_eq. }
  destruct (Generator.next_label l x) as [l'|]; [rewrite IH|rewrite Generator.drive_ended]; simpl;
    by destruct (Generator.run_parts _ _ _ _ _).
Qed.

(** A function of two parts, whose first [await] is rejected. *)
Definition two_parts : Generator.parts (V := string) (U := list string) := λ l v u,
  if (l =? 0)%Z then (u ++ ["a"], Generator.Await "p") else (u ++ [v], Generator.Result "r").

Lemma generator_runs_parts_witness :
  Generator.drive "undefined" (λ _, "number") id two_parts 3 [inl "x"; inr "lost"; inl "y"] (Generator.before 0) [] =
    Some ([inl (Generator.mk_result "p" false); inr "lost"; inl (Generator.mk_result "undefined" true)], ["a"]).
Proof. rewrite (generator_runs_parts "undefined" (λ _, "number") id two_parts 3); [reflexivity|lia]. Defined.

(** ** Promises and [__awaiter] *)

Inductive value := Undefined | Number (n : Z) | Error (message : string) | Promise (p : nat) | Object (name : string).

Definition promise_of (v : value) : option nat := match v with Promise p => Some p | _ => None end.

Module Promises.

(** What happens once a promise is settled: an [async] call goes on, or another
    promise is settled in the same way. *)
Inductive reaction := Resume (a : nat) | Settle (p : nat).

(** A pending promise may already be bound to another one. *)
Inductive state := Pending (bound : bool) (reactions : list reaction) | Fulfilled (v : value) | Rejected (e : value).

Inductive job := React (r : reaction) (result : value + value) | Adopt (p q : nat).

Record heap := mk_heap { promises : list state; jobs : list job }.

Definition enqueue (js : list job) (h : heap) : heap := mk_heap (promises h) (jobs h ++ js).
Definition set_state (p : nat) (s : state) (h : heap) : heap := mk_heap (<[p := s]> (promises h)) (jobs h).

(** [new Promise(…)]: the heap with a pending promise. *)
Definition new_promise (h : heap) : heap * nat :=
  (mk_heap (promises h ++ [Pending false []]) (jobs h), length (promises h)).

Definition settle (p : nat) (r : value + value) (h : heap) : heap :=
  match promises h !! p with
  | Some (Pending _ rs) =>
    enqueue (map (λ x, React x r) rs) (set_state p (match r with inl v => Fulfilled v | inr e => Rejected e end) h)
  | _ => h
  end.

(** The functions that the executor of a promise is given. *)
Definition reject (p : nat) (e : value) (h : heap) : heap :=
  match promises h !! p with Some (Pending false _) => settle p (inr e) h | _ => h end.
Definition resolve (p : nat) (v : value) (h : heap) : heap :=
  match promises h !! p with
  | Some (Pending false rs) =>
    match promise_of v with
    | Some q =>
      if decide (p = q) then settle p (inr (Error "Chaining cycle detected for promise")) h
      else enqueue [Adopt p q] (set_state p (Pending true rs) h)
    | None => settle p (inl v) h
    end
  | _ => h
  end.

(** [q.then(…)] *)
Definition then_ (q : nat) (r : reaction) (h : heap) : heap :=
  match promises h !! q with
  | Some (Pending bound rs) => set_state q (Pending bound (rs ++ [r])) h
  | Some (Fulfilled v) => enqueue [React r (inl v)] h
  | Some (Rejected e) => enqueue [React r (inr e)] h
  | None => h
  end.
End Promises.

(** *** [__awaiter] *)

Module Awaiter.
Import Promises.

Section awaiter.
(** The compiled function, which works on the promises and a state of its own;
    the fuel of a step of its generator. *)
Context {U : Type} (code : Generator.body (V := value) (U := heap * U)) (fuel : nat).

Definition num (n : option Z) : value := match n with Some n => Number n | None => Undefined end.

Abbreviation generator := (Generator.t (V := value) (U := heap * U)).

(** The generator of a call and the promise that the call returned. *)
Record call := mk_call { generator_of : generator; promise : nat }.

Record world := mk_world { heap_of : heap; calls : list call; user : U }.

Definition with_heap (h : heap) (w : world) : world := mk_world h (calls w) (user w).

(** [adopt(value)] *)
Definition adopt (v : value) (h : heap) : heap * nat :=
  match promise_of v with
  | Some q => (h, q)
  | None => let '(h, q) := new_promise h in (resolve q v h, q)
  end.

(** [generator.next(value)] or [generator["throw"](value)], then
    [step(result)]; an exception rejects the promise.  [None] if the fuel does
    not suffice. *)
Definition step (a : nat) (o : Generator.op (V := value) (U := heap * U)) (w : world) : option world :=
  match calls w !! a with
  | None => Some w
  | Some c =>
    match Generator.step Undefined num Error code fuel (generator_of c) o (heap_of w, user w) with
    | None => None
    | Some (g, (h, u), r) =>
      let h := match r with
               | inl r =>
                 if Generator.done r then resolve (promise c) (Generator.value r) h
                 else let '(h, q) := adopt (Generator.value r) h in then_ q (Resume a) h
               | inr e => reject (promise c) e h
               end in
      Some (mk_world h (<[a := mk_call g (promise c)]> (calls w)) u)
    end
  end.

(** A call of the function; its number is that of the calls before it. *)
Definition start_call (w : world) : option world :=
  let '(h, p) := new_promise (heap_of w) in
  step (length (calls w)) (Generator.Next Undefined)
    (mk_world h (calls w ++ [mk_call Generator.new p]) (user w)).

Definition run_job (j : job) (w : world) : option world :=
  match j with
  | React (Resume a) (inl v) => step a (Generator.Next v) w
  | React (Resume a) (inr e) => step a (Generator.Throw e) w
  | React (Settle p) r => Some (with_heap (settle p r (heap_of w)) w)
  | Adopt p q => Some (with_heap (then_ q (Settle p) (heap_of w)) w)
  end.

(** The jobs run, in order, until none is left. *)
Fixpoint drain (n : nat) (w : world) : option world :=
  match jobs (heap_of w), n with
  | [], _ => Some w
  | _ :: _, O => None
  | j :: js, S n => w ← run_job j (with_heap (mk_heap (promises (heap_of w)) js) w); drain n w
  end.
End awaiter.
End Awaiter.

(** ** [Application.start] *)

Module Startup.
Import Promises Awaiter.

Section startup.
(** The application, and [this.dispatcher.start(); this.router.start()]. *)
Context {A : Type} (start : A → A).

(** The document: whether its [readyState] is ["loading"], and the promises
    that the listeners of [DOMContentLoaded] resolve. *)
Record page := mk_page { loading : bool; listeners : list nat; application : A }.

Definition map_application (f : A → A) (pg : page) : page := mk_page (loading pg) (listeners pg) (f (application pg)).

Definition domReady (s : heap * page) : heap * page * value :=
  let '(h, pg) := s in
  let '(h, p) := new_promise h in
  if loading pg then (h, mk_page (loading pg) (listeners pg ++ [p]) (application pg), Promise p)
  else (resolve p Undefined h, pg, Promise p).

(** The compiled body of [start]. *)
Definition start_body : Generator.body (V := value) (U := heap * page) := λ f sent s,
  if (Generator.label f =? 0)%Z then
    let '(s, ready) := domReady s in (f, s, inl (Generator.Yield ready))
  else if (Generator.label f =? 1)%Z then
    match sent with
    | inl _ => (f, (s.1, map_application start s.2), inl (Generator.Return Undefined))
    | inr e => (f, s, inr e)
    end
  else (f, s, inr (Error "TypeError: Cannot read properties of undefined (reading '0')")).

(** *** The page after the call of [start] *)

Inductive event := Script (f : A → A) | Loaded | Drain.

(** A script of the page runs, the document has been loaded, or the call stack
    is empty. *)
Definition run_event (fuel n : nat) (e : event) (w : world) : option world :=
  match e with
  | Script f => Some (mk_world (heap_of w) (calls w) (map_application f (user w)))
  | Loaded =>
    let pg := user w in
    Some (mk_world (foldl (λ h p, resolve p (Object "Event") h) (heap_of w) (listeners pg)) (calls w)
            (mk_page false (listeners pg) (application pg)))
  | Drain => drain start_body fuel n w
  end.

Fixpoint run_events (fuel n : nat) (es : list event) (w : world) : option world :=
  match es with [] => Some w | e :: es => w ← run_event fuel n e w; run_events fuel n es w end.

(** The call of [start], then the events. *)
Definition live (fuel n : nat) (loading : bool) (app : A) (es : list event) : option world :=
  w ← start_call start_body fuel (mk_world (mk_heap [] []) [] (mk_page loading [] app)); run_events fuel n es w.

(** What the scripts do. *)
Definition scripts (es : list event) (app : A) : A :=
  foldl (λ app e, match e with Script f => f app | _ => app end) app es.

Definition is_loaded (e : event) : bool := match e with Loaded => true | _ => false end.
Definition is_drain (e : event) : bool := match e with Drain => true | _ => false end.

(** The states that the page goes through: waiting for the document, ready with
    a job to resume the call, and started. *)
Definition waiting_page (app : A) : world :=
  mk_world (mk_heap [Pending false []; Pending false [Resume 0]] []) [mk_call (Generator.before 1) 0] (mk_page true [1] app).
Definition ready_page (v : value) (l : list nat) (app : A) : world :=
  mk_world (mk_heap [Pending false []; Fulfilled v] [React (Resume 0) (inl v)]) [mk_call (Generator.before 1) 0]
    (mk_page false l app).
Definition started_page (v : value) (l : list nat) (app : A) : world :=
  mk_world (mk_heap [Fulfilled Undefined; Fulfilled v] []) [mk_call Generator.ended 0] (mk_page false l app).

Context (fuel : nat) (Hfuel : 3 ≤ fuel).

Lemma start_call_page b app :
  start_call start_body fuel (mk_world (mk_heap [] []) [] (mk_page b [] app)) =
    Some (if b then waiting_page app else ready_page Undefined [] app).
Proof. destruct fuel as [|[|[|f]]]; [lia..|]. by destruct b. Qed.

Context (n : nat) (Hn : 1 ≤ n).

Lemma drain_ready v l app : drain start_body fuel n (ready_page v l app) = Some (started_page v l (start app)).
Proof. destruct fuel as [|[|[|f]]]; [lia..|]. destruct n as [|m]; [lia|]. by destruct m. Qed.

Lemma drain_idle w : jobs (heap_of w) = [] → drain start_body fuel n w = Some w.
Proof. intros Hj. destruct n; simpl; by rewrite Hj. Qed.

Lemma run_events_app es es' w :
  run_events fuel n (es ++ es') w = w' ← run_events fuel n es w; run_events fuel n es' w'.
Proof.
  revert w. induction es as [|e es IH]; intros w; simpl; [done|].
  destruct (run_event fuel n e w); simpl; [apply IH|done].
Qed.

Lemma run_waiting es app :
  forallb (negb ∘ is_loaded) es = true → run_events fuel n es (waiting_page app) = Some (waiting_page (scripts es app)).
Proof.
  revert app. induction es as [|[f| |] es IH]; intros app; simpl; [done|apply IH|done|].
  intros Hes. rewrite drain_idle by done. by apply IH.
Qed.

Lemma run_ready v l es app :
  forallb (λ e, negb (is_loaded e) && negb (is_drain e)) es = true →
  run_events fuel n es (ready_page v l app) = Some (ready_page v l (scripts es app)).
Proof. revert app. induction es as [|[f| |] es IH]; intros app; simpl; [done|apply IH|done|done]. Qed.

Lemma run_started v l es app :
  forallb (negb ∘ is_loaded) es = true →
  run_events fuel n es (started_page v l app) = Some (started_page v l (scripts es app)).
Proof.
  revert app. induction es as [|[f| |] es IH]; intros app; simpl; [done|apply IH|done|].
  intros Hes. rewrite drain_idle by done. by apply IH.
Qed.

Lemma run_ready_started v l es2 es3 app :
  forallb (λ e, negb (is_loaded e) && negb (is_drain e)) es2 = true → forallb (negb ∘ is_loaded) es3 = true →
  run_events fuel n (es2 ++ Drain :: es3) (ready_page v l app) =
    Some (started_page v l (scripts es3 (start (scripts es2 app)))).
Proof.
  intros H2 H3. rewrite run_events_app, run_ready by done. simpl. rewrite drain_ready. simpl. by apply run_started.
Qed.
End startup.
End Startup.

(** C7: the application starts exactly once, when the document is ready: the
    compiled [async] function, with enough fuel, never gets stuck.  While the
    document is loading the application is only what the scripts made of it and
    the promise of [start] is pending; the first time that the call stack is
    empty after the document has been loaded, or after the call if it was, the
    application is started, on what the scripts made of it until then, the
    promise is fulfilled, and it is not started again. *)
Theorem application_starts {A : Type} (start : A → A) fuel n app es1 es2 es3 :
  3 ≤ fuel → 1 ≤ n →
  forallb (negb ∘ Startup.is_loaded) es1 = true →
  forallb (λ e, negb (Startup.is_loaded e) && negb (Startup.is_drain e)) es2 = true →
  forallb (negb ∘ Startup.is_loaded) es3 = true →
  let ends loading es app' state :=
    ∃ w, Startup.live start fuel n loading app es = Some w ∧ Startup.application (Awaiter.user w) = app' ∧
         Promises.promises (Awaiter.heap_of w) !! 0 = Some state in
  ends true es1 (Startup.scripts es1 app) (Promises.Pending false []) ∧
  ends true (es1 ++ Startup.Loaded :: es2 ++ Startup.Drain :: es3)
    (Startup.scripts es3 (start (Startup.scripts (es1 ++ es2) app))) (Promises.Fulfilled Undefined) ∧
  ends false (es2 ++ Startup.Drain :: es3)
    (Startup.scripts es3 (start (Startup.scripts es2 app))) (Promises.Fulfilled Undefined).
Proof.
  intros Hf Hn H1 H2 H3 ends. unfold ends, Startup.live.
  rewrite !Startup.start_call_page by done. simpl. split_and!.
  - rewrite Startup.run_waiting by done. by eexists.
  - rewrite Startup.run_events_app, Startup.run_waiting by done. simpl.
    change (Awaiter.mk_world _ _ _) with
      (Startup.ready_page (Object "Event") [1] (Startup.scripts es1 app)).
    rewrite Startup.run_ready_started by done. eexists. split; [done|].
    simpl. unfold Startup.scripts. by rewrite foldl_app.
  - rewrite Startup.run_ready_started by done. by eexists.
Qed.

(** The page of [App], whose script registers a controller, which the document
    asks for, after the call of [start]. *)
Lemma application_starts_witness :
  let start := App.start App.page_ops App.page0 in
  let script := Startup.Script (App.register App.page_ops App.page0 "flash" "Flash") in
  ∃ w, Startup.live start 3 1 true (App.new 1 tt) [script; Startup.Drain; Startup.Loaded; Startup.Drain; Startup.Drain] = Some w ∧
       App.getControllerForElementAndIdentifier (Startup.application (Awaiter.user w)) 2 "flash" ≠ None.
Proof.
  destruct (application_starts (App.start App.page_ops App.page0) 3 1 (App.new 1 tt)
    [Startup.Script (App.register App.page_ops App.page0 "flash" "Flash"); Startup.Drain] [] [Startup.Drain])
    as (_ & (w & Hw & Happ & _) & _); [lia|lia|reflexivity|reflexivity|reflexivity|].
  exists w. split; [exact Hw|]. rewrite Happ. vm_compute. discriminate.
Defined.
