(* ===== verification/Document.v ===== *)
(** The document [src/gui/web/node.html], as the browser builds it.

    The tree has the elements of the page with their attributes, including the
    ones that the parser of HTML supplies ([tbody] and [tr]); text, and the
    attributes that only style or draw, are left out.  [node_document] is the
    tree as a [PageDom]: the elements are numbered in document order, and the
    names of attributes are in lower case. *)

From S2P Require Import Prelude JsCore JsString Dom Actions.

#[local] Open Scope string_scope.
#[local] Open Scope list_scope.

(** An element: its [tagName], its attributes and its children. *)
Inductive tree := Node (tag : string) (attrs : list (string * string)) (children : list tree).

(** The picture in a button. *)
Definition icon : tree := Node "svg" [] [Node "path" [] []].

Definition node_html : tree :=
  Node "HTML" [] [
    Node "HEAD" [] [Node "TITLE" [] []; Node "LINK" [] []; Node "META" [] []];
    Node "BODY" [] [
      Node "DIV" [("data-controller", "flash"); ("id", "flash"); ("class", "flash")] [
        Node "DIV" [("data-flash-target", "wrapper"); ("id", "flash-wrapper")] []];
      Node "H1" [] [Node "SUP" [] []];
      Node "TABLE" [("data-controller", "peerInfo"); ("id", "peerInfo"); ("class", "peer-info")] [
        Node "TBODY" [] [
          Node "TR" [] [Node "TD" [] []; Node "TD" [("data-peerInfo-target", "peerAddr")] []];
          Node "TR" [] [Node "TD" [] []; Node "TD" [("data-peerInfo-target", "socketAddr")] []]]];
      Node "DIV" [("data-controller", "messaging"); ("id", "messaging"); ("class", "messaging")] [
        Node "H2" [("class", "collapsible")] [];
        Node "DIV" [("data-messaging-target", "holder"); ("class", "holder")] [
          Node "DIV" [("data-messaging-target", "messages"); ("class", "chat-messages")] []]];
      Node "DIV" [("class", "unicast"); ("data-controller", "unicast")] [
        Node "H2" [("class", "collapsible")] [];
        Node "DIV" [] [
          Node "H3" [] [];
          Node "DIV" [("class", "unicast-chat-form")] [
            Node "TEXTAREA" [("data-unicast-target", "message"); ("name", "message")] [];
            Node "DIV" [("class", "message")] [
              Node "INPUT" [("data-unicast-target", "destination"); ("name", "destination"); ("type", "text")] [];
              Node "BUTTON" [("data-action", "click->unicast#send")] [icon]]]]];
      Node "DIV" [("data-controller", "broadcast"); ("class", "broadcast")] [
        Node "H2" [("class", "collapsible")] [];
        Node "DIV" [] [
          Node "DIV" [] [
            Node "H3" [] [];
            Node "DIV" [("class", "broadcast-chat-form")] [
              Node "TEXTAREA" [("data-broadcast-target", "chatMessage"); ("name", "message")] [];
              Node "BUTTON" [("data-action", "click->broadcast#sendChat")] [icon]]];
          Node "DIV" [] [
            Node "H3" [] [];
            Node "DIV" [("class", "broadcast-chat-form")] [
              Node "TEXTAREA" [("data-broadcast-target", "privateMessage"); ("name", "message")] [];
              Node "DIV" [("class", "message")] [
                Node "INPUT" [("data-broadcast-target", "privateRecipients"); ("name", "recipients"); ("type", "text")] [];
                Node "BUTTON" [("data-action", "click->broadcast#sendPrivate")] [icon]]]]]];
      Node "DIV" [("data-controller", "routing"); ("class", "routing")] [
        Node "H2" [("class", "collapsible")] [];
        Node "DIV" [] [
          Node "TABLE" [] [
            Node "THEAD" [] [Node "TR" [] [Node "TH" [] []; Node "TH" [] []]];
            Node "TBODY" [("data-routing-target", "table")] []];
          Node "P" [("class", "collapsible sub")] [];
          Node "DIV" [("data-routing-target", "graphviz"); ("class", "graphviz")] [];
          Node "BUTTON" [("data-action", "click->routing#update")] [icon];
          Node "H3" [] [];
          Node "DIV" [("class", "add-peer")] [
            Node "INPUT" [("data-routing-target", "peer"); ("name", "peer"); ("type", "text")] [];
            Node "BUTTON" [("data-action", "click->routing#addPeer")] [icon]];
          Node "H3" [] [];
          Node "DIV" [("class", "set-entry")] [
            Node "INPUT" [("data-routing-target", "origin"); ("name", "origin"); ("type", "text")] [];
            Node "INPUT" [("data-routing-target", "relay"); ("name", "relay"); ("type", "text")] [];
            Node "BUTTON" [("data-action", "click->routing#setEntry")] [icon]]]];
      Node "DIV" [("data-controller", "catalog"); ("class", "catalog")] [
        Node "H2" [("class", "collapsible")] [];
        Node "DIV" [] [
          Node "DIV" [("data-catalog-target", "content"); ("class", "content")] [];
          Node "BUTTON" [("data-action", "click->catalog#update")] [icon];
          Node "H3" [] [];
          Node "DIV" [("class", "add-catalog-entry")] [
            Node "INPUT" [("data-catalog-target", "key"); ("name", "key"); ("type", "text")] [];
            Node "INPUT" [("data-catalog-target", "value"); ("name", "value"); ("type", "text")] [];
            Node "BUTTON" [("data-action", "click->catalog#add")] [icon]]]];
      Node "DIV" [("data-controller", "dataSharing"); ("class", "data")] [
        Node "H2" [("class", "collapsible")] [];
        Node "DIV" [] [
          Node "H3" [] [];
          Node "DIV" [("data-dataSharing-target", "uploadResult"); ("class", "upload-result")] [];
          Node "INPUT" [("data-dataSharing-target", "fileUpload"); ("type", "file")] [];
          Node "BUTTON" [("data-action", "click->dataSharing#upload")] [icon];
          Node "H3" [] [];
          Node "INPUT" [("data-dataSharing-target", "downloadMetahash"); ("type", "text")] [];
          Node "BUTTON" [("data-action", "click->dataSharing#download")] [icon]]];
      Node "DIV" [("data-controller", "search"); ("class", "search")] [
        Node "H2" [("class", "collapsible")] [];
        Node "DIV" [] [
          Node "H3" [] [];
          Node "DIV" [("data-search-target", "searchAllResult"); ("class", "search-all-result")] [];
          Node "INPUT" [("data-search-target", "searchAllPattern"); ("name", "pattern"); ("type", "type")] [];
          Node "INPUT" [("data-search-target", "searchAllBudget"); ("name", "budget"); ("type", "number")] [];
          Node "INPUT" [("data-search-target", "searchAllTimeout"); ("name", "timeout"); ("type", "type")] [];
          Node "BUTTON" [("data-action", "click->search#searchAll")] [icon];
          Node "H3" [] [];
          Node "DIV" [("data-search-target", "searchFirstResult"); ("class", "search-first-result")] [];
          Node "INPUT" [("data-search-target", "searchFirstPattern"); ("name", "pattern"); ("type", "type")] [];
          Node "INPUT" [("data-search-target", "searchFirstInitialBudget"); ("name", "budget"); ("type", "number")] [];
          Node "INPUT" [("data-search-target", "searchFirstFactor"); ("name", "factor"); ("type", "number")] [];
          Node "INPUT" [("data-search-target", "searchFirstRetry"); ("name", "retry"); ("type", "number")] [];
          Node "INPUT" [("data-search-target", "searchFirstTimeout"); ("name", "timeout"); ("type", "type")] [];
          Node "BUTTON" [("data-action", "click->search#searchFirst")] [icon]]];
      Node "DIV" [("data-controller", "naming"); ("class", "naming")] [
        Node "H2" [("class", "collapsible")] [];
        Node "DIV" [] [
          Node "H3" [] [];
          Node "DIV" [("data-naming-target", "resolveResult"); ("class", "result")] [];
          Node "INPUT" [("data-naming-target", "resolveFilename"); ("name", "filename"); ("type", "text")] [];
          Node "BUTTON" [("data-action", "click->naming#resolve")] [icon];
          Node "H3" [] [];
          Node "INPUT" [("data-naming-target", "tagFilename"); ("name", "filename"); ("type", "text")] [];
          Node "INPUT" [("data-naming-target", "tagMetahash"); ("name", "metahash"); ("type", "text")] [];
          Node "BUTTON" [("data-action", "click->naming#tag")] [icon]]];
      Node "DIV" [("data-controller", "packets"); ("class", "packets-holder")] [
        Node "H2" [("class", "active collapsible")] [];
        Node "DIV" [("class", "checkbox")] [
          Node "INPUT" [("data-packets-target", "follow"); ("type", "checkbox"); ("id", "follow-checkbox"); ("checked", "")] [];
          Node "LABEL" [] []];
        Node "DIV" [] [
          Node "DIV" [("data-packets-target", "holder"); ("class", "packets-top-scroll-holder")] [
            Node "DIV" [("data-packets-target", "scroll")] []];
          Node "DIV" [("data-packets-target", "packets"); ("class", "packets")] []]];
      Node "SCRIPT" [] [];
      Node "SCRIPT" [] [];
      Node "SCRIPT" [] [];
      Node "SCRIPT" [] [];
      Node "SCRIPT" [("type", "text/javascript")] []]].

(** ** The document of a tree *)

(** The elements in document order, with their depths. *)
Fixpoint preorder (depth : nat) (t : tree) : list (nat * (string * list (string * string))) :=
  match t with
  | Node tag attrs children => (depth, (tag, attrs)) :: flat_map (preorder (S depth)) children
  end.

Definition rows_of (t : tree) : list PageDom.row := imap (λ e r, (r.1, e)) (preorder 0 t).

Definition attrs_of (t : tree) : list ((elem * string) * string) :=
  concat (imap (λ e r, (λ a : string * string, ((e, lower_name a.1), a.2)) <$> r.2.2) (preorder 0 t)).

Lemma rows_of_ids t : (rows_of t).*2 = seq 0 (length (preorder 0 t)).
Proof.
  unfold rows_of. generalize (preorder 0 t) as l. intros l. rewrite fmap_imap.
  assert (∀ n, imap (λ i r, (snd ∘ (λ (e : nat) (r : nat * (string * list (string * string))), (r.1, e)) (n + i)) r) l =
               seq n (length l)) as Hn; [|exact (Hn 0)].
  induction l as [|r l IH]; intros n; [done|]. cbn [imap length seq]. f_equal; [simpl; lia|].
  rewrite <-IH. apply imap_ext. intros i r' _. simpl. lia.
Qed.

Lemma rows_of_ok t : bool_decide (NoDup (rows_of t ++ []).*2) = true.
Proof. apply bool_decide_eq_true. rewrite app_nil_r, rows_of_ids. apply NoDup_seq. Qed.

Definition document_of (t : tree) : PageDom.t := PageDom.mk (rows_of t) [] (attrs_of t) (rows_of_ok t).

Definition node_document : PageDom.t := Eval vm_compute in document_of node_html.

(** The root, [document.documentElement]. *)
Definition node_root : elem := 0.

Definition node_tags : list string := (λ r : nat * (string * list (string * string)), r.2.1) <$> preorder 0 node_html.

#[export] Instance node_tagged : Tagged PageDom.t := λ _ e, default "" (node_tags !! e).

Definition node_elems : list elem := (PageDom.page node_document).*2.

(** ** The functions of the document that [main.js] calls *)

(** The next row of the same depth, before one that is less deep. *)
Fixpoint sibling_in (depth : nat) (l : list PageDom.row) : option elem :=
  match l with
  | [] => None
  | (n, e) :: l => if decide (n < depth) then None else if decide (n = depth) then Some e else sibling_in depth l
  end.
Fixpoint sibling_of (e : elem) (l : list PageDom.row) : option elem :=
  match l with
  | [] => None
  | (n, e') :: l => if decide (e = e') then sibling_in n l else sibling_of e l
  end.
Definition nextElementSibling (d : PageDom.t) (e : elem) : option elem := sibling_of e (PageDom.page d).

(** [document.getElementsByClassName(name)] *)
Definition getElementsByClassName (d : PageDom.t) (name : string) : list elem :=
  filter (λ e, matches d e (AttributeContainsToken "class" name) = true) (PageDom.page d).*2.
