(* ===== verification/Site.v ===== *)
(** The client as a whole: the framework, started by [main] on the page, with
    the controllers of [main.js].

    [Wiring] and [Events] leave open what the controllers do.  Here a context's
    controller is an instance of the class that [main] registered, so that
    [initialize], [connect] and the methods that actions name are looked up in
    the blessed classes of [Classes]; what their code does is the parameter
    [Runtime], which [Client] instantiates with the handlers of [Base],
    [Forms] and [Tables].  The page is [node_document]; the elements that the
    controllers add to it have no attributes of the framework. *)

From S2P Require Import Prelude JsCore JsString Dom Scopes Router App Blessings Actions Dispatcher Events Bindings Wiring.
From S2P Require Import Classes Boot Document.

#[local] Open Scope string_scope.
#[local] Open Scope list_scope.

(** What the controllers act on: the code of a method runs, a controller is
    connected for an element with an id, an error is reported. *)
Record Runtime (W : Type) := {
  runs : string → W → W;
  connects : string → string → W → W;
  reports : string → string → W → W;
}.
Arguments runs {W}.
Arguments connects {W}.
Arguments reports {W}.

(** ** The controllers of contexts *)

(** The blessed class that a context's controller is an instance of. *)
Definition class_of (r : router) (cx : context) : option nat :=
  head (filter (λ c, Main.class_name c = def_constructor (m_definition (Module.deref r (cx_module cx))))
          blessed_classes.*2).

(** [this.controller[name]], if it is a function. *)
Definition code_of (r : router) (cx : context) (name : string) : option string :=
  c ← class_of r cx;
  match lookup_property blessed_heap c name with Some (DValue code) => Some code | _ => None end.

#[global] Arguments code_of : simpl never.

Section site.
Context {W : Type} (rt : Runtime W).
Implicit Types (w : W) (r : router) (cx : context).

(** [this.controller.initialize()] and [this.controller.connect()], with the
    errors that the context reports. *)
Definition call r cx (name doing : string) w : W :=
  match code_of r cx name with
  | Some code => runs rt code w
  | None =>
    reports rt ("Error " +:+ doing +:+ " controller")
      ("TypeError: this.controller." +:+ name +:+ " is not a function") w
  end.

Definition site_ops : ContextOps PageDom.t W := {|
  co_new _ r w cx := call r cx "initialize" "initializing" w;
  co_connect dom r w cx :=
    call r cx "connect" "connecting"
      (match getAttribute dom (cx_element cx) "id" with
       | Some id => connects rt id (m_identifier (Module.deref r (cx_module cx))) w
       | None => w
       end);
  co_disconnect _ r w cx := call r cx "disconnect" "disconnecting" w;
|}.

Definition site_controllers r : Controllers W := {|
  method cx name := (λ code, λ _ w, (runs rt code w, false, None)) <$> code_of r cx name;
  logger_error w message error := reports rt message error w;
|}.

(** ** The page *)

Definition site_app_ops : App.Ops PageDom.t (Wiring.world PageDom.t W) := Wiring.app_ops site_ops.

(** [main()], while the document is parsed, and the start of the application
    when it is ready. *)
Definition site_main w : Main.t * option string :=
  Main.main site_app_ops node_document (nextElementSibling node_document)
    (getElementsByClassName node_document "collapsible")
    (Main.initial node_root (Wiring.initial w) (getElementsByClassName node_document "active")).

Definition site_app w : App.t (W := Wiring.world PageDom.t W) :=
  App.start site_app_ops node_document (Main.application (site_main w).1).

(** An event happens at a target of the page. *)
Definition site_event (eventName : string) (bubbles : bool) (target : event_target)
    (a : App.t (W := Wiring.world PageDom.t W)) : App.t :=
  App.map_router (λ '(r, w),
    let '(d, u) := fire (site_controllers r) node_document eventName bubbles target (Wiring.dispatcher w) (Wiring.user w) in
    (r, Wiring.mk_world d (Wiring.entries w) u)) a.
End site.

(** ** The page after the start

    What the framework keeps does not depend on the controllers; it is
    computed once. *)

Definition node_app : App.t (W := Wiring.world PageDom.t unit) :=
  site_app {| runs _ w := w; connects _ _ w := w; reports _ _ w := w |} tt.
Definition node_router : router := Eval vm_compute in App.router_of node_app.
Definition node_dispatcher : Dispatcher.t := Eval vm_compute in Wiring.dispatcher (App.world_of node_app).

(** What the start makes the controllers do. *)
Inductive call_made := Runs (code : string) | Connects (id identifier : string).

Definition start_calls : list call_made :=
  [Runs "Controller.initialize"; Connects "flash" "flash"; Runs "Controller.connect";
   Runs "PeerInfo.initialize"; Connects "peerInfo" "peerInfo"; Runs "Controller.connect";
   Runs "Controller.initialize"; Connects "messaging" "messaging"; Runs "Controller.connect";
   (* unicast, broadcast *)
   Runs "Controller.initialize"; Runs "Controller.connect"; Runs "Controller.initialize"; Runs "Controller.connect";
   Runs "Routing.initialize"; Runs "Controller.connect"; Runs "Catalog.initialize"; Runs "Controller.connect";
   (* dataSharing, search, naming *)
   Runs "Controller.initialize"; Runs "Controller.connect"; Runs "Controller.initialize"; Runs "Controller.connect";
   Runs "Controller.initialize"; Runs "Controller.connect";
   Runs "Packets.initialize"; Runs "Controller.connect"].

Section page.
Context {W : Type} (rt : Runtime W).
Implicit Types (w : W) (a : App.t (W := Wiring.world PageDom.t W)).

Definition perform w (c : call_made) : W :=
  match c with Runs code => runs rt code w | Connects id i => connects rt id i w end.

(** The framework's part is that of the page after the start. *)
Definition at_page a : Prop :=
  App.router_of a = node_router ∧ Wiring.dispatcher (App.world_of a) = node_dispatcher.

Lemma site_started w :
  (site_main rt w).2 = None ∧ at_page (site_app rt w) ∧
  Wiring.user (App.world_of (site_app rt w)) = foldl perform w start_calls.
Proof. split_and!; [|split|]; vm_compute; reflexivity. Qed.


(** *** The page is a session of the framework *)

Definition page_definitions : list definition :=
  (λ ic : string * nat, mk_definition ic.1 (Main.class_name ic.2)) <$> blessed_classes.
Definition page_view : App.view PageDom.t := App.mk_view (Some node_document) (reverse registrations.*1).

Lemma main_loads w :
  Main.application (site_main rt w).1 =
    App.load (site_app_ops rt) node_document page_definitions (App.new node_root (Wiring.initial w)).
Proof. vm_compute. reflexivity. Qed.

Lemma page_view_load :
  App.mk_view (Some node_document) (App.vw_identifiers (App.view_load (App.mk_view (doc := PageDom.t) None []) page_definitions)) = page_view.
Proof. vm_compute. reflexivity. Qed.

Lemma site_app_session w : Wiring.session (site_ops rt) node_root w page_view (site_app rt w).
Proof.
  rewrite <-page_view_load. unfold site_app. rewrite main_loads. apply Wiring.session_start.
  exact (Wiring.session_load (site_ops rt) node_root w _ _ node_document page_definitions
           (Wiring.session_new (site_ops rt) node_root w)).
Qed.
End page.

(** ** Events *)

Definition listeners_check (P : EventListener.t → bool) : bool :=
  forallb (λ il : Dispatcher.listener_id * EventListener.t, P il.2) (Dispatcher.eventListeners node_dispatcher).

Lemma node_maps_wf : Dispatcher.maps_wf node_dispatcher.
Proof.
  split.
  - apply (bool_decide_unpack (NoDup (JMap.keys (Dispatcher.eventListenerMaps node_dispatcher)))). vm_compute. exact I.
  - intros tg m Hm%JMap.get_Some_elem.
    assert (Forall (λ tm : event_target * list (string * EventListener.t), NoDup (JMap.keys tm.2))
      (Dispatcher.eventListenerMaps node_dispatcher)) as Hall by (apply (bool_decide_unpack _); vm_compute; exact I).
    eapply Forall_forall in Hall; [|exact Hm]. exact Hall.
Qed.

Lemma node_listeners P i l :
  listeners_check P = true → Dispatcher.listener node_dispatcher i = Some l → P l = true.
Proof.
  unfold listeners_check. rewrite forallb_forall. intros Hc Hl%Dispatcher.elem_of_eventListeners; [|apply node_maps_wf].
  exact (Hc (i, l) (proj1 (list_elem_of_In _ _) Hl)).
Qed.

(** All listeners are for clicks, without options. *)
Lemma node_listeners_click i l :
  Dispatcher.listener node_dispatcher i = Some l →
  EventListener.eventName l = "click" ∧ EventListener.eventOptions l = [].
Proof.
  intros Hl. apply (node_listeners (λ l, bool_decide (EventListener.eventName l = "click" ∧ EventListener.eventOptions l = []))) in Hl.
  - by apply bool_decide_eq_true in Hl.
  - vm_compute. reflexivity.
Qed.

(** The code that a click on an element runs: that of the nearest action
    attribute. *)
Definition action_at (e : elem) : option string :=
  e' ← closest node_document e (HasAttribute App.actionAttribute);
  text ← getAttribute node_document e' App.actionAttribute;
  action_code text.

(** The codes of the methods that an event invokes. *)
Definition event_codes (name : string) (target : event_target) : list (option string) :=
  (λ b, code_of node_router (b_context b) (Binding.methodName b)) <$>
    event_bindings node_document name true target node_dispatcher.

Definition target_codes (name : string) (target : event_target) : list string :=
  match target with
  | ElementTarget e => if decide (name = "click") then option_list (action_at e) else []
  | Global _ => []
  end.

(** The listeners are on elements of the page. *)
Lemma node_listeners_target i l :
  Dispatcher.listener node_dispatcher i = Some l → ∃ e, i.1 = ElementTarget e ∧ e ∈ node_elems.
Proof.
  intros Hl%Dispatcher.elem_of_eventListeners; [|apply node_maps_wf].
  assert (forallb (λ il : Dispatcher.listener_id * EventListener.t,
    match il.1.1 with ElementTarget e => bool_decide (e ∈ node_elems) | _ => false end)
    (Dispatcher.eventListeners node_dispatcher) = true) as Hall by (vm_compute; reflexivity).
  rewrite forallb_forall in Hall. specialize (Hall (i, l) (proj1 (list_elem_of_In _ _) Hl)). simpl in Hall.
  destruct i as [[|e] k]; [done|]. exists e. split; [done|]. by apply bool_decide_eq_true in Hall.
Qed.

(** An element that is not of the page. *)
Lemma foreign_path e : e ∉ node_elems → ancestors node_document e = [e] ∧ isConnected node_document e = false.
Proof.
  intros He. split; [|by apply bool_decide_eq_false].
  change (ancestors node_document e) with (PageDom.anc node_document e). unfold PageDom.anc. by rewrite decide_False.
Qed.

Lemma foreign_attr e a : e ∉ node_elems → attr node_document e a = None.
Proof.
  intros He. change (attr node_document e a) with (JMap.get (e, a) (PageDom.attrs node_document)).
  apply eq_None_not_Some. intros Hin%JMap.get_is_Some. apply He.
  assert (forallb (λ k : elem * string, bool_decide (k.1 ∈ node_elems)) (JMap.keys (PageDom.attrs node_document)) = true)
    as Hall by (vm_compute; reflexivity).
  rewrite forallb_forall in Hall. specialize (Hall (e, a) (proj1 (list_elem_of_In _ _) Hin)).
  by apply bool_decide_eq_true in Hall.
Qed.

Lemma foreign_listeners name e ph :
  e ∉ node_elems → ph ∈ phases node_document (ElementTarget e) true → listeners node_dispatcher name ph = [].
Proof.
  intros He Hph. apply no_listeners. intros i l Hl _ Hi.
  apply node_listeners_target in Hl as (e' & He' & Hin). rewrite He' in Hi. revert Hph. unfold phases, event_path.
  destruct (foreign_path e He) as [-> ->]. simpl. rewrite !elem_of_cons. pose proof (not_elem_of_nil ph). naive_solver.
Qed.

Lemma foreign_action e : e ∉ node_elems → action_at e = None.
Proof.
  intros He. unfold action_at, closest. destruct (foreign_path e He) as [-> _].
  assert (matches node_document e (HasAttribute App.actionAttribute) = false) as Hm.
  { simpl. unfold hasAttribute, getAttribute. by rewrite foreign_attr. }
  rewrite filter_cons_False; [done|]. rewrite Hm. by intros [].
Qed.

Lemma event_codes_target name target : event_codes name target = Some <$> target_codes name target.
Proof.
  unfold target_codes, event_codes, event_bindings.
  destruct (decide (name = "click")) as [->|Hne].
  - destruct target as [g|e].
    + rewrite phases_silent; [done|]. intros ph Hph. apply no_listeners. intros i l Hl _ Hi.
      apply node_listeners_target in Hl as (e & He & _). rewrite He in Hi. clear -Hph Hi.
      unfold phases in Hph. simpl in Hph. destruct g; simpl in Hph; set_solver.
    + destruct (decide (e ∈ node_elems)) as [He|He].
      * assert (Forall (λ x, event_codes "click" (ElementTarget x) = Some <$> option_list (action_at x)) node_elems)
          as Hall by (apply (bool_decide_unpack _); vm_compute; exact I).
        eapply Forall_forall in Hall; [|exact He]. exact Hall.
      * rewrite phases_silent by (intros ph; by apply foreign_listeners). by rewrite foreign_action.
  - rewrite phases_silent; [by destruct target|]. intros ph _. apply no_listeners.
    intros i l [Hn _]%node_listeners_click -> _. by rewrite Hn in Hne.
Qed.

(** *** What an event does *)

Section runs.
Context {W : Type} (rt : Runtime W).
Implicit Types (w : W) (a : App.t (W := Wiring.world PageDom.t W)).

Lemma site_never_stops r : never_stops (site_controllers rt r).
Proof.
  intros cx name m ev w. cbn [method site_controllers]. destruct (code_of r cx name) as [code|]; intros Hm.
  - injection Hm as <-. reflexivity.
  - discriminate Hm.
Qed.

Lemma node_without_once : without_once node_dispatcher.
Proof. intros i l [_ Ho]%node_listeners_click. unfold has_option. by rewrite Ho. Qed.

Lemma invoke_code r target w b code :
  code_of r (b_context b) (Binding.methodName b) = Some code →
  invoke (site_controllers rt r) target w b = runs rt code w.
Proof.
  intros Hb. unfold invoke, Binding.invokeWithEvent. cbn [method site_controllers]. rewrite Hb. reflexivity.
Qed.

Lemma foldl_decoded {B} (f : B → option string) (g : W → B → W) (h : W → string → W) :
  (∀ w b code, f b = Some code → g w b = h w code) →
  ∀ bs cs w, f <$> bs = Some <$> cs → foldl g w bs = foldl h w cs.
Proof.
  intros Hg. induction bs as [|b bs IH]; intros [|c cs] w; simpl; try done.
  intros [= Hb Hc]. by rewrite (Hg _ _ _ Hb), (IH _ _ Hc).
Qed.

Lemma invoke_codes r target w bs cs :
  (λ b, code_of r (b_context b) (Binding.methodName b)) <$> bs = Some <$> cs →
  foldl (invoke (site_controllers rt r) target) w bs = foldl (λ w code, runs rt code w) w cs.
Proof.
  intros Hc. apply (foldl_decoded _ _ _ (λ w b code, invoke_code r target w b code) _ _ w Hc).
Qed.

Lemma site_event_world name target a :
  without_once (Wiring.dispatcher (App.world_of a)) →
  App.router_of (site_event rt name true target a) = App.router_of a ∧
  Wiring.dispatcher (App.world_of (site_event rt name true target a)) = Wiring.dispatcher (App.world_of a) ∧
  Wiring.user (App.world_of (site_event rt name true target a)) =
    foldl (invoke (site_controllers rt (App.router_of a)) target) (Wiring.user (App.world_of a))
      (event_bindings node_document name true target (Wiring.dispatcher (App.world_of a))).
Proof.
  destruct a as [tl [vl [so [r [d en u]]]]]. unfold site_event, App.router_of, App.world_of, App.map_router.
  cbn [fst snd Wiring.dispatcher Wiring.user]. intros Ho.
  rewrite (fire_bindings _ (site_never_stops r)) by exact Ho. split_and!; reflexivity.
Qed.

(** An event changes only what the controllers act on. *)
Lemma site_event_user name target a :
  without_once (Wiring.dispatcher (App.world_of a)) →
  ∃ f, site_event rt name true target a = App.map_router (λ '(r, w), (r, Wiring.on_user f w)) a.
Proof.
  destruct a as [tl [vl [so [r [d en u]]]]]. unfold site_event, App.world_of, App.map_router.
  cbn [fst snd Wiring.dispatcher Wiring.user]. intros Ho.
  rewrite (fire_bindings _ (site_never_stops r)) by exact Ho. cbn [fst snd].
  eexists (λ _, _). reflexivity.
Qed.

Lemma site_event_session name target a u v :
  at_page a → Wiring.session (site_ops rt) node_root u v a →
  Wiring.session (site_ops rt) node_root u v (site_event rt name true target a).
Proof.
  intros [_ Hd] Hs. destruct (site_event_user name target a) as [f ->]; [|by apply Wiring.session_user].
  rewrite Hd. exact node_without_once.
Qed.

Lemma site_event_runs name target a :
  at_page a →
  at_page (site_event rt name true target a) ∧
  Wiring.user (App.world_of (site_event rt name true target a)) =
    foldl (λ w code, runs rt code w) (Wiring.user (App.world_of a)) (target_codes name target).
Proof.
  intros [Hr Hd]. destruct (site_event_world name target a) as (Hr' & Hd' & Hu).
  { rewrite Hd. exact node_without_once. }
  split; [exact (conj (eq_trans Hr' Hr) (eq_trans Hd' Hd))|]. rewrite Hu, Hr, Hd. apply invoke_codes, event_codes_target.
Qed.
End runs.

(** *** The buttons *)

Definition node_buttons : list elem :=
  filter (λ e, matches node_document e (HasAttribute App.actionAttribute) = true) node_elems.

(** C12: on the started page an event runs a method of a controller exactly if it
    is a click at or inside an element with an action attribute: then the method
    that the nearest such attribute names, once, and nothing else; the
    attributes name the fourteen actions of [main.js], and the framework is
    left as it was, whatever the controllers do. *)
Theorem page_events {W : Type} (rt : Runtime W) a name target :
  at_page a →
  let a' := site_event rt name true target a in
  at_page a' ∧
  Wiring.user (App.world_of a') =
    match target with
    | ElementTarget e =>
      if decide (name = "click") then
        match action_at e with
        | Some code => runs rt code (Wiring.user (App.world_of a))
        | None => Wiring.user (App.world_of a)
        end
      else Wiring.user (App.world_of a)
    | Global _ => Wiring.user (App.world_of a)
    end ∧
  action_at <$> node_buttons = Some <$> page_codes.
Proof.
  intros Ha a'. destruct (site_event_runs rt name target a Ha) as [Ha' Hu]. split; [exact Ha'|]. split.
  - unfold a'. rewrite Hu. unfold target_codes. destruct target as [g|e]; [done|]. case_decide; [|done]. by destruct (action_at e).
  - vm_compute. reflexivity.
Qed.


(** A click on the picture in the button of [unicast]. *)
Definition call_log : Runtime (list string) :=
  {| runs code w := w ++ [code]; connects id i w := w ++ [id]; reports message _ w := w ++ [message] |}.

Lemma page_events_witness :
  let a := site_app call_log [] in
  let a' := site_event call_log "click" true (ElementTarget 32) a in
  at_page a ∧ action_at 32 = Some "Unicast.send" ∧
  Wiring.user (App.world_of a') = runs call_log "Unicast.send" (Wiring.user (App.world_of a)) ∧
  length (Wiring.user (App.world_of a')) = S (length start_calls).
Proof.
  intros a a'. destruct (site_started call_log []) as (_ & Ha & _). split; [exact Ha|].
  assert (action_at 32 = Some "Unicast.send") as Hc by (vm_compute; reflexivity). split; [exact Hc|].
  split; [|vm_compute; reflexivity].
  destruct (page_events call_log a "click" (ElementTarget 32) Ha) as (_ & Hu & _).
  rewrite decide_True, Hc in Hu by reflexivity. exact Hu.
Defined.

(** ** The panels *)

Lemma sibling_of_absent e l : e ∉ l.*2 → sibling_of e l = None.
Proof.
  induction l as [|[n e'] l IH]; [done|]. intros [Hne Hl]%not_elem_of_cons. simpl in *.
  by rewrite decide_False, IH.
Qed.

Lemma node_siblings_inj e e' c :
  nextElementSibling node_document e = Some c → nextElementSibling node_document e' = Some c → e = e'.
Proof.
  assert (∀ x, nextElementSibling node_document x = Some c → x ∈ node_elems) as Hin.
  { intros x Hx. destruct (decide (x ∈ node_elems)) as [|Hn]; [done|].
    unfold nextElementSibling in Hx. rewrite sibling_of_absent in Hx by done. discriminate Hx. }
  assert (Forall (λ x, ∀ c, nextElementSibling node_document x = Some c →
    head (filter (λ y, nextElementSibling node_document y = Some c) node_elems) = Some x) node_elems) as Hall.
  { assert (Forall (λ x, match nextElementSibling node_document x with
      | Some c => bool_decide (head (filter (λ y, nextElementSibling node_document y = Some c) node_elems) = Some x)
      | None => true end = true) node_elems) as Hc by (apply (bool_decide_unpack _); vm_compute; exact I).
    eapply Forall_impl; [exact Hc|]. cbn beta. intros x Hx c' Hc'. rewrite Hc' in Hx. by apply bool_decide_eq_true in Hx. }
  rewrite Forall_forall in Hall. intros He He'.
  pose proof (Hall e (Hin e He) c He) as H1. pose proof (Hall e' (Hin e' He') c He') as H2. congruence.
Qed.

(** The panels of the page: the header of the unicast form (23) and that of the
    packets (144), which is open at first. *)
Lemma panels_toggle_witness :
  let next := nextElementSibling node_document in
  let coll := getElementsByClassName node_document "collapsible" in
  let s := Collapsible.mk (getElementsByClassName node_document "active") [] [] in
  let '(s0, r) := Collapsible.initCollapsible next coll s in
  let s' := foldl (Collapsible.user_click next) s0 [23; 144; 32; 23; 23] in
  r = None ∧ JMap.get 24 (Collapsible.display s') = Some "block" ∧ JMap.get 145 (Collapsible.display s') = Some "none".
Proof.
  intros next coll s. pose proof (Collapsible.panels_toggle next coll s [23; 144; 32; 23; 23] node_siblings_inj) as Hp.
  assert (NoDup coll) as Hn by (apply (bool_decide_unpack _); vm_compute; exact I).
  assert (Forall (λ e, is_Some (next e)) coll) as Hall by (apply (bool_decide_unpack _); vm_compute; exact I).
  specialize (Hp Hn eq_refl Hall). destruct (Collapsible.initCollapsible next coll s) as [s0 r]. destruct Hp as [Hr Hp].
  split; [exact Hr|].
  assert (23 ∈ coll ∧ next 23 = Some 24) as [Hc1 He1].
  { split; [apply (bool_decide_unpack _); vm_compute; exact I|vm_compute; reflexivity]. }
  assert (144 ∈ coll ∧ next 144 = Some 145) as [Hc2 He2].
  { split; [apply (bool_decide_unpack _); vm_compute; exact I|vm_compute; reflexivity]. }
  destruct (Hp 23 24 Hc1 He1) as [_ H1]. destruct (Hp 144 145 Hc2 He2) as [_ H2]. split; [rewrite H1|rewrite H2]; vm_compute; reflexivity.
Defined.
