(* ===== verification/Client.v ===== *)
(** The client on its page: the handlers of [main.js], run by the framework.

    [gui] gives the code of each method its handler, so that the started
    application ([Site]) acts on the [ui] of [Page] through the event loop.
    [site] are the runs of the client: the page is started, then events happen,
    the node and the browser answer, and the listeners and timers that the
    handlers have set fire, in any order. *)

From S2P Require Import Prelude JsCore JsString Dom Names Scopes Router App Targets EventLoop Json Actions Dispatcher Wiring.
From S2P Require Import Page Base Forms Tables Submit Sessions NodePage Classes Document Site.

#[local] Open Scope string_scope.
#[local] Open Scope list_scope.

(** ** The handlers *)

Section client.
Context `{Browser}.

(** The code of the methods that the framework calls. *)
Definition site_handlers : list (string * handler) :=
  [("Controller.initialize", ret tt); ("Controller.connect", ret tt); ("Controller.disconnect", ret tt);
   ("PeerInfo.initialize", PeerInfo.initialize);
   ("Routing.initialize", Routing.initialize); ("Catalog.initialize", Catalog.initialize);
   ("Packets.initialize", Packets.initialize);
   ("Unicast.send", Unicast.send);
   ("Broadcast.sendChat", Broadcast.sendChat); ("Broadcast.sendPrivate", Broadcast.sendPrivate);
   ("Routing.update", Routing.update); ("Routing.addPeer", Routing.addPeer); ("Routing.setEntry", Routing.setEntry);
   ("Catalog.update", Catalog.update); ("Catalog.add", Catalog.add);
   ("DataSharing.upload", DataSharing.upload); ("DataSharing.download", DataSharing.download);
   ("Search.searchAll", Search.searchAll); ("Search.searchFirst", Search.searchFirst);
   ("Naming.resolve", Naming.resolve); ("Naming.tag", Naming.tag)].

Definition on_state (f : ui → ui) (w : world ui) : world ui :=
  mk_world (f (state w)) (pending w) (sent w) (unhandled w).

(** A method that the page has no handler for is reported. *)
Definition gui : Runtime (world ui) := {|
  runs code w :=
    match JMap.get code site_handlers with
    | Some m => enter w (start m)
    | None => on_state (add_console ("no handler for " +:+ code)) w
    end;
  connects id i := on_state (λ s, set_controllers (controllers s ++ [(id, i)]) s);
  reports message error := on_state (add_console (message +:+ ": " +:+ error));
|}.

(** The page before the framework is started. *)
Definition blank_page : ui := set_controllers [] node_page.
Definition client_app : App.t := site_app gui (mk_world blank_page [] [] []).

Definition gui_of (a : App.t (W := Wiring.world PageDom.t (world ui))) : world ui := Wiring.user (App.world_of a).
Definition on_gui (w : world ui) (a : App.t (W := Wiring.world PageDom.t (world ui))) : App.t :=
  App.map_router (λ '(r, wd), (r, Wiring.on_user (λ _, w) wd)) a.

(** ** The runs of the client *)

Context (ep : string).

(** The listeners that handlers set: those of the event source, of the scroll
    bar and of the readers of files, which have the address that [upload] has
    computed. *)
Inductive set_listener (s : ui) : handler → Prop :=
  | set_message data : set_listener s (Packets.packetMessage data)
  | set_error : set_listener s Packets.packetError
  | set_scroll : set_listener s Packets.packetsScroll
  | set_load addr file result :
    (addr, file) ∈ readers s → set_listener s (DataSharing.upload_load addr result)
  | set_progress loaded total : set_listener s (DataSharing.upload_progress loaded total).

Inductive site : App.t → Prop :=
  | site_start : site client_app
  | site_happens name target a : site a → site (site_event gui name true target a)
  | site_answer i x w a : site a → complete (gui_of a) i x = Some w → site (on_gui w a)
  | site_listener m a : site a → set_listener (state (gui_of a)) m → site (on_gui (enter (gui_of a) (start m)) a)
  | site_change s a : site a → gui_event (state (gui_of a)) s → site (on_gui (on_state (λ _, s) (gui_of a)) a).

(** ** Every run is a session *)

Context (Hep : page_endpoint ep).

Lemma enter_nothing (w : world ui) : enter w (start (ret tt)) = w.
Proof. destruct w. unfold enter. simpl. by rewrite !app_nil_r. Qed.

Lemma perform_initialize w : perform gui w (Runs "Controller.initialize") = w.
Proof. exact (enter_nothing w). Qed.

Lemma perform_connect w : perform gui w (Runs "Controller.connect") = w.
Proof. exact (enter_nothing w). Qed.

Lemma perform_handler w code m :
  JMap.get code site_handlers = Some m → perform gui w (Runs code) = enter w (start m).
Proof. intros Hm. cbn [perform runs gui]. by rewrite Hm. Qed.

(** The start up to the first handler that uses other controllers: the page on
    which these controllers were connected all along looks the same. *)
Lemma client_first :
  foldl (perform gui) (mk_world blank_page [] [] []) (take 9 start_calls) =
    enter (mk_world node_page [] [] []) (start PeerInfo.initialize).
Proof.
  unfold start_calls. cbn [take foldl]. rewrite !perform_initialize, !perform_connect.
  rewrite (perform_handler _ "PeerInfo.initialize" PeerInfo.initialize) by reflexivity.
  destruct Hep as (addr & _ & Hd). unfold PeerInfo.initialize. rewrite Hd. reflexivity.
Qed.

Lemma client_start : gui_of client_app = foldl (perform gui) (mk_world blank_page [] [] []) start_calls.
Proof. apply (site_started gui). Qed.

Abbreviation steps := (rtc (step gui_handler gui_event)).

Lemma start_steps :
  steps (enter (mk_world node_page [] [] []) (start PeerInfo.initialize)) (gui_of client_app).
Proof.
  rewrite client_start, <-(take_drop 9 start_calls), foldl_app, client_first.
  unfold start_calls. cbn [drop foldl]. rewrite !perform_initialize, !perform_connect.
  rewrite (perform_handler _ "Routing.initialize" Routing.initialize) by reflexivity.
  rewrite (perform_handler _ "Catalog.initialize" Catalog.initialize) by reflexivity.
  rewrite (perform_handler _ "Packets.initialize" Packets.initialize) by reflexivity.
  generalize (enter (mk_world node_page [] [] []) (start PeerInfo.initialize)) as w. intros w.
  eapply rtc_l; [apply (step_handler _ _ _ Routing.initialize); constructor|].
  eapply rtc_l; [apply (step_handler _ _ _ Catalog.initialize); constructor|].
  eapply rtc_l; [apply (step_handler _ _ _ Packets.initialize); constructor|]. apply rtc_refl.
Qed.

Ltac handled c := apply Forall_cons; split; [eexists; split; [reflexivity|exact c]|].

(** The methods that actions name. *)
Lemma action_handler code :
  code ∈ page_codes → ∃ m, JMap.get code site_handlers = Some m ∧ ∀ s, gui_handler s m.
Proof.
  revert code. apply Forall_forall. unfold page_codes.
  handled on_send. handled on_sendChat. handled on_sendPrivate. handled on_routing_update.
  handled on_addPeer. handled on_setEntry. handled on_catalog_update. handled on_add.
  handled on_upload. handled on_download. handled on_searchAll. handled on_searchFirst.
  handled on_resolve. handled on_tag.
  apply Forall_nil_2.
Qed.

Lemma action_code_page e code : action_at e = Some code → code ∈ page_codes.
Proof.
  destruct (decide (e ∈ node_elems)) as [He|He]; [|by rewrite foreign_action].
  assert (Forall (λ e, option_list (action_at e) ⊆ page_codes) node_elems) as Hall
    by (apply (bool_decide_unpack _); vm_compute; exact I).
  eapply Forall_forall in Hall; [|exact He]. intros Hc. apply Hall. rewrite Hc. by left.
Qed.

Lemma set_listener_handler s m : set_listener s m → gui_handler s m.
Proof. destruct 1; by econstructor. Qed.

Lemma on_gui_page w a : at_page a → at_page (on_gui w a).
Proof. destruct a as [tl [vl [so [r wd]]]]. done. Qed.

Lemma gui_of_on_gui w a : gui_of (on_gui w a) = w.
Proof. by destruct a as [tl [vl [so [r wd]]]]. Qed.

Lemma site_steps a :
  site a → at_page a ∧ steps (enter (mk_world node_page [] [] []) (start PeerInfo.initialize)) (gui_of a).
Proof.
  induction 1 as [|name target a _ [Ha Hs]|i x w a _ [Ha Hs] Hc|m a _ [Ha Hs] Hm|s a _ [Ha Hs] He].
  - split; [apply (site_started gui)|apply start_steps].
  - destruct (site_event_runs gui name target a Ha) as [Ha' Hu]. split; [exact Ha'|]. unfold gui_of. rewrite Hu.
    unfold target_codes. destruct target as [g|e]; [exact Hs|]. case_decide; [|exact Hs].
    destruct (action_at e) as [code|] eqn:Hcode; [|exact Hs].
    apply action_code_page, action_handler in Hcode as (m & Hm & Hgui).
    eapply rtc_r; [exact Hs|]. change (foldl _ _ _) with (perform gui (gui_of a) (Runs code)).
    rewrite (perform_handler _ code m Hm). by apply step_handler.
  - split; [by apply on_gui_page|]. rewrite gui_of_on_gui. eapply rtc_r; [exact Hs|]. by eapply step_resume.
  - split; [by apply on_gui_page|]. rewrite gui_of_on_gui. eapply rtc_r; [exact Hs|].
    by apply step_handler, set_listener_handler.
  - split; [by apply on_gui_page|]. rewrite gui_of_on_gui. eapply rtc_r; [exact Hs|].
    destruct (gui_of a) as [s0 ps rs us]. by apply step_event.
Qed.
End client.

(** The framework's part of a run. *)
Lemma site_wired `{Browser} ep (Hep : page_endpoint ep) a :
  site a → Wiring.session (site_ops gui) node_root (mk_world blank_page [] [] []) page_view a.
Proof.
  intros Hs. pose proof (site_steps ep Hep) as Hpage.
  induction Hs as [|name target a Hs IH|i x w a Hs IH Hc|m a Hs IH Hm|s a Hs IH He].
  - exact (site_app_session gui (mk_world blank_page [] [] [])).
  - apply site_event_session; [by apply Hpage|exact IH].
  - exact (Wiring.session_user _ _ _ _ _ (λ _, w) IH).
  - exact (Wiring.session_user _ _ _ _ _ (λ _, enter (gui_of a) (start m)) IH).
  - exact (Wiring.session_user _ _ _ _ _ (λ _, on_state (λ _, s) (gui_of a)) IH).
Qed.

(** C2: the client refines both of its halves: every run of the page with the
    framework - started by [main], its events found by the dispatcher, its
    methods looked up in the blessed classes - is a session of the framework on
    the page's document, and what its handlers do is a session of the event
    loop, so that all that holds in these sessions holds of it. *)
Theorem site_session `{Browser} ep a :
  page_endpoint ep → site a →
  session ep node_page (gui_of a) ∧
  Wiring.session (site_ops gui) node_root (mk_world blank_page [] [] []) page_view a ∧ at_page a.
Proof.
  intros Hep Hs. destruct (site_steps ep Hep a Hs) as [Ha Hsteps]. split_and!.
  - split; [exact Hep|]. split; [apply node_page_fresh|exact Hsteps].
  - exact (site_wired ep Hep a Hs).
  - exact Ha.
Qed.

(** ** The targets *)

(** The context of a controller of the page, and the element of a target. *)
Definition named_in (l : list context) (identifier : string) : option context :=
  head (filter (λ cx, sc_identifier (cx_scope cx) = identifier) l).
Abbreviation node_contexts := (Router.contexts node_router).
Abbreviation context_named := (named_in node_contexts).
Definition target_elem (t : target) : option elem :=
  cx ← context_named t.1; head (TargetSet.findAllTargets node_document (cx_scope cx) t.2).

(** What the markup makes of an element: the properties of an input. *)
Definition element_of (e : elem) : element :=
  let property a := default "" (getAttribute node_document e a) in
  if decide (tagName node_document e ∈ ["INPUT"; "TEXTAREA"]) then
    mk_element (Some (property "name"))
      (Some (if decide (property "type" = "checkbox") then "on" else property "value")) []
      (hasAttribute node_document e "checked") [] 0 0 ""
  else output [].

Definition no_scope : scope := mk_scope 0 0 "".
Abbreviation scope_named identifier := (default no_scope (cx_scope <$> context_named identifier)).

Lemma named_in_spec l i cx cx' :
  Forall (λ cx, named_in l (sc_identifier (cx_scope cx)) = Some cx) l → named_in l i = Some cx →
  cx' ∈ l ∧ sc_identifier (cx_scope cx') = i ↔ cx' = cx.
Proof.
  rewrite Forall_forall. intros Hnamed Hcx. split.
  - intros [Hin <-]. apply Hnamed in Hin. congruence.
  - intros ->. unfold named_in in Hcx. apply head_Some_elem_of, list_elem_of_filter in Hcx. tauto.
Qed.

Lemma contexts_named :
  Forall (λ cx, context_named (sc_identifier (cx_scope cx)) = Some cx) node_contexts.
Proof. apply (bool_decide_unpack _). vm_compute. exact I. Qed.

Lemma targets_found :
  Forall (λ t, is_Some (context_named t.1) ∧ is_Some (target_elem t) ∧
    TargetSet.findAllTargets node_document (scope_named t.1) t.2 = option_list (target_elem t) ∧
    TargetSet.legacy node_document (scope_named t.1) t.2 = []) all_targets.
Proof. apply (bool_decide_unpack _). vm_compute. exact I. Qed.

Lemma targets_elements :
  (λ t, JMap.get t node_elements) <$> all_targets = (λ t, element_of <$> target_elem t) <$> all_targets.
Proof. vm_compute. reflexivity. Qed.

Lemma targets_distinct : NoDup (target_elem <$> all_targets) ∧ NoDup all_targets.
Proof. split; apply (bool_decide_unpack _); vm_compute; exact I. Qed.

Lemma target_elem_inj t t' :
  t ∈ all_targets → t' ∈ all_targets → target_elem t = target_elem t' → t = t'.
Proof. exact (fmap_inj_at target_elem all_targets t t' (proj1 targets_distinct)). Qed.

Lemma page_contexts {W : Type} (a : App.t (W := Wiring.world PageDom.t W)) :
  at_page a → App.contexts a = node_contexts.
Proof. intros [Hr _]. unfold App.contexts. rewrite Hr. reflexivity. Qed.

Lemma context_named_spec {W : Type} (rt : Runtime W) w i cx cx' :
  context_named i = Some cx →
  cx' ∈ App.contexts (site_app rt w) ∧ sc_identifier (cx_scope cx') = i ↔ cx' = cx.
Proof.
  intros Hcx. destruct (site_started rt w) as (_ & Ha & _). rewrite (page_contexts _ Ha).
  exact (named_in_spec _ _ _ _ contexts_named Hcx).
Qed.

(** C16: the targets of the started page: for each target that a class of
    [main.js] declares, the page has one controller of that identifier, whose
    target getters find exactly one element, without a warning; it is not
    another target, and its markup gives it the name, the value and the state
    with which the sessions start. *)
Theorem page_targets_found {W : Type} (rt : Runtime W) w c name :
  (c, name) ∈ all_targets →
  ∃ cx e,
    (∀ cx', cx' ∈ App.contexts (site_app rt w) ∧ sc_identifier (cx_scope cx') = c ↔ cx' = cx) ∧
    (∀ g, TargetSet.get_target node_document (cx_scope cx) g name = (g, inl e) ∧
          TargetSet.get_targets node_document (cx_scope cx) g name = (g, [e])) ∧
    target_elem (c, name) = Some e ∧
    (∀ t, t ∈ all_targets → target_elem t = Some e → t = (c, name)) ∧
    JMap.get (c, name) node_elements = Some (element_of e).
Proof.
  intros Ht. pose proof targets_found as Hf. rewrite Forall_forall in Hf.
  destruct (Hf _ Ht) as ([cx Hcx] & [e He] & Hfind & Hlegacy). cbn [fst snd] in *.
  rewrite Hcx in Hfind, Hlegacy. cbn [fmap option_fmap option_map default id] in Hfind, Hlegacy.
  rewrite He in Hfind. exists cx, e. split_and!; [| |done| |].
  - intros cx'. by apply context_named_spec.
  - intros g. by apply TargetSet.one_target.
  - intros t Hin Heq. apply target_elem_inj; [done..|]. exact (eq_trans Heq (eq_sym He)).
  - pose proof (fmap_eq_at _ _ _ _ targets_elements Ht) as Hel. cbn beta in Hel. rewrite He in Hel. exact Hel.
Qed.

(** ** Witnesses *)

#[local] Existing Instance node_browser.

(** The page is opened and the button of [unicast] is clicked on, with both
    fields empty. *)
Lemma site_session_witness :
  let a := site_event gui "click" true (ElementTarget 32) client_app in
  session node_endpoint node_page (gui_of a) ∧
  url <$> sent (gui_of a) = ["http://127.0.0.1:4000/socket/address"; "http://127.0.0.1:4000/messaging/routing";
                             "http://127.0.0.1:4000/datasharing/catalog"] ∧
  length (flashes (state (gui_of a))) = 1.
Proof.
  intros a. split; [|split; vm_compute; reflexivity].
  apply (site_session node_endpoint a node_page_endpoint). apply site_happens, site_start.
Defined.

Lemma page_targets_found_witness :
  ∃ cx e, cx ∈ App.contexts (site_app call_log []) ∧
    TargetSet.get_target node_document (cx_scope cx) Guide.new "peer" = (Guide.new, inl e) ∧
    el_name (element_of e) = Some "peer".
Proof.
  assert (("routing", "peer") ∈ all_targets) as Hin by (apply (bool_decide_unpack _); vm_compute; exact I).
  destruct (page_targets_found call_log [] "routing" "peer" Hin) as (cx & e & Hcx & Hg & _ & _ & Hel).
  exists cx, e. split; [by apply Hcx|]. split; [apply Hg|]. injection Hel as <-. reflexivity.
Defined.
